(** * gFlex, two-dimensional flexure (f2d.py): a shallow embedding

    The development follows [src/f2d.py] (class [F2D]).

    Conventions of the embedding.
    - A finite Python/NumPy float is an exact rational ([Qc]); rounding and
      overflow are not modelled.  The IEEE specials that the code uses as
      sentinels ([np.inf], [np.nan]) are kept: [val] is the rationals
      extended with the two infinities and NaN, with NumPy's arithmetic on
      them.
    - A 2-D NumPy array is a list of rows, a 1-D array a list.
    - An instance of [F2D] is its attribute dictionary, a finite map from
      attribute names to dynamically typed values ([pyval]).
    - Methods are commands of a state-and-exception monad [M]; [sys.exit]
      and Python exceptions are the two abnormal results.
    - The analytical (Kelvin function) solver needs square roots, [pi] and
      the Kelvin function and is modelled over the real numbers in
      [Module SAS]. *)

From Stdlib Require Import String QArith Qcanon ZArith Bool Lia List Reals Lra.
Import ListNotations.

Local Open Scope string_scope.
Local Open Scope list_scope.
Local Open Scope Z_scope.

(* ================================================================== *)
(** * Numbers *)

Definition qz (z : Z) : Qc := Q2Qc (inject_Z z).

(** Extended rationals: NumPy float64 up to rounding. *)
Inductive val : Type :=
| Fin (q : Qc)
| PInf
| NInf
| NaN.

Definition vzero : val := Fin (qz 0).

Definition vinf_signed (c : comparison) : val :=
  match c with Gt => PInf | Lt => NInf | Eq => NaN end.

Definition vneg (a : val) : val :=
  match a with
  | Fin q => Fin (- q)%Qc
  | PInf => NInf
  | NInf => PInf
  | NaN => NaN
  end.

Definition vadd (a b : val) : val :=
  match a, b with
  | NaN, _ | _, NaN => NaN
  | Fin x, Fin y => Fin (x + y)%Qc
  | PInf, NInf | NInf, PInf => NaN
  | PInf, _ | _, PInf => PInf
  | NInf, _ | _, NInf => NInf
  end.

Definition vsub (a b : val) : val := vadd a (vneg b).

Definition vmul (a b : val) : val :=
  match a, b with
  | NaN, _ | _, NaN => NaN
  | Fin x, Fin y => Fin (x * y)%Qc
  | Fin x, PInf | PInf, Fin x => vinf_signed (x ?= qz 0)%Qc
  | Fin x, NInf | NInf, Fin x => vinf_signed (qz 0 ?= x)%Qc
  | PInf, PInf | NInf, NInf => PInf
  | PInf, NInf | NInf, PInf => NInf
  end.

(** NumPy division: a zero divisor gives an infinity or NaN, no exception. *)
Definition vdiv (a b : val) : val :=
  match a, b with
  | NaN, _ | _, NaN => NaN
  | Fin x, Fin y =>
      if Qc_eq_dec y (qz 0) then vinf_signed (x ?= qz 0)%Qc else Fin (x / y)%Qc
  | Fin _, _ => vzero
  | PInf, Fin y => match (y ?= qz 0)%Qc with Lt => NInf | _ => PInf end
  | NInf, Fin y => match (y ?= qz 0)%Qc with Lt => PInf | _ => NInf end
  | _, _ => NaN
  end.

Definition isinf (a : val) : bool :=
  match a with PInf | NInf => true | _ => false end.

(** [a != np.inf] *)
Definition ne_inf (a : val) : bool :=
  match a with PInf => false | _ => true end.

Definition val_eq_dec (a b : val) : {a = b} + {a <> b}.
Proof. decide equality. apply Qc_eq_dec. Defined.

Declare Scope val_scope.
Delimit Scope val_scope with val.
Bind Scope val_scope with val.
Infix "+" := vadd : val_scope.
Infix "-" := vsub : val_scope.
Infix "*" := vmul : val_scope.
Infix "/" := vdiv : val_scope.
Notation "- a" := (vneg a) : val_scope.

(** Numeric literals of the source. *)
Definition num (z : Z) : val := Fin (qz z).

(* ================================================================== *)
(** * Arrays *)

Definition vector := list val.
Definition array := list (list val).

Definition nrows (a : array) : nat := length a.
Definition ncols (a : array) : nat := length (hd [] a).

(** [a.shape == (ny, nx)] *)
Definition shaped (ny nx : nat) (a : array) : Prop :=
  length a = ny /\ Forall (fun row => length row = nx) a.

Definition get (a : array) (i j : nat) : val := nth j (nth i a []) NaN.

(** Array comprehension: the [ny] by [nx] array with entry [f i j]. *)
Definition tabulate (ny nx : nat) (f : nat -> nat -> val) : array :=
  map (fun i => map (f i) (seq 0 nx)) (seq 0 ny).

(** Python index normalisation on an axis of length [n]:
    [None] is an [IndexError]. *)
Definition pyidx (n : nat) (k : Z) : option nat :=
  if (0 <=? k) && (k <? Z.of_nat n) then Some (Z.to_nat k)
  else if (k <? 0) && (0 <=? Z.of_nat n + k) then Some (Z.to_nat (Z.of_nat n + k))
  else None.

(** Python slice bounds [start:stop] on an axis of length [n], with
    [None] for an omitted bound: first index and number of elements. *)
Definition clip (n : nat) (k : Z) : nat :=
  Z.to_nat (Z.min (Z.of_nat n) (Z.max 0 (if k <? 0 then Z.of_nat n + k else k))).

Definition pyslice (n : nat) (start stop : option Z) : nat * nat :=
  let lo := match start with Some k => clip n k | None => 0%nat end in
  let hi := match stop with Some k => clip n k | None => n end in
  (lo, (hi - lo)%nat).

(** [a[r0:r1, c0:c1]] *)
Definition slice2 (a : array) (r0 r1 c0 c1 : option Z) : array :=
  let '(rlo, rn) := pyslice (nrows a) r0 r1 in
  let '(clo, cn) := pyslice (ncols a) c0 c1 in
  tabulate rn cn (fun i j => get a (rlo + i) (clo + j)).

(** Elementwise operations, operands of equal shape. *)
Definition amap (f : val -> val) (a : array) : array := map (map f) a.

Definition amap2 (f : val -> val -> val) (a b : array) : array :=
  tabulate (nrows a) (ncols a) (fun i j => f (get a i j) (get b i j)).

(** [np.ones(shape)], [np.zeros(shape)], [np.nan*np.zeros(shape)] *)
Definition full (ny nx : nat) (v : val) : array := tabulate ny nx (fun _ _ => v).

(** [np.hstack((left, a, right))] with one-column blocks of NaN, and
    [np.vstack] with NaN rows: the padding of [BC_Rigidity]. *)
Definition hstack_nan (a : array) : array :=
  map (fun row => [NaN] ++ row ++ [NaN]) a.

Definition vstack_nan (a : array) : array :=
  let n := ncols a in [repeat NaN n] ++ a ++ [repeat NaN n].

(** [a[:, j] = v], [a[i, :] = v] and [a[i, j] = v] on normalised indices. *)
Definition set_col (a : array) (j : nat) (v : nat -> val) : array :=
  tabulate (nrows a) (ncols a) (fun i c => if Nat.eqb c j then v i else get a i c).

Definition set_row (a : array) (i : nat) (v : nat -> val) : array :=
  tabulate (nrows a) (ncols a) (fun r c => if Nat.eqb r i then v c else get a r c).

Definition set_cell (a : array) (i j : nat) (v : val) : array :=
  tabulate (nrows a) (ncols a)
    (fun r c => if Nat.eqb r i && Nat.eqb c j then v else get a r c).

(** [np.roll(a, k, axis)]: a cyclic shift by [k] along rows (axis 0) or
    columns (axis 1). *)
Definition wrap (n : nat) (k : Z) : nat := Z.to_nat (k mod Z.of_nat n).

Definition roll (a : array) (k : Z) (axis : nat) : array :=
  let ny := nrows a in
  let nx := ncols a in
  match axis with
  | O => tabulate ny nx (fun i j => get a (wrap ny (Z.of_nat i - k)) j)
  | _ => tabulate ny nx (fun i j => get a i (wrap nx (Z.of_nat j - k)))
  end.

(** [np.reshape(a, -1, order='C')] *)
Definition flatten (a : array) : vector := concat a.

(* ================================================================== *)
(** * Sparse matrices in diagonal storage *)

(** [scipy.sparse.spdiags(data, diags, m, n)]: row [d] of [data] is the
    diagonal with offset [nth d dia_offsets]; its element [k] sits in
    column [k], that is at row [k - offset]. *)
Record dia_matrix : Type := mkDia {
  dia_m : nat;
  dia_n : nat;
  dia_offsets : list Z;
  dia_data : list vector
}.

Fixpoint find_diag (off : Z) (offsets : list Z) (data : list vector) : option vector :=
  match offsets, data with
  | o :: offsets', d :: data' =>
      if Z.eqb o off then Some d else find_diag off offsets' data'
  | _, _ => None
  end.

(** The entry [A[i, k]] of the operator. *)
Definition entry (A : dia_matrix) (i k : nat) : val :=
  if (Nat.ltb i (dia_m A) && Nat.ltb k (dia_n A))%bool then
    match find_diag (Z.of_nat k - Z.of_nat i) (dia_offsets A) (dia_data A) with
    | Some d => nth k d vzero
    | None => vzero
    end
  else vzero.

Fixpoint distinct (l : list Z) : bool :=
  match l with
  | [] => true
  | x :: l' => negb (existsb (Z.eqb x) l') && distinct l'
  end.

(** The constructor refuses ([ValueError], here [None]) a number of
    diagonals different from the number of offsets, and repeated offsets. *)
Definition spdiags (data : list vector) (diags : list Z) (m n : nat)
  : option dia_matrix :=
  if Nat.eqb (length data) (length diags) && distinct diags
  then Some (mkDia m n diags data) else None.

(* ================================================================== *)
(** * Python values, the instance and the command monad *)

Inductive pyval : Type :=
| VNone
| VBool (b : bool)
| VInt (z : Z)
| VNum (x : val)                (* float *)
| VStr (s : string)
| VVec (v : vector)             (* 1-D ndarray *)
| VArr (a : array)              (* 2-D ndarray *)
| VStack (d : list vector)      (* the stacked diagonals, [self.diags] *)
| VInts (l : list Z)            (* a list of ints, [self.offsets] *)
| VMat (A : dia_matrix)         (* scipy sparse matrix *)
| VMethod (name : string).      (* a bound method of the instance *)

(** Result of a command: normal, [sys.exit(msg)], or a Python exception. *)
Inductive Res (A : Type) : Type :=
| Ok (a : A)
| Exit (msg : string)
| Raise (exc : string).
Arguments Ok {A} a.
Arguments Exit {A} msg.
Arguments Raise {A} exc.

(** The attribute dictionary of the instance. *)
Definition dict := string -> option pyval.

Definition empty : dict := fun _ => None.
Definition insert (k : string) (v : pyval) (d : dict) : dict :=
  fun k' => if String.eqb k' k then Some v else d k'.

(** The instance together with what its methods use of the world: lines
    written by [print] (most recent first) and [time.time()] readings. *)
Record State : Type := mkState {
  self : dict;
  stdout : list (list pyval);
  clock : nat -> Qc;
  ticks : nat
}.

Definition M (A : Type) : Type := State -> Res A * State.

Definition ret {A} (a : A) : M A := fun s => (Ok a, s).

Definition bind {A B} (m : M A) (k : A -> M B) : M B :=
  fun s =>
    match m s with
    | (Ok a, s') => k a s'
    | (Exit msg, s') => (Exit msg, s')
    | (Raise exc, s') => (Raise exc, s')
    end.

Notation "x <- c ;; k" := (bind c (fun x => k))
  (at level 61, c at next level, right associativity).
Notation "c ;; k" := (bind c (fun _ => k))
  (at level 61, right associativity).
Notation "' pat <- c ;; k" := (bind c (fun x => match x with pat => k end))
  (at level 61, pat pattern, c at next level, right associativity).

Definition sys_exit {A} (msg : string) : M A := fun s => (Exit msg, s).
Definition raise {A} (exc : string) : M A := fun s => (Raise exc, s).

Definition lift {A} (r : Res A) : M A := fun s => (r, s).

(** The three ways a command changes the state. *)
Definition with_attr (name : string) (v : pyval) (s : State) : State :=
  mkState (insert name v (self s)) (stdout s) (clock s) (ticks s).

Definition with_line (items : list pyval) (s : State) : State :=
  mkState (self s) (items :: stdout s) (clock s) (ticks s).

Definition tick (s : State) : State :=
  mkState (self s) (stdout s) (clock s) (S (ticks s)).

(** [self.name = v] *)
Definition setattr (name : string) (v : pyval) : M unit :=
  fun s => (Ok tt, with_attr name v s).

(** [print item, item, ...] *)
Definition print (items : list pyval) : M unit :=
  fun s => (Ok tt, with_line items s).

(** [time.time()] *)
Definition time_time : M pyval :=
  fun s => (Ok (VNum (Fin (clock s (ticks s)))), tick s).

(** When [b]: the body; otherwise nothing. *)
Definition when (b : bool) (m : M unit) : M unit := if b then m else ret tt.

(* ------------------------------------------------------------------ *)
(** ** Expressions

    An expression reads the instance and yields a value or an exception;
    it does not change the state. *)

Definition Exp : Type := State -> Res pyval.

Definition lit (v : pyval) : Exp := fun _ => Ok v.
Definition flt (z : Z) : Exp := lit (VNum (num z)).
Coercion lit : pyval >-> Exp.
Coercion flt : Z >-> Exp.

(** [self.name] *)
Definition attr (name : string) : Exp :=
  fun s => match self s name with
           | Some v => Ok v
           | None => Raise "AttributeError"
           end.

Definition eval (e : Exp) : M pyval := fun s => (e s, s).

(** [self.name = e] *)
Definition assign (name : string) (e : Exp) : M unit :=
  v <- eval e ;; setattr name v.

Definition ebind (e : Exp) (k : pyval -> Res pyval) : Exp :=
  fun s => match e s with
           | Ok v => k v
           | Exit msg => Exit msg
           | Raise exc => Raise exc
           end.

Definition ebind2 (e1 e2 : Exp) (k : pyval -> pyval -> Res pyval) : Exp :=
  fun s => match e1 s with
           | Ok v1 => match e2 s with
                      | Ok v2 => k v1 v2
                      | Exit msg => Exit msg
                      | Raise exc => Raise exc
                      end
           | Exit msg => Exit msg
           | Raise exc => Raise exc
           end.

Definition same_shape (a b : array) : bool :=
  Nat.eqb (nrows a) (nrows b) && Nat.eqb (ncols a) (ncols b).

Definition vmap2 (f : val -> val -> val) (u v : vector) : vector :=
  map (fun p => f (fst p) (snd p)) (combine u v).

(** Arithmetic of floats and arrays.  A scalar and an array combine
    elementwise; two arrays combine elementwise when their shapes are
    equal (NumPy broadcasts some other shapes; the embedding reports all
    unequal shapes as [ValueError]). *)
Definition py_arith (f : val -> val -> val) (a b : pyval) : Res pyval :=
  match a, b with
  | VNum x, VNum y => Ok (VNum (f x y))
  | VNum x, VVec v => Ok (VVec (map (f x) v))
  | VVec u, VNum y => Ok (VVec (map (fun e => f e y) u))
  | VVec u, VVec v =>
      if Nat.eqb (length u) (length v) then Ok (VVec (vmap2 f u v))
      else Raise "ValueError"
  | VNum x, VArr b => Ok (VArr (amap (f x) b))
  | VArr a, VNum y => Ok (VArr (amap (fun e => f e y) a))
  | VArr a, VArr b =>
      if same_shape a b then Ok (VArr (amap2 f a b)) else Raise "ValueError"
  | _, _ => Raise "TypeError"
  end.

(** Division: between two Python floats a zero divisor raises. *)
Definition py_div (a b : pyval) : Res pyval :=
  match a, b with
  | VNum _, VNum y =>
      if val_eq_dec y vzero then Raise "ZeroDivisionError"
      else py_arith vdiv a b
  | _, _ => py_arith vdiv a b
  end.

Definition py_neg (a : pyval) : Res pyval :=
  match a with
  | VNum x => Ok (VNum (vneg x))
  | VVec v => Ok (VVec (map vneg v))
  | VArr a => Ok (VArr (amap vneg a))
  | _ => Raise "TypeError"
  end.

Fixpoint vpow (x : val) (n : nat) : val :=
  match n with
  | O => num 1
  | S n' => vmul x (vpow x n')
  end.

(** [a ** n] for a literal natural exponent. *)
Definition py_pow (n : nat) (a : pyval) : Res pyval :=
  match a with
  | VNum x => Ok (VNum (vpow x n))
  | VVec v => Ok (VVec (map (fun e => vpow e n) v))
  | VArr a => Ok (VArr (amap (fun e => vpow e n) a))
  | _ => Raise "TypeError"
  end.

Definition eadd (a b : Exp) : Exp := ebind2 a b (py_arith vadd).
Definition esub (a b : Exp) : Exp := ebind2 a b (py_arith vsub).
Definition emul (a b : Exp) : Exp := ebind2 a b (py_arith vmul).
Definition ediv (a b : Exp) : Exp := ebind2 a b py_div.
Definition eneg (a : Exp) : Exp := ebind a py_neg.
Definition epow (a : Exp) (n : nat) : Exp := ebind a (py_pow n).

Declare Scope exp_scope.
Delimit Scope exp_scope with E.
Bind Scope exp_scope with Exp.
Infix "+" := eadd : exp_scope.
Infix "-" := esub : exp_scope.
Infix "*" := emul : exp_scope.
Infix "/" := ediv : exp_scope.
Notation "- a" := (eneg a) : exp_scope.
Notation "a ** n" := (epow a n) (at level 30, right associativity) : exp_scope.

(** [np.inf], [np.nan] *)
Definition np_inf : Exp := lit (VNum PInf).
Definition np_nan : Exp := lit (VNum NaN).

(** [a.shape], for a 2-D array *)
Definition shape_of (v : pyval) : Res (nat * nat) :=
  match v with
  | VArr a => Ok (nrows a, ncols a)
  | _ => Raise "AttributeError"
  end.

(** [np.ones(e.shape)], [np.zeros(e.shape)] *)
Definition np_full (x : val) (e : Exp) : Exp :=
  ebind e (fun v => match shape_of v with
                    | Ok (ny, nx) => Ok (VArr (full ny nx x))
                    | Exit msg => Exit msg
                    | Raise exc => Raise exc
                    end).
Definition np_ones : Exp -> Exp := np_full (num 1).
Definition np_zeros : Exp -> Exp := np_full (num 0).

(** [a.copy()] *)
Definition copy (e : Exp) : Exp :=
  ebind e (fun v => match v with
                    | VArr _ | VVec _ => Ok v
                    | _ => Raise "AttributeError"
                    end).

(** [a[r0:r1, c0:c1]] *)
Definition eslice (e : Exp) (r0 r1 c0 c1 : option Z) : Exp :=
  ebind e (fun v => match v with
                    | VArr a => Ok (VArr (slice2 a r0 r1 c0 c1))
                    | VNum _ | VInt _ | VBool _ | VNone => Raise "TypeError"
                    | _ => Raise "IndexError"
                    end).

(** [a[:, j]], [a[i, :]] and [a[i, j]] *)
Definition column (a : array) (j : nat) : vector := map (fun row => nth j row NaN) a.

Definition col (e : Exp) (j : Z) : Exp :=
  ebind e (fun v => match v with
                    | VArr a => match pyidx (ncols a) j with
                                | Some j' => Ok (VVec (column a j'))
                                | None => Raise "IndexError"
                                end
                    | VNum _ | VInt _ | VBool _ | VNone => Raise "TypeError"
                    | _ => Raise "IndexError"
                    end).

Definition row (e : Exp) (i : Z) : Exp :=
  ebind e (fun v => match v with
                    | VArr a => match pyidx (nrows a) i with
                                | Some i' => Ok (VVec (nth i' a []))
                                | None => Raise "IndexError"
                                end
                    | VNum _ | VInt _ | VBool _ | VNone => Raise "TypeError"
                    | _ => Raise "IndexError"
                    end).

Definition cell (e : Exp) (i j : Z) : Exp :=
  ebind e (fun v => match v with
                    | VArr a => match pyidx (nrows a) i, pyidx (ncols a) j with
                                | Some i', Some j' => Ok (VNum (get a i' j'))
                                | _, _ => Raise "IndexError"
                                end
                    | VNum _ | VInt _ | VBool _ | VNone => Raise "TypeError"
                    | _ => Raise "IndexError"
                    end).

(** [np.roll(e, k, axis)] *)
Definition np_roll (e : Exp) (k : Z) (axis : nat) : Exp :=
  ebind e (fun v => match v with
                    | VArr a => Ok (VArr (roll a k axis))
                    | _ => Raise "TypeError"
                    end).

(** [np.reshape(e, -1, order='C')] *)
Definition np_reshape_flat (e : Exp) : Exp :=
  ebind e (fun v => match v with
                    | VArr a => Ok (VVec (flatten a))
                    | VVec u => Ok (VVec u)
                    | _ => Raise "TypeError"
                    end).

(** Truth value, [x == 'text'] and [x == False]. *)
Definition truthy (v : pyval) : bool :=
  match v with
  | VNone => false
  | VBool b => b
  | VInt z => negb (Z.eqb z 0)
  | VNum x => if val_eq_dec x vzero then false else true
  | VStr s => negb (String.eqb s "")
  | _ => true
  end.

Definition str_eq (v : pyval) (t : string) : bool :=
  match v with VStr s => String.eqb s t | _ => false end.

Definition is_False (v : pyval) : bool :=
  match v with
  | VBool b => negb b
  | VInt z => Z.eqb z 0
  | VNum x => if val_eq_dec x vzero then true else false
  | _ => false
  end.

(** [np.isscalar(x)] and [type(x) == np.ndarray] *)
Definition np_isscalar (v : pyval) : bool :=
  match v with
  | VBool _ | VInt _ | VNum _ | VStr _ => true
  | _ => false
  end.

Definition is_ndarray (v : pyval) : bool :=
  match v with VArr _ | VVec _ => true | _ => false end.

(* ------------------------------------------------------------------ *)
(** ** Statements on array attributes *)

Definition rows_of (v : pyval) (n : nat) : option (nat -> val) :=
  match v with
  | VNum x => Some (fun _ => x)
  | VVec u => if Nat.eqb (length u) n then Some (fun i => nth i u NaN) else None
  | _ => None
  end.

(** [self.name[:, j] = v] *)
Definition store_col (name : string) (j : Z) (v : pyval) : M unit :=
  t <- eval (attr name) ;;
  match t with
  | VArr a =>
      match pyidx (ncols a) j with
      | Some j' =>
          match rows_of v (nrows a) with
          | Some f => setattr name (VArr (set_col a j' f))
          | None => raise "ValueError"
          end
      | None => raise "IndexError"
      end
  | _ => raise "TypeError"
  end.

(** [self.name[i, :] = v] *)
Definition store_row (name : string) (i : Z) (v : pyval) : M unit :=
  t <- eval (attr name) ;;
  match t with
  | VArr a =>
      match pyidx (nrows a) i with
      | Some i' =>
          match rows_of v (ncols a) with
          | Some f => setattr name (VArr (set_row a i' f))
          | None => raise "ValueError"
          end
      | None => raise "IndexError"
      end
  | _ => raise "TypeError"
  end.

(** [self.name[i, j] = v] *)
Definition store_cell (name : string) (i j : Z) (v : pyval) : M unit :=
  t <- eval (attr name) ;;
  match t with
  | VArr a =>
      match pyidx (nrows a) i, pyidx (ncols a) j with
      | Some i', Some j' =>
          match v with
          | VNum x => setattr name (VArr (set_cell a i' j' x))
          | _ => raise "ValueError"
          end
      | _, _ => raise "IndexError"
      end
  | _ => raise "TypeError"
  end.

(** [self.name[:, j] = e]: the right-hand side is evaluated first. *)
Definition set_col_to (name : string) (j : Z) (e : Exp) : M unit :=
  v <- eval e ;; store_col name j v.

Definition set_row_to (name : string) (i : Z) (e : Exp) : M unit :=
  v <- eval e ;; store_row name i v.

(** [self.name[:, j] += e]: the target is read first, then [e]. *)
Definition iadd_col (name : string) (j : Z) (e : Exp) : M unit :=
  old <- eval (col (attr name) j) ;;
  v <- eval e ;;
  r <- lift (py_arith vadd old v) ;;
  store_col name j r.

Definition iadd_row (name : string) (i : Z) (e : Exp) : M unit :=
  old <- eval (row (attr name) i) ;;
  v <- eval e ;;
  r <- lift (py_arith vadd old v) ;;
  store_row name i r.

(** [self.name[i, j] += e] and [self.name[i, j] -= e] *)
Definition iadd_cell (name : string) (i j : Z) (e : Exp) : M unit :=
  old <- eval (cell (attr name) i j) ;;
  v <- eval e ;;
  r <- lift (py_arith vadd old v) ;;
  store_cell name i j r.

Definition isub_cell (name : string) (i j : Z) (e : Exp) : M unit :=
  old <- eval (cell (attr name) i j) ;;
  v <- eval e ;;
  r <- lift (py_arith vsub old v) ;;
  store_cell name i j r.

(** [self.name[i, :][self.name[i, :] != np.inf] = x]: the entries of row
    [i] that are not [+inf] become [x]. *)
Definition set_row_where_ne_inf (name : string) (i : Z) (x : val) : M unit :=
  t <- eval (attr name) ;;
  match t with
  | VArr a =>
      match pyidx (nrows a) i with
      | Some i' =>
          setattr name
            (VArr (set_row a i' (fun c => if ne_inf (get a i' c) then x
                                          else get a i' c)))
      | None => raise "IndexError"
      end
  | _ => raise "TypeError"
  end.

(** [self.name[i, :][self.name[i, :] != np.inf] += x] *)
Definition iadd_row_where_ne_inf (name : string) (i : Z) (x : val) : M unit :=
  t <- eval (attr name) ;;
  match t with
  | VArr a =>
      match pyidx (nrows a) i with
      | Some i' =>
          setattr name
            (VArr (set_row a i' (fun c => if ne_inf (get a i' c)
                                          then vadd (get a i' c) x
                                          else get a i' c)))
      | None => raise "IndexError"
      end
  | _ => raise "TypeError"
  end.

(** [array[np.isinf(array)] = 0] on the array held by an attribute. *)
Definition sweep (a : array) : array :=
  amap (fun x => if isinf x then vzero else x) a.

Definition sweep_inf (name : string) : M unit :=
  t <- eval (attr name) ;;
  match t with
  | VArr a => setattr name (VArr (sweep a))
  | _ => raise "TypeError"
  end.

(** Conditions: [self.name == 'label'], with Python's short-circuit
    [and] / [or]. *)
Definition is_ (name label : string) : M bool :=
  v <- eval (attr name) ;; ret (str_eq v label).

Definition orM (a b : M bool) : M bool :=
  x <- a ;; if x then ret true else b.

Definition andM (a b : M bool) : M bool :=
  x <- a ;; if x then b else ret false.

Definition ifM {A} (c : M bool) (t e : M A) : M A :=
  x <- c ;; if x then t else e.

Notation "'If' c 'then' t 'else' e" := (ifM c t e)
  (at level 10, c at level 100, t at level 200, e at level 200).
Notation "a 'orelse' b" := (orM a b) (at level 85, right associativity).
Notation "a 'andalso' b" := (andM a b) (at level 80, right associativity).

(** [if c: body] *)
Definition whenM (c : M bool) (body : M unit) : M unit := ifM c body (ret tt).

(** [if self.flag: print ...] *)
Definition flag (name : string) : M bool :=
  v <- eval (attr name) ;; ret (truthy v).

(* ================================================================== *)
(** * Finite differences: preparation and rigidity boundary conditions *)

(** [F2D.elasprep] *)
Definition elasprep : M unit :=
  assign "dx4" (attr "dx" ** 4) ;;
  assign "dy4" (attr "dy" ** 4) ;;
  assign "dx2dy2" (attr "dx" ** 2 * attr "dy" ** 2) ;;
  assign "D" (attr "E" * attr "Te" ** 3 / (12 * (1 - attr "nu" ** 2))).

(** One of the four selections at the head of [BC_Rigidity]:
    [(self.BC_W == np.array([...])).any()] is membership in the list. *)
Definition select_rigidity_BC (bc target : string) : M unit :=
  If is_ bc "Periodic" then
    setattr target (VStr "periodic")
  else If is_ bc "Dirichlet0" orelse is_ bc "0Moment0Shear" orelse is_ bc "0Slope0Shear" then
    setattr target (VStr "0 curvature")
  else If is_ bc "Mirror" then
    setattr target (VStr "mirror symmetry")
  else
    sys_exit "Invalid Te B.C. case".

(** [np.hstack] and [np.vstack] of an array between NaN borders. *)
Definition pad_nan (e : Exp) : Exp :=
  ebind e (fun v => match v with
                    | VArr a => Ok (VArr (vstack_nan (hstack_nan a)))
                    | _ => Raise "AttributeError"
                    end).

(** [F2D.BC_Rigidity] *)
Definition BC_Rigidity : M unit :=
  select_rigidity_BC "BC_W" "BC_Rigidity_W" ;;
  select_rigidity_BC "BC_E" "BC_Rigidity_E" ;;
  select_rigidity_BC "BC_N" "BC_Rigidity_N" ;;
  select_rigidity_BC "BC_S" "BC_Rigidity_S" ;;
  (* pad array *)
  Te <- eval (attr "Te") ;;
  (if np_isscalar Te then
     assign "D" (attr "D" * np_ones (attr "q0"))
   else
     assign "Te_unpadded" (copy (attr "Te")) ;;
     assign "Te" (pad_nan (attr "Te")) ;;
     assign "D" (pad_nan (attr "D"))) ;;
  (* apply the rigidity boundary conditions to the padded array *)
  whenM (is_ "BC_Rigidity_W" "0 curvature")
    (set_col_to "D" 0 (2 * col (attr "D") 1 - col (attr "D") 2)) ;;
  whenM (is_ "BC_Rigidity_E" "0 curvature")
    (set_col_to "D" (-1) (2 * col (attr "D") (-2) - col (attr "D") (-3))) ;;
  whenM (is_ "BC_Rigidity_N" "0 curvature")
    (set_row_to "D" 0 (2 * row (attr "D") 1 - row (attr "D") 2)) ;;
  whenM (is_ "BC_Rigidity_S" "0 curvature")
    (set_row_to "D" (-1) (2 * row (attr "D") (-2) - row (attr "D") (-3))) ;;
  whenM (is_ "BC_Rigidity_W" "mirror symmetry")
    (set_col_to "D" 0 (col (attr "D") 2)) ;;
  whenM (is_ "BC_Rigidity_E" "mirror symmetry")
    (set_col_to "D" (-1) (col (attr "D") (-3))) ;;
  whenM (is_ "BC_Rigidity_N" "mirror symmetry")
    (set_row_to "D" 0 (row (attr "D") 2)) ;;
  whenM (is_ "BC_Rigidity_S" "mirror symmetry")
    (set_row_to "D" (-1) (row (attr "D") (-3))) ;;
  whenM (is_ "BC_Rigidity_W" "periodic")
    (set_col_to "D" 0 (col (attr "D") (-2))) ;;
  whenM (is_ "BC_Rigidity_E" "periodic")
    (set_col_to "D" (-1) (col (attr "D") (-3))) ;;
  whenM (is_ "BC_Rigidity_N" "periodic")
    (set_row_to "D" 0 (row (attr "D") (-2))) ;;
  whenM (is_ "BC_Rigidity_S" "periodic")
    (set_row_to "D" (-1) (row (attr "D") (-3))).

(* ================================================================== *)
(** * The thirteen stencil coefficients *)

(** The coefficient attributes, in the order of [coeff_array_list].
    [cjAiB] multiplies the deflection at column offset [A] (x) and row
    offset [B] (y); [_2] reads "minus two". *)
Definition coeff_array_list : list string :=
  ["cj_2i0"; "cj_1i0"; "cj1i0"; "cj2i0"; "cj0i_2"; "cj0i_1"; "cj0i1"; "cj0i2";
   "cj_1i_1"; "cj_1i1"; "cj1i_1"; "cj1i1"; "cj0i0"].

Definition coeff_ij (name : string) : string := name ++ "_coeff_ij".

(** A sequence of statements, one per name. *)
Fixpoint for_each (names : list string) (body : string -> M unit) : M unit :=
  match names with
  | [] => ret tt
  | x :: rest => body x ;; for_each rest body
  end.

(** [get_coeff_values], scalar [Te]: "so much simpler with constant D!
    And symmetrical stencil". *)
Definition uniform_stencil (D drho dx4 dy4 dx2dy2 g : pyval) : M unit :=
  assign "cj2i0" (D / dy4) ;;
  assign "cj1i_1" (2 * D / dx2dy2) ;;
  assign "cj1i0" (-4 * D / dy4 - 4 * D / dx2dy2) ;;
  assign "cj1i1" (2 * D / dx2dy2) ;;
  assign "cj0i_2" (D / dx4) ;;
  assign "cj0i_1" (-4 * D / dx4 - 4 * D / dx2dy2) ;;
  assign "cj0i0" (6 * D / dx4 + 6 * D / dy4 + 8 * D / dx2dy2 + drho * g) ;;
  assign "cj0i1" (-4 * D / dx4 - 4 * D / dx2dy2) ;;
  assign "cj0i2" (D / dx4) ;;
  assign "cj_1i_1" (2 * D / dx2dy2) ;;
  assign "cj_1i0" (-4 * D / dy4 - 4 * D / dx2dy2) ;;
  assign "cj_1i1" (2 * D / dx2dy2) ;;
  assign "cj_2i0" (D / dy4) ;;
  (* bring up to size *)
  for_each ["cj2i0"; "cj1i_1"; "cj1i0"; "cj1i1"; "cj0i_2"; "cj0i_1"; "cj0i0";
            "cj0i1"; "cj0i2"; "cj_1i_1"; "cj_1i0"; "cj_1i1"; "cj_2i0"]
    (fun c => assign c (attr c * np_ones (attr "q0"))) ;;
  (* coefficient arrays to manage boundary conditions *)
  for_each ["cj2i0"; "cj1i_1"; "cj1i0"; "cj1i1"; "cj0i_2"; "cj0i_1"; "cj0i0";
            "cj0i1"; "cj0i2"; "cj_1i_1"; "cj_1i0"; "cj_1i1"; "cj_2i0"]
    (fun c => assign (coeff_ij c) (copy (attr c))).

(** [get_coeff_values], [PlateSolutionType == 'vWC1994']: van Wees and
    Cloetingh (1994), central differences to second order. *)
Definition stencil_vWC1994 (D0 Dx Dy Dxx Dyy Dxy drho dx4 dy4 dx2dy2 nu g : pyval)
  : M unit :=
  (* x = -2, y = 0 *)
  assign "cj_2i0_coeff_ij" ((D0 - Dx) / dx4) ;;
  (* x = 0, y = -2 *)
  assign "cj0i_2_coeff_ij" ((D0 - Dy) / dy4) ;;
  (* x = 0, y = 2 *)
  assign "cj0i2_coeff_ij" ((D0 + Dy) / dy4) ;;
  (* x = 2, y = 0 *)
  assign "cj2i0_coeff_ij" ((D0 + Dx) / dx4) ;;
  (* x = -1, y = -1 *)
  assign "cj_1i_1_coeff_ij" ((2 * D0 - Dx - Dy + Dxy * (1 - nu) / 2) / dx2dy2) ;;
  (* x = -1, y = 1 *)
  assign "cj_1i1_coeff_ij" ((2 * D0 - Dx + Dy - Dxy * (1 - nu) / 2) / dx2dy2) ;;
  (* x = 1, y = -1 *)
  assign "cj1i_1_coeff_ij" ((2 * D0 + Dx - Dy - Dxy * (1 - nu) / 2) / dx2dy2) ;;
  (* x = 1, y = 1 *)
  assign "cj1i1_coeff_ij" ((2 * D0 + Dx + Dy + Dxy * (1 - nu) / 2) / dx2dy2) ;;
  (* x = -1, y = 0 *)
  assign "cj_1i0_coeff_ij"
    ((-4 * D0 + 2 * Dx + Dxx) / dx4 + (-4 * D0 + 2 * Dx + nu * Dyy) / dx2dy2) ;;
  (* x = 0, y = -1 *)
  assign "cj0i_1_coeff_ij"
    ((-4 * D0 + 2 * Dy + Dyy) / dy4 + (-4 * D0 + 2 * Dy + nu * Dxx) / dx2dy2) ;;
  (* x = 0, y = 1 *)
  assign "cj0i1_coeff_ij"
    ((-4 * D0 - 2 * Dy + Dyy) / dy4 + (-4 * D0 - 2 * Dy + nu * Dxx) / dx2dy2) ;;
  (* x = 1, y = 0 *)
  assign "cj1i0_coeff_ij"
    ((-4 * D0 - 2 * Dx + Dxx) / dx4 + (-4 * D0 - 2 * Dx + nu * Dyy) / dx2dy2) ;;
  (* x = 0, y = 0 *)
  assign "cj0i0_coeff_ij"
    ((6 * D0 - 2 * Dxx) / dx4
     + (6 * D0 - 2 * Dyy) / dy4
     + (8 * D0 - 2 * nu * Dxx - 2 * nu * Dyy) / dx2dy2
     + drho * g).

(** [get_coeff_values], [PlateSolutionType == 'LinearTeVariationsOnly']:
    the branch opens with [sys.exit]; the statements after it are never
    reached. *)
Definition stencil_LinearTeVariationsOnly (D0 Dxx Dyy drho dx4 dy4 dx2dy2 g : pyval)
  : M unit :=
  @sys_exit unit "CHECK LATER PARTS OF SOLUTION: NOT SURE IF THEY ARE RIGHT" ;;
  (* x = -2, y = 0 *)
  assign "cj_2i0_coeff_ij" (D0 / dx4) ;;
  (* x = 0, y = -2 *)
  assign "cj0i_2_coeff_ij" (D0 / dy4) ;;
  (* x = 0, y = 2 *)
  assign "cj0i2_coeff_ij" (D0 / dy4) ;;
  (* x = 2, y = 0 *)
  assign "cj2i0_coeff_ij" (D0 / dx4) ;;
  (* x = -1, y = -1 *)
  assign "cj_1i_1_coeff_ij" (2 * D0 / dx2dy2) ;;
  (* x = -1, y = 1 *)
  assign "cj_1i1_coeff_ij" (2 * D0 / dx2dy2) ;;
  (* x = 1, y = -1 *)
  assign "cj1i_1_coeff_ij" (2 * D0 / dx2dy2) ;;
  (* x = 1, y = 1 *)
  assign "cj1i1_coeff_ij" (2 * D0 / dx2dy2) ;;
  (* x = -1, y = 0 *)
  assign "cj_1i0_coeff_ij" ((-4 * D0 + Dxx) / dx4 + (-4 * D0 + Dyy) / dx2dy2) ;;
  (* x = 0, y = -1 *)
  assign "cj0i_1_coeff_ij" ((-4 * D0 + Dyy) / dx4 + (-4 * D0 + Dxx) / dx2dy2) ;;
  (* x = 0, y = 1 *)
  assign "cj0i1_coeff_ij" ((-4 * D0 + Dyy) / dx4 + (-4 * D0 + Dxx) / dx2dy2) ;;
  (* x = 1, y = 0 *)
  assign "cj1i0_coeff_ij" ((-4 * D0 + Dxx) / dx4 + (-4 * D0 + Dyy) / dx2dy2) ;;
  (* x = 0, y = 0 *)
  assign "cj0i0_coeff_ij"
    ((6 * D0 - 2 * Dxx) / dx4
     + (6 * D0 - 2 * Dyy) / dy4
     + (8 * D0 - 2 * Dxx - 2 * Dyy) / dx2dy2
     + drho * g).

(** [get_coeff_values], [PlateSolutionType == 'G2009']: the stencil of
    Govers et al. (2009), first-order differences. *)
Definition stencil_G2009 (D00 D10 D_10 D01 D0_1 drho dx4 dy4 dx2dy2 g : pyval)
  : M unit :=
  (* x = -2, y = 0 *)
  assign "cj_2i0_coeff_ij" (D_10 / dx4) ;;
  (* x = -1, y = -1 *)
  assign "cj_1i_1_coeff_ij" ((D_10 + D0_1) / dx2dy2) ;;
  (* x = -1, y = 0 *)
  assign "cj_1i0_coeff_ij" (-2 * ((D0_1 + D00) / dx2dy2 + (D00 + D_10) / dx4)) ;;
  (* x = -1, y = 1 *)
  assign "cj_1i1_coeff_ij" ((D_10 + D01) / dx2dy2) ;;
  (* x = 0, y = -2 *)
  assign "cj0i_2_coeff_ij" (D0_1 / dy4) ;;
  (* x = 0, y = -1 *)
  assign "cj0i_1_coeff_ij" (-2 * ((D0_1 + D00) / dx2dy2 + (D00 + D0_1) / dy4)) ;;
  (* x = 0, y = 0 *)
  assign "cj0i0_coeff_ij"
    ((D10 + 4 * D00 + D_10) / dx4 + (D01 + 4 * D00 + D0_1) / dy4
     + (8 * D00 / dx2dy2) + drho * g) ;;
  (* x = 0, y = 1 *)
  assign "cj0i1_coeff_ij" (-2 * ((D01 + D00) / dy4 + (D00 + D01) / dx2dy2)) ;;
  (* x = 0, y = 2 *)
  assign "cj0i2_coeff_ij" (D0_1 / dy4) ;;
  (* x = 1, y = -1 *)
  assign "cj1i_1_coeff_ij" ((D10 + D0_1) / dx2dy2) ;;
  (* x = 1, y = 0 *)
  assign "cj1i0_coeff_ij" (-2 * ((D10 + D00) / dx4 + (D10 + D00) / dx2dy2)) ;;
  (* x = 1, y = 1 *)
  assign "cj1i1_coeff_ij" ((D10 + D01) / dx2dy2) ;;
  (* x = 2, y = 0 *)
  assign "cj2i0_coeff_ij" (D10 / dx4).

(** [get_coeff_values], array [Te]: the neighbours and derivatives of
    [D], then the stencil of the chosen solution type, then the working
    copies. *)
Definition variable_stencil (D drho dx4 dy4 dx2dy2 nu g : pyval) : M unit :=
  D00 <- eval (eslice D (Some 1) (Some (-1)) (Some 1) (Some (-1))) ;;
  D10 <- eval (eslice D (Some 1) (Some (-1)) (Some 2) None) ;;
  D_10 <- eval (eslice D (Some 1) (Some (-1)) None (Some (-2))) ;;
  D01 <- eval (eslice D (Some 2) None (Some 1) (Some (-1))) ;;
  D0_1 <- eval (eslice D None (Some (-2)) (Some 1) (Some (-1))) ;;
  D11 <- eval (eslice D (Some 2) None (Some 2) None) ;;
  D_11 <- eval (eslice D (Some 2) None None (Some (-2))) ;;
  D1_1 <- eval (eslice D None (Some (-2)) (Some 2) None) ;;
  D_1_1 <- eval (eslice D None (Some (-2)) None (Some (-2))) ;;
  (* derivatives of D, not including /(dx^a dy^b) *)
  let D0 := D00 in
  Dx <- eval ((- D_10 + D10) / 2) ;;
  Dy <- eval ((- D0_1 + D01) / 2) ;;
  Dxx <- eval (D_10 - 2 * D00 + D10) ;;
  Dyy <- eval (D0_1 - 2 * D00 + D01) ;;
  Dxy <- eval ((D_1_1 - D_11 - D1_1 + D11) / 4) ;;
  (If is_ "PlateSolutionType" "vWC1994" then
     stencil_vWC1994 D0 Dx Dy Dxx Dyy Dxy drho dx4 dy4 dx2dy2 nu g
   else If is_ "PlateSolutionType" "LinearTeVariationsOnly" then
     stencil_LinearTeVariationsOnly D0 Dxx Dyy drho dx4 dy4 dx2dy2 g
   else If is_ "PlateSolutionType" "G2009" then
     stencil_G2009 D00 D10 D_10 D01 D0_1 drho dx4 dy4 dx2dy2 g
   else
     sys_exit "Not an acceptable plate solution type. Please choose from:
* vWC1994
* LinearTeVariationsOnly
* G2009
") ;;
  (* coefficient arrays, plain, with no boundary conditions yet applied *)
  for_each ["cj_2i0"; "cj_1i_1"; "cj_1i0"; "cj_1i1"; "cj0i_2"; "cj0i_1"; "cj0i0";
            "cj0i1"; "cj0i2"; "cj1i_1"; "cj1i0"; "cj1i1"; "cj2i0"]
    (fun c => assign c (copy (attr (coeff_ij c)))).

(** [F2D.get_coeff_values] *)
Definition get_coeff_values : M unit :=
  D <- eval (attr "D") ;;
  drho <- eval (attr "drho") ;;
  dx4 <- eval (attr "dx4") ;;
  dy4 <- eval (attr "dy4") ;;
  dx2dy2 <- eval (attr "dx2dy2") ;;
  nu <- eval (attr "nu") ;;
  g <- eval (attr "g") ;;
  Te <- eval (attr "Te") ;;
  (if np_isscalar Te then uniform_stencil D drho dx4 dy4 dx2dy2 g
   else if is_ndarray Te then variable_stencil D drho dx4 dy4 dx2dy2 nu g
   else ret tt) ;;
  (* rows and columns of the 2-D input, for the later functions *)
  cj0i0 <- eval (attr "cj0i0") ;;
  shape <- lift (shape_of cj0i0) ;;
  setattr "ncolsx" (VInt (Z.of_nat (snd shape))) ;;
  setattr "nrowsy" (VInt (Z.of_nat (fst shape))).

(* ================================================================== *)
(** * Flexural boundary conditions on the coefficient arrays

    [F2D.BC_Flexure] is one long method; it is cut here at its four
    section banners (West, East, North, South) and at the corner section.
    Infinity flags the places where a coefficient must become 0; it is
    changed into 0 later, in [build_diags]. *)

(** [BC_Flexure], coefficients to W_j-2 -- W_j+2 with the boundary
    condition of the West edge applied (columns 0 and 1). *)
Definition BC_Flexure_W : M unit :=
  (If is_ "BC_W" "Periodic" then (
     (If is_ "BC_E" "Periodic" then (
        assign "cj_1i1_Periodic_right" (np_zeros (attr "q0")) ;;
        assign "cj_2i0_Periodic_right" (np_zeros (attr "q0")) ;;
        (* j = 0 *)
        set_col_to "cj_1i1_Periodic_right" 0 (col (attr "cj_1i_1") 0) ;;
        set_col_to "cj_2i0_Periodic_right" 0 (col (attr "cj_2i0") 0) ;;
        (* j = 1 *)
        set_col_to "cj_2i0_Periodic_right" 1 (col (attr "cj_2i0") 1) ;;
        (* j = 0 *)
        set_col_to "cj_1i1" 0 (col (attr "cj_1i0") 0) ;;
        set_col_to "cj_1i0" 0 (col (attr "cj_1i_1") 0) ;;
        (* j = 0 *)
        iadd_col "cj_2i0" 0 np_inf ;;
        iadd_col "cj_1i_1" 0 np_inf ;;
        (* j = 1 *)
        iadd_col "cj_2i0" 1 np_inf)
      else (
        sys_exit "Not physical to have one wrap-around boundary but not its pair.")))
   else If is_ "BC_W" "Dirichlet0" then (
     (* j = 0 *)
     iadd_col "cj_2i0" 0 np_inf ;;
     iadd_col "cj_1i_1" 0 np_inf ;;
     iadd_col "cj_1i0" 0 np_inf ;;
     iadd_col "cj_1i1" 0 np_inf ;;
     iadd_col "cj0i_2" 0 0 ;;
     iadd_col "cj0i_1" 0 0 ;;
     iadd_col "cj0i0" 0 0 ;;
     iadd_col "cj0i1" 0 0 ;;
     iadd_col "cj0i2" 0 0 ;;
     iadd_col "cj1i_1" 0 0 ;;
     iadd_col "cj1i0" 0 0 ;;
     iadd_col "cj1i1" 0 0 ;;
     iadd_col "cj2i0" 0 0 ;;
     (* j = 1 *)
     iadd_col "cj_2i0" 1 np_inf ;;
     iadd_col "cj_1i_1" 1 0 ;;
     iadd_col "cj_1i0" 1 0 ;;
     iadd_col "cj_1i1" 1 0 ;;
     iadd_col "cj0i_2" 1 0 ;;
     iadd_col "cj0i_1" 1 0 ;;
     iadd_col "cj0i0" 1 0 ;;
     iadd_col "cj0i1" 1 0 ;;
     iadd_col "cj0i2" 1 0 ;;
     iadd_col "cj1i_1" 1 0 ;;
     iadd_col "cj1i0" 1 0 ;;
     iadd_col "cj1i1" 1 0 ;;
     iadd_col "cj2i0" 1 0)
   else If is_ "BC_W" "0Moment0Shear" then (
     (* j = 0 *)
     iadd_col "cj_2i0" 0 np_inf ;;
     iadd_col "cj_1i_1" 0 np_inf ;;
     iadd_col "cj_1i0" 0 np_inf ;;
     iadd_col "cj_1i1" 0 np_inf ;;
     iadd_col "cj0i_2" 0 0 ;;
     iadd_col "cj0i_1" 0 (2 * col (attr "cj_1i_1_coeff_ij") 0) ;;
     iadd_col "cj0i0" 0 (4 * col (attr "cj_2i0_coeff_ij") 0 + 2 * col (attr "cj_1i0_coeff_ij") 0) ;;
     iadd_col "cj0i1" 0 (2 * col (attr "cj_1i1_coeff_ij") 0) ;;
     iadd_col "cj0i2" 0 0 ;;
     iadd_col "cj1i_1" 0 (- col (attr "cj_1i_1_coeff_ij") 0) ;;
     iadd_col "cj1i0" 0 (-4 * col (attr "cj_2i0_coeff_ij") 0 - col (attr "cj_1i0_coeff_ij") 0) ;;
     iadd_col "cj1i1" 0 (- col (attr "cj_1i1_coeff_ij") 0) ;;
     iadd_col "cj2i0" 0 (col (attr "cj_2i0_coeff_ij") 0) ;;
     (* j = 1 *)
     iadd_col "cj_2i0" 1 np_inf ;;
     iadd_col "cj_1i_1" 1 0 ;;
     iadd_col "cj_1i0" 1 (2 * col (attr "cj_2i0_coeff_ij") 1) ;;
     iadd_col "cj_1i1" 1 0 ;;
     iadd_col "cj0i_2" 1 0 ;;
     iadd_col "cj0i_1" 1 0 ;;
     iadd_col "cj0i0" 1 0 ;;
     iadd_col "cj0i1" 1 0 ;;
     iadd_col "cj0i2" 1 0 ;;
     iadd_col "cj1i_1" 1 0 ;;
     iadd_col "cj1i0" 1 (-2 * col (attr "cj_2i0_coeff_ij") 1) ;;
     iadd_col "cj1i1" 1 0 ;;
     iadd_col "cj2i0" 1 (col (attr "cj_2i0_coeff_ij") 1))
   else If is_ "BC_W" "0Slope0Shear" then (
     (* j = 0 *)
     iadd_col "cj_2i0" 0 np_inf ;;
     iadd_col "cj_1i_1" 0 np_inf ;;
     iadd_col "cj_1i0" 0 np_inf ;;
     iadd_col "cj_1i1" 0 np_inf ;;
     iadd_col "cj0i_2" 0 0 ;;
     iadd_col "cj0i_1" 0 0 ;;
     iadd_col "cj0i0" 0 0 ;;
     iadd_col "cj0i1" 0 0 ;;
     iadd_col "cj0i2" 0 0 ;;
     iadd_col "cj1i_1" 0 (col (attr "cj_1i_1_coeff_ij") 0) ;;
     iadd_col "cj1i0" 0 (col (attr "cj_1i0_coeff_ij") 0) ;;
     iadd_col "cj1i1" 0 (col (attr "cj_1i1_coeff_ij") 0) ;;
     iadd_col "cj2i0" 0 (col (attr "cj_2i0_coeff_ij") 0) ;;
     (* j = 1 *)
     iadd_col "cj_2i0" 1 np_inf ;;
     iadd_col "cj_1i_1" 1 0 ;;
     iadd_col "cj_1i0" 1 0 ;;
     iadd_col "cj_1i1" 1 0 ;;
     iadd_col "cj0i_2" 1 0 ;;
     iadd_col "cj0i_1" 1 0 ;;
     iadd_col "cj0i0" 1 0 ;;
     iadd_col "cj0i1" 1 0 ;;
     iadd_col "cj0i2" 1 0 ;;
     iadd_col "cj1i_1" 1 0 ;;
     iadd_col "cj1i0" 1 0 ;;
     iadd_col "cj1i1" 1 0 ;;
     iadd_col "cj2i0" 1 (col (attr "cj_2i0_coeff_ij") 1))
   else If is_ "BC_W" "Mirror" then (
     (* j = 0 *)
     iadd_col "cj_2i0" 0 np_inf ;;
     iadd_col "cj_1i_1" 0 np_inf ;;
     iadd_col "cj_1i0" 0 np_inf ;;
     iadd_col "cj_1i1" 0 np_inf ;;
     iadd_col "cj0i_2" 0 0 ;;
     iadd_col "cj0i_1" 0 0 ;;
     iadd_col "cj0i0" 0 0 ;;
     iadd_col "cj0i1" 0 0 ;;
     iadd_col "cj0i2" 0 0 ;;
     iadd_col "cj1i_1" 0 (col (attr "cj_1i_1_coeff_ij") 0) ;;
     iadd_col "cj1i0" 0 (col (attr "cj_1i0_coeff_ij") 0) ;;
     iadd_col "cj1i1" 0 (col (attr "cj_1i1_coeff_ij") 0) ;;
     iadd_col "cj2i0" 0 (col (attr "cj_2i0_coeff_ij") 0) ;;
     (* j = 1 *)
     iadd_col "cj_2i0" 1 np_inf ;;
     iadd_col "cj_1i_1" 1 0 ;;
     iadd_col "cj_1i0" 1 0 ;;
     iadd_col "cj_1i1" 1 0 ;;
     iadd_col "cj0i_2" 1 0 ;;
     iadd_col "cj0i_1" 1 0 ;;
     iadd_col "cj0i0" 1 (col (attr "cj_2i0_coeff_ij") 1) ;;
     iadd_col "cj0i1" 1 0 ;;
     iadd_col "cj0i2" 1 0 ;;
     iadd_col "cj1i_1" 1 0 ;;
     iadd_col "cj1i0" 1 0 ;;
     iadd_col "cj1i1" 1 0 ;;
     iadd_col "cj2i0" 1 0)
   else (
     sys_exit "Invalid boundary condition")).

(** The East edge (columns -1 and -2). *)
Definition BC_Flexure_E : M unit :=
  (If is_ "BC_E" "Periodic" then (
     (If is_ "BC_W" "Periodic" then (
        assign "cj1i_1_Periodic_left" (np_zeros (attr "q0")) ;;
        assign "cj2i0_Periodic_left" (np_zeros (attr "q0")) ;;
        (* j = -1 *)
        set_col_to "cj1i_1_Periodic_left" (-1) (col (attr "cj1i_1") (-1)) ;;
        set_col_to "cj2i0_Periodic_left" (-1) (col (attr "cj2i0") (-1)) ;;
        (* j=-2 *)
        set_col_to "cj2i0_Periodic_left" (-2) (col (attr "cj2i0") (-2)) ;;
        (* j =-1 *)
        set_col_to "cj1i_1" (-1) (col (attr "cj1i0") (-1)) ;;
        set_col_to "cj1i0" (-1) (col (attr "cj1i1") (-1)) ;;
        (* j = -1 *)
        iadd_col "cj1i1" (-1) np_inf ;;
        iadd_col "cj2i0" (-1) np_inf ;;
        (* j = -2 *)
        iadd_col "cj2i0" (-2) np_inf)
      else (
        sys_exit "Not physical to have one wrap-around boundary but not its pair.")))
   else If is_ "BC_E" "Dirichlet0" then (
     (* j = -1 *)
     iadd_col "cj_2i0" (-1) 0 ;;
     iadd_col "cj_1i_1" (-1) 0 ;;
     iadd_col "cj_1i0" (-1) 0 ;;
     iadd_col "cj_1i1" (-1) 0 ;;
     iadd_col "cj0i_2" (-1) 0 ;;
     iadd_col "cj0i_1" (-1) 0 ;;
     iadd_col "cj0i0" (-1) 0 ;;
     iadd_col "cj0i1" (-1) 0 ;;
     iadd_col "cj0i2" (-1) 0 ;;
     iadd_col "cj1i_1" (-1) np_inf ;;
     iadd_col "cj1i0" (-1) np_inf ;;
     iadd_col "cj1i1" (-1) np_inf ;;
     iadd_col "cj2i0" (-1) np_inf ;;
     (* j = -2 *)
     iadd_col "cj_2i0" (-2) 0 ;;
     iadd_col "cj_1i_1" (-2) 0 ;;
     iadd_col "cj_1i0" (-2) 0 ;;
     iadd_col "cj_1i1" (-2) 0 ;;
     iadd_col "cj0i_2" (-2) 0 ;;
     iadd_col "cj0i_1" (-2) 0 ;;
     iadd_col "cj0i0" (-2) 0 ;;
     iadd_col "cj0i1" (-2) 0 ;;
     iadd_col "cj0i2" (-2) 0 ;;
     iadd_col "cj1i_1" (-2) 0 ;;
     iadd_col "cj1i0" (-2) 0 ;;
     iadd_col "cj1i1" (-2) 0 ;;
     iadd_col "cj2i0" (-2) np_inf)
   else If is_ "BC_E" "0Moment0Shear" then (
     (* j = -1 *)
     iadd_col "cj_2i0" (-1) (col (attr "cj2i0_coeff_ij") (-1)) ;;
     iadd_col "cj_1i_1" (-1) (- col (attr "cj1i_1_coeff_ij") (-1)) ;;
     iadd_col "cj_1i0" (-1) (-4 * col (attr "cj2i0_coeff_ij") (-1) - col (attr "cj1i0_coeff_ij") (-1)) ;;
     iadd_col "cj_1i1" (-1) (- col (attr "cj1i1_coeff_ij") (-1)) ;;
     iadd_col "cj0i_2" (-1) 0 ;;
     iadd_col "cj0i_1" (-1) (2 * col (attr "cj1i_1_coeff_ij") (-1)) ;;
     iadd_col "cj0i0" (-1) (4 * col (attr "cj2i0_coeff_ij") (-1) + 2 * col (attr "cj1i0_coeff_ij") (-1)) ;;
     iadd_col "cj0i1" (-1) (2 * col (attr "cj1i1_coeff_ij") (-1)) ;;
     iadd_col "cj0i2" (-1) 0 ;;
     iadd_col "cj1i_1" (-1) np_inf ;;
     iadd_col "cj1i0" (-1) np_inf ;;
     iadd_col "cj1i1" (-1) np_inf ;;
     iadd_col "cj2i0" (-1) np_inf ;;
     (* j = -2 *)
     iadd_col "cj_2i0" (-2) (col (attr "cj2i0_coeff_ij") (-2)) ;;
     iadd_col "cj_1i_1" (-2) 0 ;;
     iadd_col "cj_1i0" (-2) (-2 * col (attr "cj2i0_coeff_ij") (-2)) ;;
     iadd_col "cj_1i1" (-2) 0 ;;
     iadd_col "cj0i_2" (-2) 0 ;;
     iadd_col "cj0i_1" (-2) 0 ;;
     iadd_col "cj0i0" (-2) 0 ;;
     iadd_col "cj0i1" (-2) 0 ;;
     iadd_col "cj0i2" (-2) 0 ;;
     iadd_col "cj1i_1" (-2) 0 ;;
     iadd_col "cj1i0" (-2) (2 * col (attr "cj2i0_coeff_ij") (-2)) ;;
     iadd_col "cj1i1" (-2) 0 ;;
     iadd_col "cj2i0" (-2) np_inf)
   else If is_ "BC_E" "0Slope0Shear" then (
     (* j = -1 *)
     iadd_col "cj_2i0" (-1) (col (attr "cj2i0_coeff_ij") (-1)) ;;
     iadd_col "cj_1i_1" (-1) (col (attr "cj1i_1_coeff_ij") (-1)) ;;
     iadd_col "cj_1i0" (-1) (col (attr "cj1i0_coeff_ij") (-1)) ;;
     iadd_col "cj_1i1" (-1) (col (attr "cj1i1_coeff_ij") (-1)) ;;
     iadd_col "cj0i_2" (-1) 0 ;;
     iadd_col "cj0i_1" (-1) 0 ;;
     iadd_col "cj0i0" (-1) 0 ;;
     iadd_col "cj0i1" (-1) 0 ;;
     iadd_col "cj0i2" (-1) 0 ;;
     iadd_col "cj1i_1" (-1) np_inf ;;
     iadd_col "cj1i0" (-1) np_inf ;;
     iadd_col "cj1i1" (-1) np_inf ;;
     iadd_col "cj2i0" (-1) np_inf ;;
     (* j = -2 *)
     iadd_col "cj_2i0" (-2) (col (attr "cj2i0_coeff_ij") (-2)) ;;
     iadd_col "cj_1i_1" (-2) 0 ;;
     iadd_col "cj_1i0" (-2) 0 ;;
     iadd_col "cj_1i1" (-2) 0 ;;
     iadd_col "cj0i_2" (-2) 0 ;;
     iadd_col "cj0i_1" (-2) 0 ;;
     iadd_col "cj0i0" (-2) 0 ;;
     iadd_col "cj0i1" (-2) 0 ;;
     iadd_col "cj0i2" (-2) 0 ;;
     iadd_col "cj1i_1" (-2) 0 ;;
     iadd_col "cj1i0" (-2) 0 ;;
     iadd_col "cj1i1" (-2) 0 ;;
     iadd_col "cj2i0" (-2) np_inf)
   else If is_ "BC_E" "Mirror" then (
     (* j = -1 *)
     iadd_col "cj_2i0" (-1) (col (attr "cj2i0_coeff_ij") (-1)) ;;
     iadd_col "cj_1i_1" (-1) (col (attr "cj1i_1_coeff_ij") (-1)) ;;
     iadd_col "cj_1i0" (-1) (col (attr "cj1i0_coeff_ij") (-1)) ;;
     iadd_col "cj_1i1" (-1) (col (attr "cj1i1_coeff_ij") (-1)) ;;
     iadd_col "cj0i_2" (-1) 0 ;;
     iadd_col "cj0i_1" (-1) 0 ;;
     iadd_col "cj0i0" (-1) 0 ;;
     iadd_col "cj0i1" (-1) 0 ;;
     iadd_col "cj0i2" (-1) 0 ;;
     iadd_col "cj1i_1" (-1) np_inf ;;
     iadd_col "cj1i0" (-1) np_inf ;;
     iadd_col "cj1i1" (-1) np_inf ;;
     iadd_col "cj2i0" (-1) np_inf ;;
     (* j = -2 *)
     iadd_col "cj_2i0" (-2) 0 ;;
     iadd_col "cj_1i_1" (-2) 0 ;;
     iadd_col "cj_1i0" (-2) 0 ;;
     iadd_col "cj_1i1" (-2) 0 ;;
     iadd_col "cj0i_2" (-2) 0 ;;
     iadd_col "cj0i_1" (-2) 0 ;;
     iadd_col "cj0i0" (-2) (col (attr "cj2i0_coeff_ij") (-2)) ;;
     iadd_col "cj0i1" (-2) 0 ;;
     iadd_col "cj0i2" (-2) 0 ;;
     iadd_col "cj1i_1" (-2) 0 ;;
     iadd_col "cj1i0" (-2) 0 ;;
     iadd_col "cj1i1" (-2) 0 ;;
     iadd_col "cj2i0" (-2) np_inf)
   else (
     sys_exit "Invalid boundary condition")).

(** The North edge (rows 0 and 1). *)
Definition BC_Flexure_N : M unit :=
  (If is_ "BC_N" "Periodic" then (
     (If is_ "BC_S" "Periodic" then (
        ret tt)
      else (
        sys_exit "Not physical to have one wrap-around boundary but not its pair.")))
   else If is_ "BC_N" "Dirichlet0" then (
     (* i = 0 *)
     iadd_row "cj_2i0" 0 0 ;;
     set_row_where_ne_inf "cj_1i_1" 0 NaN ;;
     iadd_row "cj_1i0" 0 0 ;;
     iadd_row "cj_1i1" 0 0 ;;
     iadd_row "cj0i_2" 0 0 ;;
     iadd_row "cj0i_1" 0 0 ;;
     iadd_row "cj0i0" 0 0 ;;
     iadd_row "cj0i1" 0 0 ;;
     iadd_row "cj0i2" 0 0 ;;
     iadd_row_where_ne_inf "cj1i_1" 0 (num 0) ;;
     iadd_row "cj1i0" 0 0 ;;
     iadd_row "cj1i1" 0 0 ;;
     iadd_row "cj2i0" 0 0 ;;
     (* i = 1 *)
     iadd_row "cj_2i0" 1 0 ;;
     iadd_row "cj_1i_1" 1 0 ;;
     iadd_row "cj_1i0" 1 0 ;;
     iadd_row "cj_1i1" 1 0 ;;
     iadd_row "cj0i_2" 1 0 ;;
     iadd_row "cj0i_1" 1 0 ;;
     iadd_row "cj0i0" 1 0 ;;
     iadd_row "cj0i1" 1 0 ;;
     iadd_row "cj0i2" 1 0 ;;
     iadd_row "cj1i_1" 1 0 ;;
     iadd_row "cj1i0" 1 0 ;;
     iadd_row "cj1i1" 1 0 ;;
     iadd_row "cj2i0" 1 0)
   else If is_ "BC_N" "0Moment0Shear" then (
     (* i = 0 *)
     iadd_row "cj_2i0" 0 0 ;;
     set_row_where_ne_inf "cj_1i_1" 0 NaN ;;
     iadd_row "cj_1i0" 0 (2 * row (attr "cj_1i_1_coeff_ij") 0) ;;
     iadd_row "cj_1i1" 0 (- row (attr "cj_1i_1_coeff_ij") 0) ;;
     iadd_row "cj0i_2" 0 0 ;;
     iadd_row "cj0i_1" 0 0 ;;
     iadd_row "cj0i0" 0 (4 * row (attr "cj0i_2_coeff_ij") 0 + 2 * row (attr "cj0i_1_coeff_ij") 0) ;;
     iadd_row "cj0i1" 0 (-4 * row (attr "cj0i_2_coeff_ij") 0 - row (attr "cj0i_1_coeff_ij") 0) ;;
     iadd_row "cj0i2" 0 (row (attr "cj0i_2_coeff_ij") 0) ;;
     iadd_row_where_ne_inf "cj1i_1" 0 (num 0) ;;
     iadd_row "cj1i0" 0 (2 * row (attr "cj1i_1_coeff_ij") 0) ;;
     iadd_row "cj1i1" 0 (- row (attr "cj1i_1_coeff_ij") 0) ;;
     iadd_row "cj2i0" 0 0 ;;
     (* i = 1 *)
     iadd_row "cj_2i0" 1 0 ;;
     iadd_row "cj_1i_1" 1 0 ;;
     iadd_row "cj_1i0" 1 0 ;;
     iadd_row "cj_1i1" 1 0 ;;
     iadd_row "cj0i_2" 1 0 ;;
     iadd_row "cj0i_1" 1 (2 * row (attr "cj0i_2_coeff_ij") 1) ;;
     iadd_row "cj0i0" 1 0 ;;
     iadd_row "cj0i1" 1 (-2 * row (attr "cj0i_2_coeff_ij") 1) ;;
     iadd_row "cj0i2" 1 (row (attr "cj0i_2_coeff_ij") 1) ;;
     iadd_row "cj1i_1" 1 0 ;;
     iadd_row "cj1i0" 1 0 ;;
     iadd_row "cj1i1" 1 0 ;;
     iadd_row "cj2i0" 1 0)
   else If is_ "BC_N" "0Slope0Shear" then (
     (* i = 0 *)
     iadd_row "cj_2i0" 0 0 ;;
     set_row_where_ne_inf "cj_1i_1" 0 NaN ;;
     iadd_row "cj_1i0" 0 0 ;;
     iadd_row "cj_1i1" 0 (row (attr "cj_1i_1_coeff_ij") 0) ;;
     iadd_row "cj0i_2" 0 0 ;;
     iadd_row "cj0i_1" 0 0 ;;
     iadd_row "cj0i0" 0 0 ;;
     iadd_row "cj0i1" 0 (row (attr "cj0i_1_coeff_ij") 0) ;;
     iadd_row "cj0i2" 0 (row (attr "cj0i_2_coeff_ij") 0) ;;
     iadd_row_where_ne_inf "cj1i_1" 0 (num 0) ;;
     iadd_row "cj1i0" 0 0 ;;
     iadd_row "cj1i1" 0 (row (attr "cj1i_1_coeff_ij") 0) ;;
     iadd_row "cj2i0" 0 0 ;;
     (* i = 1 *)
     iadd_row "cj_2i0" 1 0 ;;
     iadd_row "cj_1i_1" 1 0 ;;
     iadd_row "cj_1i0" 1 0 ;;
     iadd_row "cj_1i1" 1 0 ;;
     iadd_row "cj0i_2" 1 0 ;;
     iadd_row "cj0i_1" 1 0 ;;
     iadd_row "cj0i0" 1 0 ;;
     iadd_row "cj0i1" 1 0 ;;
     iadd_row "cj0i2" 1 (row (attr "cj0i_2_coeff_ij") 1) ;;
     iadd_row "cj1i_1" 1 0 ;;
     iadd_row "cj1i0" 1 0 ;;
     iadd_row "cj1i1" 1 0 ;;
     iadd_row "cj2i0" 1 0)
   else If is_ "BC_N" "Mirror" then (
     (* i = 0 *)
     iadd_row "cj_2i0" 0 0 ;;
     set_row_where_ne_inf "cj_1i_1" 0 NaN ;;
     iadd_row "cj_1i0" 0 0 ;;
     iadd_row "cj_1i1" 0 (row (attr "cj_1i_1_coeff_ij") 0) ;;
     iadd_row "cj0i_2" 0 0 ;;
     iadd_row "cj0i_1" 0 0 ;;
     iadd_row "cj0i0" 0 0 ;;
     iadd_row "cj0i1" 0 (row (attr "cj0i_1_coeff_ij") 0) ;;
     iadd_row "cj0i2" 0 (row (attr "cj0i_2_coeff_ij") 0) ;;
     iadd_row_where_ne_inf "cj1i_1" 0 (num 0) ;;
     iadd_row "cj1i0" 0 0 ;;
     iadd_row "cj1i1" 0 (row (attr "cj1i_1_coeff_ij") 0) ;;
     iadd_row "cj2i0" 0 0 ;;
     (* i = 1 *)
     iadd_row "cj_2i0" 1 0 ;;
     iadd_row "cj_1i_1" 1 0 ;;
     iadd_row "cj_1i0" 1 0 ;;
     iadd_row "cj_1i1" 1 0 ;;
     iadd_row "cj0i_2" 1 0 ;;
     iadd_row "cj0i_1" 1 0 ;;
     iadd_row "cj0i0" 1 (row (attr "cj0i_2_coeff_ij") 1) ;;
     iadd_row "cj0i1" 1 0 ;;
     iadd_row "cj0i2" 1 0 ;;
     iadd_row "cj1i_1" 1 0 ;;
     iadd_row "cj1i0" 1 0 ;;
     iadd_row "cj1i1" 1 0 ;;
     iadd_row "cj2i0" 1 0)
   else (
     sys_exit "Invalid boundary condition")).

(** The South edge (rows -2 and -1). *)
Definition BC_Flexure_S : M unit :=
  (If is_ "BC_S" "Periodic" then (
     (If is_ "BC_N" "Periodic" then (
        ret tt)
      else (
        sys_exit "Not physical to have one wrap-around boundary but not its pair.")))
   else If is_ "BC_S" "Dirichlet0" then (
     (* i = -2 *)
     iadd_row "cj_2i0" (-2) 0 ;;
     iadd_row "cj_1i_1" (-2) 0 ;;
     iadd_row "cj_1i0" (-2) 0 ;;
     iadd_row "cj_1i1" (-2) 0 ;;
     iadd_row "cj0i_2" (-2) 0 ;;
     iadd_row "cj0i_1" (-2) 0 ;;
     iadd_row "cj0i0" (-2) 0 ;;
     iadd_row "cj0i1" (-2) 0 ;;
     iadd_row "cj0i2" (-2) 0 ;;
     iadd_row "cj1i1" (-2) 0 ;;
     iadd_row "cj1i0" (-2) 0 ;;
     iadd_row "cj1i_1" (-2) 0 ;;
     iadd_row "cj2i0" (-2) 0 ;;
     (* i = -1 *)
     iadd_row "cj_2i0" (-1) 0 ;;
     iadd_row "cj_1i_1" (-1) 0 ;;
     iadd_row "cj_1i0" (-1) 0 ;;
     iadd_row_where_ne_inf "cj_1i1" (-1) (num 0) ;;
     iadd_row "cj0i_2" (-1) 0 ;;
     iadd_row "cj0i_1" (-1) 0 ;;
     iadd_row "cj0i0" (-1) 0 ;;
     iadd_row "cj0i1" (-1) 0 ;;
     iadd_row "cj0i2" (-1) 0 ;;
     iadd_row "cj1i_1" (-1) 0 ;;
     iadd_row "cj1i0" (-1) 0 ;;
     iadd_row_where_ne_inf "cj1i1" (-1) (num 0) ;;
     iadd_row "cj2i0" (-1) 0)
   else If is_ "BC_S" "0Moment0Shear" then (
     (* i = -2 *)
     iadd_row "cj_2i0" (-2) 0 ;;
     iadd_row "cj_1i_1" (-2) 0 ;;
     iadd_row "cj_1i0" (-2) 0 ;;
     iadd_row "cj_1i1" (-2) 0 ;;
     iadd_row "cj0i_2" (-2) (row (attr "cj0i2_coeff_ij") (-2)) ;;
     iadd_row "cj0i_1" (-2) (-2 * row (attr "cj0i2_coeff_ij") (-2)) ;;
     iadd_row "cj0i0" (-2) 0 ;;
     iadd_row "cj0i1" (-2) (2 * row (attr "cj0i2_coeff_ij") (-2)) ;;
     iadd_row "cj0i2" (-2) 0 ;;
     iadd_row "cj1i1" (-2) 0 ;;
     iadd_row "cj1i0" (-2) 0 ;;
     iadd_row "cj1i_1" (-2) 0 ;;
     iadd_row "cj2i0" (-2) 0 ;;
     (* i = -1 *)
     iadd_row "cj_2i0" (-1) 0 ;;
     iadd_row "cj_1i_1" (-1) (- row (attr "cj1i1_coeff_ij") (-1)) ;;
     iadd_row "cj_1i0" (-1) (2 * row (attr "cj1i1_coeff_ij") (-1)) ;;
     iadd_row_where_ne_inf "cj_1i1" (-1) (num 0) ;;
     iadd_row "cj0i_2" (-1) (row (attr "cj0i2_coeff_ij") (-1)) ;;
     iadd_row "cj0i_1" (-1) (-4 * row (attr "cj0i2_coeff_ij") (-1) - row (attr "cj0i1_coeff_ij") (-1)) ;;
     iadd_row "cj0i0" (-1) (4 * row (attr "cj0i2_coeff_ij") (-1) + 2 * row (attr "cj0i1_coeff_ij") (-1)) ;;
     iadd_row "cj0i1" (-1) 0 ;;
     iadd_row "cj0i2" (-1) 0 ;;
     iadd_row "cj1i_1" (-1) (- row (attr "cj_1i1_coeff_ij") (-1)) ;;
     iadd_row "cj1i0" (-1) (2 * row (attr "cj_1i1_coeff_ij") (-1)) ;;
     iadd_row_where_ne_inf "cj1i1" (-1) (num 0) ;;
     iadd_row "cj2i0" (-1) 0)
   else If is_ "BC_S" "0Slope0Shear" then (
     (* i = -2 *)
     iadd_row "cj_2i0" (-2) 0 ;;
     iadd_row "cj_1i_1" (-2) 0 ;;
     iadd_row "cj_1i0" (-2) 0 ;;
     iadd_row "cj_1i1" (-2) 0 ;;
     iadd_row "cj0i_2" (-2) (row (attr "cj0i2_coeff_ij") (-2)) ;;
     iadd_row "cj0i_1" (-2) 0 ;;
     iadd_row "cj0i0" (-2) 0 ;;
     iadd_row "cj0i1" (-2) 0 ;;
     iadd_row "cj0i2" (-2) 0 ;;
     iadd_row "cj1i_1" (-2) 0 ;;
     iadd_row "cj1i0" (-2) 0 ;;
     iadd_row "cj1i1" (-2) 0 ;;
     iadd_row "cj2i0" (-2) 0 ;;
     (* i = -1 *)
     iadd_row "cj_2i0" (-1) 0 ;;
     iadd_row "cj_1i_1" (-1) (row (attr "cj_1i1_coeff_ij") (-1)) ;;
     iadd_row "cj_1i0" (-1) 0 ;;
     iadd_row_where_ne_inf "cj_1i1" (-1) (num 0) ;;
     iadd_row "cj0i_2" (-1) (row (attr "cj0i2_coeff_ij") (-1)) ;;
     iadd_row "cj0i_1" (-1) (row (attr "cj0i1_coeff_ij") (-1)) ;;
     iadd_row "cj0i0" (-1) 0 ;;
     iadd_row "cj0i1" (-1) 0 ;;
     iadd_row "cj0i2" (-1) 0 ;;
     iadd_row "cj1i_1" (-1) (row (attr "cj1i1_coeff_ij") (-1)) ;;
     iadd_row "cj1i0" (-1) 0 ;;
     iadd_row_where_ne_inf "cj1i1" (-1) (num 0) ;;
     iadd_row "cj2i0" (-1) 0)
   else If is_ "BC_S" "Mirror" then (
     (* i = -2 *)
     iadd_row "cj_2i0" (-2) 0 ;;
     iadd_row "cj_1i_1" (-2) 0 ;;
     iadd_row "cj_1i0" (-2) 0 ;;
     iadd_row "cj_1i1" (-2) 0 ;;
     iadd_row "cj0i_2" (-2) 0 ;;
     iadd_row "cj0i_1" (-2) 0 ;;
     iadd_row "cj0i0" (-2) (row (attr "cj0i2_coeff_ij") (-2)) ;;
     iadd_row "cj0i1" (-2) 0 ;;
     iadd_row "cj0i2" (-2) 0 ;;
     iadd_row "cj1i_1" (-2) 0 ;;
     iadd_row "cj1i0" (-2) 0 ;;
     iadd_row "cj1i1" (-2) 0 ;;
     iadd_row "cj2i0" (-2) 0 ;;
     (* i = -1 *)
     iadd_row "cj_2i0" (-1) 0 ;;
     iadd_row "cj_1i_1" (-1) (row (attr "cj_1i1_coeff_ij") (-1)) ;;
     iadd_row "cj_1i0" (-1) 0 ;;
     iadd_row_where_ne_inf "cj_1i1" (-1) (num 0) ;;
     iadd_row "cj0i_2" (-1) (row (attr "cj0i2_coeff_ij") (-1)) ;;
     iadd_row "cj0i_1" (-1) (row (attr "cj0i1_coeff_ij") (-1)) ;;
     iadd_row "cj0i0" (-1) 0 ;;
     iadd_row "cj0i1" (-1) 0 ;;
     iadd_row "cj0i2" (-1) 0 ;;
     iadd_row "cj1i_1" (-1) (row (attr "cj1i1_coeff_ij") (-1)) ;;
     iadd_row "cj1i0" (-1) 0 ;;
     iadd_row_where_ne_inf "cj1i1" (-1) (num 0) ;;
     iadd_row "cj2i0" (-1) 0)
   else (
     sys_exit "Invalid boundary condition")).

(** Corners: interference between the boundary conditions of two edges. *)
Definition BC_Flexure_corners : M unit :=
  whenM ((is_ "BC_N" "0Slope0Shear" orelse is_ "BC_N" "Mirror") andalso (is_ "BC_W" "0Slope0Shear" orelse is_ "BC_W" "Mirror"))
    (
     iadd_cell "cj1i1" 0 0 (cell (attr "cj_1i_1_coeff_ij") 0 0)) ;;
  whenM ((is_ "BC_N" "0Slope0Shear" orelse is_ "BC_N" "Mirror") andalso (is_ "BC_E" "0Slope0Shear" orelse is_ "BC_E" "Mirror"))
    (
     iadd_cell "cj_1i1" 0 (-1) (cell (attr "cj1i_1_coeff_ij") 0 (-1))) ;;
  whenM ((is_ "BC_S" "0Slope0Shear" orelse is_ "BC_S" "Mirror") andalso (is_ "BC_W" "0Slope0Shear" orelse is_ "BC_W" "Mirror"))
    (
     iadd_cell "cj1i_1" (-1) 0 (cell (attr "cj_1i1_coeff_ij") (-1) 0)) ;;
  whenM ((is_ "BC_S" "0Slope0Shear" orelse is_ "BC_S" "Mirror") andalso (is_ "BC_E" "0Slope0Shear" orelse is_ "BC_E" "Mirror"))
    (
     iadd_cell "cj_1i_1" (-1) (-1) (cell (attr "cj1i1_coeff_ij") (-1) (-1))) ;;
  whenM (is_ "BC_N" "0Moment0Shear" andalso is_ "BC_W" "0Moment0Shear")
    (
     iadd_cell "cj0i0" 0 0 (2 * cell (attr "cj_1i_1_coeff_ij") 0 0) ;;
     isub_cell "cj1i1" 0 0 (cell (attr "cj_1i_1_coeff_ij") 0 0)) ;;
  whenM (is_ "BC_N" "0Moment0Shear" andalso is_ "BC_E" "0Moment0Shear")
    (
     iadd_cell "cj0i0" 0 (-1) (2 * cell (attr "cj_1i_1_coeff_ij") 0 (-1)) ;;
     isub_cell "cj_1i1" 0 (-1) (cell (attr "cj1i_1_coeff_ij") 0 (-1))) ;;
  whenM (is_ "BC_S" "0Moment0Shear" andalso is_ "BC_W" "0Moment0Shear")
    (
     iadd_cell "cj0i0" (-1) 0 (2 * cell (attr "cj_1i_1_coeff_ij") (-1) 0) ;;
     isub_cell "cj1i_1" (-1) 0 (cell (attr "cj_1i1_coeff_ij") (-1) 0)) ;;
  whenM (is_ "BC_S" "0Moment0Shear" andalso is_ "BC_E" "0Moment0Shear")
    (
     iadd_cell "cj0i0" (-1) (-1) (2 * cell (attr "cj_1i_1_coeff_ij") (-1) (-1)) ;;
     isub_cell "cj_1i_1" (-1) (-1) (cell (attr "cj1i1_coeff_ij") (-1) (-1))) ;;
  whenM ((is_ "BC_N" "Mirror" andalso is_ "BC_W" "0Moment0Shear") orelse (is_ "BC_W" "Mirror" andalso is_ "BC_N" "0Moment0Shear"))
    (
     iadd_cell "cj1i1" 0 0 (cell (attr "cj_1i_1_coeff_ij") 0 0)) ;;
  whenM ((is_ "BC_N" "Mirror" andalso is_ "BC_E" "0Moment0Shear") orelse (is_ "BC_E" "Mirror" andalso is_ "BC_N" "0Moment0Shear"))
    (
     iadd_cell "cj_1i1" 0 (-1) (cell (attr "cj1i_1_coeff_ij") 0 (-1))) ;;
  whenM ((is_ "BC_S" "Mirror" andalso is_ "BC_W" "0Moment0Shear") orelse (is_ "BC_W" "Mirror" andalso is_ "BC_S" "0Moment0Shear"))
    (
     iadd_cell "cj1i_1" (-1) 0 (cell (attr "cj_1i1_coeff_ij") (-1) 0)) ;;
  whenM ((is_ "BC_S" "Mirror" andalso is_ "BC_E" "0Moment0Shear") orelse (is_ "BC_E" "Mirror" andalso is_ "BC_S" "0Moment0Shear"))
    (
     iadd_cell "cj_1i_1" (-1) (-1) (cell (attr "cj1i1_coeff_ij") (-1) (-1))) ;;
  whenM ((is_ "BC_N" "0Slope0Shear" andalso is_ "BC_W" "0Moment0Shear") orelse (is_ "BC_W" "0Slope0Shear" andalso is_ "BC_N" "0Moment0Shear"))
    (
     iadd_cell "cj0i0" 0 0 (2 * cell (attr "cj_1i_1_coeff_ij") 0 0) ;;
     isub_cell "cj1i1" 0 0 (cell (attr "cj_1i_1_coeff_ij") 0 0)) ;;
  whenM ((is_ "BC_N" "0Slope0Shear" andalso is_ "BC_E" "0Moment0Shear") orelse (is_ "BC_E" "0Slope0Shear" andalso is_ "BC_N" "0Moment0Shear"))
    (
     iadd_cell "cj0i0" 0 (-1) (2 * cell (attr "cj_1i_1_coeff_ij") 0 (-1)) ;;
     isub_cell "cj1i1" 0 (-1) (cell (attr "cj_1i_1_coeff_ij") 0 (-1))) ;;
  whenM ((is_ "BC_S" "0Slope0Shear" andalso is_ "BC_W" "0Moment0Shear") orelse (is_ "BC_W" "0Slope0Shear" andalso is_ "BC_S" "0Moment0Shear"))
    (
     iadd_cell "cj0i0" (-1) 0 (2 * cell (attr "cj_1i_1_coeff_ij") (-1) 0) ;;
     isub_cell "cj1i_1" (-1) 0 (cell (attr "cj_1i1_coeff_ij") (-1) 0)) ;;
  whenM ((is_ "BC_S" "0Slope0Shear" andalso is_ "BC_E" "0Moment0Shear") orelse (is_ "BC_E" "0Slope0Shear" andalso is_ "BC_S" "0Moment0Shear"))
    (
     iadd_cell "cj0i0" (-1) (-1) (2 * cell (attr "cj_1i_1_coeff_ij") (-1) (-1)) ;;
     isub_cell "cj_1i_1" (-1) (-1) (cell (attr "cj1i1_coeff_ij") (-1) (-1))) ;;
  whenM (is_ "BC_W" "Periodic" andalso is_ "BC_E" "Periodic")
    (
     (If is_ "BC_N" "0Slope0Shear" orelse is_ "BC_N" "Mirror" then (
        iadd_cell "cj1i1" 0 0 (cell (attr "cj_1i_1_coeff_ij") 0 0) ;;
        iadd_cell "cj_1i1" 0 (-1) (cell (attr "cj1i_1_coeff_ij") 0 (-1)))
      else If is_ "BC_N" "0Moment0Shear" then (
        iadd_cell "cj0i0" 0 0 (2 * cell (attr "cj_1i_1_coeff_ij") 0 0) ;;
        isub_cell "cj1i1" 0 0 (cell (attr "cj_1i_1_coeff_ij") 0 0) ;;
        iadd_cell "cj0i0" 0 (-1) (2 * cell (attr "cj_1i_1_coeff_ij") 0 (-1)) ;;
        isub_cell "cj1i1" 0 (-1) (cell (attr "cj_1i_1_coeff_ij") 0 (-1)))
      else ret tt) ;;
     (If is_ "BC_S" "0Slope0Shear" orelse is_ "BC_S" "Mirror" then (
        iadd_cell "cj1i_1" (-1) 0 (cell (attr "cj_1i1_coeff_ij") (-1) 0) ;;
        iadd_cell "cj_1i_1" (-1) (-1) (cell (attr "cj1i1_coeff_ij") (-1) (-1)))
      else If is_ "BC_S" "0Moment0Shear" then (
        iadd_cell "cj0i0" (-1) 0 (2 * cell (attr "cj_1i_1_coeff_ij") (-1) 0) ;;
        isub_cell "cj1i_1" (-1) 0 (cell (attr "cj_1i1_coeff_ij") (-1) 0) ;;
        iadd_cell "cj0i0" (-1) (-1) (2 * cell (attr "cj_1i_1_coeff_ij") (-1) (-1)) ;;
        isub_cell "cj_1i_1" (-1) (-1) (cell (attr "cj1i1_coeff_ij") (-1) (-1)))
      else ret tt)) ;;
  whenM (is_ "BC_N" "Periodic" andalso is_ "BC_S" "Periodic")
    (
     (If is_ "BC_W" "0Slope0Shear" orelse is_ "BC_W" "Mirror" then (
        iadd_cell "cj1i1" 0 0 (cell (attr "cj_1i_1_coeff_ij") 0 0) ;;
        iadd_cell "cj1i_1" (-1) 0 (cell (attr "cj_1i1_coeff_ij") (-1) 0))
      else If is_ "BC_W" "0Moment0Shear" then (
        iadd_cell "cj0i0" 0 0 (2 * cell (attr "cj_1i_1_coeff_ij") 0 0) ;;
        isub_cell "cj1i1" 0 0 (cell (attr "cj_1i_1_coeff_ij") 0 0) ;;
        iadd_cell "cj0i0" (-1) 0 (2 * cell (attr "cj_1i_1_coeff_ij") (-1) 0) ;;
        isub_cell "cj1i_1" (-1) 0 (cell (attr "cj_1i1_coeff_ij") (-1) 0))
      else ret tt) ;;
     (If is_ "BC_E" "0Slope0Shear" orelse is_ "BC_E" "Mirror" then (
        iadd_cell "cj_1i1" 0 (-1) (cell (attr "cj1i_1_coeff_ij") 0 (-1)) ;;
        iadd_cell "cj_1i_1" (-1) (-1) (cell (attr "cj1i1_coeff_ij") (-1) (-1)))
      else If is_ "BC_E" "0Moment0Shear" then (
        iadd_cell "cj0i0" 0 (-1) (2 * cell (attr "cj_1i_1_coeff_ij") 0 (-1)) ;;
        isub_cell "cj1i1" 0 (-1) (cell (attr "cj_1i_1_coeff_ij") 0 (-1)) ;;
        iadd_cell "cj0i0" (-1) (-1) (2 * cell (attr "cj_1i_1_coeff_ij") (-1) (-1)) ;;
        isub_cell "cj_1i_1" (-1) (-1) (cell (attr "cj1i1_coeff_ij") (-1) (-1)))
      else ret tt)).

(** [F2D.BC_Flexure] *)
Definition BC_Flexure : M unit :=
  BC_Flexure_W ;;
  BC_Flexure_E ;;
  BC_Flexure_N ;;
  BC_Flexure_S ;;
  BC_Flexure_corners.

(* ================================================================== *)
(** * Assembly of the sparse operator *)

(** [np.vstack] of 1-D arrays and of stacks of rows; all rows must have
    one length. *)
Definition block_rows (v : pyval) : option (list vector) :=
  match v with
  | VVec u => Some [u]
  | VStack d => Some d
  | VArr a => Some a
  | _ => None
  end.

Fixpoint collect_rows (blocks : list pyval) : option (list vector) :=
  match blocks with
  | [] => Some []
  | b :: rest =>
      match block_rows b, collect_rows rest with
      | Some r, Some rs => Some (r ++ rs)
      | _, _ => None
      end
  end.

Definition same_lengths (rows : list vector) : bool :=
  match rows with
  | [] => false
  | r :: rest => forallb (fun r' => Nat.eqb (length r') (length r)) rest
  end.

Definition np_vstack (blocks : list pyval) : Res pyval :=
  match collect_rows blocks with
  | Some rows => if same_lengths rows then Ok (VStack rows) else Raise "ValueError"
  | None => Raise "ValueError"
  end.

Definition int_attr (name : string) : M Z :=
  v <- eval (attr name) ;;
  match v with
  | VInt z => ret z
  | _ => raise "TypeError"
  end.

(** [scipy.sparse.spdiags(diags, offsets, n, n, format='csr')] *)
Definition scipy_sparse_spdiags (diags : pyval) (offsets : list Z) (n : Z) : Res pyval :=
  match diags with
  | VStack d =>
      match spdiags d offsets (Z.to_nat n) (Z.to_nat n) with
      | Some A => Ok (VMat A)
      | None => Raise "ValueError"
      end
  | _ => Raise "ValueError"
  end.

(** The additional vectors of a Periodic West-East pair: roll, reshape. *)
Definition periodic_vectors : M (pyval * pyval * pyval * pyval) :=
  (* West *)
  assign "cj_2i0_Periodic_right" (np_roll (attr "cj_2i0_Periodic_right") (-2) 1) ;;
  assign "cj_1i1_Periodic_right" (np_roll (attr "cj_1i1_Periodic_right") (-1) 1) ;;
  assign "cj_1i1_Periodic_right" (np_roll (attr "cj_1i1_Periodic_right") 1 0) ;;
  vec_cj_2i0_Periodic_right <- eval (np_reshape_flat (attr "cj_2i0_Periodic_right")) ;;
  vec_cj_1i1_Periodic_right <- eval (np_reshape_flat (attr "cj_1i1_Periodic_right")) ;;
  (* East *)
  assign "cj1i_1_Periodic_left" (np_roll (attr "cj1i_1_Periodic_left") 1 1) ;;
  assign "cj1i_1_Periodic_left" (np_roll (attr "cj1i_1_Periodic_left") (-1) 0) ;;
  assign "cj2i0_Periodic_left" (np_roll (attr "cj2i0_Periodic_left") 2 1) ;;
  vec_cj1i_1_Periodic_left <- eval (np_reshape_flat (attr "cj1i_1_Periodic_left")) ;;
  vec_cj2i0_Periodic_left <- eval (np_reshape_flat (attr "cj2i0_Periodic_left")) ;;
  ret (vec_cj_2i0_Periodic_right, vec_cj_1i1_Periodic_right,
       vec_cj1i_1_Periodic_left, vec_cj2i0_Periodic_left).

(** The thirteen diagonals of the operator without wrap-around. *)
Definition offsets13 (nx : Z) : list Z :=
  [-2 * nx; - nx - 1; - nx; - nx + 1; -2; -1; 0; 1; 2; nx - 1; nx; nx + 1; 2 * nx].

(** [F2D.build_diags] *)
Definition build_diags : M unit :=
  (* roll x *)
  assign "cj_2i0" (np_roll (attr "cj_2i0") (-2) 1) ;;
  assign "cj_1i0" (np_roll (attr "cj_1i0") (-1) 1) ;;
  assign "cj1i0" (np_roll (attr "cj1i0") 1 1) ;;
  assign "cj2i0" (np_roll (attr "cj2i0") 2 1) ;;
  (* roll y *)
  assign "cj0i_2" (np_roll (attr "cj0i_2") (-2) 0) ;;
  assign "cj0i_1" (np_roll (attr "cj0i_1") (-1) 0) ;;
  assign "cj0i1" (np_roll (attr "cj0i1") 1 0) ;;
  assign "cj0i2" (np_roll (attr "cj0i2") 2 0) ;;
  (* roll x and y *)
  assign "cj_1i_1" (np_roll (attr "cj_1i_1") (-1) 1) ;;
  assign "cj_1i_1" (np_roll (attr "cj_1i_1") (-1) 0) ;;
  assign "cj_1i1" (np_roll (attr "cj_1i1") (-1) 1) ;;
  assign "cj_1i1" (np_roll (attr "cj_1i1") 1 0) ;;
  assign "cj1i_1" (np_roll (attr "cj1i_1") 1 1) ;;
  assign "cj1i_1" (np_roll (attr "cj1i_1") (-1) 0) ;;
  assign "cj1i1" (np_roll (attr "cj1i1") 1 1) ;;
  assign "cj1i1" (np_roll (attr "cj1i1") 1 0) ;;
  for_each coeff_array_list sweep_inf ;;
  (* reshape to put in solver *)
  vec_cj_2i0 <- eval (np_reshape_flat (attr "cj_2i0")) ;;
  vec_cj_1i_1 <- eval (np_reshape_flat (attr "cj_1i_1")) ;;
  vec_cj_1i0 <- eval (np_reshape_flat (attr "cj_1i0")) ;;
  vec_cj_1i1 <- eval (np_reshape_flat (attr "cj_1i1")) ;;
  vec_cj0i_2 <- eval (np_reshape_flat (attr "cj0i_2")) ;;
  vec_cj0i_1 <- eval (np_reshape_flat (attr "cj0i_1")) ;;
  vec_cj0i0 <- eval (np_reshape_flat (attr "cj0i0")) ;;
  vec_cj0i1 <- eval (np_reshape_flat (attr "cj0i1")) ;;
  vec_cj0i2 <- eval (np_reshape_flat (attr "cj0i2")) ;;
  vec_cj1i_1 <- eval (np_reshape_flat (attr "cj1i_1")) ;;
  vec_cj1i0 <- eval (np_reshape_flat (attr "cj1i0")) ;;
  vec_cj1i1 <- eval (np_reshape_flat (attr "cj1i1")) ;;
  vec_cj2i0 <- eval (np_reshape_flat (attr "cj2i0")) ;;
  let Up2 := vec_cj0i2 in
  Up1 <- lift (np_vstack [vec_cj_1i1; vec_cj0i1; vec_cj1i1]) ;;
  Mid <- lift (np_vstack [vec_cj_2i0; vec_cj_1i0; vec_cj0i0; vec_cj1i0; vec_cj2i0]) ;;
  Dn1 <- lift (np_vstack [vec_cj_1i_1; vec_cj0i_1; vec_cj1i_1]) ;;
  let Dn2 := vec_cj0i_2 in
  (* number of rows and columns for array size and offsets *)
  assign "ny" (attr "nrowsy") ;;
  assign "nx" (attr "ncolsx") ;;
  If is_ "BC_N" "Periodic" andalso is_ "BC_S" "Periodic" andalso
     is_ "BC_W" "Periodic" andalso is_ "BC_E" "Periodic" then (
    '(vec_cj_2i0_Periodic_right, vec_cj_1i1_Periodic_right,
      vec_cj1i_1_Periodic_left, vec_cj2i0_Periodic_left) <- periodic_vectors ;;
    diags <- lift (np_vstack [vec_cj1i_1_Periodic_left;
                              Up1;
                              vec_cj_1i1_Periodic_right;
                              Up2;
                              Dn2;
                              vec_cj1i_1_Periodic_left;
                              Dn1;
                              vec_cj2i0_Periodic_left;
                              Mid;
                              vec_cj_2i0_Periodic_right;
                              Up1;
                              vec_cj_1i1_Periodic_right;
                              Up2;
                              Dn2;
                              vec_cj1i_1_Periodic_left;
                              Dn1;
                              vec_cj_1i1_Periodic_right]) ;;
    setattr "diags" diags ;;
    ny <- int_attr "ny" ;;
    nx <- int_attr "nx" ;;
    setattr "offsets"
      (VInts [- ny * nx + 1;
              nx - ny * nx - 1; nx - ny * nx; nx - ny * nx + 1;
              2 * nx - ny * nx - 1;
              2 * nx - ny * nx;
              -2 * nx;
              -2 * nx + 1;
              - nx - 1; - nx; - nx + 1;
              - nx + 2;
              -2; -1; 0; 1; 2;
              nx - 2;
              nx - 1; nx; nx + 1;
              2 * nx - 1;
              2 * nx;
              ny * nx - 2 * nx;
              ny * nx - 2 * nx + 1;
              ny * nx - nx - 1; ny * nx - nx; ny * nx - nx + 1;
              ny * nx - 1]) ;;
    diags <- eval (attr "diags") ;;
    offsets <- eval (attr "offsets") ;;
    ny <- int_attr "ny" ;;
    nx <- int_attr "nx" ;;
    match offsets with
    | VInts offs => assign "coeff_matrix" (fun _ => scipy_sparse_spdiags diags offs (ny * nx))
    | _ => raise "TypeError"
    end)
  else If is_ "BC_W" "Periodic" andalso is_ "BC_E" "Periodic" then (
    '(vec_cj_2i0_Periodic_right, vec_cj_1i1_Periodic_right,
      vec_cj1i_1_Periodic_left, vec_cj2i0_Periodic_left) <- periodic_vectors ;;
    diags <- lift (np_vstack [Dn2;
                              vec_cj1i_1_Periodic_left;
                              Dn1;
                              vec_cj2i0_Periodic_left;
                              Mid;
                              vec_cj_2i0_Periodic_right;
                              Up1;
                              vec_cj_1i1_Periodic_right;
                              Up2]) ;;
    setattr "diags" diags ;;
    nx <- int_attr "nx" ;;
    setattr "offsets"
      (VInts [-2 * nx;
              -2 * nx + 1;
              - nx - 1; - nx; - nx + 1;
              - nx + 2;
              -2; -1; 0; 1; 2;
              nx - 2;
              nx - 1; nx; nx + 1;
              2 * nx - 1;
              2 * nx]) ;;
    diags <- eval (attr "diags") ;;
    offsets <- eval (attr "offsets") ;;
    ny <- int_attr "ny" ;;
    nx <- int_attr "nx" ;;
    match offsets with
    | VInts offs => assign "coeff_matrix" (fun _ => scipy_sparse_spdiags diags offs (ny * nx))
    | _ => raise "TypeError"
    end)
  else If is_ "BC_N" "Periodic" andalso is_ "BC_S" "Periodic" then (
    diags <- lift (np_vstack [Up1; Up2; Dn2; Dn1; Mid; Up1; Up2; Dn2; Dn1]) ;;
    setattr "diags" diags ;;
    diags <- eval (attr "diags") ;;
    nx <- int_attr "nx" ;;
    ny <- int_attr "ny" ;;
    assign "coeff_matrix"
      (fun _ => scipy_sparse_spdiags diags
         [nx - ny * nx - 1; nx - ny * nx; nx - ny * nx + 1; 2 * nx - ny * nx;
          -2 * nx; - nx - 1; - nx; - nx + 1; -2; -1; 0; 1; 2;
          nx - 1; nx; nx + 1; 2 * nx;
          ny * nx - 2 * nx; ny * nx - nx - 1; ny * nx - nx; ny * nx - nx + 1]
         (ny * nx)))
  else (
    (* no periodic boundary conditions *)
    diags <- lift (np_vstack [Dn2; Dn1; Mid; Up1; Up2]) ;;
    setattr "diags" diags ;;
    diags <- eval (attr "diags") ;;
    nx <- int_attr "nx" ;;
    ny <- int_attr "ny" ;;
    assign "coeff_matrix"
      (fun _ => scipy_sparse_spdiags diags (offsets13 nx) (ny * nx))).

(** [F2D.BC_selector_and_coeff_matrix_creator]; [type(x)] of a label is
    printed as the label's type name. *)
Definition type_name (v : pyval) : pyval :=
  VStr match v with
       | VNone => "NoneType" | VBool _ => "bool" | VInt _ => "int"
       | VNum _ => "float" | VStr _ => "str" | VInts _ => "list"
       | VMethod _ => "instancemethod" | VMat _ => "csr_matrix"
       | _ => "numpy.ndarray"
       end.

Definition print_BC (text name : string) : M unit :=
  v <- eval (attr name) ;; print [VStr text; v; type_name v].

Definition BC_selector_and_coeff_matrix_creator : M unit :=
  (* zeroth, print the boundary conditions to the screen *)
  whenM (flag "Verbose")
    (print_BC "Boundary condition, West:" "BC_W" ;;
     print_BC "Boundary condition, East:" "BC_E" ;;
     print_BC "Boundary condition, North:" "BC_N" ;;
     print_BC "Boundary condition, South:" "BC_S") ;;
  (* first, flexural rigidity boundary conditions on the padded array *)
  BC_Rigidity ;;
  (* second, the coefficient arrays, with the rigidity b.c.'s *)
  get_coeff_values ;;
  (* third, boundary conditions on the coefficient arrays *)
  BC_Flexure ;;
  (* fourth, the sparse diagonal array *)
  build_diags.

(** [self.Quiet == False] *)
Definition not_Quiet : M bool :=
  v <- eval (attr "Quiet") ;; ret (is_False v).

(** [F2D.coeff_matrix_creator] *)
Definition coeff_matrix_creator : M unit :=
  t0 <- time_time ;;
  setattr "coeff_start_time" t0 ;;
  BC_selector_and_coeff_matrix_creator ;;
  t1 <- time_time ;;
  assign "coeff_creation_time" (t1 - attr "coeff_start_time") ;;
  whenM not_Quiet
    (t <- eval (attr "coeff_creation_time") ;;
     print [VStr "Time to construct coefficient (operator) array [s]:"; t]).

(* ================================================================== *)
(** * The linear solve *)

(** The two SciPy solvers.  A call returns a value or raises.
    [lgmres A b tol] returns the last iterate and the flag [info]
    (0: converged to [tol]; positive: not converged; negative: illegal
    input or breakdown).  [spsolve A b] returns a vector. *)
Record SciPy : Type := {
  lgmres : dia_matrix -> vector -> Qc -> Res (vector * Z);
  spsolve : dia_matrix -> vector -> Res vector
}.

(** The default of [lgmres]'s keyword argument [tol]. *)
Definition lgmres_default_tol : Qc := Q2Qc (1 # 100000).

(** [a.shape], printed. *)
Definition shape_tuple (v : pyval) : Res pyval :=
  match v with
  | VArr a => Ok (VInts [Z.of_nat (nrows a); Z.of_nat (ncols a)])
  | VVec u => Ok (VInts [Z.of_nat (length u)])
  | _ => Raise "AttributeError"
  end.

(** [v.reshape(a.shape)] *)
Definition reshape_like (v : vector) (a : pyval) : Res pyval :=
  match a with
  | VArr q =>
      if Nat.eqb (length v) (nrows q * ncols q)
      then Ok (VArr (tabulate (nrows q) (ncols q)
                       (fun i j => nth (i * ncols q + j) v NaN)))
      else Raise "ValueError"
  | VVec q =>
      if Nat.eqb (length v) (length q) then Ok (VVec v) else Raise "ValueError"
  | _ => Raise "AttributeError"
  end.

Definition call {A} (r : Res A) : M A := lift r.

(** [try: print 'self.Te', self.Te.shape / except: pass]: a scalar [Te]
    has no shape; the first item is written before the exception. *)
Definition try_print_Te_shape : M unit :=
  fun s => match ebind (attr "Te") shape_tuple s with
           | Ok shp => print [VStr "self.Te"; shp] s
           | _ => print [VStr "self.Te"] s
           end.

(** [F2D.fd_solve] *)
Definition fd_solve (scipy : SciPy) : M unit :=
  whenM (flag "Debug")
    (try_print_Te_shape ;;
     shp <- eval (ebind (attr "q0") shape_tuple) ;;
     print [VStr "self.q0"; shp] ;;
     ncx <- eval (attr "maxFlexuralWavelength_ncells_x") ;;
     ncy <- eval (attr "maxFlexuralWavelength_ncells_y") ;;
     print [VStr "maxFlexuralWavelength_ncells: (x, y):"; ncx; ncy]) ;;
  q0vector <- eval (np_reshape_flat (attr "q0")) ;;
  wvector <-
    (If is_ "solver" "iterative" orelse is_ "solver" "Iterative" then (
       whenM (flag "Debug")
         (print [VStr "Using generalized minimal residual method for iterative solution"]) ;;
       whenM (flag "Verbose")
         (tol <- eval (attr "iterative_ConvergenceTolerance") ;;
          print [VStr "Converging to a tolerance of"; tol; VStr "m between iterations"]) ;;
       A <- eval (attr "coeff_matrix") ;;
       match A, q0vector with
       | VMat A, VVec b =>
           wvector <- call (lgmres scipy A b lgmres_default_tol) ;;
           (* reach into the tuple to get the array back *)
           ret (fst wvector)
       | _, _ => raise "TypeError"
       end)
     else (
       (If is_ "solver" "direct" orelse is_ "solver" "Direct" then
          whenM (flag "Debug") (print [VStr "Using direct solution with UMFpack"])
        else
          whenM not_Quiet
            (print [VStr "Solution type not understood:"] ;;
             print [VStr "Defaulting to direct solution with UMFpack"])) ;;
       A <- eval (attr "coeff_matrix") ;;
       match A, q0vector with
       | VMat A, VVec b => call (spsolve scipy A b)
       | _, _ => raise "TypeError"
       end)) ;;
  (* reshape into grid *)
  q0 <- eval (attr "q0") ;;
  assign "w" (- (fun _ => reshape_like wvector q0)) ;;
  assign "w_padded" (copy (attr "w")).

(** The attributes that the messages of [fd_solve] read are there: the
    three flags, with [Debug] the two wavelength counts it prints, with
    [Verbose] the tolerance it prints. *)
Definition printable (s : State) : Prop :=
  (exists v, self s "Debug" = Some v /\
     (truthy v = true ->
      self s "maxFlexuralWavelength_ncells_x" <> None /\
      self s "maxFlexuralWavelength_ncells_y" <> None)) /\
  (exists v, self s "Verbose" = Some v /\
     (truthy v = true -> self s "iterative_ConvergenceTolerance" <> None)) /\
  (exists v, self s "Quiet" = Some v).

(** What [fd_solve] takes from SciPy for a solver label. *)
Definition is_iterative (label : string) : bool :=
  String.eqb label "iterative" || String.eqb label "Iterative".

Definition solver_result (scipy : SciPy) (label : string) (A : dia_matrix)
  (b : vector) : Res vector :=
  if is_iterative label then
    match lgmres scipy A b lgmres_default_tol with
    | Ok p => Ok (fst p)
    | Exit msg => Exit msg
    | Raise exc => Raise exc
    end
  else spsolve scipy A b.

(** [-x.reshape(q.shape)] *)
Definition negated (x : vector) (q : array) : array :=
  amap vneg (tabulate (nrows q) (ncols q) (fun i j => nth (i * ncols q + j) x NaN)).

(** After a solve: the deflection [w] and its copy are stored and no
    other attribute has changed. *)
Definition solved (s s' : State) (w : array) : Prop :=
  self s' "w" = Some (VArr w) /\ self s' "w_padded" = Some (VArr w) /\
  forall k, k <> "w" -> k <> "w_padded" -> self s' k = self s k.

(* ================================================================== *)
(** * Solution methods and [run] *)

(** What [f2d.py] takes from elsewhere: the methods of the base class
    [Flexure] ([base.py]) that [run] calls through [super], and the three
    steps of the analytical solver, whose arithmetic (square root, [pi],
    Kelvin function) is embedded over the reals in [Module SAS]. *)
Record Environment : Type := {
  Flexure_FD : M unit;
  Flexure_FFT : M unit;
  Flexure_SAS : M unit;
  Flexure_SAS_NG : M unit;
  spatialDomainVars : M unit;
  spatialDomainGridded : M unit;
  spatialDomainNoGrid : M unit;
  scipy : SciPy
}.

(** [F2D.FD]: the coefficient matrix is generated only if it is not
    already provided ([try: self.coeff_matrix / except: ...]). *)
Definition FD (env : Environment) : M unit :=
  elasprep ;;
  (fun s => match self s "coeff_matrix" with
            | Some _ => ret tt s
            | None => coeff_matrix_creator s
            end) ;;
  fd_solve (scipy env).

(** [F2D.FFT] *)
Definition FFT : M unit :=
  sys_exit "The fast Fourier transform solution method is not yet implemented.".

(** [F2D.SAS] and [F2D.SAS_NG] *)
Definition SAS (env : Environment) : M unit :=
  spatialDomainVars env ;; spatialDomainGridded env.

Definition SAS_NG (env : Environment) : M unit :=
  spatialDomainVars env ;; spatialDomainNoGrid env.

(** [self.method_func()] *)
Definition call_method (env : Environment) (f : pyval) : M unit :=
  match f with
  | VMethod "FD" => FD env
  | VMethod "FFT" => FFT
  | VMethod "SAS" => SAS env
  | VMethod "SAS_NG" => SAS_NG env
  | _ => raise "TypeError"
  end.

(** The message of [run] for an unknown method; it contains double
    quotes (character 34). *)
Definition dquote : string := String (Ascii.ascii_of_nat 34) EmptyString.

Definition method_error : string :=
  "Error: method must be " ++ dquote ++ "FD" ++ dquote ++ ", " ++
  dquote ++ "FFT" ++ dquote ++ ", " ++ dquote ++ "SAS" ++ dquote ++ ", or " ++
  dquote ++ "SAS_NG" ++ dquote.

(** [F2D.run] *)
Definition run (env : Environment) : M unit :=
  t0 <- time_time ;;
  setattr "solver_start_time" t0 ;;
  whenM (flag "Verbose")
    (t <- eval (attr "solver_start_time") ;;
     print [VStr "Solver start time [Unix epoch]:"; t]) ;;
  (If is_ "method" "FD" then (
     Flexure_FD env ;;
     setattr "method_func" (VMethod "FD"))
   else If is_ "method" "FFT" then (
     Flexure_FFT env ;;
     setattr "method_func" (VMethod "FFT"))
   else If is_ "method" "SAS" then (
     Flexure_SAS env ;;
     setattr "method_func" (VMethod "SAS"))
   else If is_ "method" "SAS_NG" then (
     Flexure_SAS_NG env ;;
     setattr "method_func" (VMethod "SAS_NG"))
   else
     sys_exit method_error) ;;
  whenM (flag "Verbose") (print [VStr "F2D run"]) ;;
  f <- eval (attr "method_func") ;;
  call_method env f ;;
  t1 <- time_time ;;
  assign "time_to_solve" (t1 - attr "solver_start_time") ;;
  whenM not_Quiet
    (t <- eval (attr "time_to_solve") ;;
     print [VStr "Time to solve [s]:"; t]).

(* ================================================================== *)
(** * Sample instances and libraries *)

(** An instance with the given attributes; the clock reads 0, 1, 2, ... *)
Definition instance (attrs : list (string * pyval)) : State :=
  mkState (fold_right (fun kv d => insert (fst kv) (snd kv) d) empty attrs)
          [] (fun n => qz (Z.of_nat n)) 0.

Definition grid (rows : list (list Z)) : array := map (map num) rows.

(** The 4 by 4 identity in diagonal storage. *)
Definition identity4 : dia_matrix := mkDia 4 4 [0] [[num 1; num 1; num 1; num 1]].

(** A 2 by 2 problem ready for [fd_solve], with a solver label and a
    configured tolerance. *)
Definition ready_to_solve (label : string) (tol : Qc) : State :=
  instance [("Debug", VBool false); ("Verbose", VBool false); ("Quiet", VBool false);
            ("solver", VStr label);
            ("iterative_ConvergenceTolerance", VNum (Fin tol));
            ("q0", VArr (grid [[0; 1]; [0; 0]]));
            ("coeff_matrix", VMat identity4)].

(** A library that solves the identity system. *)
Definition scipy_identity : SciPy :=
  {| lgmres := fun _ b _ => Ok (b, 0);
     spsolve := fun _ b => Ok b |}.

(** A library whose solvers fail the way SciPy's do: [lgmres] stops
    without convergence (flag 1) at a zero iterate, [spsolve] meets a
    singular matrix and returns NaN. *)
Definition scipy_failing : SciPy :=
  {| lgmres := fun _ b _ => Ok (map (fun _ => vzero) b, 1);
     spsolve := fun _ b => Ok (map (fun _ => NaN) b) |}.

(** A plate on a 3 by 3 grid with a unit load at the centre:
    E = 12 and nu = 0, so that D = Te^3; drho = g = 1. *)
Definition plate (Te : pyval) (dx dy : Z) (W E N S : string) (solution : string)
  : State :=
  instance [("method", VStr "FD"); ("solver", VStr "direct");
            ("Debug", VBool false); ("Verbose", VBool false); ("Quiet", VBool true);
            ("dx", VNum (num dx)); ("dy", VNum (num dy));
            ("E", VNum (num 12)); ("nu", VNum (num 0));
            ("drho", VNum (num 1)); ("g", VNum (num 1));
            ("Te", Te);
            ("q0", VArr (grid [[0; 0; 0]; [0; 1; 0]; [0; 0; 0]]));
            ("BC_W", VStr W); ("BC_E", VStr E); ("BC_N", VStr N); ("BC_S", VStr S);
            ("PlateSolutionType", VStr solution)].

(** Elastic thickness 1 everywhere, as an array and as a scalar. *)
Definition Te_ones : pyval := VArr (grid [[1; 1; 1]; [1; 1; 1]; [1; 1; 1]]).
Definition Te_one : pyval := VNum (num 1).

(** An elastic thickness that differs from cell to cell. *)
Definition Te_ramp : pyval := VArr (grid [[1; 2; 3]; [4; 5; 6]; [7; 8; 9]]).

(** The stages of [FD] up to the padded rigidity. *)
Definition after_rigidity (s : State) : State :=
  snd ((elasprep ;; BC_Rigidity) s).

(** The stages of [FD] up to the coefficient values. *)
Definition coefficients_of (s : State) : State :=
  snd ((elasprep ;; BC_Rigidity ;; get_coeff_values) s).

(** The rational held at a cell of an array attribute. *)
Definition value_at (s : State) (name : string) (i j : nat) : option Q :=
  match self s name with
  | Some (VArr a) =>
      match get a i j with
      | Fin q => Some (this q)
      | _ => None
      end
  | _ => None
  end.

(** A 5 by 5 plate of varying elastic thickness, with the stages of
    [FD] run up to the coefficient values. *)
Definition plate5 (W E N S : string) : State :=
  instance [("method", VStr "FD"); ("solver", VStr "direct");
            ("Debug", VBool false); ("Verbose", VBool false); ("Quiet", VBool true);
            ("dx", VNum (num 1)); ("dy", VNum (num 2));
            ("E", VNum (num 12)); ("nu", VNum (num 0));
            ("drho", VNum (num 1)); ("g", VNum (num 1));
            ("Te", VArr (grid [[1; 2; 3; 4; 5]; [2; 3; 4; 5; 6]; [3; 4; 5; 6; 7];
                               [4; 5; 6; 7; 8]; [5; 6; 7; 8; 9]]));
            ("q0", VArr (grid [[0; 0; 0; 0; 0]; [0; 0; 0; 0; 0]; [0; 0; 1; 0; 0];
                               [0; 0; 0; 0; 0]; [0; 0; 0; 0; 0]]));
            ("BC_W", VStr W); ("BC_E", VStr E); ("BC_N", VStr N); ("BC_S", VStr S);
            ("PlateSolutionType", VStr "vWC1994")].

Definition coefficients5 (W E N S : string) : State :=
  coefficients_of (plate5 W E N S).

(** An environment whose base-class methods do nothing and whose
    analytical steps are left out. *)
Definition plain_environment : Environment :=
  {| Flexure_FD := ret tt;
     Flexure_FFT := ret tt;
     Flexure_SAS := ret tt;
     Flexure_SAS_NG := ret tt;
     spatialDomainVars := ret tt;
     spatialDomainGridded := ret tt;
     spatialDomainNoGrid := ret tt;
     scipy := scipy_identity |}.

(** A fresh instance asked for the FFT method. *)
Definition fft_instance : State :=
  instance [("method", VStr "FFT"); ("Verbose", VBool false); ("Quiet", VBool false);
            ("q0", VArr (grid [[0; 1]; [0; 0]]))].

(* ================================================================== *)
(** * Weakest preconditions of commands *)

(** [wp m Q s]: running [m] from [s] ends in a result and a state that
    satisfy [Q]; every command ends, so this is total. *)
Definition wp {A} (m : M A) (Q : Res A -> State -> Prop) (s : State) : Prop :=
  Q (fst (m s)) (snd (m s)).

(** The postcondition of [m] in [bind m k]. *)
Definition cont {A B} (k : A -> M B) (Q : Res B -> State -> Prop)
  : Res A -> State -> Prop :=
  fun r s =>
    match r with
    | Ok a => wp (k a) Q s
    | Exit msg => Q (Exit msg) s
    | Raise exc => Q (Raise exc) s
    end.

(** A command leaves the attributes named in [P] as they are, however
    it ends. *)
Definition untouched (P : list string) (s s' : State) : Prop :=
  forall k, In k P -> self s' k = self s k.

Definition preserves {A} (P : list string) (m : M A) : Prop :=
  forall s, wp m (fun _ s' => untouched P s s') s.

Definition notin (name : string) (P : list string) : bool :=
  negb (existsb (String.eqb name) P).

(** A result other than normal completion. *)
Definition failed {A} (r : Res A) : Prop :=
  match r with Ok _ => False | _ => True end.

(** The attributes that decide whether the solve may go on. *)
Definition guarded : list string :=
  ["coeff_matrix"; "w"; "BC_W"; "BC_E"; "BC_N"; "BC_S"].

(** One edge of an opposing pair is Periodic and the other is not. *)
Definition unpaired (a b : string) : Prop :=
  (a = "Periodic" /\ b <> "Periodic") \/ (a <> "Periodic" /\ b = "Periodic").

(** The command ended abnormally and wrote none of the guarded
    attributes on the way from [s0]. *)
Definition aborted {A} (s0 : State) (r : Res A) (s' : State) : Prop :=
  failed r /\ untouched guarded s0 s'.

(** The cell [(i, j)] lies at least two cells from every edge. *)
Definition far_from_edges (ny nx i j : nat) : Prop :=
  (2 <= i)%nat /\ (i + 2 < ny)%nat /\ (2 <= j)%nat /\ (j + 2 < nx)%nat.

(** The names of the raw copies, [cj..._coeff_ij]. *)
Definition raw_names : list string := map coeff_ij coeff_array_list.

Definition inb (name : string) (P : list string) : bool :=
  existsb (String.eqb name) P.

(** The state of the coefficient arrays while boundary conditions are
    applied, against the state [s0] before: the thirteen working arrays
    are there with their shape and with the cells far from the edges as
    in [s0]; the raw copies are there; no other attribute has changed. *)
Definition stencil_ok (ny nx : nat) (s0 s : State) : Prop :=
  (forall c, inb c coeff_array_list = true ->
     exists a a0,
       self s c = Some (VArr a) /\ shaped ny nx a /\
       self s0 c = Some (VArr a0) /\
       forall i j, far_from_edges ny nx i j -> get a i j = get a0 i j) /\
  (forall k, inb k raw_names = true ->
     exists a, self s k = Some (VArr a) /\ shaped ny nx a) /\
  (forall k, inb k coeff_array_list = false -> self s k = self s0 k).

(** The check [a.shape == (ny, nx)] as a boolean, and the state in which
    [get_coeff_values] leaves the instance: the thirteen coefficient
    arrays and their raw copies, each of shape [ny] by [nx]. *)
Definition shapedb (ny nx : nat) (a : array) : bool :=
  Nat.eqb (length a) ny && forallb (fun row => Nat.eqb (length row) nx) a.

Definition coefficients_ready (ny nx : nat) (s : State) : bool :=
  forallb (fun c => match self s c with
                    | Some (VArr a) => shapedb ny nx a
                    | _ => false
                    end)
          (coeff_array_list ++ raw_names).

(** A statement that runs to completion and keeps [stencil_ok]; a
    condition that evaluates to a boolean without changing the state. *)
Definition keeps (ny nx : nat) (s0 : State) (m : M unit) : Prop :=
  forall s (Q : Res unit -> State -> Prop),
    stencil_ok ny nx s0 s ->
    (forall s', stencil_ok ny nx s0 s' -> Q (Ok tt) s') ->
    wp m Q s.

Definition decides (ny nx : nat) (s0 : State) (c : M bool) : Prop :=
  forall s (Q : Res bool -> State -> Prop),
    stencil_ok ny nx s0 s -> (forall b, Q (Ok b) s) -> wp c Q s.

(** The four labels that are neither Periodic nor invalid. *)
Definition local_BC (b : string) : Prop :=
  b = "Dirichlet0" \/ b = "0Moment0Shear" \/ b = "0Slope0Shear" \/ b = "Mirror".

(** A label that none of the branches of [BC_Flexure] accepts. *)
Definition invalid_BC (b : string) : Prop :=
  b <> "Periodic" /\ b <> "Dirichlet0" /\ b <> "0Moment0Shear" /\
  b <> "0Slope0Shear" /\ b <> "Mirror".

(** A swept entry: infinity, the flag for "no coefficient", becomes 0. *)
Definition sweep1 (x : val) : val := if isinf x then vzero else x.

(** The stencil: each coefficient array with the offset (dx, dy) of the
    neighbour that it multiplies, in the order of the stacked diagonals. *)
Definition stencil : list (string * (Z * Z)) :=
  [("cj0i_2", (0, -2));
   ("cj_1i_1", (-1, -1)); ("cj0i_1", (0, -1)); ("cj1i_1", (1, -1));
   ("cj_2i0", (-2, 0)); ("cj_1i0", (-1, 0)); ("cj0i0", (0, 0));
   ("cj1i0", (1, 0)); ("cj2i0", (2, 0));
   ("cj_1i1", (-1, 1)); ("cj0i1", (0, 1)); ("cj1i1", (1, 1));
   ("cj0i2", (0, 2))].

(** The array held by an attribute. *)
Definition array_of (s : State) (name : string) : array :=
  match self s name with
  | Some (VArr a) => a
  | _ => []
  end.

(** The value of an expression by kind: a float, an array of shape
    [ny] by [nx], or a 1-D array of length [n]. *)
Inductive kind : Type := KNum | KArr | KVec.

Definition has_kind (ny nx n : nat) (k : kind) (e : Exp) (s : State) : Prop :=
  match k with
  | KNum => exists x, e s = Ok (VNum x)
  | KArr => exists a, e s = Ok (VArr a) /\ shaped ny nx a
  | KVec => exists u, e s = Ok (VVec u) /\ length u = n
  end.

(** A float combines with anything; arrays combine with their like. *)
Definition join (k1 k2 : kind) : option kind :=
  match k1, k2 with
  | KNum, k | k, KNum => Some k
  | KArr, KArr => Some KArr
  | KVec, KVec => Some KVec
  | _, _ => None
  end.


(* ================================================================== *)
(** * The padded rigidity: what [BC_Rigidity] leaves *)

(** The rigidity boundary type that the head of [BC_Rigidity] selects
    for a label; no type for a label that it does not know. *)
Definition rigidity_kind (b : string) : option string :=
  if String.eqb b "Periodic" then Some "periodic"
  else if String.eqb b "Dirichlet0" || String.eqb b "0Moment0Shear"
          || String.eqb b "0Slope0Shear" then Some "0 curvature"
  else if String.eqb b "Mirror" then Some "mirror symmetry"
  else None.

(** The value that the West or North ghost line takes from the first
    ([near]), second ([next]) and last ([far]) lines of the interior,
    and the value that the East or South ghost line takes from the last
    ([near]) and the last but one ([next]): the statements of
    [BC_Rigidity] by boundary type. *)
Definition ghost_low (kind : string) (near next far : val) : val :=
  if String.eqb kind "0 curvature" then vsub (vmul (num 2) near) next
  else if String.eqb kind "mirror symmetry" then next
  else far.

Definition ghost_high (kind : string) (near next : val) : val :=
  if String.eqb kind "0 curvature" then vsub (vmul (num 2) near) next
  else next.

Definition is_fin (x : val) : bool :=
  match x with Fin _ => true | _ => false end.

(** Every cell of an [ny] by [nx] array is a finite number. *)
Definition all_fin (ny nx : nat) (a : array) : Prop :=
  forall i j, (i < ny)%nat -> (j < nx)%nat -> is_fin (get a i j) = true.

(** A 1-D array given by its entries. *)
Definition line (n : nat) (f : nat -> val) : vector := map f (seq 0 n).

(** The padded rigidity on the way through the twelve boundary
    statements of [BC_Rigidity]: [d0] is the rigidity before padding,
    [s1] the instance after padding, the four strings are the selected
    boundary types and the four flags tell which edges have been
    applied.  The interior of [D] is [d0]; the ghost cells of an applied
    edge, corners apart, hold the values of [ghost_low] and [ghost_high];
    a corner is a finite number once both of its edges are applied,
    provided [d0] is finite; nothing but [D] differs from [s1]. *)
Definition rigidity_inv (ny nx : nat) (d0 : array) (s1 : State)
  (kW kE kN kS : string) (fW fE fN fS : bool) (s : State) : Prop :=
  (forall k, k <> "D" -> self s k = self s1 k) /\
  exists d,
    self s "D" = Some (VArr d) /\
    shaped (S (S ny)) (S (S nx)) d /\
    (forall i j, (i < ny)%nat -> (j < nx)%nat -> get d (S i) (S j) = get d0 i j) /\
    (fW = true -> forall i, (i < ny)%nat ->
       get d (S i) 0 = ghost_low kW (get d0 i 0) (get d0 i 1) (get d0 i (nx - 1))) /\
    (fE = true -> forall i, (i < ny)%nat ->
       get d (S i) (S nx) = ghost_high kE (get d0 i (nx - 1)) (get d0 i (nx - 2))) /\
    (fN = true -> forall j, (j < nx)%nat ->
       get d 0 (S j) = ghost_low kN (get d0 0 j) (get d0 1 j) (get d0 (ny - 1) j)) /\
    (fS = true -> forall j, (j < nx)%nat ->
       get d (S ny) (S j) = ghost_high kS (get d0 (ny - 1) j) (get d0 (ny - 2) j)) /\
    (all_fin ny nx d0 ->
       (fW && fN = true -> is_fin (get d 0 0) = true) /\
       (fE && fN = true -> is_fin (get d 0 (S nx)) = true) /\
       (fW && fS = true -> is_fin (get d (S ny) 0) = true) /\
       (fE && fS = true -> is_fin (get d (S ny) (S nx)) = true)).

(** The instance after the head of [BC_Rigidity], array [Te]: the four
    boundary types selected, [Te] kept as [Te_unpadded], [Te] and [D]
    between NaN borders. *)
Definition padded_instance (s : State) (t d0 : array) (kW kE kN kS : string) : State :=
  with_attr "D" (VArr (vstack_nan (hstack_nan d0)))
    (with_attr "Te" (VArr (vstack_nan (hstack_nan t)))
       (with_attr "Te_unpadded" (VArr t)
          (with_attr "BC_Rigidity_S" (VStr kS)
             (with_attr "BC_Rigidity_N" (VStr kN)
                (with_attr "BC_Rigidity_E" (VStr kE)
                   (with_attr "BC_Rigidity_W" (VStr kW) s)))))).

(** The rigidity of a scalar elastic thickness on the way through the
    twelve boundary statements: [D] is the [ny] by [nx] grid that holds
    [c] everywhere, and nothing but [D] differs from [s1]. *)
Definition uniform_inv (ny nx : nat) (c : Qc) (s1 s : State) : Prop :=
  (forall k, k <> "D" -> self s k = self s1 k) /\
  self s "D" = Some (VArr (full ny nx (Fin c))).

(** The instance after the selection of the boundary types and the
    broadcast of a scalar rigidity over the grid of the loads. *)
Definition uniform_instance (s : State) (ny nx : nat) (c : Qc)
  (kW kE kN kS : string) : State :=
  with_attr "D" (VArr (full ny nx (Fin c)))
    (with_attr "BC_Rigidity_S" (VStr kS)
      (with_attr "BC_Rigidity_N" (VStr kN)
        (with_attr "BC_Rigidity_E" (VStr kE)
          (with_attr "BC_Rigidity_W" (VStr kW) s)))).

(** The attributes that the construction of the operator leaves alone
    and that the code after it reads: the start time of the construction
    and, for [fd_solve], the loads, the solver label, the three flags and
    what the messages print. *)
Definition carried_over : list string :=
  ["coeff_start_time"; "q0"; "solver"; "Debug"; "Verbose"; "Quiet";
   "maxFlexuralWavelength_ncells_x"; "maxFlexuralWavelength_ncells_y";
   "iterative_ConvergenceTolerance"].

(** The twenty-one diagonals of the operator with a Periodic North-South
    pair: the thirteen of the stencil between the four that wrap from the
    last rows to the first and the four that wrap from the first rows to
    the last. *)
Definition offsets21 (ny nx : Z) : list Z :=
  [nx - ny * nx - 1; nx - ny * nx; nx - ny * nx + 1; 2 * nx - ny * nx;
   -2 * nx; - nx - 1; - nx; - nx + 1; -2; -1; 0; 1; 2;
   nx - 1; nx; nx + 1; 2 * nx;
   ny * nx - 2 * nx; ny * nx - nx - 1; ny * nx - nx; ny * nx - nx + 1].

(** The seventeen diagonals of the operator with a Periodic West-East
    pair: the thirteen of the stencil and the four that close a row of
    the grid on itself. *)
Definition offsets17 (nx : Z) : list Z :=
  [-2 * nx; -2 * nx + 1; - nx - 1; - nx; - nx + 1; - nx + 2;
   -2; -1; 0; 1; 2;
   nx - 2; nx - 1; nx; nx + 1; 2 * nx - 1; 2 * nx].

(** The four additional arrays of a Periodic West-East pair. *)
Definition periodic_names : list string :=
  ["cj_1i1_Periodic_right"; "cj_2i0_Periodic_right";
   "cj1i_1_Periodic_left"; "cj2i0_Periodic_left"].
(* ================================================================== *)
(** * Superposition of analytical solutions, scattered points *)

Module SAS.

Local Open Scope R_scope.

(** The material constants read by [spatialDomainVars]. *)
Record Plate : Type := {
  E : R;
  Te : R;
  nu : R;
  drho : R;
  g : R
}.

(** What [spatialDomainVars] stores: [self.D], [self.alpha], [self.coeff]. *)
Record Vars : Type := {
  D : R;
  alpha : R;
  coeff : R
}.

(** [F2D.spatialDomainVars]; [x ** .25] is the real power. *)
Definition spatialDomainVars (p : Plate) : Vars :=
  let D := E p * Te p ^ 3 / (12 * (1 - nu p ^ 2)) in
  let alpha := Rpower (D / (drho p * g p)) (1 / 4) in
  {| D := D; alpha := alpha; coeff := alpha ^ 2 / (2 * PI * D) |}.

Section NoGrid.

(** [scipy.special.kei], the Kelvin function. *)
Variable kei : R -> R.

(** [np.sqrt((self.x - x0)**2 + (self.y - y0)**2)] *)
Definition distances (x y : list R) (x0 y0 : R) : list R :=
  map (fun p => sqrt ((fst p - x0) ^ 2 + (snd p - y0) ^ 2)) (combine x y).

(** Elementwise sum of two 1-D arrays of one length. *)
Definition vadd (u v : list R) : list R :=
  map (fun p => fst p + snd p) (combine u v).

(** One turn of the loop: the load at point [i] deflects every point. *)
Definition add_point (v : Vars) (x y q0 : list R) (w : list R) (i : nat) : list R :=
  let x0 := nth i x 0 in
  let y0 := nth i y 0 in
  let r := distances x y x0 y0 in
  vadd w (map (fun ri => nth i q0 0 * coeff v * kei (ri / alpha v)) r).

(** [F2D.spatialDomainNoGrid]: [self.w], from [np.zeros(self.q0.shape)]
    and one turn for each [i] in [range(len(self.x))]. *)
Definition spatialDomainNoGrid (v : Vars) (x y q0 : list R) : list R :=
  fold_left (add_point v x y q0) (seq 0 (length x)) (map (fun _ => 0) q0).

(** The contribution to point [k] of the load at point [i]. *)
Definition contribution (v : Vars) (x y q0 : list R) (k i : nat) : R :=
  nth i q0 0 * coeff v
  * kei (sqrt ((nth k x 0 - nth i x 0) ^ 2 + (nth k y 0 - nth i y 0) ^ 2) / alpha v).

Definition sum_over (l : list nat) (f : nat -> R) : R :=
  fold_right (fun i acc => f i + acc) 0 l.

(** The deflection at point [k] as a sum over every point, [k] included. *)
Definition sum_all_points (v : Vars) (x y q0 : list R) (k : nat) : R :=
  sum_over (seq 0 (length x)) (contribution v x y q0 k).

(** The deflection at point [k] as the specification words it: a sum
    over every other point, the point's own contribution excluded. *)
Definition sum_other_points (v : Vars) (x y q0 : list R) (k : nat) : R :=
  sum_over (filter (fun i => negb (Nat.eqb i k)) (seq 0 (length x)))
           (contribution v x y q0 k).

End NoGrid.

(** A single unit load at the origin on a plate with D = alpha = 1. *)
Definition unit_plate : Plate := {| E := 12; Te := 1; nu := 0; drho := 1; g := 1 |}.

End SAS.

(* ================================================================== *)
(** * Loads for the scattered-point solve *)

Module SASLoads.

Local Open Scope R_scope.

(** The load [a q + b q'] of two load vectors of one length. *)
Definition superpose (a b : R) (q q' : list R) : list R :=
  map (fun p => a * fst p + b * snd p) (combine q q').

(** A unit load at point [i] of [n] points. *)
Definition unit_load (n i : nat) : list R :=
  map (fun j => if Nat.eqb j i then 1 else 0) (seq 0 n).

End SASLoads.

(* ================================================================== *)
(** * Superposition of analytical solutions on the grid *)

Module SASGridded.

Import SAS.
Local Open Scope R_scope.

(** A 2-D array of floats, row by row. *)
Definition grid := list (list R).

Definition cell (a : grid) (r c : nat) : R := nth c (nth r a []) 0.

Definition gshaped (ny nx : nat) (a : grid) : Prop :=
  length a = ny /\ Forall (fun row => length row = nx) a.

(** What [spatialDomainGridded] stores on the instance. *)
Record Gridded : Type := {
  nx : nat;
  x : list R;
  ny : nat;
  y : list R;
  w : grid
}.

(** [np.arange(0, step * n, step)] in exact arithmetic: the [n] multiples
    of a nonzero step; with a zero step NumPy raises ([None]). *)
Definition arange (n : nat) (step : R) : option (list R) :=
  if Req_dec_T step 0 then None
  else Some (map (fun k => INR k * step) (seq 0 n)).

(** [a[r0:r1, c0:c1]] for bounds that are not negative. *)
Definition window (a : grid) (r0 r1 c0 c1 : nat) : grid :=
  map (fun row => firstn (c1 - c0) (skipn c0 row)) (firstn (r1 - r0) (skipn r0 a)).

(** Elementwise sum of two arrays of one shape, and [k * a]. *)
Definition madd (a b : grid) : grid :=
  map (fun p => vadd (fst p) (snd p)) (combine a b).

Definition scale (k : R) (a : grid) : grid := map (map (fun e => k * e)) a.

Section Gridded.

(** [scipy.special.kei], the Kelvin function. *)
Variable kei : R -> R.

Variable v : Vars.
Variables dx dy : R.

(** [bigdist]: the distance from the centre [ny, nx] of the grid of
    shape [2 ny + 1] by [2 nx + 1], from
    [np.meshgrid(dist_nx * dx, dist_ny * dy)]. *)
Definition bigdist (ny nx a b : nat) : R :=
  sqrt (((INR b - INR nx) * dx) ^ 2 + ((INR a - INR ny) * dy) ^ 2).

(** [biggrid = self.coeff * kei(bigdist / self.alpha)]: the solution for
    a unit load, prepared beforehand. *)
Definition biggrid (ny nx : nat) : grid :=
  map (fun a => map (fun b => coeff v * kei (bigdist ny nx a b / alpha v))
                    (seq 0 (2 * nx + 1)))
      (seq 0 (2 * ny + 1)).

(** The body of the two loops: a cell that has a load adds its share of
    [biggrid], the origin moved to the cell. *)
Definition add_load (ny nx : nat) (q0 : grid) (w : grid) (i j : nat) : grid :=
  if Req_dec_T (cell q0 j i) 0 then w
  else madd w (scale (cell q0 j i * dx * dy)
                     (window (biggrid ny nx) (ny - j) (2 * ny - j) (nx - i) (2 * nx - i))).

(** [F2D.spatialDomainGridded].  [self.y] is computed from [dx] and [nx],
    as the source has it. *)
Definition spatialDomainGridded (q0 : grid) : option Gridded :=
  let nx := length (hd [] q0) in
  match arange nx dx with
  | None => None
  | Some x =>
      let ny := length q0 in
      match arange nx dx with
      | None => None
      | Some y =>
          let zeros := map (fun _ => map (fun _ => 0) (seq 0 nx)) (seq 0 ny) in
          Some {| nx := nx; x := x; ny := ny; y := y;
                  w := fold_left
                         (fun w i => fold_left (fun w j => add_load ny nx q0 w i j)
                                               (seq 0 ny) w)
                         (seq 0 nx) zeros |}
      end
  end.

(** The deflection at cell [(r, c)] due to a unit of load per area at
    cell [(j, i)]. *)
Definition kernel (r c j i : nat) : R :=
  coeff v * kei (sqrt (((INR c - INR i) * dx) ^ 2 + ((INR r - INR j) * dy) ^ 2) / alpha v).

(** The sum over every cell of the grid of its load times the kernel. *)
Definition convolution (ny nx : nat) (q0 : grid) (r c : nat) : R :=
  sum_over (seq 0 nx) (fun i =>
    sum_over (seq 0 ny) (fun j => cell q0 j i * dx * dy * kernel r c j i)).

End Gridded.

End SASGridded.

(* ================================================================== *)
(** * The maximum flexural wavelength *)

Module FlexuralWavelength.

Local Open Scope R_scope.

(** [self.D]: a scalar, or an array ([np.isscalar] tells them apart). *)
Inductive rigidity : Type :=
| Scalar (d : R)
| Grid (a : list (list R)).

(** [a.max()]; of an array without elements it is a [ValueError]. *)
Definition array_max (a : list (list R)) : option R :=
  match concat a with
  | [] => None
  | h :: t => Some (fold_left Rmax t h)
  end.

(** [x ** .25]: the real power of a positive base, 0 of 0; of a negative
    base Python raises and NumPy gives NaN, which [int] refuses. *)
Definition quarter_power (x : R) : option R :=
  if Rlt_dec 0 x then Some (Rpower x (1 / 4))
  else if Req_dec_T x 0 then Some 0
  else None.

(** [int(np.ceil(x))] *)
Definition ceil (x : R) : Z := (- Int_part (- x))%Z.

(** What [calc_max_flexural_wavelength] stores. *)
Record Wavelength : Type := {
  maxFlexuralWavelength : R;
  maxFlexuralWavelength_ncells_x : Z;
  maxFlexuralWavelength_ncells_y : Z
}.

(** [F2D.calc_max_flexural_wavelength]; [None] stands for the exception
    that a zero divisor, a negative base or an empty array ends in. *)
Definition calc_max_flexural_wavelength (D : rigidity) (drho g dx dy : R)
  : option Wavelength :=
  match (match D with Scalar d => Some d | Grid a => array_max a end) with
  | None => None
  | Some Dmax =>
      if Req_dec_T (drho * g) 0 then None
      else
        match quarter_power (4 * Dmax / (drho * g)) with
        | None => None
        | Some alpha =>
            let lambda := 2 * PI * alpha in
            if Req_dec_T dx 0 then None
            else if Req_dec_T dy 0 then None
            else Some {| maxFlexuralWavelength := lambda;
                         maxFlexuralWavelength_ncells_x := ceil (lambda / dx);
                         maxFlexuralWavelength_ncells_y := ceil (lambda / dy) |}
        end
  end.

End FlexuralWavelength.
(* ------------------------------------------------------------------ *)
(** ** Facts about arrays *)

Lemma shaped_nrows ny nx a : shaped ny nx a -> nrows a = ny.
Proof. now intros [H _]. Qed.

Lemma shaped_ncols ny nx a : shaped ny nx a -> (0 < ny)%nat -> ncols a = nx.
Proof.
  intros [Hl Hr] Hpos. unfold ncols.
  destruct a as [|r a']; simpl in *; [lia|].
  now inversion Hr.
Qed.

Lemma shaped_row ny nx a i :
  shaped ny nx a -> (i < ny)%nat -> length (nth i a []) = nx.
Proof.
  intros [Hl Hr] Hi. rewrite Forall_forall in Hr.
  apply Hr, nth_In. lia.
Qed.

Lemma tabulate_shaped ny nx f : shaped ny nx (tabulate ny nx f).
Proof.
  unfold tabulate; split.
  - now rewrite length_map, length_seq.
  - rewrite Forall_forall. intros row Hin.
    apply in_map_iff in Hin as [i [<- _]].
    now rewrite length_map, length_seq.
Qed.

Lemma get_tabulate ny nx f i j :
  (i < ny)%nat -> (j < nx)%nat -> get (tabulate ny nx f) i j = f i j.
Proof.
  intros Hi Hj. unfold get, tabulate.
  rewrite (nth_indep _ [] (map (f 0%nat) (seq 0 nx)))
    by now rewrite length_map, length_seq.
  rewrite (map_nth (fun i => map (f i) (seq 0 nx)) (seq 0 ny) 0%nat i).
  rewrite seq_nth by assumption. simpl.
  rewrite (nth_indep _ NaN (f i 0%nat)) by now rewrite length_map, length_seq.
  rewrite (map_nth (f i) (seq 0 nx) 0%nat j).
  now rewrite seq_nth.
Qed.

Lemma tabulate_ext ny nx f g :
  (forall i j, (i < ny)%nat -> (j < nx)%nat -> f i j = g i j) ->
  tabulate ny nx f = tabulate ny nx g.
Proof.
  intros H. unfold tabulate.
  apply map_ext_in. intros i Hi. apply in_seq in Hi.
  apply map_ext_in. intros j Hj. apply in_seq in Hj.
  apply H; lia.
Qed.

(** Two arrays of one shape with the same entries are equal. *)
Lemma array_ext ny nx a b :
  shaped ny nx a -> shaped ny nx b ->
  (forall i j, (i < ny)%nat -> (j < nx)%nat -> get a i j = get b i j) ->
  a = b.
Proof.
  intros Ha Hb H.
  apply (nth_ext a b [] []).
  - destruct Ha, Hb; congruence.
  - intros i Hi. assert (Hi' : (i < ny)%nat) by (destruct Ha; lia).
    apply (nth_ext _ _ NaN NaN).
    + now rewrite (shaped_row ny nx a), (shaped_row ny nx b).
    + intros j Hj. rewrite (shaped_row ny nx a) in Hj by assumption.
      now apply H.
Qed.

Lemma tabulate_get ny nx a :
  shaped ny nx a -> tabulate ny nx (get a) = a.
Proof.
  intros Ha. apply (array_ext ny nx); auto using tabulate_shaped.
  intros. now apply get_tabulate.
Qed.

(* ================================================================== *)
(** * Reasoning about commands *)

Lemma wp_bind {A B} (m : M A) (k : A -> M B) Q s :
  wp m (cont k Q) s -> wp (bind m k) Q s.
Proof.
  unfold wp, bind, cont. destruct (m s) as [[a|msg|exc] s']; simpl; auto.
Qed.

Lemma wp_bind_inv {A B} (m : M A) (k : A -> M B) Q s :
  wp (bind m k) Q s -> wp m (cont k Q) s.
Proof.
  unfold wp, bind, cont. destruct (m s) as [[a|msg|exc] s']; simpl; auto.
Qed.

Lemma wp_conseq {A} (m : M A) (Q Q' : Res A -> State -> Prop) s :
  wp m Q s -> (forall r s', Q r s' -> Q' r s') -> wp m Q' s.
Proof. unfold wp. auto. Qed.

Lemma wp_run {A} (m : M A) Q s :
  wp m Q s -> exists r s', m s = (r, s') /\ Q r s'.
Proof.
  unfold wp. intros H. exists (fst (m s)), (snd (m s)). split; [|exact H].
  now destruct (m s).
Qed.

Lemma wp_run_exit {A} (m : M A) msg (P R : State -> Prop) s :
  wp m (fun r s' => r = Exit msg /\ P s') s ->
  (forall s', P s' -> R s') ->
  exists s', m s = (Exit msg, s') /\ R s'.
Proof.
  intros H HR. destruct (wp_run _ _ _ H) as (r & s' & Hrun & -> & HP).
  exists s'. auto.
Qed.

Lemma wp_of_run {A} (m : M A) (Q : Res A -> State -> Prop) s r s' :
  m s = (r, s') -> Q r s' -> wp m Q s.
Proof. unfold wp. now intros ->. Qed.

Lemma wp_ret {A} (a : A) Q s : Q (Ok a) s -> wp (ret a) Q s.
Proof. exact (fun H => H). Qed.

Lemma wp_eval e (r : Res pyval) Q s : e s = r -> Q r s -> wp (eval e) Q s.
Proof. unfold wp, eval. simpl. now intros ->. Qed.

Lemma wp_setattr k v Q s : Q (Ok tt) (with_attr k v s) -> wp (setattr k v) Q s.
Proof. exact (fun H => H). Qed.

Lemma wp_print l Q s : Q (Ok tt) (with_line l s) -> wp (print l) Q s.
Proof. exact (fun H => H). Qed.

Lemma wp_time Q s :
  Q (Ok (VNum (Fin (clock s (ticks s))))) (tick s) -> wp time_time Q s.
Proof. exact (fun H => H). Qed.

Lemma wp_lift {A} (r : Res A) Q s : Q r s -> wp (lift r) Q s.
Proof. exact (fun H => H). Qed.

Lemma wp_raise {A} exc (Q : Res A -> State -> Prop) s :
  Q (Raise exc) s -> wp (raise exc) Q s.
Proof. exact (fun H => H). Qed.

Lemma wp_exit {A} msg (Q : Res A -> State -> Prop) s :
  Q (Exit msg) s -> wp (sys_exit msg) Q s.
Proof. exact (fun H => H). Qed.

(** Evaluation of expressions. *)
Lemma attr_ok s k v : self s k = Some v -> attr k s = Ok v.
Proof. unfold attr. now intros ->. Qed.

Lemma attr_missing s k : self s k = None -> attr k s = Raise "AttributeError".
Proof. unfold attr. now intros ->. Qed.

Lemma ev_ebind e k s v r : e s = Ok v -> k v = r -> ebind e k s = r.
Proof. unfold ebind. now intros -> ->. Qed.

Lemma ev_ebind2 e1 e2 k s v1 v2 r :
  e1 s = Ok v1 -> e2 s = Ok v2 -> k v1 v2 = r -> ebind2 e1 e2 k s = r.
Proof. unfold ebind2. now intros -> -> ->. Qed.

(** Normalise attribute lookups down to facts about the initial state. *)
Ltac lookup :=
  cbn [self stdout clock ticks with_attr with_line tick insert
       String.eqb Ascii.eqb Bool.eqb andb];
  repeat match goal with
         | H : self ?s ?k = _ |- context [self ?s ?k] => rewrite H
         end.

Ltac ev :=
  idtac;
  lazymatch goal with
  | |- attr _ _ = _ => apply attr_ok; lookup; first [eassumption | reflexivity]
  | |- lit _ _ = _ => reflexivity
  | |- flt _ _ = _ => reflexivity
  | |- np_inf _ = _ => reflexivity
  | |- np_nan _ = _ => reflexivity
  | |- ebind _ _ _ = _ => eapply ev_ebind; [ev | cbv beta; try reflexivity]
  | |- ebind2 _ _ _ _ = _ => eapply ev_ebind2; [ev | ev | cbv beta; try reflexivity]
  | |- eadd _ _ _ = _ => unfold eadd at 1; ev
  | |- esub _ _ _ = _ => unfold esub at 1; ev
  | |- emul _ _ _ = _ => unfold emul at 1; ev
  | |- ediv _ _ _ = _ => unfold ediv at 1; ev
  | |- eneg _ _ = _ => unfold eneg at 1; ev
  | |- epow _ _ _ = _ => unfold epow at 1; ev
  | |- copy _ _ = _ => unfold copy at 1; ev
  | |- np_reshape_flat _ _ = _ => unfold np_reshape_flat at 1; ev
  | |- np_roll _ _ _ _ = _ => unfold np_roll at 1; ev
  | |- np_ones _ _ = _ => unfold np_ones, np_full at 1; ev
  | |- np_zeros _ _ = _ => unfold np_zeros, np_full at 1; ev
  | |- col _ _ _ = _ => unfold col at 1; ev
  | |- row _ _ _ = _ => unfold row at 1; ev
  | |- cell _ _ _ _ = _ => unfold cell at 1; ev
  | |- eslice _ _ _ _ _ _ = _ => unfold eslice at 1; ev
  | |- pad_nan _ _ = _ => unfold pad_nan at 1; ev
  | |- _ => cbv beta; first [reflexivity | eassumption]
  end.

(** One step of a [wp] goal. *)
Ltac wp_step :=
  lazymatch goal with
  | |- wp (bind _ _) _ _ => apply wp_bind
  | |- wp (ifM _ _ _) _ _ => unfold ifM at 1; apply wp_bind
  | |- wp (whenM _ _) _ _ => unfold whenM at 1, ifM at 1; apply wp_bind
  | |- wp (orM _ _) _ _ => unfold orM at 1; apply wp_bind
  | |- wp (andM _ _) _ _ => unfold andM at 1; apply wp_bind
  | |- wp (is_ _ _) _ _ => unfold is_ at 1; apply wp_bind
  | |- wp (flag _) _ _ => unfold flag at 1; apply wp_bind
  | |- wp not_Quiet _ _ => unfold not_Quiet at 1; apply wp_bind
  | |- wp (assign _ _) _ _ => unfold assign at 1; apply wp_bind
  | |- wp (int_attr _) _ _ => unfold int_attr at 1; apply wp_bind
  | |- wp (ret _) _ _ => apply wp_ret
  | |- wp (eval _) _ _ => eapply wp_eval; [ev|]
  | |- wp (setattr _ _) _ _ => apply wp_setattr
  | |- wp (print _) _ _ => apply wp_print
  | |- wp time_time _ _ => apply wp_time
  | |- wp (lift _) _ _ => apply wp_lift
  | |- wp (call _) _ _ => unfold call at 1; apply wp_lift
  | |- wp (raise _) _ _ => apply wp_raise
  | |- wp (sys_exit _) _ _ => apply wp_exit
  | |- cont _ _ _ _ =>
      cbn [cont shape_tuple shape_of py_neg py_arith py_div py_pow fst snd]
  end.

Ltac wp_steps := repeat wp_step.

(* ================================================================== *)
(** * The linear solve *)

Lemma try_print_Te_shape_spec Q s :
  (forall l, Q (Ok tt) (with_line l s)) -> wp try_print_Te_shape Q s.
Proof.
  intros H. unfold wp, try_print_Te_shape.
  destruct (ebind (attr "Te") shape_tuple s); apply H.
Qed.

Lemma reshape_like_ok x q :
  length x = (nrows q * ncols q)%nat ->
  py_neg (match reshape_like x (VArr q) with Ok v => v | _ => VNone end) = Ok (VArr (negated x q))
  /\ reshape_like x (VArr q) = Ok (VArr (tabulate (nrows q) (ncols q) (fun i j => nth (i * ncols q + j) x NaN))).
Proof.
  intros H. unfold reshape_like. rewrite H, Nat.eqb_refl. split; reflexivity.
Qed.

Ltac wp_case :=
  lazymatch goal with
  | |- wp (if ?b then _ else _) _ _ => destruct b eqn:?
  | |- wp (match ?x with _ => _ end) _ _ => cbv iota
  end.

Lemma debug_block_spec s q Q :
  printable s -> self s "q0" = Some (VArr q) ->
  (forall s', self s' = self s -> Q (Ok tt) s') ->
  wp (whenM (flag "Debug")
    (try_print_Te_shape ;;
     shp <- eval (ebind (attr "q0") shape_tuple) ;;
     print [VStr "self.q0"; shp] ;;
     ncx <- eval (attr "maxFlexuralWavelength_ncells_x") ;;
     ncy <- eval (attr "maxFlexuralWavelength_ncells_y") ;;
     print [VStr "maxFlexuralWavelength_ncells: (x, y):"; ncx; ncy])) Q s.
Proof.
  intros [[vd [HD Hm]] _] Hq HQ.
  wp_steps. destruct (truthy vd) eqn:Ht.
  - destruct (Hm eq_refl) as [Hx Hy].
    destruct (self s "maxFlexuralWavelength_ncells_x") as [vx|] eqn:Ex; [|congruence].
    destruct (self s "maxFlexuralWavelength_ncells_y") as [vy|] eqn:Ey; [|congruence].
    wp_steps. apply try_print_Te_shape_spec. intros l. wp_steps.
    apply HQ. reflexivity.
  - wp_steps. now apply HQ.
Qed.

Ltac transfer Hs :=
  repeat match goal with
         | H : self ?s ?k = _ |- _ =>
             lazymatch type of Hs with
             | self ?s' = self s => rewrite <- Hs in H
             end
         end.

Lemma solved_intro s s0 s' x q :
  self s0 = self s ->
  self s' = insert "w_padded" (VArr (negated x q)) (insert "w" (VArr (negated x q)) (self s0)) ->
  solved s s' (negated x q).
Proof.
  intros H0 H. unfold solved. rewrite H, H0. unfold insert. cbn. repeat split.
  intros k Hw Hp.
  apply String.eqb_neq in Hw, Hp. now rewrite Hw, Hp.
Qed.


Ltac flags_cases vd vv Htol H1 :=
  destruct (truthy vd); wp_steps;
  (destruct (truthy vv) eqn:?;
   [ match goal with
     | |- context [attr "iterative_ConvergenceTolerance"] =>
         let vt := fresh "vt" in
         let Et := fresh "Et" in
         destruct (self _ "iterative_ConvergenceTolerance") as [vt|] eqn:Et in Htol;
         [| exfalso; now apply Htol]; rewrite <- H1 in Et
     | _ => idtac
     end | ]);
  wp_steps.

Lemma fd_solve_any scipy s label A q (Q : Res unit -> State -> Prop) :
  printable s ->
  self s "solver" = Some (VStr label) ->
  self s "q0" = Some (VArr q) ->
  self s "coeff_matrix" = Some (VMat A) ->
  (forall s1, self s1 = self s ->
     cont (fun wvector : vector =>
             q0 <- eval (attr "q0") ;;
             assign "w" (- (fun _ => reshape_like wvector q0)) ;;
             assign "w_padded" (copy (attr "w"))) Q
          (solver_result scipy label A (flatten q)) s1) ->
  wp (fd_solve scipy) Q s.
Proof.
  intros Hp Hs Hq HA HK. unfold fd_solve.
  apply wp_bind. apply (debug_block_spec s q); auto.
  intros s1 H1. cbn [cont].
  destruct Hp as [[vd [HD _]] [[vv [HV Htol]] [vq HQ]]].
  transfer H1.
  unfold solver_result, is_iterative in HK.
  wp_steps. cbn [str_eq].
  destruct (String.eqb label "iterative") eqn:E1; cbn [orb] in HK.
  { wp_steps. flags_cases vd vv Htol H1;
    match goal with
    | |- cont _ _ _ ?st =>
        specialize (HK st H1);
        destruct (lgmres scipy A (flatten q) lgmres_default_tol) as [[x info]| |];
        [cbn [cont]; apply wp_ret; exact HK | exact HK ..]
    end. }
  wp_steps. cbn [str_eq].
  destruct (String.eqb label "Iterative") eqn:E2; cbn [orb] in HK.
  { wp_steps. flags_cases vd vv Htol H1;
    match goal with
    | |- cont _ _ _ ?st =>
        specialize (HK st H1);
        destruct (lgmres scipy A (flatten q) lgmres_default_tol) as [[x info]| |];
        [cbn [cont]; apply wp_ret; exact HK | exact HK ..]
    end. }
  wp_steps. cbn [str_eq].
  destruct (String.eqb label "direct") eqn:E3.
  { wp_steps. destruct (truthy vd); wp_steps;
    match goal with |- cont _ _ _ ?st => exact (HK st H1) end. }
  wp_steps. cbn [str_eq].
  destruct (String.eqb label "Direct") eqn:E4.
  { wp_steps. destruct (truthy vd); wp_steps;
    match goal with |- cont _ _ _ ?st => exact (HK st H1) end. }
  wp_steps. destruct (is_False vq); wp_steps;
    match goal with |- cont _ _ _ ?st => exact (HK st H1) end.
Qed.

Lemma fd_solve_ok scipy s label A q x :
  printable s ->
  self s "solver" = Some (VStr label) ->
  self s "q0" = Some (VArr q) ->
  self s "coeff_matrix" = Some (VMat A) ->
  solver_result scipy label A (flatten q) = Ok x ->
  length x = (nrows q * ncols q)%nat ->
  wp (fd_solve scipy) (fun r s' => r = Ok tt /\ solved s s' (negated x q)) s.
Proof.
  intros Hp Hs Hq HA Hx Hl.
  apply (fd_solve_any scipy s label A q); auto.
  intros s1 H1. rewrite Hx. cbn [cont].
  transfer H1. destruct (reshape_like_ok x q Hl) as [_ Hr].
  wp_steps. split; [reflexivity|].
  eapply solved_intro; [exact H1 | reflexivity].
Qed.

Lemma fd_solve_raise scipy s label A q exc :
  printable s ->
  self s "solver" = Some (VStr label) ->
  self s "q0" = Some (VArr q) ->
  self s "coeff_matrix" = Some (VMat A) ->
  solver_result scipy label A (flatten q) = Raise exc ->
  wp (fd_solve scipy) (fun r s' => r = Raise exc /\ self s' = self s) s.
Proof.
  intros Hp Hs Hq HA Hx.
  apply (fd_solve_any scipy s label A q); auto.
  intros s1 H1. rewrite Hx. cbn [cont]. now split.
Qed.

Lemma printable_with_tolerance v s :
  printable s -> printable (with_attr "iterative_ConvergenceTolerance" v s).
Proof.
  intros [[vd [HD Hm]] [[vv [HV Ht]] [vq HQ]]].
  unfold printable. lookup.
  split; [|split].
  - exists vd. now split.
  - exists vv. split; [reflexivity|]. intros _. discriminate.
  - now exists vq.
Qed.

Lemma is_iterative_false label :
  label <> "iterative" -> label <> "Iterative" -> is_iterative label = false.
Proof.
  intros H1 H2. unfold is_iterative.
  apply String.eqb_neq in H1, H2. now rewrite H1, H2.
Qed.

(** C3 (as amended).  [fd_solve] checks nothing itself.  Whatever vector
    the SciPy routine returns (from [lgmres] with any convergence flag,
    the flag being dropped; from [spsolve] whatever its entries) is
    negated, reshaped, stored as [w], and [fd_solve] returns normally.
    A failure surfaces only when the routine itself raises; then the
    exception propagates and no attribute has changed. *)
Theorem fd_solve_surfaces_only_library_exceptions scipy s label A q r :
  printable s ->
  self s "solver" = Some (VStr label) ->
  self s "q0" = Some (VArr q) ->
  self s "coeff_matrix" = Some (VMat A) ->
  solver_result scipy label A (flatten q) = r ->
  match r with
  | Ok x =>
      length x = (nrows q * ncols q)%nat ->
      exists s', fd_solve scipy s = (Ok tt, s') /\ solved s s' (negated x q)
  | Exit msg => exists s', fd_solve scipy s = (Exit msg, s') /\ self s' = self s
  | Raise exc => exists s', fd_solve scipy s = (Raise exc, s') /\ self s' = self s
  end.
Proof.
  intros Hp Hs Hq HA Hr. destruct r as [x|msg|exc].
  - intros Hl.
    destruct (wp_run _ _ _ (fd_solve_ok scipy s label A q x Hp Hs Hq HA Hr Hl))
      as (r & s' & Hrun & -> & Hsol).
    now exists s'.
  - assert (H : wp (fd_solve scipy) (fun r s' => r = Exit msg /\ self s' = self s) s).
    { apply (fd_solve_any scipy s label A q); auto.
      intros s1 H1. rewrite Hr. cbn [cont]. now split. }
    destruct (wp_run _ _ _ H) as (r & s' & Hrun & -> & Hself). now exists s'.
  - destruct (wp_run _ _ _ (fd_solve_raise scipy s label A q exc Hp Hs Hq HA Hr))
      as (r & s' & Hrun & -> & Hself).
    now exists s'.
Qed.

Lemma printable_ready label tol : printable (ready_to_solve label tol).
Proof.
  repeat split.
  - exists (VBool false). split; [reflexivity | discriminate].
  - exists (VBool false). split; [reflexivity | discriminate].
  - exists (VBool false). reflexivity.
Defined.

Lemma fd_solve_surfaces_only_library_exceptions_witness :
  exists s',
    fd_solve scipy_failing (ready_to_solve "iterative" (Q2Qc (1 # 1000)))
    = (Ok tt, s') /\
    solved (ready_to_solve "iterative" (Q2Qc (1 # 1000))) s'
      (negated [vzero; vzero; vzero; vzero] (grid [[0; 1]; [0; 0]])).
Proof.
  apply (fd_solve_surfaces_only_library_exceptions scipy_failing
           (ready_to_solve "iterative" (Q2Qc (1 # 1000))) "iterative" identity4
           (grid [[0; 1]; [0; 0]]) (Ok [vzero; vzero; vzero; vzero])).
  - apply printable_ready.
  - reflexivity.
  - reflexivity.
  - reflexivity.
  - reflexivity.
  - reflexivity.
Defined.

(** C3, counterexample.  The iterative solver reports non-convergence
    (flag 1) and the direct solver returns NaN for a singular system;
    both times [fd_solve] returns normally and stores a deflection, all
    NaN in the direct case. *)
Lemma fd_solve_masks_solver_failure :
  lgmres scipy_failing identity4 [num 0; num 1; num 0; num 0] lgmres_default_tol
  = Ok ([vzero; vzero; vzero; vzero], 1) /\
  fst (fd_solve scipy_failing (ready_to_solve "iterative" (Q2Qc (1 # 1000)))) = Ok tt /\
  self (snd (fd_solve scipy_failing (ready_to_solve "iterative" (Q2Qc (1 # 1000))))) "w"
  <> None /\
  fst (fd_solve scipy_failing (ready_to_solve "direct" (Q2Qc (1 # 1000)))) = Ok tt /\
  self (snd (fd_solve scipy_failing (ready_to_solve "direct" (Q2Qc (1 # 1000))))) "w"
  = Some (VArr [[NaN; NaN]; [NaN; NaN]]).
Proof.
  repeat split; try (vm_compute; reflexivity).
  vm_compute. discriminate.
Qed.

(** C4.  In iterative mode [lgmres] is called at its default tolerance:
    whatever value [iterative_ConvergenceTolerance] is set to, the stored
    deflection is the iterate that [lgmres] returns for the default
    tolerance.  The configured tolerance is only printed. *)
Theorem fd_solve_ignores_configured_tolerance scipy s label tol A q x info :
  printable s ->
  self s "solver" = Some (VStr label) ->
  is_iterative label = true ->
  self s "q0" = Some (VArr q) ->
  self s "coeff_matrix" = Some (VMat A) ->
  lgmres scipy A (flatten q) lgmres_default_tol = Ok (x, info) ->
  length x = (nrows q * ncols q)%nat ->
  exists s',
    fd_solve scipy (with_attr "iterative_ConvergenceTolerance" (VNum (Fin tol)) s)
    = (Ok tt, s') /\
    self s' "w" = Some (VArr (negated x q)).
Proof.
  intros Hp Hs Hit Hq HA Hx Hl.
  set (s0 := with_attr "iterative_ConvergenceTolerance" (VNum (Fin tol)) s).
  assert (Hr : solver_result scipy label A (flatten q) = Ok x).
  { unfold solver_result. now rewrite Hit, Hx. }
  destruct (wp_run _ _ _
              (fd_solve_ok scipy s0 label A q x
                 (printable_with_tolerance _ s Hp) Hs Hq HA Hr Hl))
    as (r & s' & Hrun & -> & Hw & _).
  now exists s'.
Qed.

Lemma fd_solve_ignores_configured_tolerance_witness :
  exists s',
    fd_solve scipy_identity
      (with_attr "iterative_ConvergenceTolerance" (VNum (Fin (Q2Qc (1 # 10000000000))))
         (ready_to_solve "iterative" (Q2Qc (1 # 1000))))
    = (Ok tt, s') /\
    self s' "w"
    = Some (VArr (negated [num 0; num 1; num 0; num 0] (grid [[0; 1]; [0; 0]]))).
Proof.
  apply (fd_solve_ignores_configured_tolerance scipy_identity
           (ready_to_solve "iterative" (Q2Qc (1 # 1000))) "iterative"
           (Q2Qc (1 # 10000000000)) identity4 (grid [[0; 1]; [0; 0]])
           [num 0; num 1; num 0; num 0] 0).
  - apply printable_ready.
  - reflexivity.
  - reflexivity.
  - reflexivity.
  - reflexivity.
  - reflexivity.
  - reflexivity.
Defined.

(** C10.  For every solver label other than "iterative" and "Iterative",
    recognised or not, [fd_solve] performs the direct solve: it returns
    normally, with the negated, reshaped result of [spsolve] stored as
    [w]; no exit and no exception comes from the label. *)
Theorem fd_solve_other_labels_solve_directly scipy s label A q x :
  printable s ->
  self s "solver" = Some (VStr label) ->
  label <> "iterative" -> label <> "Iterative" ->
  self s "q0" = Some (VArr q) ->
  self s "coeff_matrix" = Some (VMat A) ->
  spsolve scipy A (flatten q) = Ok x ->
  length x = (nrows q * ncols q)%nat ->
  exists s', fd_solve scipy s = (Ok tt, s') /\ solved s s' (negated x q).
Proof.
  intros Hp Hs H1 H2 Hq HA Hx Hl.
  assert (Hr : solver_result scipy label A (flatten q) = Ok x).
  { unfold solver_result. now rewrite (is_iterative_false label H1 H2). }
  destruct (wp_run _ _ _ (fd_solve_ok scipy s label A q x Hp Hs Hq HA Hr Hl))
    as (r & s' & Hrun & -> & Hsol).
  now exists s'.
Qed.

Lemma fd_solve_other_labels_solve_directly_witness :
  exists s',
    fd_solve scipy_identity (ready_to_solve "umfpak" (Q2Qc (1 # 1000))) = (Ok tt, s') /\
    solved (ready_to_solve "umfpak" (Q2Qc (1 # 1000))) s'
      (negated [num 0; num 1; num 0; num 0] (grid [[0; 1]; [0; 0]])).
Proof.
  apply (fd_solve_other_labels_solve_directly scipy_identity
           (ready_to_solve "umfpak" (Q2Qc (1 # 1000))) "umfpak" identity4
           (grid [[0; 1]; [0; 0]]) [num 0; num 1; num 0; num 0]).
  - apply printable_ready.
  - reflexivity.
  - discriminate.
  - discriminate.
  - reflexivity.
  - reflexivity.
  - reflexivity.
  - reflexivity.
Defined.

(* ================================================================== *)
(** * [run] and the FFT method *)

Lemma wp_hook (m : M unit) (Q : Res unit -> State -> Prop) s :
  (forall s0, exists s1, m s0 = (Ok tt, s1) /\ self s1 = self s0) ->
  (forall s1, self s1 = self s -> Q (Ok tt) s1) ->
  wp m Q s.
Proof.
  intros H HQ. destruct (H s) as (s1 & Hrun & Hself).
  apply (wp_of_run m Q s (Ok tt) s1 Hrun). now apply HQ.
Qed.

(** C7 (as amended).  With method "FFT", [run] ends in the fatal exit of
    [F2D.FFT] before anything is solved, provided the method of the base
    class returns and leaves the attributes alone.  By then [run] has
    set two attributes, [solver_start_time] (the clock reading) and
    [method_func] (the FFT method); every other attribute is as before,
    so no [w] and no [time_to_solve] come from the call. *)
Theorem run_FFT_exits_after_setting_two_attributes env s verbose :
  self s "method" = Some (VStr "FFT") ->
  self s "Verbose" = Some verbose ->
  (forall s0, exists s1, Flexure_FFT env s0 = (Ok tt, s1) /\ self s1 = self s0) ->
  exists s',
    run env s
    = (Exit "The fast Fourier transform solution method is not yet implemented.", s') /\
    self s' "solver_start_time" = Some (VNum (Fin (clock s (ticks s)))) /\
    self s' "method_func" = Some (VMethod "FFT") /\
    forall k, k <> "solver_start_time" -> k <> "method_func" -> self s' k = self s k.
Proof.
  intros Hm Hv Hhook.
  apply wp_run_exit with
    (P := fun s' =>
            self s' = insert "method_func" (VMethod "FFT")
                        (insert "solver_start_time"
                           (VNum (Fin (clock s (ticks s)))) (self s))).
  - unfold run. wp_steps.
    assert (Hfin : forall s0 s1,
               self s0 = insert "solver_start_time"
                           (VNum (Fin (clock s (ticks s)))) (self s) ->
               self s1 = self s0 ->
               wp (setattr "method_func" (VMethod "FFT"))
                  (cont (fun _ : unit =>
                           whenM (flag "Verbose") (print [VStr "F2D run"]) ;;
                           f <- eval (attr "method_func") ;;
                           call_method env f ;;
                           t1 <- time_time ;;
                           assign "time_to_solve" (t1 - attr "solver_start_time") ;;
                           whenM not_Quiet
                             (t <- eval (attr "time_to_solve") ;;
                              print [VStr "Time to solve [s]:"; t]))
                        (fun r s' =>
                           r = Exit "The fast Fourier transform solution method is not yet implemented." /\
                           self s' = insert "method_func" (VMethod "FFT")
                                       (insert "solver_start_time"
                                          (VNum (Fin (clock s (ticks s)))) (self s)))) s1).
    { intros s0 s1 H0 H1.
      assert (Hv1 : self s1 "Verbose" = Some verbose).
      { rewrite H1, H0. unfold insert. cbn. exact Hv. }
      wp_steps.
      destruct (truthy verbose); wp_steps; unfold call_method, FFT; wp_steps;
        (split; [reflexivity|]); cbn [self with_attr with_line]; now rewrite H1, H0. }
    destruct (truthy verbose); wp_steps; cbn [str_eq String.eqb Ascii.eqb Bool.eqb andb];
      wp_steps; cbn [str_eq String.eqb Ascii.eqb Bool.eqb andb]; wp_steps;
      (apply wp_hook; [exact Hhook|]); intros s1 H1; cbn [cont];
      (eapply Hfin; [|exact H1]); reflexivity.
  - intros s' ->. unfold insert. cbn. repeat split.
    intros k H1 H2. apply String.eqb_neq in H1, H2. now rewrite H1, H2.
Qed.

Lemma run_FFT_exits_after_setting_two_attributes_witness :
  exists s',
    run plain_environment fft_instance
    = (Exit "The fast Fourier transform solution method is not yet implemented.", s') /\
    self s' "solver_start_time"
    = Some (VNum (Fin (clock fft_instance (ticks fft_instance)))) /\
    self s' "method_func" = Some (VMethod "FFT") /\
    forall k, k <> "solver_start_time" -> k <> "method_func" ->
              self s' k = self fft_instance k.
Proof.
  apply (run_FFT_exits_after_setting_two_attributes plain_environment fft_instance
           (VBool false)).
  - reflexivity.
  - reflexivity.
  - intros s0. exists s0. split; reflexivity.
Defined.

(** C7, counterexample.  On a fresh instance the failing call leaves two
    attributes that were not there before: the instance is not as it was. *)
Lemma run_FFT_mutates_the_instance :
  fst (run plain_environment fft_instance)
  = Exit "The fast Fourier transform solution method is not yet implemented." /\
  self fft_instance "solver_start_time" = None /\
  self (snd (run plain_environment fft_instance)) "solver_start_time" <> None /\
  self fft_instance "method_func" = None /\
  self (snd (run plain_environment fft_instance)) "method_func" = Some (VMethod "FFT").
Proof.
  repeat split; try (vm_compute; reflexivity).
  vm_compute. discriminate.
Qed.

(* ================================================================== *)
(** * Shapes *)

Lemma amap_shaped ny nx f a : shaped ny nx a -> shaped ny nx (amap f a).
Proof.
  intros [Hl Hr]. split.
  - unfold amap. now rewrite length_map.
  - unfold amap. rewrite Forall_forall in *. intros r Hin.
    apply in_map_iff in Hin as [r' [<- Hin]]. rewrite length_map. auto.
Qed.

Lemma nrows_tabulate ny nx f : nrows (tabulate ny nx f) = ny.
Proof. unfold nrows, tabulate. now rewrite length_map, length_seq. Qed.

Lemma shaped_zero nx a : shaped 0 nx a -> a = [].
Proof. intros [Hl _]. now destruct a. Qed.

Lemma amap2_shaped ny nx f a b : shaped ny nx a -> shaped ny nx (amap2 f a b).
Proof.
  intros Ha. unfold amap2. destruct ny as [|ny].
  - rewrite (shaped_zero nx a Ha). split; [reflexivity | constructor].
  - rewrite (shaped_nrows _ _ _ Ha), (shaped_ncols _ _ _ Ha) by lia.
    apply tabulate_shaped.
Qed.

Lemma full_shaped ny nx v : shaped ny nx (full ny nx v).
Proof. apply tabulate_shaped. Qed.

Lemma same_shape_shaped ny nx a b :
  shaped ny nx a -> shaped ny nx b -> same_shape a b = true.
Proof.
  intros Ha Hb. unfold same_shape.
  rewrite (shaped_nrows _ _ _ Ha), (shaped_nrows _ _ _ Hb), Nat.eqb_refl.
  destruct ny as [|ny].
  - now rewrite (shaped_zero nx a Ha), (shaped_zero nx b Hb).
  - rewrite (shaped_ncols _ _ _ Ha), (shaped_ncols _ _ _ Hb) by lia.
    now rewrite Nat.eqb_refl.
Qed.

Lemma get_amap ny nx f a i j :
  shaped ny nx a -> (i < ny)%nat -> (j < nx)%nat ->
  get (amap f a) i j = f (get a i j).
Proof.
  intros Ha Hi Hj. unfold get, amap.
  assert (Hlen : (i < length a)%nat) by (destruct Ha; lia).
  rewrite (nth_indep (map (map f) a) [] (map f [])) by now rewrite length_map.
  rewrite (map_nth (map f) a [] i).
  rewrite (nth_indep _ NaN (f NaN))
    by (rewrite length_map, (shaped_row ny nx a i Ha Hi); exact Hj).
  apply (map_nth f).
Qed.

Lemma get_amap2 ny nx f a b i j :
  shaped ny nx a -> (i < ny)%nat -> (j < nx)%nat ->
  get (amap2 f a b) i j = f (get a i j) (get b i j).
Proof.
  intros Ha Hi Hj. unfold amap2.
  rewrite (shaped_nrows _ _ _ Ha), (shaped_ncols _ _ _ Ha) by lia.
  now apply get_tabulate.
Qed.

(** The three slices of the padded rigidity along one axis. *)
Lemma pyslice_inner n : pyslice (S (S n)) (Some 1) (Some (-1)) = (1%nat, n).
Proof. unfold pyslice, clip. cbn [Z.ltb Z.compare]. f_equal; lia. Qed.

Lemma pyslice_upper n : pyslice (S (S n)) (Some 2) None = (2%nat, n).
Proof. unfold pyslice, clip. cbn [Z.ltb Z.compare]. f_equal; lia. Qed.

Lemma pyslice_lower n : pyslice (S (S n)) None (Some (-2)) = (0%nat, n).
Proof. unfold pyslice, clip. cbn [Z.ltb Z.compare]. f_equal; lia. Qed.

Lemma slice2_padded d ny nx r0 r1 c0 c1 rlo clo :
  shaped (S (S ny)) (S (S nx)) d ->
  pyslice (S (S ny)) r0 r1 = (rlo, ny) ->
  pyslice (S (S nx)) c0 c1 = (clo, nx) ->
  slice2 d r0 r1 c0 c1 = tabulate ny nx (fun i j => get d (rlo + i) (clo + j)).
Proof.
  intros Hd Hr Hc. unfold slice2.
  rewrite (shaped_nrows _ _ _ Hd), (shaped_ncols _ _ _ Hd) by lia.
  now rewrite Hr, Hc.
Qed.

Lemma py_arith_arr ny nx f a b :
  shaped ny nx a -> shaped ny nx b ->
  py_arith f (VArr a) (VArr b) = Ok (VArr (amap2 f a b)).
Proof. intros Ha Hb. cbn. now rewrite (same_shape_shaped ny nx a b Ha Hb). Qed.

(* ------------------------------------------------------------------ *)
(** ** Kinds of expressions *)

Section Kinds.

Variables ny nx n : nat.

Lemma kind_lit_num x s : has_kind ny nx n KNum (lit (VNum x)) s.
Proof. now exists x. Qed.

Lemma kind_flt z s : has_kind ny nx n KNum (flt z) s.
Proof. now exists (num z). Qed.

Lemma kind_np_inf s : has_kind ny nx n KNum np_inf s.
Proof. now exists PInf. Qed.

Lemma kind_lit_arr a s : shaped ny nx a -> has_kind ny nx n KArr (lit (VArr a)) s.
Proof. intros Ha. now exists a. Qed.

Lemma kind_attr_arr k a s :
  self s k = Some (VArr a) -> shaped ny nx a -> has_kind ny nx n KArr (attr k) s.
Proof. intros Hk Ha. exists a. split; [now apply attr_ok | assumption]. Qed.

Lemma kind_arith f k1 k2 k e1 e2 s :
  has_kind ny nx n k1 e1 s -> has_kind ny nx n k2 e2 s -> join k1 k2 = Some k ->
  has_kind ny nx n k (ebind2 e1 e2 (py_arith f)) s.
Proof.
  intros H1 H2 Hj. unfold ebind2.
  destruct k1, k2; cbn in Hj; try discriminate; injection Hj as <-; cbn in *.
  - destruct H1 as [x ->], H2 as [y ->]. now eexists.
  - destruct H1 as [x ->], H2 as (b & -> & Hb). eexists. split; [reflexivity|].
    now apply amap_shaped.
  - destruct H1 as [x ->], H2 as (v & -> & Hv). eexists. split; [reflexivity|].
    now rewrite length_map.
  - destruct H1 as (a & -> & Ha), H2 as [y ->]. eexists. split; [reflexivity|].
    now apply amap_shaped.
  - destruct H1 as (a & -> & Ha), H2 as (b & -> & Hb).
    rewrite (py_arith_arr ny nx f a b Ha Hb). eexists. split; [reflexivity|].
    now apply amap2_shaped.
  - destruct H1 as (u & -> & Hu), H2 as [y ->]. eexists. split; [reflexivity|].
    now rewrite length_map.
  - destruct H1 as (u & -> & Hu), H2 as (v & -> & Hv). cbn.
    rewrite Hu, Hv, Nat.eqb_refl. eexists. split; [reflexivity|].
    unfold vmap2. rewrite length_map, length_combine. lia.
Qed.

Lemma kind_add k1 k2 k e1 e2 s :
  has_kind ny nx n k1 e1 s -> has_kind ny nx n k2 e2 s -> join k1 k2 = Some k ->
  has_kind ny nx n k (e1 + e2)%E s.
Proof. apply kind_arith. Qed.

Lemma kind_sub k1 k2 k e1 e2 s :
  has_kind ny nx n k1 e1 s -> has_kind ny nx n k2 e2 s -> join k1 k2 = Some k ->
  has_kind ny nx n k (e1 - e2)%E s.
Proof. apply kind_arith. Qed.

Lemma kind_mul k1 k2 k e1 e2 s :
  has_kind ny nx n k1 e1 s -> has_kind ny nx n k2 e2 s -> join k1 k2 = Some k ->
  has_kind ny nx n k (e1 * e2)%E s.
Proof. apply kind_arith. Qed.

(** Division by a float of an array, or of arrays: no exception. *)
Lemma kind_div k1 k2 k e1 e2 s :
  has_kind ny nx n k1 e1 s -> has_kind ny nx n k2 e2 s -> join k1 k2 = Some k -> k <> KNum ->
  has_kind ny nx n k (e1 / e2)%E s.
Proof.
  intros H1 H2 Hj Hk.
  assert (H := kind_arith vdiv k1 k2 k e1 e2 s H1 H2 Hj).
  assert (Heq : (e1 / e2)%E s = ebind2 e1 e2 (py_arith vdiv) s).
  { unfold ediv, ebind2.
    destruct k1, k2; cbn in Hj; try discriminate; injection Hj as <-;
      try congruence; cbn in H1, H2.
    - destruct H1 as [x E1], H2 as (b & E2 & Hb). now rewrite E1, E2.
    - destruct H1 as [x E1], H2 as (v & E2 & Hv). now rewrite E1, E2.
    - destruct H1 as (a & E1 & Ha), H2 as [y E2]. now rewrite E1, E2.
    - destruct H1 as (a & E1 & Ha), H2 as (b & E2 & Hb). now rewrite E1, E2.
    - destruct H1 as (u & E1 & Hu), H2 as [y E2]. now rewrite E1, E2.
    - destruct H1 as (u & E1 & Hu), H2 as (v & E2 & Hv). now rewrite E1, E2. }
  destruct k; cbn in *; [congruence | |]; now rewrite Heq.
Qed.

Lemma kind_neg k e s : has_kind ny nx n k e s -> has_kind ny nx n k (- e)%E s.
Proof.
  intros H. unfold eneg, ebind. destruct k; cbn in *.
  - destruct H as [x ->]. now eexists.
  - destruct H as (a & -> & Ha). eexists. split; [reflexivity|].
    now apply amap_shaped.
  - destruct H as (u & -> & Hu). eexists. split; [reflexivity|].
    now rewrite length_map.
Qed.

End Kinds.

(** Decide the kind of an arithmetic expression from its syntax. *)
Ltac kind_of :=
  idtac;
  lazymatch goal with
  | |- has_kind _ _ _ _ (eadd _ _) _ => eapply kind_add; [kind_of | kind_of | reflexivity]
  | |- has_kind _ _ _ _ (esub _ _) _ => eapply kind_sub; [kind_of | kind_of | reflexivity]
  | |- has_kind _ _ _ _ (emul _ _) _ => eapply kind_mul; [kind_of | kind_of | reflexivity]
  | |- has_kind _ _ _ _ (ediv _ _) _ =>
      eapply kind_div; [kind_of | kind_of | reflexivity | discriminate]
  | |- has_kind _ _ _ _ (eneg _) _ => eapply kind_neg; kind_of
  | |- has_kind _ _ _ _ (flt _) _ => apply kind_flt
  | |- has_kind _ _ _ _ np_inf _ => apply kind_np_inf
  | |- has_kind _ _ _ _ (lit (VNum _)) _ => apply kind_lit_num
  | |- has_kind _ _ _ _ (lit (VArr _)) _ => apply kind_lit_arr; eassumption
  | |- has_kind _ _ _ _ (attr _) _ =>
      eapply kind_attr_arr; [lookup; first [eassumption | reflexivity] | eassumption]
  | |- has_kind _ _ _ _ _ _ => eassumption
  end.

(* ================================================================== *)
(** * The coefficient builder *)

Lemma wp_eval_arr ny nx e Q s :
  has_kind ny nx 0 KArr e s ->
  (forall a, shaped ny nx a -> Q (Ok (VArr a)) s) ->
  wp (eval e) Q s.
Proof.
  intros (a & He & Ha) HQ. apply (wp_eval e (Ok (VArr a))); auto.
Qed.

Lemma kind_eslice ny nx n d r0 r1 c0 c1 rlo clo s :
  shaped (S (S ny)) (S (S nx)) d ->
  pyslice (S (S ny)) r0 r1 = (rlo, ny) ->
  pyslice (S (S nx)) c0 c1 = (clo, nx) ->
  has_kind ny nx n KArr (eslice (lit (VArr d)) r0 r1 c0 c1) s.
Proof.
  intros Hd Hr Hc. eexists. split; [reflexivity|].
  rewrite (slice2_padded d ny nx r0 r1 c0 c1 rlo clo Hd Hr Hc).
  apply tabulate_shaped.
Qed.

Ltac kind_slice :=
  idtac;
  eapply kind_eslice;
  [ eassumption
  | first [apply pyslice_inner | apply pyslice_upper | apply pyslice_lower]
  | first [apply pyslice_inner | apply pyslice_upper | apply pyslice_lower] ].

Ltac eval_arr tac :=
  apply wp_bind; eapply wp_eval_arr; [tac | intros ? ?; cbn [cont]].

(** C2 (as amended).  With an array-valued elastic thickness and plate
    solution type "LinearTeVariationsOnly" the coefficient builder does
    not produce a stencil: once the neighbours and derivatives of [D] are
    computed it ends in the fatal exit that opens the branch, before any
    coefficient is assigned, and the instance is left as it was.  The
    stages after it (boundary conditions, assembly, solve) are not
    reached. *)
Theorem get_coeff_values_LinearTeVariationsOnly_exits s ny nx d t vdrho vdx4 vdy4 vdx2dy2 vnu vg :
  self s "D" = Some (VArr d) -> shaped (S (S ny)) (S (S nx)) d ->
  self s "drho" = Some vdrho -> self s "dx4" = Some vdx4 -> self s "dy4" = Some vdy4 ->
  self s "dx2dy2" = Some vdx2dy2 -> self s "nu" = Some vnu -> self s "g" = Some vg ->
  self s "Te" = Some (VArr t) ->
  self s "PlateSolutionType" = Some (VStr "LinearTeVariationsOnly") ->
  get_coeff_values s
  = (Exit "CHECK LATER PARTS OF SOLUTION: NOT SURE IF THEY ARE RIGHT", s).
Proof.
  intros HD Hd Hdrho Hdx4 Hdy4 Hdx2dy2 Hnu Hg HTe HP.
  assert (H : wp get_coeff_values
                (fun r s' => r = Exit "CHECK LATER PARTS OF SOLUTION: NOT SURE IF THEY ARE RIGHT"
                             /\ s' = s) s).
  { unfold get_coeff_values. wp_steps. cbn [np_isscalar is_ndarray].
    unfold variable_stencil.
    do 9 (eval_arr kind_slice).
    do 5 (eval_arr kind_of).
    wp_steps. cbn [str_eq String.eqb Ascii.eqb Bool.eqb andb]. wp_steps.
    cbn [str_eq String.eqb Ascii.eqb Bool.eqb andb]. wp_steps.
    unfold stencil_LinearTeVariationsOnly. wp_steps. now split. }
  destruct (wp_run _ _ _ H) as (r & s' & Hrun & -> & ->). exact Hrun.
Qed.

Lemma get_coeff_values_LinearTeVariationsOnly_exits_witness :
  get_coeff_values
    (after_rigidity (plate Te_ramp 1 1 "Dirichlet0" "Dirichlet0" "Dirichlet0"
                       "Dirichlet0" "LinearTeVariationsOnly"))
  = (Exit "CHECK LATER PARTS OF SOLUTION: NOT SURE IF THEY ARE RIGHT",
     after_rigidity (plate Te_ramp 1 1 "Dirichlet0" "Dirichlet0" "Dirichlet0"
                       "Dirichlet0" "LinearTeVariationsOnly")).
Proof.
  eapply (get_coeff_values_LinearTeVariationsOnly_exits _ 3 3).
  - vm_compute. reflexivity.
  - split; [reflexivity | repeat constructor].
  - vm_compute. reflexivity.
  - vm_compute. reflexivity.
  - vm_compute. reflexivity.
  - vm_compute. reflexivity.
  - vm_compute. reflexivity.
  - vm_compute. reflexivity.
  - vm_compute. reflexivity.
  - vm_compute. reflexivity.
Defined.

(** C2, counterexample.  On a well-formed plate with a varying elastic
    thickness the whole FD solve fails with that exit: no coefficient
    array, no matrix and no deflection exist afterwards. *)
Lemma LinearTeVariationsOnly_is_not_usable :
  fst (FD plain_environment
         (plate Te_ramp 1 1 "Dirichlet0" "Dirichlet0" "Dirichlet0" "Dirichlet0"
            "LinearTeVariationsOnly"))
  = Exit "CHECK LATER PARTS OF SOLUTION: NOT SURE IF THEY ARE RIGHT" /\
  forall name,
    In name ["cj0i0"; "cj0i0_coeff_ij"; "cj_2i0"; "cj2i0_coeff_ij"; "coeff_matrix"; "w"] ->
    self (snd (FD plain_environment
                 (plate Te_ramp 1 1 "Dirichlet0" "Dirichlet0" "Dirichlet0" "Dirichlet0"
                    "LinearTeVariationsOnly"))) name = None.
Proof.
  split; [vm_compute; reflexivity|].
  intros name Hin. cbn [In] in Hin.
  repeat (destruct Hin as [<-|Hin]; [vm_compute; reflexivity|]).
  contradiction.
Qed.

(** C1.  The two builders at work on one plate: rigidity 1 everywhere,
    dx = 1, dy = 2 (dx4 = 1, dy4 = 16, dx2dy2 = 4), once with the elastic
    thickness as an array (vWC1994) and once as a scalar.  The values at
    the centre cell, in the order of [coeff_array_list]: the vWC1994
    stencil divides the x-offset coefficients by dx4 and the y-offset
    coefficients by dy4, the scalar stencil does the reverse; the four
    diagonal coefficients and the centre agree. *)
Theorem uniform_stencil_swaps_dx4_and_dy4 :
  coeff_array_list
  = ["cj_2i0"; "cj_1i0"; "cj1i0"; "cj2i0"; "cj0i_2"; "cj0i_1"; "cj0i1"; "cj0i2";
     "cj_1i_1"; "cj_1i1"; "cj1i_1"; "cj1i1"; "cj0i0"] /\
  map (fun i => map (value_at (coefficients_of
                       (plate Te_ones 1 2 "Dirichlet0" "Dirichlet0" "Dirichlet0"
                          "Dirichlet0" "vWC1994")) "D" i) [0; 1; 2; 3; 4]%nat)
      [0; 1; 2; 3; 4]%nat
  = repeat (repeat (Some 1%Q) 5) 5 /\
  map (fun i => map (value_at (coefficients_of
                       (plate Te_one 1 2 "Dirichlet0" "Dirichlet0" "Dirichlet0"
                          "Dirichlet0" "vWC1994")) "D" i) [0; 1; 2]%nat)
      [0; 1; 2]%nat
  = repeat (repeat (Some 1%Q) 3) 3 /\
  map (fun c => value_at (coefficients_of
                 (plate Te_ones 1 2 "Dirichlet0" "Dirichlet0" "Dirichlet0"
                    "Dirichlet0" "vWC1994")) c 1 1) coeff_array_list
  = [Some 1%Q; Some (-5 # 1)%Q; Some (-5 # 1)%Q; Some 1%Q;
     Some (1 # 16)%Q; Some (-5 # 4)%Q; Some (-5 # 4)%Q; Some (1 # 16)%Q;
     Some (1 # 2)%Q; Some (1 # 2)%Q; Some (1 # 2)%Q; Some (1 # 2)%Q;
     Some (75 # 8)%Q] /\
  map (fun c => value_at (coefficients_of
                 (plate Te_one 1 2 "Dirichlet0" "Dirichlet0" "Dirichlet0"
                    "Dirichlet0" "vWC1994")) c 1 1) coeff_array_list
  = [Some (1 # 16)%Q; Some (-5 # 4)%Q; Some (-5 # 4)%Q; Some (1 # 16)%Q;
     Some 1%Q; Some (-5 # 1)%Q; Some (-5 # 1)%Q; Some 1%Q;
     Some (1 # 2)%Q; Some (1 # 2)%Q; Some (1 # 2)%Q; Some (1 # 2)%Q;
     Some (75 # 8)%Q].
Proof. repeat split; vm_compute; reflexivity. Qed.

(** C6.  The padded rigidity of a 3 by 3 plate with D = Te^3,
    Te = 1..9 row by row, all four edges Periodic.  The West ghost column
    holds the eastmost interior column and the North ghost row the
    southmost interior row, as a wrap does; but the East ghost column
    holds the middle interior column (8, 125, 512), not the westmost
    (1, 64, 343), and the South ghost row holds the middle interior row
    (64, 125, 216), not the northmost (1, 8, 27): [D[:,-1] = D[:,-3]] and
    [D[-1,:] = D[-3,:]] are the mirror formulas. *)
Theorem periodic_rigidity_ghosts_East_and_South_mirror :
  map (fun i => map (value_at (after_rigidity
                       (plate Te_ramp 1 1 "Periodic" "Periodic" "Periodic"
                          "Periodic" "vWC1994")) "D" i) [0; 1; 2; 3; 4]%nat)
      [0; 1; 2; 3; 4]%nat
  = [[Some 729%Q; Some 343%Q; Some 512%Q; Some 729%Q; Some 512%Q];
     [Some 27%Q;  Some 1%Q;   Some 8%Q;   Some 27%Q;  Some 8%Q];
     [Some 216%Q; Some 64%Q;  Some 125%Q; Some 216%Q; Some 125%Q];
     [Some 729%Q; Some 343%Q; Some 512%Q; Some 729%Q; Some 512%Q];
     [Some 216%Q; Some 64%Q;  Some 125%Q; Some 216%Q; Some 125%Q]].
Proof. vm_compute. reflexivity. Qed.

(* ================================================================== *)
(** * Attributes that a command does not write *)

Lemma untouched_refl P s : untouched P s s.
Proof. intros k _. reflexivity. Qed.

Lemma untouched_trans P s1 s2 s3 :
  untouched P s1 s2 -> untouched P s2 s3 -> untouched P s1 s3.
Proof. intros H1 H2 k Hk. now rewrite (H2 k Hk), (H1 k Hk). Qed.

Lemma notin_spec name P : notin name P = true -> ~ In name P.
Proof.
  unfold notin. intros H Hin.
  apply negb_true_iff in H.
  assert (Hex : existsb (String.eqb name) P = true).
  { apply existsb_exists. exists name. split; [assumption | apply String.eqb_refl]. }
  congruence.
Qed.

Lemma untouched_with_attr P name v s :
  notin name P = true -> untouched P s (with_attr name v s).
Proof.
  intros Hn k Hk. cbn [self with_attr]. unfold insert.
  destruct (String.eqb_spec k name) as [->|]; [|reflexivity].
  now apply notin_spec in Hn.
Qed.

Section Preserves.

Variable P : list string.

Lemma preserves_ret {A} (a : A) : preserves P (ret a).
Proof. intros s. apply untouched_refl. Qed.

Lemma preserves_eval e : preserves P (eval e).
Proof. intros s. apply untouched_refl. Qed.

Lemma preserves_lift {A} (r : Res A) : preserves P (lift r).
Proof. intros s. apply untouched_refl. Qed.

Lemma preserves_raise {A} exc : preserves P (@raise A exc).
Proof. intros s. apply untouched_refl. Qed.

Lemma preserves_exit {A} msg : preserves P (@sys_exit A msg).
Proof. intros s. apply untouched_refl. Qed.

Lemma preserves_print l : preserves P (print l).
Proof. intros s k _. reflexivity. Qed.

Lemma preserves_time : preserves P time_time.
Proof. intros s k _. reflexivity. Qed.

Lemma preserves_setattr name v : notin name P = true -> preserves P (setattr name v).
Proof. intros Hn s. now apply untouched_with_attr. Qed.

Lemma preserves_bind {A B} (m : M A) (k : A -> M B) :
  preserves P m -> (forall a, preserves P (k a)) -> preserves P (bind m k).
Proof.
  intros Hm Hk s. apply wp_bind. eapply wp_conseq; [apply Hm|].
  intros r s1 H1. destruct r as [a|msg|exc]; cbn [cont]; try assumption.
  eapply wp_conseq; [apply Hk|]. intros r s2 H2.
  now apply (untouched_trans P s s1 s2).
Qed.

Lemma preserves_if {A} (b : bool) (m1 m2 : M A) :
  preserves P m1 -> preserves P m2 -> preserves P (if b then m1 else m2).
Proof. now destruct b. Qed.

Lemma preserves_assign name e : notin name P = true -> preserves P (assign name e).
Proof.
  intros Hn. apply preserves_bind; [apply preserves_eval|].
  intros v. now apply preserves_setattr.
Qed.

Lemma preserves_is name label : preserves P (is_ name label).
Proof.
  apply preserves_bind; [apply preserves_eval | intros; apply preserves_ret].
Qed.

Lemma preserves_flag name : preserves P (flag name).
Proof.
  apply preserves_bind; [apply preserves_eval | intros; apply preserves_ret].
Qed.

Lemma preserves_not_Quiet : preserves P not_Quiet.
Proof.
  apply preserves_bind; [apply preserves_eval | intros; apply preserves_ret].
Qed.

Lemma preserves_int_attr name : preserves P (int_attr name).
Proof.
  apply preserves_bind; [apply preserves_eval|].
  intros v. destruct v; first [apply preserves_ret | apply preserves_raise].
Qed.

Lemma preserves_orM a b : preserves P a -> preserves P b -> preserves P (orM a b).
Proof.
  intros Ha Hb. apply preserves_bind; [assumption|].
  intros x. apply preserves_if; [apply preserves_ret | assumption].
Qed.

Lemma preserves_andM a b : preserves P a -> preserves P b -> preserves P (andM a b).
Proof.
  intros Ha Hb. apply preserves_bind; [assumption|].
  intros x. apply preserves_if; [assumption | apply preserves_ret].
Qed.

Lemma preserves_ifM {A} c (t e : M A) :
  preserves P c -> preserves P t -> preserves P e -> preserves P (ifM c t e).
Proof.
  intros Hc Ht He. apply preserves_bind; [assumption|].
  intros x. now apply preserves_if.
Qed.

Lemma preserves_whenM c body :
  preserves P c -> preserves P body -> preserves P (whenM c body).
Proof. intros Hc Hb. apply preserves_ifM; auto. apply preserves_ret. Qed.

Lemma preserves_store_col name j v :
  notin name P = true -> preserves P (store_col name j v).
Proof.
  intros Hn. apply preserves_bind; [apply preserves_eval|].
  intros t. destruct t; try apply preserves_raise.
  destruct (pyidx (ncols a) j); [|apply preserves_raise].
  destruct (rows_of v (nrows a)); [|apply preserves_raise].
  now apply preserves_setattr.
Qed.

Lemma preserves_store_row name i v :
  notin name P = true -> preserves P (store_row name i v).
Proof.
  intros Hn. apply preserves_bind; [apply preserves_eval|].
  intros t. destruct t; try apply preserves_raise.
  destruct (pyidx (nrows a) i); [|apply preserves_raise].
  destruct (rows_of v (ncols a)); [|apply preserves_raise].
  now apply preserves_setattr.
Qed.

Lemma preserves_store_cell name i j v :
  notin name P = true -> preserves P (store_cell name i j v).
Proof.
  intros Hn. apply preserves_bind; [apply preserves_eval|].
  intros t. destruct t; try apply preserves_raise.
  destruct (pyidx (nrows a) i); [|apply preserves_raise].
  destruct (pyidx (ncols a) j); [|apply preserves_raise].
  destruct v; first [now apply preserves_setattr | apply preserves_raise].
Qed.

Lemma preserves_set_col_to name j e :
  notin name P = true -> preserves P (set_col_to name j e).
Proof.
  intros Hn. apply preserves_bind; [apply preserves_eval|].
  intros v. now apply preserves_store_col.
Qed.

Lemma preserves_set_row_to name i e :
  notin name P = true -> preserves P (set_row_to name i e).
Proof.
  intros Hn. apply preserves_bind; [apply preserves_eval|].
  intros v. now apply preserves_store_row.
Qed.

Lemma preserves_iadd_col name j e :
  notin name P = true -> preserves P (iadd_col name j e).
Proof.
  intros Hn. unfold iadd_col.
  do 3 (apply preserves_bind;
        [first [apply preserves_eval | apply preserves_lift] | intros ?]).
  now apply preserves_store_col.
Qed.

Lemma preserves_iadd_row name i e :
  notin name P = true -> preserves P (iadd_row name i e).
Proof.
  intros Hn. unfold iadd_row.
  do 3 (apply preserves_bind;
        [first [apply preserves_eval | apply preserves_lift] | intros ?]).
  now apply preserves_store_row.
Qed.

Lemma preserves_iadd_cell name i j e :
  notin name P = true -> preserves P (iadd_cell name i j e).
Proof.
  intros Hn. unfold iadd_cell.
  do 3 (apply preserves_bind;
        [first [apply preserves_eval | apply preserves_lift] | intros ?]).
  now apply preserves_store_cell.
Qed.

Lemma preserves_isub_cell name i j e :
  notin name P = true -> preserves P (isub_cell name i j e).
Proof.
  intros Hn. unfold isub_cell.
  do 3 (apply preserves_bind;
        [first [apply preserves_eval | apply preserves_lift] | intros ?]).
  now apply preserves_store_cell.
Qed.

Lemma preserves_set_row_where_ne_inf name i x :
  notin name P = true -> preserves P (set_row_where_ne_inf name i x).
Proof.
  intros Hn. apply preserves_bind; [apply preserves_eval|].
  intros t. destruct t; try apply preserves_raise.
  destruct (pyidx (nrows a) i); [|apply preserves_raise].
  now apply preserves_setattr.
Qed.

Lemma preserves_iadd_row_where_ne_inf name i x :
  notin name P = true -> preserves P (iadd_row_where_ne_inf name i x).
Proof.
  intros Hn. apply preserves_bind; [apply preserves_eval|].
  intros t. destruct t; try apply preserves_raise.
  destruct (pyidx (nrows a) i); [|apply preserves_raise].
  now apply preserves_setattr.
Qed.

Lemma preserves_sweep_inf name :
  notin name P = true -> preserves P (sweep_inf name).
Proof.
  intros Hn. apply preserves_bind; [apply preserves_eval|].
  intros t. destruct t; try apply preserves_raise.
  now apply preserves_setattr.
Qed.

Lemma preserves_for_each names body :
  (forall c, In c names -> preserves P (body c)) ->
  preserves P (for_each names body).
Proof.
  induction names as [|c names IH]; intros H; cbn [for_each].
  - apply preserves_ret.
  - apply preserves_bind; [apply H; now left|].
    intros _. apply IH. intros c' Hc'. apply H. now right.
Qed.

End Preserves.

(** Structural proof that a command preserves a set of attributes. *)
Ltac in_cases H :=
  cbn [In] in H;
  repeat (destruct H as [<-|H]; [|]); try contradiction.

Ltac pres :=
  idtac;
  lazymatch goal with
  | |- preserves _ (bind _ _) => apply preserves_bind; [pres | intros; pres]
  | |- preserves _ (ifM _ _ _) => apply preserves_ifM; pres
  | |- preserves _ (whenM _ _) => apply preserves_whenM; pres
  | |- preserves _ (orM _ _) => apply preserves_orM; pres
  | |- preserves _ (andM _ _) => apply preserves_andM; pres
  | |- preserves _ (if _ then _ else _) => apply preserves_if; pres
  | |- preserves _ (is_ _ _) => apply preserves_is
  | |- preserves _ (flag _) => apply preserves_flag
  | |- preserves _ not_Quiet => apply preserves_not_Quiet
  | |- preserves _ (int_attr _) => apply preserves_int_attr
  | |- preserves _ (ret _) => apply preserves_ret
  | |- preserves _ (eval _) => apply preserves_eval
  | |- preserves _ (lift _) => apply preserves_lift
  | |- preserves _ (call _) => apply preserves_lift
  | |- preserves _ (raise _) => apply preserves_raise
  | |- preserves _ (sys_exit _) => apply preserves_exit
  | |- preserves _ (print _) => apply preserves_print
  | |- preserves _ time_time => apply preserves_time
  | |- preserves _ (setattr _ _) =>
      apply preserves_setattr; first [reflexivity | assumption]
  | |- preserves _ (assign _ _) => apply preserves_assign; reflexivity
  | |- preserves _ (set_col_to _ _ _) => apply preserves_set_col_to; reflexivity
  | |- preserves _ (set_row_to _ _ _) => apply preserves_set_row_to; reflexivity
  | |- preserves _ (iadd_col _ _ _) => apply preserves_iadd_col; reflexivity
  | |- preserves _ (iadd_row _ _ _) => apply preserves_iadd_row; reflexivity
  | |- preserves _ (iadd_cell _ _ _ _) => apply preserves_iadd_cell; reflexivity
  | |- preserves _ (isub_cell _ _ _ _) => apply preserves_isub_cell; reflexivity
  | |- preserves _ (set_row_where_ne_inf _ _ _) =>
      apply preserves_set_row_where_ne_inf; reflexivity
  | |- preserves _ (iadd_row_where_ne_inf _ _ _) =>
      apply preserves_iadd_row_where_ne_inf; reflexivity
  | |- preserves _ (sweep_inf _) => apply preserves_sweep_inf; reflexivity
  | |- preserves _ (for_each _ _) =>
      apply preserves_for_each;
      let c := fresh "c" in
      let Hc := fresh "Hc" in
      intros c Hc; in_cases Hc; pres
  | |- preserves _ (match ?x with _ => _ end) => destruct x; pres
  end.

Lemma elasprep_preserves : preserves guarded elasprep.
Proof. unfold elasprep. pres. Qed.

Lemma select_rigidity_BC_preserves bc target :
  notin target guarded = true -> preserves guarded (select_rigidity_BC bc target).
Proof.
  intros Hn. unfold select_rigidity_BC. pres.
Qed.

Lemma BC_Rigidity_preserves : preserves guarded BC_Rigidity.
Proof.
  unfold BC_Rigidity.
  repeat (apply preserves_bind;
          [first [apply select_rigidity_BC_preserves; reflexivity | pres] | intros]).
  pres.
Qed.

Lemma get_coeff_values_preserves : preserves guarded get_coeff_values.
Proof.
  unfold get_coeff_values, uniform_stencil, variable_stencil, stencil_vWC1994,
    stencil_LinearTeVariationsOnly, stencil_G2009, coeff_ij.
  pres.
Qed.

Lemma BC_Flexure_W_preserves : preserves guarded BC_Flexure_W.
Proof. unfold BC_Flexure_W. pres. Qed.

Lemma BC_Flexure_E_preserves : preserves guarded BC_Flexure_E.
Proof. unfold BC_Flexure_E. pres. Qed.

Lemma BC_Flexure_N_preserves : preserves guarded BC_Flexure_N.
Proof. unfold BC_Flexure_N. pres. Qed.

Lemma BC_Flexure_S_preserves : preserves guarded BC_Flexure_S.
Proof. unfold BC_Flexure_S. pres. Qed.

(* ================================================================== *)
(** * An unpaired Periodic edge *)

Lemma wp_abort_bind {A B} s0 (m : M A) (k : A -> M B) s :
  wp m (aborted s0) s -> wp (bind m k) (aborted s0) s.
Proof.
  intros H. apply wp_bind. eapply wp_conseq; [exact H|].
  intros r s1 [Hf Hu]. destruct r; cbn [cont]; [contradiction | now split ..].
Qed.

Lemma wp_seq_abort {A B} s0 (m : M A) (k : A -> M B) s :
  preserves guarded m -> untouched guarded s0 s ->
  (forall a s1, untouched guarded s0 s1 -> wp (k a) (aborted s0) s1) ->
  wp (bind m k) (aborted s0) s.
Proof.
  intros Hm H0 Hk. apply wp_bind. eapply wp_conseq; [apply Hm|].
  intros r s1 H1.
  assert (H01 : untouched guarded s0 s1) by now apply (untouched_trans _ s0 s s1).
  destruct r; cbn [cont]; [now apply Hk | now split ..].
Qed.

Lemma str_eq_neq b label : b <> label -> str_eq (VStr b) label = false.
Proof. intros H. cbn. now apply String.eqb_neq. Qed.

Ltac guarded_attr H0 :=
  repeat match goal with
         | H : self ?s0 ?k = _, Hu : untouched guarded ?s0 ?s1 |- _ =>
             lazymatch goal with
             | _ : self s1 k = _ |- _ => fail
             | _ => let E := fresh "E" in
                    assert (E : self s1 k = self s0 k)
                      by (apply Hu; cbn; tauto);
                    rewrite H in E
             end
         end.

Lemma BC_Flexure_unpaired s bw be bn bs :
  self s "BC_W" = Some (VStr bw) -> self s "BC_E" = Some (VStr be) ->
  self s "BC_N" = Some (VStr bn) -> self s "BC_S" = Some (VStr bs) ->
  unpaired bw be \/ unpaired bn bs ->
  wp BC_Flexure (aborted s) s.
Proof.
  intros HW HE HN HS Hun. unfold BC_Flexure.
  assert (Hguard : forall s1, untouched guarded s s1 ->
            self s1 "BC_W" = Some (VStr bw) /\ self s1 "BC_E" = Some (VStr be) /\
            self s1 "BC_N" = Some (VStr bn) /\ self s1 "BC_S" = Some (VStr bs)).
  { intros s1 H1. rewrite <- HW, <- HE, <- HN, <- HS.
    repeat split; apply H1; cbn; tauto. }
  destruct Hun as [[[-> Hne] | [Hne ->]] | [[-> Hne] | [Hne ->]]].
  - (* West is Periodic, East is not *)
    apply wp_abort_bind. unfold BC_Flexure_W. wp_steps.
    cbn [str_eq String.eqb Ascii.eqb Bool.eqb andb]. wp_steps.
    rewrite (str_eq_neq be "Periodic" Hne). wp_steps.
    split; [exact I | apply untouched_refl].
  - (* East is Periodic, West is not *)
    apply (wp_seq_abort s); [apply BC_Flexure_W_preserves | apply untouched_refl |].
    intros _ s1 H1. destruct (Hguard s1 H1) as (HW1 & HE1 & HN1 & HS1).
    apply wp_abort_bind. unfold BC_Flexure_E. wp_steps.
    cbn [str_eq String.eqb Ascii.eqb Bool.eqb andb]. wp_steps.
    rewrite (str_eq_neq bw "Periodic" Hne). wp_steps.
    split; [exact I | exact H1].
  - (* North is Periodic, South is not *)
    apply (wp_seq_abort s); [apply BC_Flexure_W_preserves | apply untouched_refl |].
    intros _ s1 H1.
    apply (wp_seq_abort s); [apply BC_Flexure_E_preserves | exact H1 |].
    intros _ s2 H2. destruct (Hguard s2 H2) as (HW2 & HE2 & HN2 & HS2).
    apply wp_abort_bind. unfold BC_Flexure_N. wp_steps.
    cbn [str_eq String.eqb Ascii.eqb Bool.eqb andb]. wp_steps.
    rewrite (str_eq_neq bs "Periodic" Hne). wp_steps.
    split; [exact I | exact H2].
  - (* South is Periodic, North is not *)
    apply (wp_seq_abort s); [apply BC_Flexure_W_preserves | apply untouched_refl |].
    intros _ s1 H1.
    apply (wp_seq_abort s); [apply BC_Flexure_E_preserves | exact H1 |].
    intros _ s2 H2.
    apply (wp_seq_abort s); [apply BC_Flexure_N_preserves | exact H2 |].
    intros _ s3 H3. destruct (Hguard s3 H3) as (HW3 & HE3 & HN3 & HS3).
    apply wp_abort_bind. unfold BC_Flexure_S. wp_steps.
    cbn [str_eq String.eqb Ascii.eqb Bool.eqb andb]. wp_steps.
    rewrite (str_eq_neq bn "Periodic" Hne). wp_steps.
    split; [exact I | exact H3].
Qed.

Lemma print_BC_preserves text name : preserves guarded (print_BC text name).
Proof. unfold print_BC. pres. Qed.

Lemma coeff_matrix_creator_unpaired s bw be bn bs :
  self s "BC_W" = Some (VStr bw) -> self s "BC_E" = Some (VStr be) ->
  self s "BC_N" = Some (VStr bn) -> self s "BC_S" = Some (VStr bs) ->
  unpaired bw be \/ unpaired bn bs ->
  wp coeff_matrix_creator (aborted s) s.
Proof.
  intros HW HE HN HS Hun. unfold coeff_matrix_creator.
  apply wp_seq_abort; [pres | apply untouched_refl |]. intros t0 s1 H1.
  apply wp_seq_abort; [pres | exact H1 |]. intros _ s2 H2.
  apply wp_abort_bind. unfold BC_selector_and_coeff_matrix_creator.
  apply wp_seq_abort;
    [apply preserves_whenM; [pres|];
     repeat (apply preserves_bind; [apply print_BC_preserves | intros _]);
     apply print_BC_preserves
    | exact H2 |].
  intros _ s3 H3.
  apply wp_seq_abort; [apply BC_Rigidity_preserves | exact H3 |]. intros _ s4 H4.
  apply wp_seq_abort; [apply get_coeff_values_preserves | exact H4 |]. intros _ s5 H5.
  apply wp_abort_bind.
  eapply wp_conseq.
  - apply (BC_Flexure_unpaired s5 bw be bn bs); try assumption;
      [rewrite <- HW | rewrite <- HE | rewrite <- HN | rewrite <- HS];
      apply H5; cbn; tauto.
  - intros r s' [Hf Hu]. split; [assumption|].
    now apply (untouched_trans _ s s5 s').
Qed.

(** C9 (as amended).  Let one edge of an opposing pair be Periodic and
    the other not, and let no coefficient matrix be supplied beforehand.
    Then [FD] never completes: it ends in an exit or an exception (from
    [BC_Flexure] at the latest), before the sparse matrix is assembled
    and before the linear solve, so that [coeff_matrix] is still absent
    and [w] is as it was.  (What the stages before [BC_Flexure] have
    written, the padded rigidity and the thirteen coefficient arrays
    among it, stays on the instance.) *)
Theorem FD_unpaired_Periodic_aborts env s bw be bn bs :
  self s "coeff_matrix" = None ->
  self s "BC_W" = Some (VStr bw) -> self s "BC_E" = Some (VStr be) ->
  self s "BC_N" = Some (VStr bn) -> self s "BC_S" = Some (VStr bs) ->
  unpaired bw be \/ unpaired bn bs ->
  exists r s',
    FD env s = (r, s') /\ failed r /\
    self s' "coeff_matrix" = None /\ self s' "w" = self s "w".
Proof.
  intros HM HW HE HN HS Hun.
  assert (H : wp (FD env) (aborted s) s).
  { unfold FD.
    apply wp_seq_abort; [apply elasprep_preserves | apply untouched_refl |].
    intros _ s1 H1. apply wp_abort_bind.
    assert (HM1 : self s1 "coeff_matrix" = None).
    { rewrite <- HM. apply H1. cbn. tauto. }
    unfold wp. rewrite HM1.
    eapply (wp_conseq coeff_matrix_creator).
    - apply (coeff_matrix_creator_unpaired s1 bw be bn bs); try assumption;
        [rewrite <- HW | rewrite <- HE | rewrite <- HN | rewrite <- HS];
        apply H1; cbn; tauto.
    - intros r s' [Hf Hu]. split; [assumption|].
      now apply (untouched_trans _ s s1 s'). }
  destruct (wp_run _ _ _ H) as (r & s' & Hrun & Hf & Hu).
  exists r, s'. repeat split; try assumption.
  - rewrite <- HM. apply Hu. cbn. tauto.
  - apply Hu. cbn. tauto.
Qed.

Lemma FD_unpaired_Periodic_aborts_witness :
  exists r s',
    FD plain_environment
       (plate Te_ramp 1 1 "Periodic" "Dirichlet0" "Dirichlet0" "Dirichlet0" "vWC1994")
    = (r, s') /\ failed r /\
    self s' "coeff_matrix" = None /\
    self s' "w"
    = self (plate Te_ramp 1 1 "Periodic" "Dirichlet0" "Dirichlet0" "Dirichlet0"
              "vWC1994") "w".
Proof.
  apply (FD_unpaired_Periodic_aborts plain_environment _
           "Periodic" "Dirichlet0" "Dirichlet0" "Dirichlet0").
  - reflexivity.
  - reflexivity.
  - reflexivity.
  - reflexivity.
  - reflexivity.
  - left. left. split; [reflexivity | discriminate].
Defined.

(** C9, counterexample.  West Periodic, East Dirichlet0 on a fresh
    instance: the solve ends in the exit of [BC_Flexure], and the padded
    rigidity and the coefficient arrays that the earlier stages computed
    are on the instance although they were not there before.  With a
    coefficient matrix supplied beforehand the same edges go unnoticed
    and the solve completes. *)
Lemma unpaired_Periodic_leaves_arrays_behind :
  fst (FD plain_environment
         (plate Te_ramp 1 1 "Periodic" "Dirichlet0" "Dirichlet0" "Dirichlet0" "vWC1994"))
  = Exit "Not physical to have one wrap-around boundary but not its pair." /\
  self (plate Te_ramp 1 1 "Periodic" "Dirichlet0" "Dirichlet0" "Dirichlet0" "vWC1994")
       "D" = None /\
  self (plate Te_ramp 1 1 "Periodic" "Dirichlet0" "Dirichlet0" "Dirichlet0" "vWC1994")
       "cj0i0" = None /\
  map (fun i => map (value_at (snd (FD plain_environment
                       (plate Te_ramp 1 1 "Periodic" "Dirichlet0" "Dirichlet0"
                          "Dirichlet0" "vWC1994"))) "D" i) [0; 1; 2; 3; 4]%nat)
      [0; 1; 2; 3; 4]%nat
  = [[Some (-162 # 1)%Q; Some (-62 # 1)%Q; Some (-109 # 1)%Q; Some (-162 # 1)%Q; Some (-215 # 1)%Q];
     [Some 27%Q;  Some 1%Q;   Some 8%Q;   Some 27%Q;  Some 46%Q];
     [Some 216%Q; Some 64%Q;  Some 125%Q; Some 216%Q; Some 307%Q];
     [Some 729%Q; Some 343%Q; Some 512%Q; Some 729%Q; Some 946%Q];
     [Some 1242%Q; Some 622%Q; Some 899%Q; Some 1242%Q; Some 1585%Q]] /\
  value_at (snd (FD plain_environment
                   (plate Te_ramp 1 1 "Periodic" "Dirichlet0" "Dirichlet0" "Dirichlet0"
                      "vWC1994"))) "cj0i0" 1 1 = Some 1901%Q /\
  fst (FD plain_environment
         (with_attr "coeff_matrix" (VMat (mkDia 9 9 [0] [repeat (num 1) 9]))
            (plate Te_ramp 1 1 "Periodic" "Dirichlet0" "Dirichlet0" "Dirichlet0"
               "vWC1994")))
  = Ok tt.
Proof. repeat split; vm_compute; reflexivity. Qed.

(* ================================================================== *)
(** * Superposition of analytical solutions, scattered points *)

Module SASFacts.

Import SAS.
Local Open Scope R_scope.

Lemma nth_zeros (l : list R) k : nth k (map (fun _ => 0) l) 0 = 0.
Proof.
  revert k. induction l as [|a l IH]; intros [|k]; cbn; auto.
Qed.

Section NoGrid.

Variable kei : R -> R.
Variable v : Vars.
Variables x y q0 : list R.

Hypothesis y_length : length y = length x.
Hypothesis q0_length : length q0 = length x.

Lemma distances_length x0 y0 : length (distances x y x0 y0) = length x.
Proof.
  unfold distances. rewrite length_map, length_combine, y_length.
  apply Nat.min_id.
Qed.

Lemma nth_distances k x0 y0 :
  (k < length x)%nat ->
  nth k (distances x y x0 y0) 0
  = sqrt ((nth k x 0 - x0) ^ 2 + (nth k y 0 - y0) ^ 2).
Proof.
  intros Hk. unfold distances.
  rewrite (nth_indep _ 0 (sqrt ((fst (0, 0) - x0) ^ 2 + (snd (0, 0) - y0) ^ 2)))
    by (rewrite length_map, length_combine, y_length, Nat.min_id; exact Hk).
  rewrite (map_nth (fun p => sqrt ((fst p - x0) ^ 2 + (snd p - y0) ^ 2))
             (combine x y) (0, 0) k).
  rewrite combine_nth by (symmetry; exact y_length).
  reflexivity.
Qed.

Lemma vadd_length u w : length u = length w -> length (vadd u w) = length u.
Proof.
  intros H. unfold vadd. rewrite length_map, length_combine, <- H.
  apply Nat.min_id.
Qed.

Lemma nth_vadd u w k :
  length u = length w -> (k < length u)%nat ->
  nth k (vadd u w) 0 = nth k u 0 + nth k w 0.
Proof.
  intros H Hk. unfold vadd.
  rewrite (nth_indep _ 0 (fst (0, 0) + snd (0, 0)))
    by (rewrite length_map, length_combine, <- H, Nat.min_id; exact Hk).
  rewrite (map_nth (fun p => fst p + snd p) (combine u w) (0, 0) k).
  rewrite combine_nth by exact H.
  reflexivity.
Qed.

Lemma add_point_length w i :
  length w = length x -> length (add_point kei v x y q0 w i) = length x.
Proof.
  intros Hw. unfold add_point.
  rewrite vadd_length; [exact Hw|].
  now rewrite length_map, distances_length.
Qed.

(** One turn of the loop adds the contribution of point [i] at [k]. *)
Lemma nth_add_point w i k :
  length w = length x -> (k < length x)%nat ->
  nth k (add_point kei v x y q0 w i) 0
  = nth k w 0 + contribution kei v x y q0 k i.
Proof.
  intros Hw Hk. unfold add_point.
  rewrite nth_vadd;
    [| now rewrite length_map, distances_length | now rewrite Hw].
  f_equal.
  rewrite (nth_indep _ 0 (nth i q0 0 * coeff v * kei (0 / alpha v)))
    by (rewrite length_map, distances_length; exact Hk).
  rewrite (map_nth (fun ri => nth i q0 0 * coeff v * kei (ri / alpha v))
             (distances x y (nth i x 0) (nth i y 0)) 0 k).
  now rewrite nth_distances.
Qed.

Lemma nth_loop l w k :
  length w = length x -> (k < length x)%nat ->
  nth k (fold_left (add_point kei v x y q0) l w) 0
  = nth k w 0 + sum_over l (contribution kei v x y q0 k).
Proof.
  revert w. induction l as [|i l IH]; intros w Hw Hk; cbn [fold_left sum_over fold_right].
  - ring.
  - rewrite IH; [| now apply add_point_length | exact Hk].
    rewrite nth_add_point by assumption.
    unfold sum_over. ring.
Qed.

(** C8 (as amended).  In the scattered-point solve the deflection at
    each point is the sum of the Kelvin-weighted contributions
    [q0 * coeff * kei(r / alpha)] of every point, the point itself
    included: the loop runs over all [i] in [range(len(x))] and adds to
    the whole of [w], so point [k] also receives its own contribution,
    for which r = 0. *)
Theorem spatialDomainNoGrid_sums_every_point k :
  (k < length x)%nat ->
  nth k (spatialDomainNoGrid kei v x y q0) 0 = sum_all_points kei v x y q0 k.
Proof.
  intros Hk. unfold spatialDomainNoGrid, sum_all_points.
  rewrite nth_loop; [| now rewrite length_map | exact Hk].
  rewrite nth_zeros. ring.
Qed.

End NoGrid.

Lemma spatialDomainNoGrid_sums_every_point_witness :
  nth 1 (spatialDomainNoGrid cos (spatialDomainVars unit_plate) [0; 3] [0; 4] [1; 2]) 0
  = sum_all_points cos (spatialDomainVars unit_plate) [0; 3] [0; 4] [1; 2] 1.
Proof.
  apply (spatialDomainNoGrid_sums_every_point cos (spatialDomainVars unit_plate)
           [0; 3] [0; 4] [1; 2]).
  - reflexivity.
  - reflexivity.
  - simpl. lia.
Defined.

Lemma sum_over_split (f : nat -> R) k l :
  NoDup l -> In k l ->
  sum_over l f = sum_over (filter (fun i => negb (Nat.eqb i k)) l) f + f k.
Proof.
  induction l as [|i l IH]; intros Hnd Hin; [contradiction|].
  inversion Hnd as [|? ? Hni Hnd']; subst.
  cbn [filter sum_over fold_right].
  destruct (Nat.eqb_spec i k) as [->|Hne]; cbn [negb].
  - (* the point itself: it does not occur again *)
    replace (filter (fun i => negb (Nat.eqb i k)) l) with l; [unfold sum_over; ring|].
    symmetry. apply forallb_filter_id. apply forallb_forall.
    intros j Hj. apply negb_true_iff, Nat.eqb_neq. intros ->. contradiction.
  - destruct Hin as [->|Hin]; [contradiction|].
    cbn [sum_over fold_right]. fold (sum_over l f).
    fold (sum_over (filter (fun i => negb (Nat.eqb i k)) l) f).
    rewrite (IH Hnd' Hin). ring.
Qed.

(** The sum over every point is the sum over the other points plus the
    point's own contribution. *)
Lemma sum_all_points_own kei v x y q0 k :
  (k < length x)%nat ->
  sum_all_points kei v x y q0 k
  = sum_other_points kei v x y q0 k + contribution kei v x y q0 k k.
Proof.
  intros Hk. unfold sum_all_points, sum_other_points.
  apply sum_over_split; [apply seq_NoDup | apply in_seq; lia].
Qed.

Lemma unit_plate_vars :
  D (spatialDomainVars unit_plate) = 1 /\
  alpha (spatialDomainVars unit_plate) = 1 /\
  coeff (spatialDomainVars unit_plate) = 1 / (2 * PI).
Proof.
  assert (HD : 12 * 1 ^ 3 / (12 * (1 - 0 ^ 2)) = 1) by (field; lra).
  assert (Ha : Rpower (1 / (1 * 1)) (1 / 4) = 1).
  { replace (1 / (1 * 1)) with 1 by (field; lra).
    unfold Rpower. now rewrite ln_1, Rmult_0_r, exp_0. }
  cbn [spatialDomainVars unit_plate D alpha coeff E Te nu drho g].
  rewrite HD, Ha. repeat split. assert (PI <> 0) by apply PI_neq0. field. assumption.
Qed.

(** With one unit load at the origin the code gives the point its own
    deflection [kei 0 / (2 pi)], where the sum over the other points is
    empty. *)
Lemma single_point_deflection kei :
  nth 0 (spatialDomainNoGrid kei (spatialDomainVars unit_plate) [0] [0] [1]) 0
  = 1 / (2 * PI) * kei 0 /\
  sum_other_points kei (spatialDomainVars unit_plate) [0] [0] [1] 0 = 0.
Proof.
  destruct unit_plate_vars as (HD & Ha & Hc).
  split; [|reflexivity].
  unfold spatialDomainNoGrid.
  rewrite nth_loop by (cbn; lia || reflexivity).
  rewrite nth_zeros.
  unfold sum_over, contribution. cbn [length seq fold_right nth].
  rewrite Ha, Hc.
  replace ((0 - 0) ^ 2 + (0 - 0) ^ 2) with 0 by ring.
  rewrite sqrt_0. replace (0 / 1) with 0 by field. ring.
Qed.

(** C8, counterexample.  The Kelvin function is [- pi / 4] at 0, so the
    single loaded point is deflected by [- 1 / 8], not by the empty sum
    over the other points: the claim fails for the Kelvin function and
    for every function with that value at 0. *)
Lemma own_contribution_is_not_excluded :
  ~ (forall kei : R -> R,
       kei 0 = - PI / 4 ->
       nth 0 (spatialDomainNoGrid kei (spatialDomainVars unit_plate) [0] [0] [1]) 0
       = sum_other_points kei (spatialDomainVars unit_plate) [0] [0] [1] 0).
Proof.
  intros H.
  specialize (H (fun _ => - PI / 4) eq_refl).
  destruct (single_point_deflection (fun _ => - PI / 4)) as [Hcode Hclaim].
  rewrite Hcode, Hclaim in H.
  assert (HPI : PI <> 0) by apply PI_neq0.
  assert (Heq : 1 / (2 * PI) * (- PI / 4) = - (1 / 8)) by (field; assumption).
  rewrite Heq in H. lra.
Qed.

End SASFacts.

(* ================================================================== *)
(** * Boundary conditions keep the cells far from the edges *)

Lemma pyidx_0 n : (1 <= n)%nat -> pyidx n 0 = Some 0%nat.
Proof.
  intros H. unfold pyidx.
  replace (0 <? Z.of_nat n) with true by (symmetry; apply Z.ltb_lt; lia).
  reflexivity.
Qed.

Lemma pyidx_1 n : (2 <= n)%nat -> pyidx n 1 = Some 1%nat.
Proof.
  intros H. unfold pyidx.
  replace (1 <? Z.of_nat n) with true by (symmetry; apply Z.ltb_lt; lia).
  reflexivity.
Qed.

Lemma pyidx_m1 n : (1 <= n)%nat -> pyidx n (-1) = Some (n - 1)%nat.
Proof.
  intros H. unfold pyidx. cbn [Z.leb Z.ltb Z.compare andb].
  replace (0 <=? Z.of_nat n + -1) with true by (symmetry; apply Z.leb_le; lia).
  f_equal. lia.
Qed.

Lemma pyidx_m2 n : (2 <= n)%nat -> pyidx n (-2) = Some (n - 2)%nat.
Proof.
  intros H. unfold pyidx. cbn [Z.leb Z.ltb Z.compare andb].
  replace (0 <=? Z.of_nat n + -2) with true by (symmetry; apply Z.leb_le; lia).
  f_equal. lia.
Qed.

(** An index of one of the two outermost lines at either end. *)
Definition outer (n : nat) (k : Z) (k' : nat) : Prop :=
  pyidx n k = Some k' /\ (k' < n)%nat /\ ((k' < 2)%nat \/ (n <= k' + 2)%nat).

Lemma outer_0 n : (2 <= n)%nat -> outer n 0 0.
Proof. intros H. split; [apply pyidx_0; lia | lia]. Qed.

Lemma outer_1 n : (2 <= n)%nat -> outer n 1 1.
Proof. intros H. split; [apply pyidx_1; lia | lia]. Qed.

Lemma outer_m1 n : (2 <= n)%nat -> outer n (-1) (n - 1).
Proof. intros H. split; [apply pyidx_m1; lia | lia]. Qed.

Lemma outer_m2 n : (2 <= n)%nat -> outer n (-2) (n - 2).
Proof. intros H. split; [apply pyidx_m2; lia | lia]. Qed.

Lemma set_col_shaped ny nx a j f :
  shaped ny nx a -> (0 < ny)%nat -> shaped ny nx (set_col a j f).
Proof.
  intros Ha Hny. unfold set_col.
  rewrite (shaped_nrows _ _ _ Ha), (shaped_ncols _ _ _ Ha) by lia.
  apply tabulate_shaped.
Qed.

Lemma get_set_col ny nx a j f i c :
  shaped ny nx a -> (i < ny)%nat -> (c < nx)%nat ->
  get (set_col a j f) i c = if Nat.eqb c j then f i else get a i c.
Proof.
  intros Ha Hi Hc. unfold set_col.
  rewrite (shaped_nrows _ _ _ Ha), (shaped_ncols _ _ _ Ha) by lia.
  now rewrite get_tabulate.
Qed.

Lemma set_row_shaped ny nx a i f :
  shaped ny nx a -> (0 < ny)%nat -> shaped ny nx (set_row a i f).
Proof.
  intros Ha Hny. unfold set_row.
  rewrite (shaped_nrows _ _ _ Ha), (shaped_ncols _ _ _ Ha) by lia.
  apply tabulate_shaped.
Qed.

Lemma get_set_row ny nx a i f r c :
  shaped ny nx a -> (r < ny)%nat -> (c < nx)%nat ->
  get (set_row a i f) r c = if Nat.eqb r i then f c else get a r c.
Proof.
  intros Ha Hr Hc. unfold set_row.
  rewrite (shaped_nrows _ _ _ Ha), (shaped_ncols _ _ _ Ha) by lia.
  now rewrite get_tabulate.
Qed.

Lemma set_cell_shaped ny nx a i j x :
  shaped ny nx a -> (0 < ny)%nat -> shaped ny nx (set_cell a i j x).
Proof.
  intros Ha Hny. unfold set_cell.
  rewrite (shaped_nrows _ _ _ Ha), (shaped_ncols _ _ _ Ha) by lia.
  apply tabulate_shaped.
Qed.

Lemma get_set_cell ny nx a i j x r c :
  shaped ny nx a -> (r < ny)%nat -> (c < nx)%nat ->
  get (set_cell a i j x) r c = if Nat.eqb r i && Nat.eqb c j then x else get a r c.
Proof.
  intros Ha Hr Hc. unfold set_cell.
  rewrite (shaped_nrows _ _ _ Ha), (shaped_ncols _ _ _ Ha) by lia.
  now rewrite get_tabulate.
Qed.

Lemma column_length a j : length (column a j) = nrows a.
Proof. unfold column. apply length_map. Qed.

Lemma inb_In name P : inb name P = true -> In name P.
Proof.
  unfold inb. intros H. apply existsb_exists in H as (k & Hin & Hk).
  apply String.eqb_eq in Hk. now subst.
Qed.

Lemma working_not_raw c : inb c coeff_array_list = true -> inb c raw_names = false.
Proof.
  intros H. apply inb_In in H. cbn [In coeff_array_list] in H.
  repeat (destruct H as [<-|H]; [reflexivity|]). contradiction.
Qed.

Section BoundaryConditions.

Variables ny nx : nat.
Variable s0 : State.
Hypothesis Hny : (2 <= ny)%nat.
Hypothesis Hnx : (2 <= nx)%nat.

(** Replacing a working array by one of the same shape that agrees
    with it far from the edges keeps the invariant. *)
Lemma stencil_ok_update s name a a' :
  stencil_ok ny nx s0 s ->
  inb name coeff_array_list = true ->
  self s name = Some (VArr a) ->
  shaped ny nx a' ->
  (forall i j, far_from_edges ny nx i j -> get a' i j = get a i j) ->
  stencil_ok ny nx s0 (with_attr name (VArr a') s).
Proof.
  intros (Hw & Hr & Hf) Hin Ha Ha' Hfar.
  split; [|split].
  - intros c Hc. cbn [self with_attr]. unfold insert.
    destruct (String.eqb_spec c name) as [->|Hne].
    + destruct (Hw name Hc) as (b & b0 & Hb & Hsb & Hb0 & Hfar0).
      exists a', b0.
      split; [reflexivity|]. split; [assumption|]. split; [assumption|].
      intros i j Hij. rewrite (Hfar i j Hij).
      assert (b = a) by congruence. subst b. now apply Hfar0.
    + now apply Hw.
  - intros k Hk. cbn [self with_attr]. unfold insert.
    destruct (String.eqb_spec k name) as [->|Hne].
    + rewrite (working_not_raw name Hin) in Hk. discriminate.
    + now apply Hr.
  - intros k Hk. cbn [self with_attr]. unfold insert.
    destruct (String.eqb_spec k name) as [->|Hne]; [congruence|].
    now apply Hf.
Qed.

Lemma far_not_outer_col i j k k' :
  far_from_edges ny nx i j -> outer nx k k' -> Nat.eqb j k' = false.
Proof.
  intros (_ & _ & H1 & H2) (_ & _ & H3). apply Nat.eqb_neq. lia.
Qed.

Lemma far_not_outer_row i j k k' :
  far_from_edges ny nx i j -> outer ny k k' -> Nat.eqb i k' = false.
Proof.
  intros (H1 & H2 & _ & _) (_ & _ & H3). apply Nat.eqb_neq. lia.
Qed.

Lemma far_in_grid i j : far_from_edges ny nx i j -> (i < ny)%nat /\ (j < nx)%nat.
Proof. unfold far_from_edges. lia. Qed.

(** The value stored in a line is a float or a 1-D array of the
    line's length. *)
Lemma rows_of_kind n k (e : Exp) s :
  has_kind ny nx n k e s -> k <> KArr ->
  exists v f, e s = Ok v /\ rows_of v n = Some f.
Proof.
  intros H Hk. destruct k; cbn in H; [| congruence |].
  - destruct H as [x ->]. now exists (VNum x), (fun _ => x).
  - destruct H as (u & -> & Hu). exists (VVec u), (fun i => nth i u NaN).
    split; [reflexivity|]. cbn [rows_of]. now rewrite Hu, Nat.eqb_refl.
Qed.

Lemma add_to_line n u k (e : Exp) s :
  length u = n -> has_kind ny nx n k e s -> k <> KArr ->
  exists v r f, e s = Ok v /\ py_arith vadd (VVec u) v = Ok r /\
                rows_of r n = Some f.
Proof.
  intros Hu H Hk. destruct k; cbn in H; [| congruence |].
  - destruct H as [x ->]. eexists _, _, _. split; [reflexivity|]. split; [reflexivity|].
    cbn [rows_of]. now rewrite length_map, Hu, Nat.eqb_refl.
  - destruct H as (w & -> & Hw). eexists _, _, _. split; [reflexivity|].
    cbn [py_arith]. rewrite Hu, Hw, Nat.eqb_refl. split; [reflexivity|].
    cbn [rows_of]. unfold vmap2.
    rewrite length_map, length_combine, Hu, Hw, Nat.min_id.
    now rewrite Nat.eqb_refl.
Qed.

(** [self.name[:, j] += e] on an outermost column. *)
Lemma iadd_col_ok name j j' k e Q s :
  stencil_ok ny nx s0 s ->
  inb name coeff_array_list = true ->
  outer nx j j' ->
  has_kind ny nx ny k e s -> k <> KArr ->
  (forall s', stencil_ok ny nx s0 s' -> Q (Ok tt) s') ->
  wp (iadd_col name j e) Q s.
Proof.
  intros Hok Hin Hout Hk Hnk HQ.
  destruct (proj1 Hok name Hin) as (a & a0 & Ha & Hsa & Ha0 & Hfar).
  destruct Hout as (Hidx & Hlt & Hedge).
  assert (Hnr : nrows a = ny) by now apply shaped_nrows in Hsa.
  assert (Hnc : ncols a = nx) by (apply (shaped_ncols ny nx a Hsa); lia).
  destruct (add_to_line ny (column a j') k e s) as (v & r & f & He & Hr & Hf);
    [now rewrite column_length | assumption | assumption |].
  unfold iadd_col. apply wp_bind.
  eapply wp_eval.
  { unfold col. eapply ev_ebind; [apply attr_ok; exact Ha|]. cbv beta iota.
    rewrite Hnc, Hidx. reflexivity. }
  cbn [cont]. apply wp_bind. eapply wp_eval; [exact He|]. cbn [cont].
  apply wp_bind. apply wp_lift. rewrite Hr. cbn [cont].
  unfold store_col. apply wp_bind. eapply wp_eval; [apply attr_ok; exact Ha|].
  cbn [cont]. rewrite Hnc, Hidx, Hnr, Hf. apply wp_setattr. apply HQ.
  apply (stencil_ok_update s name a); try assumption.
  - apply set_col_shaped; [assumption | lia].
  - intros i c Hic. destruct (far_in_grid i c Hic) as [Hi Hc].
    rewrite (get_set_col ny nx) by assumption.
    assert (Hne : Nat.eqb c j' = false).
    { apply Nat.eqb_neq. destruct Hic as (_ & _ & H1 & H2). lia. }
    now rewrite Hne.
Qed.

(** [self.name[i, :] += e] on an outermost row. *)
Lemma iadd_row_ok name i i' k e Q s :
  stencil_ok ny nx s0 s ->
  inb name coeff_array_list = true ->
  outer ny i i' ->
  has_kind ny nx nx k e s -> k <> KArr ->
  (forall s', stencil_ok ny nx s0 s' -> Q (Ok tt) s') ->
  wp (iadd_row name i e) Q s.
Proof.
  intros Hok Hin Hout Hk Hnk HQ.
  destruct (proj1 Hok name Hin) as (a & a0 & Ha & Hsa & Ha0 & Hfar).
  destruct Hout as (Hidx & Hlt & Hedge).
  assert (Hnr : nrows a = ny) by now apply shaped_nrows in Hsa.
  assert (Hnc : ncols a = nx) by (apply (shaped_ncols ny nx a Hsa); lia).
  destruct (add_to_line nx (nth i' a []) k e s) as (v & r & f & He & Hr & Hf);
    [now apply (shaped_row ny nx) | assumption | assumption |].
  unfold iadd_row. apply wp_bind.
  eapply wp_eval.
  { unfold row. eapply ev_ebind; [apply attr_ok; exact Ha|]. cbv beta iota.
    rewrite Hnr, Hidx. reflexivity. }
  cbn [cont]. apply wp_bind. eapply wp_eval; [exact He|]. cbn [cont].
  apply wp_bind. apply wp_lift. rewrite Hr. cbn [cont].
  unfold store_row. apply wp_bind. eapply wp_eval; [apply attr_ok; exact Ha|].
  cbn [cont]. rewrite Hnr, Hidx, Hnc, Hf. apply wp_setattr. apply HQ.
  apply (stencil_ok_update s name a); try assumption.
  - apply set_row_shaped; [assumption | lia].
  - intros p c Hpc. destruct (far_in_grid p c Hpc) as [Hp Hc].
    rewrite (get_set_row ny nx) by assumption.
    assert (Hne : Nat.eqb p i' = false).
    { apply Nat.eqb_neq. destruct Hpc as (H1 & H2 & _ & _). lia. }
    now rewrite Hne.
Qed.

(** The two masked statements on an outermost row. *)
Lemma set_row_where_ne_inf_ok name i i' x Q s :
  stencil_ok ny nx s0 s ->
  inb name coeff_array_list = true ->
  outer ny i i' ->
  (forall s', stencil_ok ny nx s0 s' -> Q (Ok tt) s') ->
  wp (set_row_where_ne_inf name i x) Q s.
Proof.
  intros Hok Hin Hout HQ.
  destruct (proj1 Hok name Hin) as (a & a0 & Ha & Hsa & Ha0 & Hfar).
  destruct Hout as (Hidx & Hlt & Hedge).
  assert (Hnr : nrows a = ny) by now apply shaped_nrows in Hsa.
  unfold set_row_where_ne_inf. apply wp_bind.
  eapply wp_eval; [apply attr_ok; exact Ha|]. cbn [cont]. rewrite Hnr, Hidx.
  apply wp_setattr. apply HQ.
  apply (stencil_ok_update s name a); try assumption.
  - apply set_row_shaped; [assumption | lia].
  - intros p c Hpc. destruct (far_in_grid p c Hpc) as [Hp Hc].
    rewrite (get_set_row ny nx) by assumption.
    assert (Hne : Nat.eqb p i' = false).
    { apply Nat.eqb_neq. destruct Hpc as (H1 & H2 & _ & _). lia. }
    now rewrite Hne.
Qed.

Lemma iadd_row_where_ne_inf_ok name i i' x Q s :
  stencil_ok ny nx s0 s ->
  inb name coeff_array_list = true ->
  outer ny i i' ->
  (forall s', stencil_ok ny nx s0 s' -> Q (Ok tt) s') ->
  wp (iadd_row_where_ne_inf name i x) Q s.
Proof.
  intros Hok Hin Hout HQ.
  destruct (proj1 Hok name Hin) as (a & a0 & Ha & Hsa & Ha0 & Hfar).
  destruct Hout as (Hidx & Hlt & Hedge).
  assert (Hnr : nrows a = ny) by now apply shaped_nrows in Hsa.
  unfold iadd_row_where_ne_inf. apply wp_bind.
  eapply wp_eval; [apply attr_ok; exact Ha|]. cbn [cont]. rewrite Hnr, Hidx.
  apply wp_setattr. apply HQ.
  apply (stencil_ok_update s name a); try assumption.
  - apply set_row_shaped; [assumption | lia].
  - intros p c Hpc. destruct (far_in_grid p c Hpc) as [Hp Hc].
    rewrite (get_set_row ny nx) by assumption.
    assert (Hne : Nat.eqb p i' = false).
    { apply Nat.eqb_neq. destruct Hpc as (H1 & H2 & _ & _). lia. }
    now rewrite Hne.
Qed.

(** [self.name[i, j] += e] and [-=] on a corner. *)
Lemma update_cell_ok f name i i' j j' e Q s :
  stencil_ok ny nx s0 s ->
  inb name coeff_array_list = true ->
  outer ny i i' -> outer nx j j' ->
  has_kind ny nx 0 KNum e s ->
  (forall s', stencil_ok ny nx s0 s' -> Q (Ok tt) s') ->
  wp (old <- eval (cell (attr name) i j) ;;
      v <- eval e ;;
      r <- lift (py_arith f old v) ;;
      store_cell name i j r) Q s.
Proof.
  intros Hok Hin Houti Houtj [x He] HQ.
  destruct (proj1 Hok name Hin) as (a & a0 & Ha & Hsa & Ha0 & Hfar).
  destruct Houti as (Hidxi & Hlti & Hedgei).
  destruct Houtj as (Hidxj & Hltj & Hedgej).
  assert (Hnr : nrows a = ny) by now apply shaped_nrows in Hsa.
  assert (Hnc : ncols a = nx) by (apply (shaped_ncols ny nx a Hsa); lia).
  apply wp_bind.
  eapply wp_eval.
  { unfold cell. eapply ev_ebind; [apply attr_ok; exact Ha|]. cbv beta iota.
    rewrite Hnr, Hnc, Hidxi, Hidxj. reflexivity. }
  cbn [cont]. apply wp_bind. eapply wp_eval; [exact He|]. cbn [cont].
  apply wp_bind. apply wp_lift. cbn [py_arith cont].
  unfold store_cell. apply wp_bind. eapply wp_eval; [apply attr_ok; exact Ha|].
  cbn [cont]. rewrite Hnr, Hnc, Hidxi, Hidxj. apply wp_setattr. apply HQ.
  apply (stencil_ok_update s name a); try assumption.
  - apply set_cell_shaped; [assumption | lia].
  - intros p c Hpc. destruct (far_in_grid p c Hpc) as [Hp Hc].
    rewrite (get_set_cell ny nx) by assumption.
    assert (Hne : Nat.eqb p i' = false).
    { apply Nat.eqb_neq. destruct Hpc as (H1 & H2 & _ & _). lia. }
    now rewrite Hne.
Qed.

Lemma iadd_cell_ok name i i' j j' e Q s :
  stencil_ok ny nx s0 s ->
  inb name coeff_array_list = true ->
  outer ny i i' -> outer nx j j' ->
  has_kind ny nx 0 KNum e s ->
  (forall s', stencil_ok ny nx s0 s' -> Q (Ok tt) s') ->
  wp (iadd_cell name i j e) Q s.
Proof. apply update_cell_ok. Qed.

Lemma isub_cell_ok name i i' j j' e Q s :
  stencil_ok ny nx s0 s ->
  inb name coeff_array_list = true ->
  outer ny i i' -> outer nx j j' ->
  has_kind ny nx 0 KNum e s ->
  (forall s', stencil_ok ny nx s0 s' -> Q (Ok tt) s') ->
  wp (isub_cell name i j e) Q s.
Proof. apply update_cell_ok. Qed.

(** Kinds of the right-hand sides: lines and cells of the raw copies. *)
Lemma kind_raw n name s :
  stencil_ok ny nx s0 s -> inb name raw_names = true ->
  has_kind ny nx n KArr (attr name) s.
Proof.
  intros (_ & Hr & _) Hin. destruct (Hr name Hin) as (a & Ha & Hsa).
  exists a. split; [apply attr_ok; exact Ha | assumption].
Qed.

Lemma kind_col e j j' s :
  has_kind ny nx ny KArr e s -> outer nx j j' ->
  has_kind ny nx ny KVec (col e j) s.
Proof.
  intros (a & He & Hsa) (Hidx & _).
  assert (Hnc : ncols a = nx) by (apply (shaped_ncols ny nx a Hsa); lia).
  exists (column a j'). split.
  - unfold col. eapply ev_ebind; [exact He|]. cbv beta iota. now rewrite Hnc, Hidx.
  - rewrite column_length. now apply shaped_nrows in Hsa.
Qed.

Lemma kind_row e i i' s :
  has_kind ny nx nx KArr e s -> outer ny i i' ->
  has_kind ny nx nx KVec (row e i) s.
Proof.
  intros (a & He & Hsa) (Hidx & Hlt & _).
  assert (Hnr : nrows a = ny) by now apply shaped_nrows in Hsa.
  exists (nth i' a []). split.
  - unfold row. eapply ev_ebind; [exact He|]. cbv beta iota. now rewrite Hnr, Hidx.
  - now apply (shaped_row ny nx).
Qed.

Lemma kind_cell n e i i' j j' s :
  has_kind ny nx n KArr e s -> outer ny i i' -> outer nx j j' ->
  has_kind ny nx n KNum (cell e i j) s.
Proof.
  intros (a & He & Hsa) (Hidxi & _) (Hidxj & _).
  assert (Hnr : nrows a = ny) by now apply shaped_nrows in Hsa.
  assert (Hnc : ncols a = nx) by (apply (shaped_ncols ny nx a Hsa); lia).
  exists (get a i' j'). unfold cell. eapply ev_ebind; [exact He|].
  cbv beta iota. now rewrite Hnr, Hnc, Hidxi, Hidxj.
Qed.

End BoundaryConditions.

Section Edges.

Variables ny nx : nat.
Variable s0 : State.
Hypothesis Hny : (2 <= ny)%nat.
Hypothesis Hnx : (2 <= nx)%nat.

Lemma keeps_seq m1 m2 :
  keeps ny nx s0 m1 -> keeps ny nx s0 m2 -> keeps ny nx s0 (m1 ;; m2).
Proof.
  intros H1 H2 s Q Hok HQ. apply wp_bind. apply H1; [assumption|].
  intros s' Hok'. cbn [cont]. now apply H2.
Qed.

Lemma keeps_ret : keeps ny nx s0 (ret tt).
Proof. intros s Q Hok HQ. apply wp_ret. now apply HQ. Qed.

Lemma keeps_if c t e :
  decides ny nx s0 c -> keeps ny nx s0 t -> keeps ny nx s0 e ->
  keeps ny nx s0 (ifM c t e).
Proof.
  intros Hc Ht He s Q Hok HQ. unfold ifM. apply wp_bind.
  apply Hc; [assumption|]. intros [|]; cbn [cont]; [now apply Ht | now apply He].
Qed.

Lemma keeps_when c t :
  decides ny nx s0 c -> keeps ny nx s0 t -> keeps ny nx s0 (whenM c t).
Proof. intros Hc Ht. apply keeps_if; [assumption | assumption | apply keeps_ret]. Qed.

Lemma decides_is k l v :
  self s0 k = Some v -> inb k coeff_array_list = false ->
  decides ny nx s0 (is_ k l).
Proof.
  intros Hk Hin s Q Hok HQ. unfold is_. apply wp_bind.
  eapply wp_eval.
  { apply attr_ok. rewrite (proj2 (proj2 Hok) k Hin). exact Hk. }
  cbn [cont]. apply wp_ret. apply HQ.
Qed.

Lemma decides_or a b :
  decides ny nx s0 a -> decides ny nx s0 b -> decides ny nx s0 (a orelse b).
Proof.
  intros Ha Hb s Q Hok HQ. unfold orM. apply wp_bind.
  apply Ha; [assumption|]. intros [|]; cbn [cont].
  - apply wp_ret, HQ.
  - now apply Hb.
Qed.

Lemma decides_and a b :
  decides ny nx s0 a -> decides ny nx s0 b -> decides ny nx s0 (a andalso b).
Proof.
  intros Ha Hb s Q Hok HQ. unfold andM. apply wp_bind.
  apply Ha; [assumption|]. intros [|]; cbn [cont].
  - now apply Hb.
  - apply wp_ret, HQ.
Qed.

Lemma keeps_iadd_col name j j' k e :
  inb name coeff_array_list = true -> outer nx j j' ->
  (forall s, stencil_ok ny nx s0 s -> has_kind ny nx ny k e s) -> k <> KArr ->
  keeps ny nx s0 (iadd_col name j e).
Proof.
  intros Hin Hj Hk Hne s Q Hok HQ.
  eapply (iadd_col_ok ny nx s0); first [eassumption | exact (Hk s Hok)].
Qed.

Lemma keeps_iadd_row name i i' k e :
  inb name coeff_array_list = true -> outer ny i i' ->
  (forall s, stencil_ok ny nx s0 s -> has_kind ny nx nx k e s) -> k <> KArr ->
  keeps ny nx s0 (iadd_row name i e).
Proof.
  intros Hin Hi Hk Hne s Q Hok HQ.
  eapply (iadd_row_ok ny nx s0); first [eassumption | exact (Hk s Hok)].
Qed.

Lemma keeps_set_row_where_ne_inf name i i' x :
  inb name coeff_array_list = true -> outer ny i i' ->
  keeps ny nx s0 (set_row_where_ne_inf name i x).
Proof.
  intros Hin Hi s Q Hok HQ.
  eapply (set_row_where_ne_inf_ok ny nx s0); eassumption.
Qed.

Lemma keeps_iadd_row_where_ne_inf name i i' x :
  inb name coeff_array_list = true -> outer ny i i' ->
  keeps ny nx s0 (iadd_row_where_ne_inf name i x).
Proof.
  intros Hin Hi s Q Hok HQ.
  eapply (iadd_row_where_ne_inf_ok ny nx s0); eassumption.
Qed.

Lemma keeps_iadd_cell name i i' j j' e :
  inb name coeff_array_list = true -> outer ny i i' -> outer nx j j' ->
  (forall s, stencil_ok ny nx s0 s -> has_kind ny nx 0 KNum e s) ->
  keeps ny nx s0 (iadd_cell name i j e).
Proof.
  intros Hin Hi Hj Hk s Q Hok HQ.
  eapply (iadd_cell_ok ny nx s0); first [eassumption | exact (Hk s Hok)].
Qed.

Lemma keeps_isub_cell name i i' j j' e :
  inb name coeff_array_list = true -> outer ny i i' -> outer nx j j' ->
  (forall s, stencil_ok ny nx s0 s -> has_kind ny nx 0 KNum e s) ->
  keeps ny nx s0 (isub_cell name i j e).
Proof.
  intros Hin Hi Hj Hk s Q Hok HQ.
  eapply (isub_cell_ok ny nx s0); first [eassumption | exact (Hk s Hok)].
Qed.

(** A test on a label whose value is known. *)
Lemma wp_if_is {A} k l v (t e : M A) Q s :
  self s k = Some v ->
  wp (if str_eq v l then t else e) Q s -> wp (ifM (is_ k l) t e) Q s.
Proof.
  intros Hk H. unfold ifM, is_. apply wp_bind, wp_bind.
  eapply wp_eval; [apply attr_ok; exact Hk|]. cbn [cont].
  apply wp_ret. cbn [cont]. exact H.
Qed.

End Edges.

Ltac outer_tac :=
  first [apply outer_0 | apply outer_1 | apply outer_m1 | apply outer_m2];
  assumption.

(** Side conditions of the boundary statements: indices, names and the
    kinds of the right-hand sides. *)
Ltac bc_side :=
  idtac;
  lazymatch goal with
  | |- (_ <= _)%nat => assumption
  | |- inb _ _ = _ => reflexivity
  | |- join _ _ = _ => reflexivity
  | |- outer _ _ _ => outer_tac
  | |- stencil_ok _ _ _ _ => eassumption
  | |- self _ _ = _ => eassumption
  | |- _ <> _ => discriminate
  | |- has_kind _ _ _ _ (eadd _ _) _ => eapply kind_add; bc_side
  | |- has_kind _ _ _ _ (esub _ _) _ => eapply kind_sub; bc_side
  | |- has_kind _ _ _ _ (emul _ _) _ => eapply kind_mul; bc_side
  | |- has_kind _ _ _ _ (eneg _) _ => eapply kind_neg; bc_side
  | |- has_kind _ _ _ _ (flt _) _ => apply kind_flt
  | |- has_kind _ _ _ _ np_inf _ => apply kind_np_inf
  | |- has_kind _ _ _ _ (lit (VNum _)) _ => apply kind_lit_num
  | |- has_kind _ _ _ _ (col _ _) _ => eapply kind_col; bc_side
  | |- has_kind _ _ _ _ (row _ _) _ => eapply kind_row; bc_side
  | |- has_kind _ _ _ _ (cell _ _ _) _ => eapply kind_cell; bc_side
  | |- has_kind _ _ _ _ (attr _) _ => eapply kind_raw; bc_side
  | |- keeps _ _ _ (bind _ _) => apply keeps_seq; bc_side
  | |- keeps _ _ _ (ret tt) => apply keeps_ret
  | |- keeps _ _ _ (whenM _ _) => apply keeps_when; bc_side
  | |- keeps _ _ _ (ifM _ _ _) => apply keeps_if; bc_side
  | |- decides _ _ _ (orM _ _) => apply decides_or; bc_side
  | |- decides _ _ _ (andM _ _) => apply decides_and; bc_side
  | |- decides _ _ _ (is_ _ _) => eapply decides_is; bc_side
  | |- keeps _ _ _ (iadd_col _ _ _) => eapply keeps_iadd_col; bc_side
  | |- keeps _ _ _ (iadd_row _ _ _) => eapply keeps_iadd_row; bc_side
  | |- keeps _ _ _ (set_row_where_ne_inf _ _ _) =>
      eapply keeps_set_row_where_ne_inf; bc_side
  | |- keeps _ _ _ (iadd_row_where_ne_inf _ _ _) =>
      eapply keeps_iadd_row_where_ne_inf; bc_side
  | |- keeps _ _ _ (iadd_cell _ _ _ _) => eapply keeps_iadd_cell; bc_side
  | |- keeps _ _ _ (isub_cell _ _ _ _) => eapply keeps_isub_cell; bc_side
  | |- forall _, _ => intros ? ?; bc_side
  end.

(** Resolve the tests of a chain of [if]s on a label that is known. *)
Ltac known_label Hs :=
  repeat lazymatch goal with
         | |- wp (ifM (is_ _ _) _ _) _ _ =>
             eapply wp_if_is; [exact Hs|];
             cbn [str_eq String.eqb Ascii.eqb Bool.eqb andb]
         end.

Section Flexure.

Variables ny nx : nat.
Variable s0 : State.
Variables bW bE bN bS : string.
Hypothesis Hny : (2 <= ny)%nat.
Hypothesis Hnx : (2 <= nx)%nat.
Hypothesis HW : self s0 "BC_W" = Some (VStr bW).
Hypothesis HE : self s0 "BC_E" = Some (VStr bE).
Hypothesis HN : self s0 "BC_N" = Some (VStr bN).
Hypothesis HS : self s0 "BC_S" = Some (VStr bS).

Lemma BC_Flexure_corners_keeps : keeps ny nx s0 BC_Flexure_corners.
Proof. unfold BC_Flexure_corners. bc_side. Qed.

Lemma label_kept k v s :
  stencil_ok ny nx s0 s -> self s0 k = Some v ->
  inb k coeff_array_list = false -> self s k = Some v.
Proof. intros Hok Hk Hin. now rewrite (proj2 (proj2 Hok) k Hin). Qed.

Lemma BC_Flexure_W_keeps : local_BC bW -> keeps ny nx s0 BC_Flexure_W.
Proof.
  intros Hb s Q Hok HQ.
  pose proof (label_kept _ _ s Hok HW eq_refl) as Hs.
  unfold BC_Flexure_W.
  destruct Hb as [-> | [-> | [-> | ->]]].
  - known_label Hs. refine ((_ : keeps ny nx s0 _) s Q Hok HQ). bc_side.
  - known_label Hs. refine ((_ : keeps ny nx s0 _) s Q Hok HQ). bc_side.
  - known_label Hs. refine ((_ : keeps ny nx s0 _) s Q Hok HQ). bc_side.
  - known_label Hs. refine ((_ : keeps ny nx s0 _) s Q Hok HQ). bc_side.
Qed.

Lemma BC_Flexure_E_keeps : local_BC bE -> keeps ny nx s0 BC_Flexure_E.
Proof.
  intros Hb s Q Hok HQ.
  pose proof (label_kept _ _ s Hok HE eq_refl) as Hs.
  unfold BC_Flexure_E.
  destruct Hb as [-> | [-> | [-> | ->]]].
  - known_label Hs. refine ((_ : keeps ny nx s0 _) s Q Hok HQ). bc_side.
  - known_label Hs. refine ((_ : keeps ny nx s0 _) s Q Hok HQ). bc_side.
  - known_label Hs. refine ((_ : keeps ny nx s0 _) s Q Hok HQ). bc_side.
  - known_label Hs. refine ((_ : keeps ny nx s0 _) s Q Hok HQ). bc_side.
Qed.

Lemma BC_Flexure_N_keeps : local_BC bN -> keeps ny nx s0 BC_Flexure_N.
Proof.
  intros Hb s Q Hok HQ.
  pose proof (label_kept _ _ s Hok HN eq_refl) as Hs.
  unfold BC_Flexure_N.
  destruct Hb as [-> | [-> | [-> | ->]]].
  - known_label Hs. refine ((_ : keeps ny nx s0 _) s Q Hok HQ). bc_side.
  - known_label Hs. refine ((_ : keeps ny nx s0 _) s Q Hok HQ). bc_side.
  - known_label Hs. refine ((_ : keeps ny nx s0 _) s Q Hok HQ). bc_side.
  - known_label Hs. refine ((_ : keeps ny nx s0 _) s Q Hok HQ). bc_side.
Qed.

Lemma BC_Flexure_S_keeps : local_BC bS -> keeps ny nx s0 BC_Flexure_S.
Proof.
  intros Hb s Q Hok HQ.
  pose proof (label_kept _ _ s Hok HS eq_refl) as Hs.
  unfold BC_Flexure_S.
  destruct Hb as [-> | [-> | [-> | ->]]].
  - known_label Hs. refine ((_ : keeps ny nx s0 _) s Q Hok HQ). bc_side.
  - known_label Hs. refine ((_ : keeps ny nx s0 _) s Q Hok HQ). bc_side.
  - known_label Hs. refine ((_ : keeps ny nx s0 _) s Q Hok HQ). bc_side.
  - known_label Hs. refine ((_ : keeps ny nx s0 _) s Q Hok HQ). bc_side.
Qed.

(** The boundary conditions run to completion and leave the cells far
    from the edges as they were. *)
Lemma BC_Flexure_keeps :
  local_BC bW -> local_BC bE -> local_BC bN -> local_BC bS ->
  keeps ny nx s0 BC_Flexure.
Proof.
  intros. unfold BC_Flexure.
  apply keeps_seq; [now apply BC_Flexure_W_keeps|].
  apply keeps_seq; [now apply BC_Flexure_E_keeps|].
  apply keeps_seq; [now apply BC_Flexure_N_keeps|].
  apply keeps_seq; [now apply BC_Flexure_S_keeps|].
  apply BC_Flexure_corners_keeps.
Qed.

End Flexure.

(* ================================================================== *)
(** * Rolled, swept and flattened arrays *)

Lemma roll_shaped ny nx a k axis :
  shaped ny nx a -> (0 < ny)%nat -> shaped ny nx (roll a k axis).
Proof.
  intros Ha Hny. unfold roll.
  rewrite (shaped_nrows _ _ _ Ha), (shaped_ncols _ _ _ Ha Hny).
  destruct axis; apply tabulate_shaped.
Qed.

Lemma get_roll_rows ny nx a k i j :
  shaped ny nx a -> (i < ny)%nat -> (j < nx)%nat ->
  get (roll a k 0) i j = get a (wrap ny (Z.of_nat i - k)) j.
Proof.
  intros Ha Hi Hj. unfold roll.
  rewrite (shaped_nrows _ _ _ Ha), (shaped_ncols _ _ _ Ha) by lia.
  now rewrite get_tabulate.
Qed.

Lemma get_roll_cols ny nx a k i j :
  shaped ny nx a -> (i < ny)%nat -> (j < nx)%nat ->
  get (roll a k 1) i j = get a i (wrap nx (Z.of_nat j - k)).
Proof.
  intros Ha Hi Hj. unfold roll.
  rewrite (shaped_nrows _ _ _ Ha), (shaped_ncols _ _ _ Ha) by lia.
  now rewrite get_tabulate.
Qed.

Lemma wrap_shift n i k i' :
  (i < n)%nat -> Z.of_nat i' = Z.of_nat i + k -> wrap n (Z.of_nat i' - k) = i.
Proof.
  intros Hi H. unfold wrap. replace (Z.of_nat i' - k) with (Z.of_nat i) by lia.
  rewrite Z.mod_small by lia. apply Nat2Z.id.
Qed.

Lemma sweep_shaped ny nx a : shaped ny nx a -> shaped ny nx (sweep a).
Proof. apply amap_shaped. Qed.

Lemma get_sweep ny nx a i j :
  shaped ny nx a -> (i < ny)%nat -> (j < nx)%nat ->
  get (sweep a) i j = sweep1 (get a i j).
Proof. intros Ha Hi Hj. unfold sweep. now rewrite (get_amap ny nx). Qed.

Lemma flatten_length ny nx a : shaped ny nx a -> length (flatten a) = (ny * nx)%nat.
Proof.
  unfold flatten. revert ny. induction a as [|r a IH]; intros ny [Hl Hr].
  - simpl in *. now subst.
  - simpl in Hl. subst ny. inversion Hr; subst. simpl.
    rewrite length_app, (IH (length a)); [lia | now split].
Qed.

Lemma nth_flatten ny nx a i j d :
  shaped ny nx a -> (i < ny)%nat -> (j < nx)%nat ->
  nth (i * nx + j) (flatten a) d = get a i j.
Proof.
  unfold flatten, get. revert ny i.
  induction a as [|r a IH]; intros ny i [Hl Hr] Hi Hj.
  - simpl in Hl. lia.
  - simpl in Hl. inversion Hr as [|? ? Hlen Hr']; subst. simpl concat.
    destruct i as [|i].
    + simpl. rewrite app_nth1 by lia. apply nth_indep. lia.
    + rewrite app_nth2 by (simpl; lia).
      replace (S i * length r + j - length r)%nat with (i * length r + j)%nat
        by (simpl; lia).
      simpl nth. apply (IH (length a)); [now split | lia | assumption].
Qed.

(** Stacking vectors of one length. *)
Lemma np_vstack_ok blocks rows n :
  collect_rows blocks = Some rows -> rows <> [] ->
  Forall (fun u => length u = n) rows ->
  np_vstack blocks = Ok (VStack rows).
Proof.
  intros Hc Hne Hall. unfold np_vstack. rewrite Hc.
  destruct rows as [|r rest]; [congruence|].
  inversion Hall as [|? ? Hr Hrest]; subst.
  assert (H : same_lengths (r :: rest) = true).
  { unfold same_lengths. apply forallb_forall. intros u Hu.
    rewrite Forall_forall in Hrest. rewrite (Hrest u Hu). apply Nat.eqb_refl. }
  now rewrite H.
Qed.

(** The offsets of the thirteen diagonals are pairwise different as
    soon as a row has four cells. *)
Lemma offsets13_distinct nx : 4 <= nx -> distinct (offsets13 nx) = true.
Proof.
  intros H. unfold offsets13. cbn [distinct existsb].
  repeat match goal with
         | |- context [Z.eqb ?a ?b] =>
             replace (Z.eqb a b) with false by (symmetry; apply Z.eqb_neq; lia)
         end.
  reflexivity.
Qed.

Lemma find_diag_nth off offs data m d :
  distinct offs = true ->
  nth_error offs m = Some off -> nth_error data m = Some d ->
  find_diag off offs data = Some d.
Proof.
  revert data m. induction offs as [|o offs IH]; intros data m Hd Ho Hdat.
  - destruct m; discriminate.
  - destruct data as [|d0 data]; [destruct m; discriminate|].
    simpl in Hd. apply andb_true_iff in Hd as [Hn Hd].
    destruct m as [|m]; simpl in *.
    + injection Ho as ->. injection Hdat as ->. now rewrite Z.eqb_refl.
    + destruct (Z.eqb_spec o off) as [->|Hne].
      * exfalso. apply negb_true_iff in Hn.
        assert (existsb (Z.eqb off) offs = true).
        { apply existsb_exists. exists off. split; [|apply Z.eqb_refl].
          now apply nth_error_In in Ho. }
        congruence.
      * now apply (IH data m).
Qed.

Lemma find_diag_In off offs data d :
  find_diag off offs data = Some d -> In off offs.
Proof.
  revert data. induction offs as [|o offs IH]; intros data H.
  - discriminate.
  - destruct data as [|d0 data]; [discriminate|]. simpl in H.
    destruct (Z.eqb_spec o off) as [->|Hne]; [now left | right; eauto].
Qed.

(** A nonzero entry lies on one of the stored diagonals. *)
Lemma entry_nonzero_on_diagonal A i k :
  entry A i k <> vzero -> In (Z.of_nat k - Z.of_nat i) (dia_offsets A).
Proof.
  unfold entry. intros H.
  destruct (Nat.ltb i (dia_m A) && Nat.ltb k (dia_n A))%bool; [|congruence].
  destruct (find_diag _ _ _) as [d|] eqn:Hd; [|congruence].
  now apply find_diag_In in Hd.
Qed.

(* ================================================================== *)
(** * Assembly of the operator *)

Ltac shape_tac :=
  repeat first [ assumption | lia | apply sweep_shaped | apply roll_shaped ].

Lemma sweep_inf_ok name a Q s :
  self s name = Some (VArr a) ->
  Q (Ok tt) (with_attr name (VArr (sweep a)) s) -> wp (sweep_inf name) Q s.
Proof.
  intros Ha H. unfold sweep_inf. apply wp_bind.
  eapply wp_eval; [apply attr_ok; exact Ha|]. cbn [cont]. now apply wp_setattr.
Qed.

Lemma entry_at A m off d r c :
  distinct (dia_offsets A) = true ->
  nth_error (dia_offsets A) m = Some off -> nth_error (dia_data A) m = Some d ->
  (r < dia_m A)%nat -> (c < dia_n A)%nat ->
  Z.of_nat c - Z.of_nat r = off ->
  entry A r c = nth c d vzero.
Proof.
  intros Hd Ho Hdat Hr Hc Hoff. unfold entry.
  rewrite (proj2 (Nat.ltb_lt _ _) Hr), (proj2 (Nat.ltb_lt _ _) Hc), Hoff.
  now rewrite (find_diag_nth off _ _ m d Hd Ho Hdat).
Qed.

Section Shifts.

Variables ny nx : nat.
Variable a : array.
Variables i j i' j' : nat.
Hypothesis Ha : shaped ny nx a.
Hypothesis Hi : (i < ny)%nat.
Hypothesis Hj : (j < nx)%nat.
Hypothesis Hi' : (i' < ny)%nat.
Hypothesis Hj' : (j' < nx)%nat.

Lemma diagonal_plain d :
  i' = i -> j' = j ->
  nth (i' * nx + j')%nat (flatten (sweep a)) d = sweep1 (get a i j).
Proof.
  intros -> ->. rewrite (nth_flatten ny nx) by (try apply sweep_shaped; assumption).
  now apply (get_sweep ny nx).
Qed.

Lemma diagonal_rolled_cols d dx :
  i' = i -> Z.of_nat j' = Z.of_nat j + dx ->
  nth (i' * nx + j')%nat (flatten (sweep (roll a dx 1))) d = sweep1 (get a i j).
Proof.
  intros -> Hdx.
  assert (Hs : shaped ny nx (roll a dx 1)) by (apply roll_shaped; [assumption | lia]).
  rewrite (nth_flatten ny nx) by (try apply sweep_shaped; assumption).
  rewrite (get_sweep ny nx), (get_roll_cols ny nx) by assumption.
  now rewrite (wrap_shift nx j dx j').
Qed.

Lemma diagonal_rolled_rows d dy :
  Z.of_nat i' = Z.of_nat i + dy -> j' = j ->
  nth (i' * nx + j')%nat (flatten (sweep (roll a dy 0))) d = sweep1 (get a i j).
Proof.
  intros Hdy ->.
  assert (Hs : shaped ny nx (roll a dy 0)) by (apply roll_shaped; [assumption | lia]).
  rewrite (nth_flatten ny nx) by (try apply sweep_shaped; assumption).
  rewrite (get_sweep ny nx), (get_roll_rows ny nx) by assumption.
  now rewrite (wrap_shift ny i dy i').
Qed.

Lemma diagonal_rolled_both d dx dy :
  Z.of_nat i' = Z.of_nat i + dy -> Z.of_nat j' = Z.of_nat j + dx ->
  nth (i' * nx + j')%nat (flatten (sweep (roll (roll a dx 1) dy 0))) d
  = sweep1 (get a i j).
Proof.
  intros Hdy Hdx.
  assert (Hs : shaped ny nx (roll a dx 1)) by (apply roll_shaped; [assumption | lia]).
  assert (Hs' : shaped ny nx (roll (roll a dx 1) dy 0))
    by (apply roll_shaped; [assumption | lia]).
  rewrite (nth_flatten ny nx) by (try apply sweep_shaped; assumption).
  rewrite (get_sweep ny nx), (get_roll_rows ny nx) by assumption.
  rewrite (wrap_shift ny i dy i') by assumption.
  rewrite (get_roll_cols ny nx) by assumption.
  now rewrite (wrap_shift nx j dx j').
Qed.

End Shifts.

(** The entry taken from the [m]-th stacked diagonal. *)
Ltac diagonal m :=
  erewrite (entry_at _ m);
  [ | eassumption | reflexivity | reflexivity | eassumption | eassumption
    | cbn [dia_offsets]; nia ];
  cbn [dia_data nth_error value];
  first [ eapply diagonal_plain | eapply diagonal_rolled_cols
        | eapply diagonal_rolled_rows | eapply diagonal_rolled_both ];
  first [ eassumption | lia ].

Section Diagonals.

Variables ny nx : nat.
Variable s : State.
Variables a_2 a_1 a1 a2 b_2 b_1 b1 b2 c_1_1 c_11 c1_1 c11 c00 : array.
Variables bW bN : string.
Hypothesis Hny : (0 < ny)%nat.
Hypothesis Hnx : (4 <= nx)%nat.
Hypothesis H_2 : self s "cj_2i0" = Some (VArr a_2).
Hypothesis H_1 : self s "cj_1i0" = Some (VArr a_1).
Hypothesis H1 : self s "cj1i0" = Some (VArr a1).
Hypothesis H2 : self s "cj2i0" = Some (VArr a2).
Hypothesis G_2 : self s "cj0i_2" = Some (VArr b_2).
Hypothesis G_1 : self s "cj0i_1" = Some (VArr b_1).
Hypothesis G1 : self s "cj0i1" = Some (VArr b1).
Hypothesis G2 : self s "cj0i2" = Some (VArr b2).
Hypothesis K_1_1 : self s "cj_1i_1" = Some (VArr c_1_1).
Hypothesis K_11 : self s "cj_1i1" = Some (VArr c_11).
Hypothesis K1_1 : self s "cj1i_1" = Some (VArr c1_1).
Hypothesis K11 : self s "cj1i1" = Some (VArr c11).
Hypothesis K00 : self s "cj0i0" = Some (VArr c00).
Hypothesis S_2 : shaped ny nx a_2.
Hypothesis S_1 : shaped ny nx a_1.
Hypothesis S1 : shaped ny nx a1.
Hypothesis S2 : shaped ny nx a2.
Hypothesis T_2 : shaped ny nx b_2.
Hypothesis T_1 : shaped ny nx b_1.
Hypothesis T1 : shaped ny nx b1.
Hypothesis T2 : shaped ny nx b2.
Hypothesis U_1_1 : shaped ny nx c_1_1.
Hypothesis U_11 : shaped ny nx c_11.
Hypothesis U1_1 : shaped ny nx c1_1.
Hypothesis U11 : shaped ny nx c11.
Hypothesis U00 : shaped ny nx c00.
Hypothesis Hrows : self s "nrowsy" = Some (VInt (Z.of_nat ny)).
Hypothesis Hcols : self s "ncolsx" = Some (VInt (Z.of_nat nx)).
Hypothesis HW : self s "BC_W" = Some (VStr bW).
Hypothesis HN : self s "BC_N" = Some (VStr bN).
Hypothesis HWl : String.eqb bW "Periodic" = false.
Hypothesis HNl : String.eqb bN "Periodic" = false.

Lemma build_diags_spec (Q : Res unit -> State -> Prop) :
  (forall s', self s' "coeff_matrix" = Some (VMat (mkDia (ny * nx) (ny * nx) (offsets13 (Z.of_nat nx))
     [ flatten (sweep (roll b_2 (-2) 0));
       flatten (sweep (roll (roll c_1_1 (-1) 1) (-1) 0));
       flatten (sweep (roll b_1 (-1) 0));
       flatten (sweep (roll (roll c1_1 1 1) (-1) 0));
       flatten (sweep (roll a_2 (-2) 1));
       flatten (sweep (roll a_1 (-1) 1));
       flatten (sweep c00);
       flatten (sweep (roll a1 1 1));
       flatten (sweep (roll a2 2 1));
       flatten (sweep (roll (roll c_11 (-1) 1) 1 0));
       flatten (sweep (roll b1 1 0));
       flatten (sweep (roll (roll c11 1 1) 1 0));
       flatten (sweep (roll b2 2 0)) ])) -> Q (Ok tt) s') ->
  wp build_diags Q s.
Proof.
  intros HQ. unfold build_diags.
  wp_steps.
  cbn [for_each coeff_array_list].
  do 13 (apply wp_bind; eapply sweep_inf_ok; [lookup; reflexivity|]; cbn [cont]).
  wp_steps.
  do 3 (erewrite np_vstack_ok;
    [| reflexivity | discriminate
     | repeat (apply Forall_cons; [apply (flatten_length ny nx); shape_tac|]);
       apply Forall_nil ];
    cbn [app]; wp_steps).
  cbn [str_eq]. rewrite HNl. wp_steps.
  cbn [str_eq]. rewrite HWl. wp_steps.
  cbn [str_eq]. rewrite HNl. wp_steps.
  erewrite np_vstack_ok;
    [| reflexivity | discriminate
     | repeat (apply Forall_cons; [apply (flatten_length ny nx); shape_tac|]);
       apply Forall_nil ].
  cbn [app]. wp_steps.
  unfold scipy_sparse_spdiags, spdiags.
  rewrite offsets13_distinct by lia.
  rewrite <- Nat2Z.inj_mul, Nat2Z.id.
  cbn [length offsets13 Nat.eqb andb cont].
  apply wp_setattr. apply HQ. reflexivity.
Qed.

Lemma operator_entries c dx dy i j i' j' :
  In (c, (dx, dy)) stencil ->
  (i < ny)%nat -> (j < nx)%nat -> (i' < ny)%nat -> (j' < nx)%nat ->
  Z.of_nat i' = Z.of_nat i + dy -> Z.of_nat j' = Z.of_nat j + dx ->
  entry (mkDia (ny * nx) (ny * nx) (offsets13 (Z.of_nat nx))
     [ flatten (sweep (roll b_2 (-2) 0));
       flatten (sweep (roll (roll c_1_1 (-1) 1) (-1) 0));
       flatten (sweep (roll b_1 (-1) 0));
       flatten (sweep (roll (roll c1_1 1 1) (-1) 0));
       flatten (sweep (roll a_2 (-2) 1));
       flatten (sweep (roll a_1 (-1) 1));
       flatten (sweep c00);
       flatten (sweep (roll a1 1 1));
       flatten (sweep (roll a2 2 1));
       flatten (sweep (roll (roll c_11 (-1) 1) 1 0));
       flatten (sweep (roll b1 1 0));
       flatten (sweep (roll (roll c11 1 1) 1 0));
       flatten (sweep (roll b2 2 0)) ])
    (i * nx + j)%nat (i' * nx + j')%nat
  = sweep1 (get (array_of s c) i j).
Proof.
  intros Hin Hi Hj Hi' Hj' Hdy Hdx.
  assert (Hd : distinct (offsets13 (Z.of_nat nx)) = true)
    by (apply offsets13_distinct; lia).
  assert (Hr : (i * nx + j < ny * nx)%nat) by nia.
  assert (Hc : (i' * nx + j' < ny * nx)%nat) by nia.
  cbn [In stencil] in Hin.
  repeat (destruct Hin as [Hin|Hin];
          [injection Hin as <- <- <-; unfold array_of;
           repeat match goal with
                  | H : self s ?k = _ |- context [self s ?k] => rewrite H
                  end|]); [..|contradiction].
  all: [> diagonal 0%nat | diagonal 1%nat | diagonal 2%nat | diagonal 3%nat
        | diagonal 4%nat | diagonal 5%nat | diagonal 6%nat | diagonal 7%nat
        | diagonal 8%nat | diagonal 9%nat | diagonal 10%nat | diagonal 11%nat
        | diagonal 12%nat ].
Qed.
End Diagonals.

Lemma shapedb_spec ny nx a : shapedb ny nx a = true -> shaped ny nx a.
Proof.
  unfold shapedb, shaped. intros H. apply andb_true_iff in H as [Hl Hr].
  split; [now apply Nat.eqb_eq|].
  apply Forall_forall. intros r Hin. apply Nat.eqb_eq.
  now apply (proj1 (forallb_forall _ _) Hr).
Qed.

Lemma ready_array ny nx s c :
  coefficients_ready ny nx s = true -> In c (coeff_array_list ++ raw_names) ->
  exists a, self s c = Some (VArr a) /\ shaped ny nx a.
Proof.
  intros H Hin. unfold coefficients_ready in H.
  pose proof (proj1 (forallb_forall _ _) H c Hin) as Hc. cbv beta in Hc.
  destruct (self s c) as [[]|]; try discriminate.
  eexists. split; [reflexivity | now apply shapedb_spec].
Qed.

(** The instance as [get_coeff_values] leaves it satisfies the invariant
    of the boundary conditions. *)
Lemma coefficients_ready_ok ny nx s :
  coefficients_ready ny nx s = true -> stencil_ok ny nx s s.
Proof.
  intros H. split; [|split].
  - intros c Hc.
    destruct (ready_array ny nx s c H) as (a & Ha & Hsa);
      [apply in_or_app; left; now apply inb_In|].
    exists a, a. auto.
  - intros k Hk. apply (ready_array ny nx s k H).
    apply in_or_app; right; now apply inb_In.
  - reflexivity.
Qed.

Lemma local_not_Periodic b : local_BC b -> String.eqb b "Periodic" = false.
Proof. intros [-> | [-> | [-> | ->]]]; reflexivity. Qed.

Lemma stencil_reach c dx dy :
  In (c, (dx, dy)) stencil ->
  inb c coeff_array_list = true /\ -2 <= dx <= 2 /\ -2 <= dy <= 2.
Proof.
  cbn [In stencil]. intros H.
  repeat (destruct H as [H|H];
          [injection H as <- <- <-; split; [reflexivity | lia]|]).
  contradiction.
Qed.

(** C5.  With four edges that are neither Periodic nor invalid, on a
    grid of at least two rows and four columns on which the thirteen
    coefficient arrays and their raw copies are in place, [BC_Flexure]
    and [build_diags] run to completion and leave a sparse operator [A]
    over the [ny * nx] flattened unknowns such that: a nonzero entry lies
    on one of the thirteen diagonals -2nx, -nx-1, -nx, -nx+1, -2, -1, 0,
    1, 2, nx-1, nx, nx+1, 2nx; for the coefficient array of neighbour
    offset (dx, dy), the entry in the row of cell (i, j) and the column of
    its neighbour (i + dy, j + dx), which is on diagonal dy * nx + dx, is
    the coefficient at (i, j) after the boundary conditions (infinity,
    the flag for no coefficient, read as 0); and in the row of a cell that
    lies at least two cells from every edge these thirteen entries are
    the coefficients that the instance held before the boundary
    conditions were applied, whenever those are not infinite. *)
Theorem build_diags_assembles_the_13_point_stencil ny nx s bW bE bN bS :
  (4 <= nx)%nat -> (2 <= ny)%nat ->
  coefficients_ready ny nx s = true ->
  self s "nrowsy" = Some (VInt (Z.of_nat ny)) ->
  self s "ncolsx" = Some (VInt (Z.of_nat nx)) ->
  self s "BC_W" = Some (VStr bW) -> self s "BC_E" = Some (VStr bE) ->
  self s "BC_N" = Some (VStr bN) -> self s "BC_S" = Some (VStr bS) ->
  local_BC bW -> local_BC bE -> local_BC bN -> local_BC bS ->
  exists s1 s2 A,
    BC_Flexure s = (Ok tt, s1) /\ build_diags s1 = (Ok tt, s2) /\
    self s2 "coeff_matrix" = Some (VMat A) /\
    dia_m A = (ny * nx)%nat /\ dia_n A = (ny * nx)%nat /\
    (forall r k, entry A r k <> vzero ->
       In (Z.of_nat k - Z.of_nat r) (offsets13 (Z.of_nat nx))) /\
    (forall c dx dy i j i' j',
       In (c, (dx, dy)) stencil ->
       (i < ny)%nat -> (j < nx)%nat -> (i' < ny)%nat -> (j' < nx)%nat ->
       Z.of_nat i' = Z.of_nat i + dy -> Z.of_nat j' = Z.of_nat j + dx ->
       Z.of_nat (i' * nx + j') - Z.of_nat (i * nx + j) = dy * Z.of_nat nx + dx /\
       entry A (i * nx + j) (i' * nx + j') = sweep1 (get (array_of s1 c) i j)) /\
    (forall c dx dy i j i' j',
       In (c, (dx, dy)) stencil -> far_from_edges ny nx i j ->
       Z.of_nat i' = Z.of_nat i + dy -> Z.of_nat j' = Z.of_nat j + dx ->
       isinf (get (array_of s c) i j) = false ->
       entry A (i * nx + j) (i' * nx + j') = get (array_of s c) i j).
Proof.
  intros Hnx Hny Hready Hrows Hcols HW HE HN HS LW LE LN LS.
  pose proof (coefficients_ready_ok ny nx s Hready) as Hok.
  assert (Hnx2 : (2 <= nx)%nat) by lia.
  pose proof (BC_Flexure_keeps ny nx s bW bE bN bS Hny Hnx2 HW HE HN HS LW LE LN LS
                s (fun r s' => r = Ok tt /\ stencil_ok ny nx s s') Hok
                (fun s' H => conj eq_refl H)) as Hk.
  apply wp_run in Hk as (r & s1 & Hrun & -> & Hok1).
  pose proof Hok1 as (Hw & _ & Hfr).
  destruct (Hw "cj_2i0" eq_refl) as (a_2 & ? & H_2 & S_2 & _ & _).
  destruct (Hw "cj_1i0" eq_refl) as (a_1 & ? & H_1 & S_1 & _ & _).
  destruct (Hw "cj1i0" eq_refl) as (a1 & ? & H1 & S1 & _ & _).
  destruct (Hw "cj2i0" eq_refl) as (a2 & ? & H2 & S2 & _ & _).
  destruct (Hw "cj0i_2" eq_refl) as (b_2 & ? & G_2 & T_2 & _ & _).
  destruct (Hw "cj0i_1" eq_refl) as (b_1 & ? & G_1 & T_1 & _ & _).
  destruct (Hw "cj0i1" eq_refl) as (b1 & ? & G1 & T1 & _ & _).
  destruct (Hw "cj0i2" eq_refl) as (b2 & ? & G2 & T2 & _ & _).
  destruct (Hw "cj_1i_1" eq_refl) as (c_1_1 & ? & K_1_1 & U_1_1 & _ & _).
  destruct (Hw "cj_1i1" eq_refl) as (c_11 & ? & K_11 & U_11 & _ & _).
  destruct (Hw "cj1i_1" eq_refl) as (c1_1 & ? & K1_1 & U1_1 & _ & _).
  destruct (Hw "cj1i1" eq_refl) as (c11 & ? & K11 & U11 & _ & _).
  destruct (Hw "cj0i0" eq_refl) as (c00 & ? & K00 & U00 & _ & _).
  assert (Hny0 : (0 < ny)%nat) by lia.
  pose proof (Hfr "nrowsy" eq_refl) as Hrows1. rewrite Hrows in Hrows1.
  pose proof (Hfr "ncolsx" eq_refl) as Hcols1. rewrite Hcols in Hcols1.
  pose proof (Hfr "BC_W" eq_refl) as HW1. rewrite HW in HW1.
  pose proof (Hfr "BC_N" eq_refl) as HN1. rewrite HN in HN1.
  pose proof (build_diags_spec ny nx s1 a_2 a_1 a1 a2 b_2 b_1 b1 b2
                c_1_1 c_11 c1_1 c11 c00 bW bN Hny0 Hnx
                H_2 H_1 H1 H2 G_2 G_1 G1 G2 K_1_1 K_11 K1_1 K11 K00
                S_2 S_1 S1 S2 T_2 T_1 T1 T2 U_1_1 U_11 U1_1 U11 U00
                Hrows1 Hcols1 HW1 HN1
                (local_not_Periodic bW LW) (local_not_Periodic bN LN)) as Hb.
  match type of Hb with
  | forall Q, (forall s', self s' _ = Some (VMat ?M) -> _) -> _ =>
      set (A := M) in *;
      specialize (Hb (fun r s' => r = Ok tt /\ self s' "coeff_matrix" = Some (VMat A))
                     (fun s' H => conj eq_refl H))
  end.
  apply wp_run in Hb as (r & s2 & Hrun2 & -> & HA).
  assert (Hentries : forall c dx dy i j i' j',
             In (c, (dx, dy)) stencil ->
             (i < ny)%nat -> (j < nx)%nat -> (i' < ny)%nat -> (j' < nx)%nat ->
             Z.of_nat i' = Z.of_nat i + dy -> Z.of_nat j' = Z.of_nat j + dx ->
             entry A (i * nx + j) (i' * nx + j') = sweep1 (get (array_of s1 c) i j)).
  { intros. subst A.
    apply (operator_entries ny nx s1 a_2 a_1 a1 a2 b_2 b_1 b1 b2
             c_1_1 c_11 c1_1 c11 c00 Hny0 Hnx
             H_2 H_1 H1 H2 G_2 G_1 G1 G2 K_1_1 K_11 K1_1 K11 K00
             S_2 S_1 S1 S2 T_2 T_1 T1 T2 U_1_1 U_11 U1_1 U11 U00
             c dx dy); assumption. }
  exists s1, s2, A.
  split; [exact Hrun|]. split; [exact Hrun2|]. split; [exact HA|].
  split; [reflexivity|]. split; [reflexivity|].
  split; [|split].
  - intros r k Hne. exact (entry_nonzero_on_diagonal A r k Hne).
  - intros c dx dy i j i' j' Hin Hi Hj Hi' Hj' Hdy Hdx. split; [nia|].
    now apply (Hentries c dx dy).
  - intros c dx dy i j i' j' Hin Hfar Hdy Hdx Hfin.
    destruct (stencil_reach c dx dy Hin) as (Hc & Hdxb & Hdyb).
    pose proof Hfar as (F1 & F2 & F3 & F4).
    rewrite (Hentries c dx dy i j i' j') by (assumption || lia).
    destruct (Hw c Hc) as (a & a0 & Ha & _ & Ha0 & Hsame).
    unfold array_of in *. rewrite Ha. rewrite Ha0 in *.
    rewrite (Hsame i j Hfar). unfold sweep1. now rewrite Hfin.
Qed.

Lemma build_diags_assembles_the_13_point_stencil_witness :
  exists s1 s2 A,
    BC_Flexure (coefficients5 "Dirichlet0" "0Moment0Shear" "Mirror" "0Slope0Shear")
    = (Ok tt, s1) /\
    build_diags s1 = (Ok tt, s2) /\
    self s2 "coeff_matrix" = Some (VMat A) /\
    dia_m A = (5 * 5)%nat /\ dia_n A = (5 * 5)%nat /\
    (forall r k, entry A r k <> vzero ->
       In (Z.of_nat k - Z.of_nat r) (offsets13 (Z.of_nat 5))) /\
    (forall c dx dy i j i' j',
       In (c, (dx, dy)) stencil ->
       (i < 5)%nat -> (j < 5)%nat -> (i' < 5)%nat -> (j' < 5)%nat ->
       Z.of_nat i' = Z.of_nat i + dy -> Z.of_nat j' = Z.of_nat j + dx ->
       Z.of_nat (i' * 5 + j') - Z.of_nat (i * 5 + j) = dy * Z.of_nat 5 + dx /\
       entry A (i * 5 + j) (i' * 5 + j') = sweep1 (get (array_of s1 c) i j)) /\
    (forall c dx dy i j i' j',
       In (c, (dx, dy)) stencil -> far_from_edges 5 5 i j ->
       Z.of_nat i' = Z.of_nat i + dy -> Z.of_nat j' = Z.of_nat j + dx ->
       isinf (get (array_of (coefficients5 "Dirichlet0" "0Moment0Shear" "Mirror"
                               "0Slope0Shear") c) i j) = false ->
       entry A (i * 5 + j) (i' * 5 + j')
       = get (array_of (coefficients5 "Dirichlet0" "0Moment0Shear" "Mirror"
                          "0Slope0Shear") c) i j).
Proof.
  apply (build_diags_assembles_the_13_point_stencil 5 5
           (coefficients5 "Dirichlet0" "0Moment0Shear" "Mirror" "0Slope0Shear")
           "Dirichlet0" "0Moment0Shear" "Mirror" "0Slope0Shear").
  - lia.
  - lia.
  - vm_compute. reflexivity.
  - vm_compute. reflexivity.
  - vm_compute. reflexivity.
  - vm_compute. reflexivity.
  - vm_compute. reflexivity.
  - vm_compute. reflexivity.
  - vm_compute. reflexivity.
  - left. reflexivity.
  - right. left. reflexivity.
  - right. right. right. reflexivity.
  - right. right. left. reflexivity.
Defined.

(* ================================================================== *)
(** * Further properties of the boundary conditions on the coefficients *)

Lemma In_inb name P : In name P -> inb name P = true.
Proof.
  intros H. unfold inb. apply existsb_exists. exists name.
  split; [assumption | apply String.eqb_refl].
Qed.

Lemma not_In_inb name P : ~ In name P -> inb name P = false.
Proof.
  intros H. destruct (inb name P) eqn:E; [|reflexivity].
  exfalso. apply H. now apply inb_In.
Qed.

(** With four edges that are neither Periodic nor invalid, on a grid of
    at least two rows and two columns that holds the thirteen coefficient
    arrays and their raw copies, [BC_Flexure] runs to completion; each
    coefficient array keeps its shape and, in every cell that lies at
    least two cells from every edge, its value; no attribute other than
    the thirteen arrays is written. *)
Theorem BC_Flexure_rewrites_only_the_outer_cells ny nx s bW bE bN bS :
  (2 <= ny)%nat -> (2 <= nx)%nat ->
  coefficients_ready ny nx s = true ->
  self s "BC_W" = Some (VStr bW) -> self s "BC_E" = Some (VStr bE) ->
  self s "BC_N" = Some (VStr bN) -> self s "BC_S" = Some (VStr bS) ->
  local_BC bW -> local_BC bE -> local_BC bN -> local_BC bS ->
  exists s',
    BC_Flexure s = (Ok tt, s') /\
    (forall c, In c coeff_array_list ->
       self s' c = Some (VArr (array_of s' c)) /\
       shaped ny nx (array_of s' c) /\
       forall i j, far_from_edges ny nx i j ->
         get (array_of s' c) i j = get (array_of s c) i j) /\
    (forall k, ~ In k coeff_array_list -> self s' k = self s k).
Proof.
  intros Hny Hnx Hready HW HE HN HS LW LE LN LS.
  pose proof (coefficients_ready_ok ny nx s Hready) as Hok.
  pose proof (BC_Flexure_keeps ny nx s bW bE bN bS Hny Hnx HW HE HN HS LW LE LN LS
                s (fun r s' => r = Ok tt /\ stencil_ok ny nx s s') Hok
                (fun s' H => conj eq_refl H)) as Hk.
  apply wp_run in Hk as (r & s' & Hrun & -> & Hw & _ & Hfr).
  exists s'. split; [exact Hrun|]. split.
  - intros c Hc. destruct (Hw c (In_inb c _ Hc)) as (a & a0 & Ha & Hsa & Ha0 & Hfar).
    unfold array_of. rewrite Ha, Ha0. auto.
  - intros k Hk. apply Hfr. now apply not_In_inb.
Qed.

Lemma BC_Flexure_rewrites_only_the_outer_cells_witness :
  exists s',
    BC_Flexure (coefficients5 "0Moment0Shear" "Mirror" "0Slope0Shear" "Dirichlet0")
    = (Ok tt, s') /\
    (forall c, In c coeff_array_list ->
       self s' c = Some (VArr (array_of s' c)) /\
       shaped 5 5 (array_of s' c) /\
       forall i j, far_from_edges 5 5 i j ->
         get (array_of s' c) i j
         = get (array_of (coefficients5 "0Moment0Shear" "Mirror" "0Slope0Shear"
                            "Dirichlet0") c) i j) /\
    (forall k, ~ In k coeff_array_list ->
       self s' k
       = self (coefficients5 "0Moment0Shear" "Mirror" "0Slope0Shear" "Dirichlet0") k).
Proof.
  apply (BC_Flexure_rewrites_only_the_outer_cells 5 5
           (coefficients5 "0Moment0Shear" "Mirror" "0Slope0Shear" "Dirichlet0")
           "0Moment0Shear" "Mirror" "0Slope0Shear" "Dirichlet0").
  - lia.
  - lia.
  - vm_compute. reflexivity.
  - vm_compute. reflexivity.
  - vm_compute. reflexivity.
  - vm_compute. reflexivity.
  - vm_compute. reflexivity.
  - right. left. reflexivity.
  - right. right. right. reflexivity.
  - right. right. left. reflexivity.
  - left. reflexivity.
Defined.

(** The branch of an edge whose label no test accepts. *)
Ltac invalid_label Hs Hb :=
  destruct Hb as (? & ? & ? & ? & ?);
  repeat lazymatch goal with
         | |- wp (ifM (is_ _ _) _ _) _ _ =>
             eapply wp_if_is; [exact Hs|];
             rewrite str_eq_neq by assumption; cbv iota
         end;
  apply wp_exit.

Lemma BC_Flexure_W_invalid b Q s :
  self s "BC_W" = Some (VStr b) -> invalid_BC b ->
  Q (Exit "Invalid boundary condition") s -> wp BC_Flexure_W Q s.
Proof. intros Hs Hb HQ. unfold BC_Flexure_W. invalid_label Hs Hb. exact HQ. Qed.

Lemma BC_Flexure_E_invalid b Q s :
  self s "BC_E" = Some (VStr b) -> invalid_BC b ->
  Q (Exit "Invalid boundary condition") s -> wp BC_Flexure_E Q s.
Proof. intros Hs Hb HQ. unfold BC_Flexure_E. invalid_label Hs Hb. exact HQ. Qed.

Lemma BC_Flexure_N_invalid b Q s :
  self s "BC_N" = Some (VStr b) -> invalid_BC b ->
  Q (Exit "Invalid boundary condition") s -> wp BC_Flexure_N Q s.
Proof. intros Hs Hb HQ. unfold BC_Flexure_N. invalid_label Hs Hb. exact HQ. Qed.

Lemma BC_Flexure_S_invalid b Q s :
  self s "BC_S" = Some (VStr b) -> invalid_BC b ->
  Q (Exit "Invalid boundary condition") s -> wp BC_Flexure_S Q s.
Proof. intros Hs Hb HQ. unfold BC_Flexure_S. invalid_label Hs Hb. exact HQ. Qed.

(** [BC_Flexure] takes the edges in the order West, East, North, South.
    When the edges before the first unrecognised label are neither
    Periodic nor invalid, the method ends in the fatal exit "Invalid
    boundary condition"; the edges before it have been applied to the
    coefficient arrays, and no other attribute is written. *)
Theorem BC_Flexure_rejects_an_unknown_label ny nx s bW bE bN bS :
  (2 <= ny)%nat -> (2 <= nx)%nat ->
  coefficients_ready ny nx s = true ->
  self s "BC_W" = Some (VStr bW) -> self s "BC_E" = Some (VStr bE) ->
  self s "BC_N" = Some (VStr bN) -> self s "BC_S" = Some (VStr bS) ->
  invalid_BC bW \/
  (local_BC bW /\ invalid_BC bE) \/
  (local_BC bW /\ local_BC bE /\ invalid_BC bN) \/
  (local_BC bW /\ local_BC bE /\ local_BC bN /\ invalid_BC bS) ->
  exists s',
    BC_Flexure s = (Exit "Invalid boundary condition", s') /\
    (invalid_BC bW -> s' = s) /\
    (forall k, ~ In k coeff_array_list -> self s' k = self s k).
Proof.
  intros Hny Hnx Hready HW HE HN HS Hcase.
  pose proof (coefficients_ready_ok ny nx s Hready) as Hok.
  assert (Hlabel : forall s1 k v, stencil_ok ny nx s s1 -> self s k = Some v ->
                     inb k coeff_array_list = false -> self s1 k = Some v).
  { intros s1 k v H1 Hk Hin. now rewrite (proj2 (proj2 H1) k Hin). }
  assert (Hframe : forall s1, stencil_ok ny nx s s1 ->
                     forall k, ~ In k coeff_array_list -> self s1 k = self s k).
  { intros s1 H1 k Hk. apply (proj2 (proj2 H1)). now apply not_In_inb. }
  set (Q := fun (r : Res unit) s' =>
              r = Exit "Invalid boundary condition" /\
              (invalid_BC bW -> s' = s) /\
              (forall k, ~ In k coeff_array_list -> self s' k = self s k)).
  assert (H : wp BC_Flexure Q s).
  { unfold BC_Flexure.
    destruct Hcase as [IW | [(LW & IE) | [(LW & LE & IN) | (LW & LE & LN & IS)]]].
    - apply wp_bind. apply (BC_Flexure_W_invalid bW); [assumption | assumption |].
      cbn [cont]. split; [reflexivity|]. split; [reflexivity | reflexivity].
    - apply wp_bind.
      apply (BC_Flexure_W_keeps ny nx s bW Hny Hnx HW LW); [exact Hok|].
      intros s1 H1. cbn [cont]. apply wp_bind.
      apply (BC_Flexure_E_invalid bE); [now apply (Hlabel s1) | assumption |].
      cbn [cont]. split; [reflexivity|]. split; [|now apply Hframe].
      intros (? & ? & ? & ? & ?). destruct LW as [-> | [-> | [-> | ->]]]; congruence.
    - apply wp_bind.
      apply (BC_Flexure_W_keeps ny nx s bW Hny Hnx HW LW); [exact Hok|].
      intros s1 H1. cbn [cont]. apply wp_bind.
      apply (BC_Flexure_E_keeps ny nx s bE Hny Hnx HE LE); [exact H1|].
      intros s2 H2. cbn [cont]. apply wp_bind.
      apply (BC_Flexure_N_invalid bN); [now apply (Hlabel s2) | assumption |].
      cbn [cont]. split; [reflexivity|]. split; [|now apply Hframe].
      intros (? & ? & ? & ? & ?). destruct LW as [-> | [-> | [-> | ->]]]; congruence.
    - apply wp_bind.
      apply (BC_Flexure_W_keeps ny nx s bW Hny Hnx HW LW); [exact Hok|].
      intros s1 H1. cbn [cont]. apply wp_bind.
      apply (BC_Flexure_E_keeps ny nx s bE Hny Hnx HE LE); [exact H1|].
      intros s2 H2. cbn [cont]. apply wp_bind.
      apply (BC_Flexure_N_keeps ny nx s bN Hny Hnx HN LN); [exact H2|].
      intros s3 H3. cbn [cont]. apply wp_bind.
      apply (BC_Flexure_S_invalid bS); [now apply (Hlabel s3) | assumption |].
      cbn [cont]. split; [reflexivity|]. split; [|now apply Hframe].
      intros (? & ? & ? & ? & ?). destruct LW as [-> | [-> | [-> | ->]]]; congruence. }
  destruct (wp_run _ _ _ H) as (r & s' & Hrun & -> & Hs & Hfr).
  exists s'. auto.
Qed.

Lemma BC_Flexure_rejects_an_unknown_label_witness :
  exists s',
    BC_Flexure (with_attr "BC_N" (VStr "Clamped")
                  (coefficients5 "Mirror" "Dirichlet0" "Mirror" "Dirichlet0"))
    = (Exit "Invalid boundary condition", s') /\
    (invalid_BC "Mirror" ->
     s' = with_attr "BC_N" (VStr "Clamped")
            (coefficients5 "Mirror" "Dirichlet0" "Mirror" "Dirichlet0")) /\
    (forall k, ~ In k coeff_array_list ->
       self s' k
       = self (with_attr "BC_N" (VStr "Clamped")
                 (coefficients5 "Mirror" "Dirichlet0" "Mirror" "Dirichlet0")) k).
Proof.
  apply (BC_Flexure_rejects_an_unknown_label 5 5
           (with_attr "BC_N" (VStr "Clamped")
              (coefficients5 "Mirror" "Dirichlet0" "Mirror" "Dirichlet0"))
           "Mirror" "Dirichlet0" "Clamped" "Dirichlet0").
  - lia.
  - lia.
  - vm_compute. reflexivity.
  - vm_compute. reflexivity.
  - vm_compute. reflexivity.
  - vm_compute. reflexivity.
  - vm_compute. reflexivity.
  - right. right. left.
    split; [right; right; right; reflexivity|].
    split; [left; reflexivity|].
    repeat split; discriminate.
Defined.

(* ================================================================== *)
(** * Grids that are too narrow for the thirteen diagonals *)

Lemma offsets13_collide nx : nx < 4 -> 0 <= nx -> distinct (offsets13 nx) = false.
Proof.
  intros H H0.
  assert (Hc : nx = 0 \/ nx = 1 \/ nx = 2 \/ nx = 3) by lia.
  destruct Hc as [-> | [-> | [-> | ->]]]; reflexivity.
Qed.

(** On a grid with fewer than four columns the thirteen offsets are not
    pairwise different (with three columns, -nx+1 and -2 are the same
    diagonal), [scipy.sparse.spdiags] refuses them, and [build_diags]
    ends in that [ValueError]: the rolled and swept arrays are on the
    instance, a coefficient matrix is not. *)
Theorem build_diags_needs_four_columns ny nx s bW bN :
  (1 <= ny)%nat -> (nx < 4)%nat ->
  coefficients_ready ny nx s = true ->
  self s "nrowsy" = Some (VInt (Z.of_nat ny)) ->
  self s "ncolsx" = Some (VInt (Z.of_nat nx)) ->
  self s "BC_W" = Some (VStr bW) -> self s "BC_N" = Some (VStr bN) ->
  bW <> "Periodic" -> bN <> "Periodic" ->
  exists s',
    build_diags s = (Raise "ValueError", s') /\
    self s' "coeff_matrix" = self s "coeff_matrix".
Proof.
  intros Hny Hnx Hready Hrows Hcols HW HN HWl HNl.
  pose proof (coefficients_ready_ok ny nx s Hready) as (Hw & _ & _).
  destruct (Hw "cj_2i0" eq_refl) as (a_2 & ? & H_2 & S_2 & _ & _).
  destruct (Hw "cj_1i0" eq_refl) as (a_1 & ? & H_1 & S_1 & _ & _).
  destruct (Hw "cj1i0" eq_refl) as (a1 & ? & H1 & S1 & _ & _).
  destruct (Hw "cj2i0" eq_refl) as (a2 & ? & H2 & S2 & _ & _).
  destruct (Hw "cj0i_2" eq_refl) as (b_2 & ? & G_2 & T_2 & _ & _).
  destruct (Hw "cj0i_1" eq_refl) as (b_1 & ? & G_1 & T_1 & _ & _).
  destruct (Hw "cj0i1" eq_refl) as (b1 & ? & G1 & T1 & _ & _).
  destruct (Hw "cj0i2" eq_refl) as (b2 & ? & G2 & T2 & _ & _).
  destruct (Hw "cj_1i_1" eq_refl) as (c_1_1 & ? & K_1_1 & U_1_1 & _ & _).
  destruct (Hw "cj_1i1" eq_refl) as (c_11 & ? & K_11 & U_11 & _ & _).
  destruct (Hw "cj1i_1" eq_refl) as (c1_1 & ? & K1_1 & U1_1 & _ & _).
  destruct (Hw "cj1i1" eq_refl) as (c11 & ? & K11 & U11 & _ & _).
  destruct (Hw "cj0i0" eq_refl) as (c00 & ? & K00 & U00 & _ & _).
  apply String.eqb_neq in HWl, HNl.
  assert (H : wp build_diags
                (fun r s' => r = Raise "ValueError" /\
                             self s' "coeff_matrix" = self s "coeff_matrix") s).
  { unfold build_diags.
    wp_steps.
    cbn [for_each coeff_array_list].
    do 13 (apply wp_bind; eapply sweep_inf_ok; [lookup; reflexivity|]; cbn [cont]).
    wp_steps.
    do 3 (erewrite np_vstack_ok;
      [| reflexivity | discriminate
       | repeat (apply Forall_cons; [apply (flatten_length ny nx); shape_tac|]);
         apply Forall_nil ];
      cbn [app]; wp_steps).
    cbn [str_eq]. rewrite HNl. wp_steps.
    cbn [str_eq]. rewrite HWl. wp_steps.
    cbn [str_eq]. rewrite HNl. wp_steps.
    erewrite np_vstack_ok;
      [| reflexivity | discriminate
       | repeat (apply Forall_cons; [apply (flatten_length ny nx); shape_tac|]);
         apply Forall_nil ].
    cbn [app]. wp_steps.
    unfold scipy_sparse_spdiags, spdiags.
    rewrite offsets13_collide by lia.
    cbn [length offsets13 Nat.eqb andb cont].
    split; reflexivity. }
  destruct (wp_run _ _ _ H) as (r & s' & Hrun & -> & Hm).
  exists s'. auto.
Qed.

Lemma build_diags_needs_four_columns_witness :
  exists s',
    build_diags
      (snd (BC_Flexure
              (coefficients_of
                 (plate Te_ramp 1 1 "Dirichlet0" "Mirror" "0Slope0Shear"
                    "0Moment0Shear" "vWC1994"))))
    = (Raise "ValueError", s') /\
    self s' "coeff_matrix"
    = self (snd (BC_Flexure
                   (coefficients_of
                      (plate Te_ramp 1 1 "Dirichlet0" "Mirror" "0Slope0Shear"
                         "0Moment0Shear" "vWC1994")))) "coeff_matrix".
Proof.
  apply (build_diags_needs_four_columns 3 3 _ "Dirichlet0" "0Slope0Shear").
  - lia.
  - lia.
  - vm_compute. reflexivity.
  - vm_compute. reflexivity.
  - vm_compute. reflexivity.
  - vm_compute. reflexivity.
  - vm_compute. reflexivity.
  - discriminate.
  - discriminate.
Defined.

(* ================================================================== *)
(** * The debugging output of the linear solve *)

(** With [Debug] on, [fd_solve] prints the two wavelength counts that
    only [calc_max_flexural_wavelength] sets.  When one of them is
    missing the method ends in an [AttributeError] after the first lines
    of output, before the load is flattened and before any solver is
    called: whatever the library, no attribute is written. *)
Theorem fd_solve_Debug_needs_the_wavelength_counts scipy s v q :
  self s "Debug" = Some v -> truthy v = true ->
  self s "q0" = Some (VArr q) ->
  self s "maxFlexuralWavelength_ncells_x" = None \/
  self s "maxFlexuralWavelength_ncells_y" = None ->
  exists s',
    fd_solve scipy s = (Raise "AttributeError", s') /\
    self s' = self s /\ stdout s' <> stdout s.
Proof.
  intros HD Hv Hq Hmiss.
  assert (H : wp (fd_solve scipy)
                (fun r s' => r = Raise "AttributeError" /\ self s' = self s /\
                             stdout s' <> stdout s) s).
  { assert (Hlen : forall (l1 l2 : list pyval) (o : list (list pyval)),
              l1 :: l2 :: o <> o).
    { intros l1 l2 o E. apply (f_equal (@length _)) in E. cbn [length] in E. lia. }
    unfold fd_solve. apply wp_bind. unfold whenM, ifM. apply wp_bind.
    unfold flag. apply wp_bind. eapply wp_eval; [apply attr_ok; exact HD|].
    cbn [cont]. apply wp_ret. cbn [cont]. rewrite Hv.
    apply wp_bind. apply try_print_Te_shape_spec. intros l. cbn [cont].
    apply wp_bind. eapply wp_eval; [ev|]. cbn [cont shape_tuple].
    apply wp_bind. apply wp_print. cbn [cont].
    apply wp_bind.
    destruct (self s "maxFlexuralWavelength_ncells_x") as [vx|] eqn:Hx.
    - destruct Hmiss as [Hm | Hm]; [discriminate|].
      eapply wp_eval; [apply attr_ok; lookup; reflexivity|].
      cbn [cont]. apply wp_bind.
      eapply wp_eval; [apply attr_missing; lookup; reflexivity|].
      cbn [cont]. split; [reflexivity|]. split; [reflexivity|]. apply Hlen.
    - eapply wp_eval; [apply attr_missing; lookup; reflexivity|].
      cbn [cont]. split; [reflexivity|]. split; [reflexivity|]. apply Hlen. }
  destruct (wp_run _ _ _ H) as (r & s' & Hrun & -> & Hs & Ho).
  exists s'. auto.
Qed.

Lemma fd_solve_Debug_needs_the_wavelength_counts_witness :
  exists s',
    fd_solve scipy_identity
      (with_attr "Debug" (VBool true) (ready_to_solve "direct" (Q2Qc 1)))
    = (Raise "AttributeError", s') /\
    self s' = self (with_attr "Debug" (VBool true) (ready_to_solve "direct" (Q2Qc 1))) /\
    stdout s'
    <> stdout (with_attr "Debug" (VBool true) (ready_to_solve "direct" (Q2Qc 1))).
Proof.
  apply (fd_solve_Debug_needs_the_wavelength_counts scipy_identity _
           (VBool true) (grid [[0; 1]; [0; 0]])).
  - reflexivity.
  - reflexivity.
  - reflexivity.
  - left. reflexivity.
Defined.

(* ================================================================== *)
(** * The dispatch of [run] *)

(** With a method other than the four that [run] knows, [run] ends in
    the fatal exit that names them.  By then it has stamped
    [solver_start_time] (and, if [Verbose], printed it); no method of the
    base class and no solution method is called, and every other
    attribute is as before. *)
Theorem run_rejects_an_unknown_method env s m verbose :
  self s "method" = Some (VStr m) ->
  self s "Verbose" = Some verbose ->
  m <> "FD" -> m <> "FFT" -> m <> "SAS" -> m <> "SAS_NG" ->
  exists s',
    run env s = (Exit method_error, s') /\
    self s' "solver_start_time" = Some (VNum (Fin (clock s (ticks s)))) /\
    (forall k, k <> "solver_start_time" -> self s' k = self s k) /\
    ticks s' = S (ticks s).
Proof.
  intros Hm Hv H1 H2 H3 H4.
  assert (H : wp (run env)
                (fun r s' => r = Exit method_error /\
                   self s' = insert "solver_start_time"
                               (VNum (Fin (clock s (ticks s)))) (self s) /\
                   ticks s' = S (ticks s)) s).
  { unfold run. wp_steps.
    destruct (truthy verbose); wp_steps;
      rewrite (str_eq_neq m "FD") by assumption; wp_steps;
      rewrite (str_eq_neq m "FFT") by assumption; wp_steps;
      rewrite (str_eq_neq m "SAS") by assumption; wp_steps;
      rewrite (str_eq_neq m "SAS_NG") by assumption; wp_steps;
      repeat split. }
  destruct (wp_run _ _ _ H) as (r & s' & Hrun & -> & Hs & Ht).
  exists s'. split; [exact Hrun|]. rewrite Hs. unfold insert. cbn.
  repeat split; [|exact Ht].
  intros k Hk. apply String.eqb_neq in Hk. now rewrite Hk.
Qed.

Lemma run_rejects_an_unknown_method_witness :
  exists s',
    run plain_environment (with_attr "method" (VStr "fd") fft_instance)
    = (Exit method_error, s') /\
    self s' "solver_start_time"
    = Some (VNum (Fin (clock (with_attr "method" (VStr "fd") fft_instance)
                         (ticks (with_attr "method" (VStr "fd") fft_instance))))) /\
    (forall k, k <> "solver_start_time" ->
       self s' k = self (with_attr "method" (VStr "fd") fft_instance) k) /\
    ticks s' = S (ticks (with_attr "method" (VStr "fd") fft_instance)).
Proof.
  apply (run_rejects_an_unknown_method plain_environment _ "fd" (VBool false)).
  - reflexivity.
  - reflexivity.
  - discriminate.
  - discriminate.
  - discriminate.
  - discriminate.
Defined.

(* ================================================================== *)
(** * The rigidity boundary conditions *)

Lemma line_length n f : length (line n f) = n.
Proof. unfold line. now rewrite length_map, length_seq. Qed.

Lemma nth_line n f i : (i < n)%nat -> nth i (line n f) NaN = f i.
Proof.
  intros Hi. unfold line.
  rewrite (nth_indep _ NaN (f 0%nat)) by (now rewrite length_map, length_seq).
  rewrite (map_nth f (seq 0 n) 0%nat i). now rewrite seq_nth.
Qed.

Lemma line_ext n f g : (forall i, (i < n)%nat -> f i = g i) -> line n f = line n g.
Proof.
  intros H. unfold line. apply map_ext_in. intros i Hi. apply in_seq in Hi.
  apply H. lia.
Qed.

Lemma list_as_line (u : vector) : u = line (length u) (fun i => nth i u NaN).
Proof.
  apply (nth_ext _ _ NaN NaN); [now rewrite line_length|].
  intros i Hi. now rewrite nth_line.
Qed.

Lemma column_line ny nx a j :
  shaped ny nx a -> column a j = line ny (fun r => get a r j).
Proof.
  intros Ha. rewrite (list_as_line (column a j)).
  rewrite column_length, (shaped_nrows _ _ _ Ha).
  apply line_ext. intros i Hi. unfold column, get.
  rewrite (nth_indep _ NaN ((fun row : list val => nth j row NaN) []))
    by (rewrite length_map; destruct Ha; lia).
  apply (map_nth (fun row : list val => nth j row NaN)).
Qed.

Lemma row_line ny nx a i :
  shaped ny nx a -> (i < ny)%nat -> nth i a [] = line nx (fun c => get a i c).
Proof.
  intros Ha Hi. rewrite (list_as_line (nth i a [])).
  now rewrite (shaped_row ny nx a i Ha Hi).
Qed.

Lemma map_line n (g : val -> val) f : map g (line n f) = line n (fun i => g (f i)).
Proof. unfold line. apply map_map. Qed.

Lemma vmap2_line n (g : val -> val -> val) f h :
  vmap2 g (line n f) (line n h) = line n (fun i => g (f i) (h i)).
Proof.
  unfold vmap2, line.
  assert (E : combine (map f (seq 0 n)) (map h (seq 0 n))
              = map (fun i => (f i, h i)) (seq 0 n)).
  { generalize (seq 0 n). intros l. induction l as [|a l IH]; cbn; [reflexivity|].
    now rewrite IH. }
  rewrite E. apply map_map.
Qed.

(** The arithmetic of the boundary statements on 1-D arrays. *)
Lemma scaled_line n k f s :
  (flt k * lit (VVec (line n f)))%E s
  = Ok (VVec (line n (fun i => vmul (num k) (f i)))).
Proof. unfold emul, ebind2, flt, lit. cbn [py_arith]. now rewrite map_line. Qed.

Lemma line_minus_line n f h s :
  (lit (VVec (line n f)) - lit (VVec (line n h)))%E s
  = Ok (VVec (line n (fun i => vsub (f i) (h i)))).
Proof.
  unfold esub, ebind2, lit. cbn [py_arith].
  now rewrite !line_length, Nat.eqb_refl, vmap2_line.
Qed.

Lemma col_line ny nx a name j j' s :
  self s name = Some (VArr a) -> shaped ny nx a -> (0 < ny)%nat ->
  pyidx nx j = Some j' ->
  col (attr name) j s = Ok (VVec (line ny (fun r => get a r j'))).
Proof.
  intros Ha Hsa Hny Hj. unfold col.
  eapply ev_ebind; [apply attr_ok; exact Ha|]. cbv beta iota.
  rewrite (shaped_ncols ny nx a Hsa Hny), Hj.
  now rewrite (column_line ny nx).
Qed.

Lemma row_expr_line ny nx a name i i' s :
  self s name = Some (VArr a) -> shaped ny nx a ->
  pyidx ny i = Some i' -> (i' < ny)%nat ->
  row (attr name) i s = Ok (VVec (line nx (fun c => get a i' c))).
Proof.
  intros Ha Hsa Hi Hlt. unfold row.
  eapply ev_ebind; [apply attr_ok; exact Ha|]. cbv beta iota.
  rewrite (shaped_nrows ny nx a Hsa), Hi.
  now rewrite (row_line ny nx a i' Hsa Hlt).
Qed.

(** [self.name[:, j] = e] and [self.name[i, :] = e] for a right-hand
    side that is a 1-D array of the length of the line. *)
Lemma set_col_to_line ny nx name a j j' e f Q s :
  self s name = Some (VArr a) -> shaped ny nx a -> (0 < ny)%nat ->
  pyidx nx j = Some j' ->
  e s = Ok (VVec (line ny f)) ->
  Q (Ok tt) (with_attr name (VArr (set_col a j' (fun i => nth i (line ny f) NaN))) s) ->
  wp (set_col_to name j e) Q s.
Proof.
  intros Ha Hsa Hny Hj He HQ. unfold set_col_to. apply wp_bind.
  eapply wp_eval; [exact He|]. cbn [cont]. unfold store_col. apply wp_bind.
  eapply wp_eval; [apply attr_ok; exact Ha|]. cbn [cont].
  rewrite (shaped_ncols ny nx a Hsa Hny), Hj, (shaped_nrows ny nx a Hsa).
  cbn [rows_of]. rewrite line_length, Nat.eqb_refl. now apply wp_setattr.
Qed.

Lemma set_row_to_line ny nx name a i i' e f Q s :
  self s name = Some (VArr a) -> shaped ny nx a -> (0 < ny)%nat ->
  pyidx ny i = Some i' ->
  e s = Ok (VVec (line nx f)) ->
  Q (Ok tt) (with_attr name (VArr (set_row a i' (fun c => nth c (line nx f) NaN))) s) ->
  wp (set_row_to name i e) Q s.
Proof.
  intros Ha Hsa Hny Hi He HQ. unfold set_row_to. apply wp_bind.
  eapply wp_eval; [exact He|]. cbn [cont]. unfold store_row. apply wp_bind.
  eapply wp_eval; [apply attr_ok; exact Ha|]. cbn [cont].
  rewrite (shaped_nrows ny nx a Hsa), Hi, (shaped_ncols ny nx a Hsa Hny).
  cbn [rows_of]. rewrite line_length, Nat.eqb_refl. now apply wp_setattr.
Qed.

(** The padding of [BC_Rigidity]. *)
Lemma pad_shaped ny nx a :
  shaped ny nx a -> (0 < ny)%nat ->
  shaped (S (S ny)) (S (S nx)) (vstack_nan (hstack_nan a)).
Proof.
  intros [Hl Hr] Hny. unfold vstack_nan, hstack_nan.
  assert (Hrows : Forall (fun row => length row = S (S nx))
                    (map (fun row => [NaN] ++ row ++ [NaN]) a)).
  { apply Forall_map. eapply Forall_impl; [|exact Hr].
    intros row H. cbn. rewrite length_app, H. cbn. lia. }
  assert (Hc : ncols (map (fun row => [NaN] ++ row ++ [NaN]) a) = S (S nx)).
  { apply (shaped_ncols ny); [|exact Hny]. split; [now rewrite length_map | exact Hrows]. }
  rewrite Hc. split.
  - cbn. rewrite length_app, length_map. cbn. lia.
  - constructor; [apply repeat_length|].
    apply Forall_app. split; [exact Hrows|].
    constructor; [apply repeat_length | constructor].
Qed.

Lemma nth_hstack_nan a i :
  (i < length a)%nat -> nth i (hstack_nan a) [] = NaN :: nth i a [] ++ [NaN].
Proof.
  intros Hi. unfold hstack_nan.
  rewrite (nth_indep _ [] ((fun row : list val => [NaN] ++ row ++ [NaN]) []))
    by (now rewrite length_map).
  apply (map_nth (fun row : list val => [NaN] ++ row ++ [NaN])).
Qed.

Lemma get_pad ny nx a i j :
  shaped ny nx a -> (i < ny)%nat -> (j < nx)%nat ->
  get (vstack_nan (hstack_nan a)) (S i) (S j) = get a i j.
Proof.
  intros [Hl Hr] Hi Hj. unfold vstack_nan, get.
  change (nth (S i) ([repeat NaN (ncols (hstack_nan a))] ++ hstack_nan a
                      ++ [repeat NaN (ncols (hstack_nan a))]) [])
    with (nth i (hstack_nan a ++ [repeat NaN (ncols (hstack_nan a))]) []).
  rewrite app_nth1 by (unfold hstack_nan; rewrite length_map; lia).
  rewrite nth_hstack_nan by lia.
  change (nth (S j) (NaN :: nth i a [] ++ [NaN]) NaN)
    with (nth j (nth i a [] ++ [NaN]) NaN).
  apply app_nth1.
  rewrite Forall_forall in Hr. rewrite (Hr (nth i a [])); [exact Hj|].
  apply nth_In. lia.
Qed.

Lemma pyidx_2 n : (3 <= n)%nat -> pyidx n 2 = Some 2%nat.
Proof.
  intros H. unfold pyidx.
  replace (2 <? Z.of_nat n) with true by (symmetry; apply Z.ltb_lt; lia).
  reflexivity.
Qed.

Lemma pyidx_m3 n : (3 <= n)%nat -> pyidx n (-3) = Some (n - 3)%nat.
Proof.
  intros H. unfold pyidx. cbn [Z.leb Z.ltb Z.compare andb].
  replace (0 <=? Z.of_nat n + -3) with true by (symmetry; apply Z.leb_le; lia).
  f_equal. lia.
Qed.

Lemma ev_scaled n k (e : Exp) f s :
  e s = Ok (VVec (line n f)) ->
  (flt k * e)%E s = Ok (VVec (line n (fun i => vmul (num k) (f i)))).
Proof.
  intros He. unfold emul. eapply ev_ebind2; [reflexivity | exact He |].
  cbn [py_arith]. now rewrite map_line.
Qed.

Lemma ev_minus n (e1 e2 : Exp) f h s :
  e1 s = Ok (VVec (line n f)) -> e2 s = Ok (VVec (line n h)) ->
  (e1 - e2)%E s = Ok (VVec (line n (fun i => vsub (f i) (h i)))).
Proof.
  intros H1 H2. unfold esub. eapply ev_ebind2; [exact H1 | exact H2 |].
  cbn [py_arith]. now rewrite !line_length, Nat.eqb_refl, vmap2_line.
Qed.

Lemma ghost_low_fin k a b c :
  is_fin a = true -> is_fin b = true -> is_fin c = true ->
  is_fin (ghost_low k a b c) = true.
Proof.
  destruct a, b, c; try discriminate. intros _ _ _. unfold ghost_low.
  destruct (String.eqb k "0 curvature"); [reflexivity|].
  now destruct (String.eqb k "mirror symmetry").
Qed.

Lemma ghost_high_fin k a b :
  is_fin a = true -> is_fin b = true -> is_fin (ghost_high k a b) = true.
Proof.
  destruct a, b; try discriminate. intros _ _. unfold ghost_high.
  now destruct (String.eqb k "0 curvature").
Qed.

Section RigidityBC.

Variables ny nx : nat.
Variable d0 : array.
Variable s1 : State.
Variables kW kE kN kS : string.
Hypothesis Hny : (2 <= ny)%nat.
Hypothesis Hnx : (2 <= nx)%nat.
Hypothesis LW : self s1 "BC_Rigidity_W" = Some (VStr kW).
Hypothesis LE : self s1 "BC_Rigidity_E" = Some (VStr kE).
Hypothesis LN : self s1 "BC_Rigidity_N" = Some (VStr kN).
Hypothesis LS : self s1 "BC_Rigidity_S" = Some (VStr kS).

(** The test of a boundary statement. *)
Lemma wp_when_kind name kX k body fW fE fN fS Q s :
  self s1 name = Some (VStr kX) -> name <> "D" ->
  rigidity_inv ny nx d0 s1 kW kE kN kS fW fE fN fS s ->
  (kX = k -> wp body Q s) ->
  (String.eqb kX k = false -> Q (Ok tt) s) ->
  wp (whenM (is_ name k) body) Q s.
Proof.
  intros Hname Hne Hinv Hrun Hskip.
  unfold whenM. eapply wp_if_is.
  - rewrite (proj1 Hinv name Hne). exact Hname.
  - cbn [str_eq]. destruct (String.eqb kX k) eqn:E.
    + apply Hrun. now apply String.eqb_eq.
    + apply wp_ret. now apply Hskip.
Qed.

Lemma frame_with_D s d :
  (forall k, k <> "D" -> self s k = self s1 k) ->
  forall k, k <> "D" -> self (with_attr "D" (VArr d) s) k = self s1 k.
Proof.
  intros H k Hk. cbn [self with_attr]. unfold insert.
  destruct (String.eqb_spec k "D") as [E|E]; [contradiction | now apply H].
Qed.

Lemma S_pred n : (1 <= n)%nat -> S (n - 1) = n.
Proof. lia. Qed.

(** West: [self.D[:,0] = ...]. *)
Lemma west_step k e fW fE fN fS Q s :
  (forall s d, self s "D" = Some (VArr d) -> shaped (S (S ny)) (S (S nx)) d ->
     exists f, e s = Ok (VVec (line (S (S ny)) f)) /\
               forall r, f r = ghost_low k (get d r 1) (get d r 2) (get d r nx)) ->
  rigidity_inv ny nx d0 s1 kW kE kN kS fW fE fN fS s ->
  (forall s', rigidity_inv ny nx d0 s1 kW kE kN kS (fW || String.eqb kW k) fE fN fS s' ->
     Q (Ok tt) s') ->
  wp (whenM (is_ "BC_Rigidity_W" k) (set_col_to "D" 0 e)) Q s.
Proof.
  intros He Hinv HQ.
  apply (wp_when_kind "BC_Rigidity_W" kW k _ fW fE fN fS); [exact LW | discriminate | exact Hinv | |].
  2:{ intros E. apply HQ. rewrite E, orb_false_r. exact Hinv. }
  intros ->. destruct Hinv as (Hfr & d & HD & Hsd & Hint & HgW & HgE & HgN & HgS & Hcor).
  destruct (He s d HD Hsd) as (f & Hf & Hfr').
  eapply (set_col_to_line (S (S ny)) (S (S nx)) "D" d 0 0%nat);
    [exact HD | exact Hsd | lia | apply pyidx_0; lia | exact Hf |].
  apply HQ. rewrite String.eqb_refl, orb_true_r.
  assert (Hget : forall r c, (r < S (S ny))%nat -> (c < S (S nx))%nat ->
            get (set_col d 0 (fun i => nth i (line (S (S ny)) f) NaN)) r c
            = if Nat.eqb c 0 then ghost_low k (get d r 1) (get d r 2) (get d r nx)
              else get d r c).
  { intros r c Hr Hc. rewrite (get_set_col (S (S ny)) (S (S nx))) by assumption.
    destruct (Nat.eqb c 0); [|reflexivity]. now rewrite nth_line, Hfr' by assumption. }
  split; [now apply frame_with_D|].
  eexists. split; [cbn [self with_attr]; unfold insert; cbn; reflexivity|].
  split; [apply set_col_shaped; [exact Hsd | lia]|].
  split; [intros i j Hi Hj; rewrite Hget by lia; now apply Hint|].
  split.
  { intros _ i Hi. rewrite Hget by lia. cbn [Nat.eqb].
    rewrite (Hint i 0%nat), (Hint i 1%nat) by lia.
    rewrite <- (Hint i (nx - 1)%nat) by lia. now rewrite S_pred by lia. }
  split; [intros H i Hi; rewrite Hget by lia; now apply HgE|].
  split; [intros H j Hj; rewrite Hget by lia; now apply HgN|].
  split; [intros H j Hj; rewrite Hget by lia; now apply HgS|].
  intros Hfin. destruct (Hcor Hfin) as (C1 & C2 & C3 & C4).
  assert (Hlow : forall j, (j < nx)%nat ->
            is_fin (ghost_low kN (get d0 0 j) (get d0 1 j) (get d0 (ny - 1) j)) = true).
  { intros j Hj. apply ghost_low_fin; apply Hfin; lia. }
  assert (Hhigh : forall j, (j < nx)%nat ->
            is_fin (ghost_high kS (get d0 (ny - 1) j) (get d0 (ny - 2) j)) = true).
  { intros j Hj. apply ghost_high_fin; apply Hfin; lia. }
  repeat split.
  - cbn [andb]. intros HfN. rewrite Hget by lia. cbn [Nat.eqb].
    rewrite <- (S_pred nx) at 1 by lia.
    rewrite (HgN HfN 0%nat), (HgN HfN 1%nat), (HgN HfN (nx - 1)%nat) by lia.
    apply ghost_low_fin; apply Hlow; lia.
  - intros H. rewrite Hget by lia. now apply C2.
  - cbn [andb]. intros HfS. rewrite Hget by lia. cbn [Nat.eqb].
    rewrite <- (S_pred nx) at 1 by lia.
    rewrite (HgS HfS 0%nat), (HgS HfS 1%nat), (HgS HfS (nx - 1)%nat) by lia.
    apply ghost_low_fin; apply Hhigh; lia.
  - intros H. rewrite Hget by lia. now apply C4.
Qed.

(** East: [self.D[:,-1] = ...]. *)
Lemma east_step k e fW fE fN fS Q s :
  (forall s d, self s "D" = Some (VArr d) -> shaped (S (S ny)) (S (S nx)) d ->
     exists f, e s = Ok (VVec (line (S (S ny)) f)) /\
               forall r, f r = ghost_high k (get d r nx) (get d r (nx - 1))) ->
  rigidity_inv ny nx d0 s1 kW kE kN kS fW fE fN fS s ->
  (forall s', rigidity_inv ny nx d0 s1 kW kE kN kS fW (fE || String.eqb kE k) fN fS s' ->
     Q (Ok tt) s') ->
  wp (whenM (is_ "BC_Rigidity_E" k) (set_col_to "D" (-1) e)) Q s.
Proof.
  intros He Hinv HQ.
  apply (wp_when_kind "BC_Rigidity_E" kE k _ fW fE fN fS); [exact LE | discriminate | exact Hinv | |].
  2:{ intros E. apply HQ. rewrite E, orb_false_r. exact Hinv. }
  intros ->. destruct Hinv as (Hfr & d & HD & Hsd & Hint & HgW & HgE & HgN & HgS & Hcor).
  destruct (He s d HD Hsd) as (f & Hf & Hfr').
  eapply (set_col_to_line (S (S ny)) (S (S nx)) "D" d (-1) (S nx));
    [exact HD | exact Hsd | lia | apply (pyidx_m1 (S (S nx))); lia | exact Hf |].
  apply HQ. rewrite String.eqb_refl, orb_true_r.
  assert (Hget : forall r c, (r < S (S ny))%nat -> (c < S (S nx))%nat ->
            get (set_col d (S nx) (fun i => nth i (line (S (S ny)) f) NaN)) r c
            = if Nat.eqb c (S nx) then ghost_high k (get d r nx) (get d r (nx - 1))
              else get d r c).
  { intros r c Hr Hc. rewrite (get_set_col (S (S ny)) (S (S nx))) by assumption.
    destruct (Nat.eqb c (S nx)); [|reflexivity]. now rewrite nth_line, Hfr' by assumption. }
  assert (Hin : forall c, (c < S nx)%nat -> Nat.eqb c (S nx) = false).
  { intros c Hc. apply Nat.eqb_neq. lia. }
  split; [now apply frame_with_D|].
  eexists. split; [cbn [self with_attr]; unfold insert; cbn; reflexivity|].
  split; [apply set_col_shaped; [exact Hsd | lia]|].
  split; [intros i j Hi Hj; rewrite Hget, Hin by lia; now apply Hint|].
  split; [intros H i Hi; rewrite Hget, Hin by lia; now apply HgW|].
  split.
  { intros _ i Hi. rewrite Hget by lia. rewrite Nat.eqb_refl.
    rewrite <- (Hint i (nx - 1)%nat), <- (Hint i (nx - 2)%nat) by lia.
    rewrite S_pred by lia. now replace (S (nx - 2)) with (nx - 1)%nat by lia. }
  split; [intros H j Hj; rewrite Hget, Hin by lia; now apply HgN|].
  split; [intros H j Hj; rewrite Hget, Hin by lia; now apply HgS|].
  intros Hfin. destruct (Hcor Hfin) as (C1 & C2 & C3 & C4).
  assert (Hlow : forall j, (j < nx)%nat ->
            is_fin (ghost_low kN (get d0 0 j) (get d0 1 j) (get d0 (ny - 1) j)) = true).
  { intros j Hj. apply ghost_low_fin; apply Hfin; lia. }
  assert (Hhigh : forall j, (j < nx)%nat ->
            is_fin (ghost_high kS (get d0 (ny - 1) j) (get d0 (ny - 2) j)) = true).
  { intros j Hj. apply ghost_high_fin; apply Hfin; lia. }
  repeat split.
  - intros H. rewrite Hget, Hin by lia. now apply C1.
  - cbn [andb]. intros HfN. rewrite Hget by lia. rewrite Nat.eqb_refl.
    rewrite <- (S_pred nx) at 1 by lia.
    replace (nx - 1)%nat with (S (nx - 2)) at 2 by lia.
    rewrite (HgN HfN (nx - 1)%nat), (HgN HfN (nx - 2)%nat) by lia.
    apply ghost_high_fin; apply Hlow; lia.
  - intros H. rewrite Hget, Hin by lia. now apply C3.
  - cbn [andb]. intros HfS. rewrite Hget by lia. rewrite Nat.eqb_refl.
    rewrite <- (S_pred nx) at 1 by lia.
    replace (nx - 1)%nat with (S (nx - 2)) at 2 by lia.
    rewrite (HgS HfS (nx - 1)%nat), (HgS HfS (nx - 2)%nat) by lia.
    apply ghost_high_fin; apply Hhigh; lia.
Qed.

(** North: [self.D[0,:] = ...]. *)
Lemma north_step k e fW fE fN fS Q s :
  (forall s d, self s "D" = Some (VArr d) -> shaped (S (S ny)) (S (S nx)) d ->
     exists f, e s = Ok (VVec (line (S (S nx)) f)) /\
               forall c, f c = ghost_low k (get d 1 c) (get d 2 c) (get d ny c)) ->
  rigidity_inv ny nx d0 s1 kW kE kN kS fW fE fN fS s ->
  (forall s', rigidity_inv ny nx d0 s1 kW kE kN kS fW fE (fN || String.eqb kN k) fS s' ->
     Q (Ok tt) s') ->
  wp (whenM (is_ "BC_Rigidity_N" k) (set_row_to "D" 0 e)) Q s.
Proof.
  intros He Hinv HQ.
  apply (wp_when_kind "BC_Rigidity_N" kN k _ fW fE fN fS); [exact LN | discriminate | exact Hinv | |].
  2:{ intros E. apply HQ. rewrite E, orb_false_r. exact Hinv. }
  intros ->. destruct Hinv as (Hfr & d & HD & Hsd & Hint & HgW & HgE & HgN & HgS & Hcor).
  destruct (He s d HD Hsd) as (f & Hf & Hfr').
  eapply (set_row_to_line (S (S ny)) (S (S nx)) "D" d 0 0%nat);
    [exact HD | exact Hsd | lia | apply pyidx_0; lia | exact Hf |].
  apply HQ. rewrite String.eqb_refl, orb_true_r.
  assert (Hget : forall r c, (r < S (S ny))%nat -> (c < S (S nx))%nat ->
            get (set_row d 0 (fun c => nth c (line (S (S nx)) f) NaN)) r c
            = if Nat.eqb r 0 then ghost_low k (get d 1 c) (get d 2 c) (get d ny c)
              else get d r c).
  { intros r c Hr Hc. rewrite (get_set_row (S (S ny)) (S (S nx))) by assumption.
    destruct (Nat.eqb r 0); [|reflexivity]. now rewrite nth_line, Hfr' by assumption. }
  split; [now apply frame_with_D|].
  eexists. split; [cbn [self with_attr]; unfold insert; cbn; reflexivity|].
  split; [apply set_row_shaped; [exact Hsd | lia]|].
  split; [intros i j Hi Hj; rewrite Hget by lia; now apply Hint|].
  split; [intros H i Hi; rewrite Hget by lia; now apply HgW|].
  split; [intros H i Hi; rewrite Hget by lia; now apply HgE|].
  split.
  { intros _ j Hj. rewrite Hget by lia. cbn [Nat.eqb].
    rewrite (Hint 0%nat j), (Hint 1%nat j) by lia.
    rewrite <- (Hint (ny - 1)%nat j) by lia. now rewrite S_pred by lia. }
  split; [intros H j Hj; rewrite Hget by lia; now apply HgS|].
  intros Hfin. destruct (Hcor Hfin) as (C1 & C2 & C3 & C4).
  assert (Hlow : forall i, (i < ny)%nat ->
            is_fin (ghost_low kW (get d0 i 0) (get d0 i 1) (get d0 i (nx - 1))) = true).
  { intros i Hi. apply ghost_low_fin; apply Hfin; lia. }
  assert (Hhigh : forall i, (i < ny)%nat ->
            is_fin (ghost_high kE (get d0 i (nx - 1)) (get d0 i (nx - 2))) = true).
  { intros i Hi. apply ghost_high_fin; apply Hfin; lia. }
  repeat split.
  - rewrite andb_true_r. intros HfW. rewrite Hget by lia. cbn [Nat.eqb].
    rewrite <- (S_pred ny) at 1 by lia.
    rewrite (HgW HfW 0%nat), (HgW HfW 1%nat), (HgW HfW (ny - 1)%nat) by lia.
    apply ghost_low_fin; apply Hlow; lia.
  - rewrite andb_true_r. intros HfE. rewrite Hget by lia. cbn [Nat.eqb].
    rewrite <- (S_pred ny) at 1 by lia.
    rewrite (HgE HfE 0%nat), (HgE HfE 1%nat), (HgE HfE (ny - 1)%nat) by lia.
    apply ghost_low_fin; apply Hhigh; lia.
  - intros H. rewrite Hget by lia. now apply C3.
  - intros H. rewrite Hget by lia. now apply C4.
Qed.

(** South: [self.D[-1,:] = ...]. *)
Lemma south_step k e fW fE fN fS Q s :
  (forall s d, self s "D" = Some (VArr d) -> shaped (S (S ny)) (S (S nx)) d ->
     exists f, e s = Ok (VVec (line (S (S nx)) f)) /\
               forall c, f c = ghost_high k (get d ny c) (get d (ny - 1) c)) ->
  rigidity_inv ny nx d0 s1 kW kE kN kS fW fE fN fS s ->
  (forall s', rigidity_inv ny nx d0 s1 kW kE kN kS fW fE fN (fS || String.eqb kS k) s' ->
     Q (Ok tt) s') ->
  wp (whenM (is_ "BC_Rigidity_S" k) (set_row_to "D" (-1) e)) Q s.
Proof.
  intros He Hinv HQ.
  apply (wp_when_kind "BC_Rigidity_S" kS k _ fW fE fN fS); [exact LS | discriminate | exact Hinv | |].
  2:{ intros E. apply HQ. rewrite E, orb_false_r. exact Hinv. }
  intros ->. destruct Hinv as (Hfr & d & HD & Hsd & Hint & HgW & HgE & HgN & HgS & Hcor).
  destruct (He s d HD Hsd) as (f & Hf & Hfr').
  eapply (set_row_to_line (S (S ny)) (S (S nx)) "D" d (-1) (S ny));
    [exact HD | exact Hsd | lia | apply (pyidx_m1 (S (S ny))); lia | exact Hf |].
  apply HQ. rewrite String.eqb_refl, orb_true_r.
  assert (Hget : forall r c, (r < S (S ny))%nat -> (c < S (S nx))%nat ->
            get (set_row d (S ny) (fun c => nth c (line (S (S nx)) f) NaN)) r c
            = if Nat.eqb r (S ny) then ghost_high k (get d ny c) (get d (ny - 1) c)
              else get d r c).
  { intros r c Hr Hc. rewrite (get_set_row (S (S ny)) (S (S nx))) by assumption.
    destruct (Nat.eqb r (S ny)); [|reflexivity]. now rewrite nth_line, Hfr' by assumption. }
  assert (Hin : forall r, (r < S ny)%nat -> Nat.eqb r (S ny) = false).
  { intros r Hr. apply Nat.eqb_neq. lia. }
  split; [now apply frame_with_D|].
  eexists. split; [cbn [self with_attr]; unfold insert; cbn; reflexivity|].
  split; [apply set_row_shaped; [exact Hsd | lia]|].
  split; [intros i j Hi Hj; rewrite Hget, Hin by lia; now apply Hint|].
  split; [intros H i Hi; rewrite Hget, Hin by lia; now apply HgW|].
  split; [intros H i Hi; rewrite Hget, Hin by lia; now apply HgE|].
  split; [intros H j Hj; rewrite Hget, Hin by lia; now apply HgN|].
  split.
  { intros _ j Hj. rewrite Hget by lia. rewrite Nat.eqb_refl.
    rewrite <- (Hint (ny - 1)%nat j), <- (Hint (ny - 2)%nat j) by lia.
    rewrite S_pred by lia. now replace (S (ny - 2)) with (ny - 1)%nat by lia. }
  intros Hfin. destruct (Hcor Hfin) as (C1 & C2 & C3 & C4).
  assert (Hlow : forall i, (i < ny)%nat ->
            is_fin (ghost_low kW (get d0 i 0) (get d0 i 1) (get d0 i (nx - 1))) = true).
  { intros i Hi. apply ghost_low_fin; apply Hfin; lia. }
  assert (Hhigh : forall i, (i < ny)%nat ->
            is_fin (ghost_high kE (get d0 i (nx - 1)) (get d0 i (nx - 2))) = true).
  { intros i Hi. apply ghost_high_fin; apply Hfin; lia. }
  repeat split.
  - intros H. rewrite Hget, Hin by lia. now apply C1.
  - intros H. rewrite Hget, Hin by lia. now apply C2.
  - rewrite andb_true_r. intros HfW. rewrite Hget by lia. rewrite Nat.eqb_refl.
    rewrite <- (S_pred ny) at 1 by lia.
    replace (ny - 1)%nat with (S (ny - 2)) at 2 by lia.
    rewrite (HgW HfW (ny - 1)%nat), (HgW HfW (ny - 2)%nat) by lia.
    apply ghost_high_fin; apply Hlow; lia.
  - rewrite andb_true_r. intros HfE. rewrite Hget by lia. rewrite Nat.eqb_refl.
    rewrite <- (S_pred ny) at 1 by lia.
    replace (ny - 1)%nat with (S (ny - 2)) at 2 by lia.
    rewrite (HgE HfE (ny - 1)%nat), (HgE HfE (ny - 2)%nat) by lia.
    apply ghost_high_fin; apply Hhigh; lia.
Qed.

End RigidityBC.

(** The tests of [select_rigidity_BC] on a label. *)
Ltac select_steps Hb :=
  repeat first
    [ apply wp_bind
    | eapply wp_eval; [apply attr_ok; exact Hb|]
    | apply wp_ret
    | apply wp_setattr
    | apply wp_exit
    | progress cbn [cont str_eq]
    | match goal with
      | E : String.eqb ?b ?l = _ |- context [String.eqb ?b ?l] => rewrite E
      end ].

(** The selection at the head of [BC_Rigidity]. *)
Lemma select_rigidity_BC_ok bc target b k Q s :
  self s bc = Some (VStr b) -> rigidity_kind b = Some k ->
  Q (Ok tt) (with_attr target (VStr k) s) ->
  wp (select_rigidity_BC bc target) Q s.
Proof.
  intros Hb Hk HQ. unfold rigidity_kind in Hk.
  unfold select_rigidity_BC, ifM, orM, is_.
  destruct (String.eqb b "Periodic") eqn:E1;
    [|destruct (String.eqb b "Dirichlet0") eqn:E2;
      destruct (String.eqb b "0Moment0Shear") eqn:E3;
      destruct (String.eqb b "0Slope0Shear") eqn:E4;
      destruct (String.eqb b "Mirror") eqn:E5];
    cbn [orb] in Hk; try discriminate; injection Hk as <-;
    select_steps Hb; exact HQ.
Qed.

Lemma select_rigidity_BC_invalid bc target b Q s :
  self s bc = Some (VStr b) -> rigidity_kind b = None ->
  Q (Exit "Invalid Te B.C. case") s ->
  wp (select_rigidity_BC bc target) Q s.
Proof.
  intros Hb Hk HQ. unfold rigidity_kind in Hk.
  unfold select_rigidity_BC, ifM, orM, is_.
  destruct (String.eqb b "Periodic") eqn:E1;
    [|destruct (String.eqb b "Dirichlet0") eqn:E2;
      destruct (String.eqb b "0Moment0Shear") eqn:E3;
      destruct (String.eqb b "0Slope0Shear") eqn:E4;
      destruct (String.eqb b "Mirror") eqn:E5];
    cbn [orb] in Hk; try discriminate;
    select_steps Hb; exact HQ.
Qed.

(** The right-hand sides of the twelve boundary statements. *)
Ltac line_of HD Hsd :=
  first [ eapply col_line | eapply row_expr_line ];
  lazymatch goal with
  | |- self _ _ = _ => exact HD
  | |- shaped _ _ _ => exact Hsd
  | |- pyidx _ _ = _ =>
      first [ apply pyidx_0 | apply pyidx_1 | apply pyidx_2
            | apply pyidx_m1 | apply pyidx_m2 | apply pyidx_m3 ]; lia
  | |- (_ < _)%nat => lia
  end.

Ltac ghost_expr :=
  let s := fresh "s" in
  let d := fresh "d" in
  let HD := fresh "HD" in
  let Hsd := fresh "Hsd" in
  intros s d HD Hsd; eexists; split;
  [ first [ eapply ev_minus; [eapply ev_scaled; line_of HD Hsd | line_of HD Hsd]
          | line_of HD Hsd ]
  | intros; cbn [Nat.sub]; rewrite ?Nat.sub_0_r; reflexivity ].

Lemma with_attr_other name v s k :
  k <> name -> self (with_attr name v s) k = self s k.
Proof.
  intros H. cbn [self with_attr]. unfold insert.
  now rewrite (proj2 (String.eqb_neq k name) H).
Qed.

Lemma kind_flags b k :
  rigidity_kind b = Some k ->
  ((false || String.eqb k "0 curvature") || String.eqb k "mirror symmetry")
  || String.eqb k "periodic" = true.
Proof.
  unfold rigidity_kind.
  destruct (String.eqb b "Periodic"); [intros H; injection H as <-; reflexivity|].
  destruct (String.eqb b "Dirichlet0" || String.eqb b "0Moment0Shear"
            || String.eqb b "0Slope0Shear");
    [intros H; injection H as <-; reflexivity|].
  destruct (String.eqb b "Mirror"); [intros H; injection H as <-; reflexivity|].
  discriminate.
Qed.

(** One of the twelve boundary statements. *)
Ltac rigidity_step ny nx d0 s1 :=
  lazymatch goal with
  | |- wp (bind _ _) _ _ => apply wp_bind
  | |- _ => idtac
  end;
  first [ eapply (west_step ny nx d0 s1) | eapply (east_step ny nx d0 s1)
        | eapply (north_step ny nx d0 s1) | eapply (south_step ny nx d0 s1) ];
  lazymatch goal with
  | |- (_ <= _)%nat => assumption
  | |- self _ _ = _ => reflexivity
  | |- rigidity_inv _ _ _ _ _ _ _ _ _ _ _ _ _ => eassumption
  | |- forall s' : State, rigidity_inv _ _ _ _ _ _ _ _ _ _ _ _ s' -> _ =>
      let s' := fresh "s'" in
      let Hs' := fresh "Hs'" in
      intros s' Hs'; cbn [cont]
  | |- forall (s : State) (d : array), _ => ghost_expr
  end.

(** [BC_Rigidity] on an array-valued elastic thickness: it runs to
    completion and leaves the invariant with every edge applied. *)
Lemma BC_Rigidity_array ny nx s t d0 bW bE bN bS kW kE kN kS :
  (2 <= ny)%nat -> (2 <= nx)%nat ->
  self s "Te" = Some (VArr t) ->
  self s "D" = Some (VArr d0) -> shaped ny nx d0 ->
  self s "BC_W" = Some (VStr bW) -> self s "BC_E" = Some (VStr bE) ->
  self s "BC_N" = Some (VStr bN) -> self s "BC_S" = Some (VStr bS) ->
  rigidity_kind bW = Some kW -> rigidity_kind bE = Some kE ->
  rigidity_kind bN = Some kN -> rigidity_kind bS = Some kS ->
  wp BC_Rigidity
     (fun r s' =>
        r = Ok tt /\
        rigidity_inv ny nx d0 (padded_instance s t d0 kW kE kN kS) kW kE kN kS
          true true true true s') s.
Proof.
  intros Hny Hnx HTe HD Hd0 HW HE HN HS KW KE KN KS.
  unfold BC_Rigidity.
  apply wp_bind. eapply select_rigidity_BC_ok; [exact HW | exact KW|]. cbn [cont].
  apply wp_bind. eapply select_rigidity_BC_ok; [lookup; reflexivity | exact KE|]. cbn [cont].
  apply wp_bind. eapply select_rigidity_BC_ok; [lookup; reflexivity | exact KN|]. cbn [cont].
  apply wp_bind. eapply select_rigidity_BC_ok; [lookup; reflexivity | exact KS|]. cbn [cont].
  apply wp_bind. eapply wp_eval; [ev|]. cbn [cont np_isscalar].
  apply wp_bind. apply wp_bind. unfold assign at 1. apply wp_bind.
  eapply wp_eval; [ev|]. cbn [cont]. apply wp_setattr. cbn [cont].
  apply wp_bind. unfold assign at 1. apply wp_bind.
  eapply wp_eval; [ev|]. cbn [cont]. apply wp_setattr. cbn [cont].
  unfold assign at 1. apply wp_bind.
  eapply wp_eval; [ev|]. cbn [cont]. apply wp_setattr. cbn [cont].
  fold (padded_instance s t d0 kW kE kN kS).
  assert (H0 : rigidity_inv ny nx d0 (padded_instance s t d0 kW kE kN kS)
                 kW kE kN kS false false false false
                 (padded_instance s t d0 kW kE kN kS)).
  { split; [reflexivity|].
    exists (vstack_nan (hstack_nan d0)).
    split; [reflexivity|].
    split; [apply pad_shaped; [exact Hd0 | lia]|].
    split; [intros i j Hi Hj; now apply (get_pad ny nx)|].
    do 4 (split; [intros H; discriminate H|]).
    intros _. repeat split; intros H; discriminate H. }
  do 12 (rigidity_step ny nx d0 (padded_instance s t d0 kW kE kN kS)).
  split; [reflexivity|].
  rewrite (kind_flags bW kW KW), (kind_flags bE kE KE),
    (kind_flags bN kN KN), (kind_flags bS kS KS) in *.
  assumption.
Qed.

(** [BC_Rigidity] on an array-valued elastic thickness, for a grid of at
    least two rows and two columns and four labels that it knows: it runs
    to completion; [D] is padded by one ghost cell on every side and its
    interior is the [D] of before; the ghost cells beside the interior
    hold, by boundary type, the linear extrapolation [2 near - next] (0
    curvature), the second interior line (mirror symmetry) or, for
    periodic, the last interior line on the West and North and the last
    but one on the East and South; [Te] is padded with NaN and kept as
    [Te_unpadded]; the four boundary types are recorded; nothing else is
    written. *)
Theorem BC_Rigidity_pads_the_rigidity ny nx s t d0 bW bE bN bS kW kE kN kS :
  (2 <= ny)%nat -> (2 <= nx)%nat ->
  self s "Te" = Some (VArr t) ->
  self s "D" = Some (VArr d0) -> shaped ny nx d0 ->
  self s "BC_W" = Some (VStr bW) -> self s "BC_E" = Some (VStr bE) ->
  self s "BC_N" = Some (VStr bN) -> self s "BC_S" = Some (VStr bS) ->
  rigidity_kind bW = Some kW -> rigidity_kind bE = Some kE ->
  rigidity_kind bN = Some kN -> rigidity_kind bS = Some kS ->
  exists s' d,
    BC_Rigidity s = (Ok tt, s') /\
    self s' "D" = Some (VArr d) /\
    shaped (S (S ny)) (S (S nx)) d /\
    (forall i j, (i < ny)%nat -> (j < nx)%nat -> get d (S i) (S j) = get d0 i j) /\
    (forall i, (i < ny)%nat ->
       get d (S i) 0 = ghost_low kW (get d0 i 0) (get d0 i 1) (get d0 i (nx - 1)) /\
       get d (S i) (S nx) = ghost_high kE (get d0 i (nx - 1)) (get d0 i (nx - 2))) /\
    (forall j, (j < nx)%nat ->
       get d 0 (S j) = ghost_low kN (get d0 0 j) (get d0 1 j) (get d0 (ny - 1) j) /\
       get d (S ny) (S j) = ghost_high kS (get d0 (ny - 1) j) (get d0 (ny - 2) j)) /\
    self s' "Te_unpadded" = Some (VArr t) /\
    self s' "Te" = Some (VArr (vstack_nan (hstack_nan t))) /\
    self s' "BC_Rigidity_W" = Some (VStr kW) /\
    self s' "BC_Rigidity_E" = Some (VStr kE) /\
    self s' "BC_Rigidity_N" = Some (VStr kN) /\
    self s' "BC_Rigidity_S" = Some (VStr kS) /\
    (forall k, ~ In k ["D"; "Te"; "Te_unpadded"; "BC_Rigidity_W"; "BC_Rigidity_E";
                       "BC_Rigidity_N"; "BC_Rigidity_S"] ->
       self s' k = self s k).
Proof.
  intros Hny Hnx HTe HD Hd0 HW HE HN HS KW KE KN KS.
  pose proof (BC_Rigidity_array ny nx s t d0 bW bE bN bS kW kE kN kS
                Hny Hnx HTe HD Hd0 HW HE HN HS KW KE KN KS) as H.
  apply wp_run in H as (r & s' & Hrun & -> & Hfr & d & HD' & Hsd & Hint
                        & HgW & HgE & HgN & HgS & _).
  exists s', d. split; [exact Hrun|]. split; [exact HD'|]. split; [exact Hsd|].
  split; [exact Hint|].
  split; [intros i Hi; split; [now apply HgW | now apply HgE]|].
  split; [intros j Hj; split; [now apply HgN | now apply HgS]|].
  do 6 (split; [rewrite Hfr by discriminate; reflexivity|]).
  intros k Hk.
  rewrite Hfr by (intros ->; apply Hk; cbn [In]; tauto). unfold padded_instance.
  rewrite !with_attr_other by (intros ->; apply Hk; cbn [In]; tauto). reflexivity.
Qed.

Lemma BC_Rigidity_pads_the_rigidity_witness :
  exists s' d,
    BC_Rigidity (snd (elasprep (plate Te_ramp 1 1 "Periodic" "Mirror" "Dirichlet0"
                                  "0Slope0Shear" "vWC1994")))
    = (Ok tt, s') /\
    self s' "D" = Some (VArr d) /\
    shaped 5 5 d /\
    (forall i j, (i < 3)%nat -> (j < 3)%nat ->
       get d (S i) (S j) = get (grid [[1; 8; 27]; [64; 125; 216]; [343; 512; 729]]) i j) /\
    (forall i, (i < 3)%nat ->
       get d (S i) 0
       = ghost_low "periodic"
           (get (grid [[1; 8; 27]; [64; 125; 216]; [343; 512; 729]]) i 0)
           (get (grid [[1; 8; 27]; [64; 125; 216]; [343; 512; 729]]) i 1)
           (get (grid [[1; 8; 27]; [64; 125; 216]; [343; 512; 729]]) i (3 - 1)) /\
       get d (S i) 4
       = ghost_high "mirror symmetry"
           (get (grid [[1; 8; 27]; [64; 125; 216]; [343; 512; 729]]) i (3 - 1))
           (get (grid [[1; 8; 27]; [64; 125; 216]; [343; 512; 729]]) i (3 - 2))) /\
    (forall j, (j < 3)%nat ->
       get d 0 (S j)
       = ghost_low "0 curvature"
           (get (grid [[1; 8; 27]; [64; 125; 216]; [343; 512; 729]]) 0 j)
           (get (grid [[1; 8; 27]; [64; 125; 216]; [343; 512; 729]]) 1 j)
           (get (grid [[1; 8; 27]; [64; 125; 216]; [343; 512; 729]]) (3 - 1) j) /\
       get d 4 (S j)
       = ghost_high "0 curvature"
           (get (grid [[1; 8; 27]; [64; 125; 216]; [343; 512; 729]]) (3 - 1) j)
           (get (grid [[1; 8; 27]; [64; 125; 216]; [343; 512; 729]]) (3 - 2) j)) /\
    self s' "Te_unpadded" = Some Te_ramp /\
    self s' "Te"
    = Some (VArr (vstack_nan (hstack_nan (grid [[1; 2; 3]; [4; 5; 6]; [7; 8; 9]])))) /\
    self s' "BC_Rigidity_W" = Some (VStr "periodic") /\
    self s' "BC_Rigidity_E" = Some (VStr "mirror symmetry") /\
    self s' "BC_Rigidity_N" = Some (VStr "0 curvature") /\
    self s' "BC_Rigidity_S" = Some (VStr "0 curvature") /\
    (forall k, ~ In k ["D"; "Te"; "Te_unpadded"; "BC_Rigidity_W"; "BC_Rigidity_E";
                       "BC_Rigidity_N"; "BC_Rigidity_S"] ->
       self s' k
       = self (snd (elasprep (plate Te_ramp 1 1 "Periodic" "Mirror" "Dirichlet0"
                                "0Slope0Shear" "vWC1994"))) k).
Proof.
  apply (BC_Rigidity_pads_the_rigidity 3 3 _
           (grid [[1; 2; 3]; [4; 5; 6]; [7; 8; 9]])
           (grid [[1; 8; 27]; [64; 125; 216]; [343; 512; 729]])
           "Periodic" "Mirror" "Dirichlet0" "0Slope0Shear").
  - lia.
  - lia.
  - reflexivity.
  - vm_compute. repeat first [apply Qc_is_canon; reflexivity | progress f_equal].
  - split; [reflexivity | repeat constructor].
  - reflexivity.
  - reflexivity.
  - reflexivity.
  - reflexivity.
  - reflexivity.
  - reflexivity.
  - reflexivity.
  - reflexivity.
Defined.

(** No NaN is left behind: when every rigidity of the grid is a finite
    number, so is every cell of the padded [D] that [BC_Rigidity] leaves,
    the four corners included, whatever the four (known) labels. *)
Theorem BC_Rigidity_leaves_no_NaN ny nx s t d0 bW bE bN bS kW kE kN kS :
  (2 <= ny)%nat -> (2 <= nx)%nat ->
  self s "Te" = Some (VArr t) ->
  self s "D" = Some (VArr d0) -> shaped ny nx d0 ->
  self s "BC_W" = Some (VStr bW) -> self s "BC_E" = Some (VStr bE) ->
  self s "BC_N" = Some (VStr bN) -> self s "BC_S" = Some (VStr bS) ->
  rigidity_kind bW = Some kW -> rigidity_kind bE = Some kE ->
  rigidity_kind bN = Some kN -> rigidity_kind bS = Some kS ->
  all_fin ny nx d0 ->
  exists s' d,
    BC_Rigidity s = (Ok tt, s') /\
    self s' "D" = Some (VArr d) /\
    all_fin (S (S ny)) (S (S nx)) d.
Proof.
  intros Hny Hnx HTe HD Hd0 HW HE HN HS KW KE KN KS Hfin.
  pose proof (BC_Rigidity_array ny nx s t d0 bW bE bN bS kW kE kN kS
                Hny Hnx HTe HD Hd0 HW HE HN HS KW KE KN KS) as H.
  apply wp_run in H as (r & s' & Hrun & -> & Hfr & d & HD' & Hsd & Hint
                        & HgW & HgE & HgN & HgS & Hcor).
  destruct (Hcor Hfin) as (C1 & C2 & C3 & C4).
  exists s', d. split; [exact Hrun|]. split; [exact HD'|].
  intros r c Hr Hc.
  destruct r as [|r], c as [|c].
  - now apply C1.
  - destruct (Nat.eq_dec c nx) as [->|Hne]; [now apply C2|].
    rewrite (HgN eq_refl c) by lia. apply ghost_low_fin; apply Hfin; lia.
  - destruct (Nat.eq_dec r ny) as [->|Hne]; [now apply C3|].
    rewrite (HgW eq_refl r) by lia. apply ghost_low_fin; apply Hfin; lia.
  - destruct (Nat.eq_dec r ny) as [->|Hr'], (Nat.eq_dec c nx) as [->|Hc'].
    + now apply C4.
    + rewrite (HgS eq_refl c) by lia. apply ghost_high_fin; apply Hfin; lia.
    + rewrite (HgE eq_refl r) by lia. apply ghost_high_fin; apply Hfin; lia.
    + rewrite Hint by lia. apply Hfin; lia.
Qed.

Lemma BC_Rigidity_leaves_no_NaN_witness :
  exists s' d,
    BC_Rigidity (snd (elasprep (plate Te_ramp 1 1 "Mirror" "Dirichlet0" "Periodic"
                                  "0Moment0Shear" "vWC1994")))
    = (Ok tt, s') /\
    self s' "D" = Some (VArr d) /\
    all_fin 5 5 d.
Proof.
  apply (BC_Rigidity_leaves_no_NaN 3 3 _
           (grid [[1; 2; 3]; [4; 5; 6]; [7; 8; 9]])
           (grid [[1; 8; 27]; [64; 125; 216]; [343; 512; 729]])
           "Mirror" "Dirichlet0" "Periodic" "0Moment0Shear"
           "mirror symmetry" "0 curvature" "periodic" "0 curvature").
  - lia.
  - lia.
  - reflexivity.
  - vm_compute. repeat first [apply Qc_is_canon; reflexivity | progress f_equal].
  - split; [reflexivity | repeat constructor].
  - reflexivity.
  - reflexivity.
  - reflexivity.
  - reflexivity.
  - reflexivity.
  - reflexivity.
  - reflexivity.
  - reflexivity.
  - intros i j Hi Hj.
    destruct i as [|[|[|i]]]; [| | |lia];
      (destruct j as [|[|[|j]]]; [| | |lia]); reflexivity.
Defined.

(** [BC_Rigidity] stops on the first label it does not know: when one of
    the four boundary conditions is none of Periodic, Dirichlet0,
    0Moment0Shear, 0Slope0Shear and Mirror, the program exits with the
    message of the rigidity selection, before anything is padded: only the
    rigidity types of the edges tested before (West, East, North) can have
    been written. *)
Theorem BC_Rigidity_rejects_an_unknown_label s bW bE bN bS :
  self s "BC_W" = Some (VStr bW) -> self s "BC_E" = Some (VStr bE) ->
  self s "BC_N" = Some (VStr bN) -> self s "BC_S" = Some (VStr bS) ->
  rigidity_kind bW = None \/ rigidity_kind bE = None \/
  rigidity_kind bN = None \/ rigidity_kind bS = None ->
  exists s',
    BC_Rigidity s = (Exit "Invalid Te B.C. case", s') /\
    (forall k, ~ In k ["BC_Rigidity_W"; "BC_Rigidity_E"; "BC_Rigidity_N"] ->
       self s' k = self s k).
Proof.
  intros HW HE HN HS Hbad.
  eapply wp_run_exit with (P := fun s' =>
    forall k, ~ In k ["BC_Rigidity_W"; "BC_Rigidity_E"; "BC_Rigidity_N"] ->
      self s' k = self s k); [|auto].
  assert (Hfr : forall (l : list string) name v s',
            In name l ->
            (forall k, ~ In k l -> self s' k = self s k) ->
            forall k, ~ In k l -> self (with_attr name v s') k = self s k).
  { intros l name v s' Hin H k Hk.
    rewrite with_attr_other by (intros ->; now apply Hk). now apply H. }
  unfold BC_Rigidity.
  destruct (rigidity_kind bW) as [kW|] eqn:KW.
  2:{ apply wp_bind. eapply select_rigidity_BC_invalid; [exact HW | exact KW|].
      cbn [cont]. split; [reflexivity | reflexivity]. }
  apply wp_bind. eapply select_rigidity_BC_ok; [exact HW | exact KW|]. cbn [cont].
  destruct (rigidity_kind bE) as [kE|] eqn:KE.
  2:{ apply wp_bind.
      eapply select_rigidity_BC_invalid; [lookup; reflexivity | exact KE|].
      cbn [cont]. split; [reflexivity|].
      apply Hfr; [cbn [In]; tauto | reflexivity]. }
  apply wp_bind. eapply select_rigidity_BC_ok; [lookup; reflexivity | exact KE|].
  cbn [cont].
  destruct (rigidity_kind bN) as [kN|] eqn:KN.
  2:{ apply wp_bind.
      eapply select_rigidity_BC_invalid; [lookup; reflexivity | exact KN|].
      cbn [cont]. split; [reflexivity|].
      apply Hfr; [cbn [In]; tauto|]. apply Hfr; [cbn [In]; tauto | reflexivity]. }
  apply wp_bind. eapply select_rigidity_BC_ok; [lookup; reflexivity | exact KN|].
  cbn [cont].
  destruct (rigidity_kind bS) as [kS|] eqn:KS.
  { destruct Hbad as [H | [H | [H | H]]]; discriminate H. }
  apply wp_bind.
  eapply select_rigidity_BC_invalid; [lookup; reflexivity | exact KS|].
  cbn [cont]. split; [reflexivity|].
  do 3 (apply Hfr; [cbn [In]; tauto|]). reflexivity.
Qed.

Lemma BC_Rigidity_rejects_an_unknown_label_witness :
  exists s',
    BC_Rigidity (snd (elasprep (plate Te_ramp 1 1 "Mirror" "Mirror" "NoOutsideLoads"
                                  "NoOutsideLoads" "vWC1994")))
    = (Exit "Invalid Te B.C. case", s') /\
    (forall k, ~ In k ["BC_Rigidity_W"; "BC_Rigidity_E"; "BC_Rigidity_N"] ->
       self s' k
       = self (snd (elasprep (plate Te_ramp 1 1 "Mirror" "Mirror" "NoOutsideLoads"
                                "NoOutsideLoads" "vWC1994"))) k).
Proof.
  apply (BC_Rigidity_rejects_an_unknown_label _
           "Mirror" "Mirror" "NoOutsideLoads" "NoOutsideLoads").
  - reflexivity.
  - reflexivity.
  - reflexivity.
  - reflexivity.
  - right. right. left. reflexivity.
Defined.

(** ** A scalar elastic thickness *)

Lemma curvature_of_equal c : vsub (vmul (num 2) (Fin c)) (Fin c) = Fin c.
Proof.
  unfold vsub, vmul, num. cbn [vneg vadd]. f_equal.
  replace (qz 2) with (1 + 1)%Qc by (apply Qc_is_canon; reflexivity). ring.
Qed.

Lemma get_full ny nx v i j :
  (i < ny)%nat -> (j < nx)%nat -> get (full ny nx v) i j = v.
Proof. intros Hi Hj. unfold full. now rewrite get_tabulate. Qed.

Lemma amap_full f ny nx v : amap f (full ny nx v) = full ny nx (f v).
Proof.
  unfold amap, full, tabulate. rewrite map_map. apply map_ext. intros i.
  now rewrite map_map.
Qed.

Lemma set_col_uniform ny nx v j f :
  (0 < ny)%nat -> (forall i, (i < ny)%nat -> f i = v) ->
  set_col (full ny nx v) j f = full ny nx v.
Proof.
  intros Hny Hf. unfold set_col.
  rewrite (shaped_nrows ny nx), (shaped_ncols ny nx) by (apply full_shaped || exact Hny).
  unfold full at 2. apply tabulate_ext. intros i c Hi Hc.
  destruct (Nat.eqb c j); [now apply Hf | now apply get_full].
Qed.

Lemma set_row_uniform ny nx v i f :
  (0 < ny)%nat -> (forall c, (c < nx)%nat -> f c = v) ->
  set_row (full ny nx v) i f = full ny nx v.
Proof.
  intros Hny Hf. unfold set_row.
  rewrite (shaped_nrows ny nx), (shaped_ncols ny nx) by (apply full_shaped || exact Hny).
  unfold full at 2. apply tabulate_ext. intros r c Hr Hc.
  destruct (Nat.eqb r i); [now apply Hf | now apply get_full].
Qed.

Section UniformRigidity.

Variables ny nx : nat.
Variable c : Qc.
Variable s1 : State.
Hypothesis Hny : (3 <= ny)%nat.
Hypothesis Hnx : (3 <= nx)%nat.

Lemma uniform_col_step name kX k j j' e Q s :
  self s1 name = Some (VStr kX) -> name <> "D" ->
  pyidx nx j = Some j' ->
  (forall s, self s "D" = Some (VArr (full ny nx (Fin c))) ->
     exists f, e s = Ok (VVec (line ny f)) /\ forall r, (r < ny)%nat -> f r = Fin c) ->
  uniform_inv ny nx c s1 s ->
  (forall s', uniform_inv ny nx c s1 s' -> Q (Ok tt) s') ->
  wp (whenM (is_ name k) (set_col_to "D" j e)) Q s.
Proof.
  intros Hname Hne Hj He Hinv HQ. unfold whenM. eapply wp_if_is.
  { rewrite (proj1 Hinv name Hne). exact Hname. }
  cbn [str_eq]. destruct (String.eqb kX k); [|apply wp_ret; now apply HQ].
  destruct Hinv as (Hfr & HD). destruct (He s HD) as (f & Hf & Hc).
  eapply (set_col_to_line ny nx "D" _ j j');
    [exact HD | apply full_shaped | lia | exact Hj | exact Hf |].
  apply HQ. split; [now apply frame_with_D|].
  cbn [self with_attr]. unfold insert. cbn. do 2 f_equal.
  apply set_col_uniform; [lia|]. intros i Hi. rewrite nth_line by exact Hi. now apply Hc.
Qed.

Lemma uniform_row_step name kX k i i' e Q s :
  self s1 name = Some (VStr kX) -> name <> "D" ->
  pyidx ny i = Some i' ->
  (forall s, self s "D" = Some (VArr (full ny nx (Fin c))) ->
     exists f, e s = Ok (VVec (line nx f)) /\ forall r, (r < nx)%nat -> f r = Fin c) ->
  uniform_inv ny nx c s1 s ->
  (forall s', uniform_inv ny nx c s1 s' -> Q (Ok tt) s') ->
  wp (whenM (is_ name k) (set_row_to "D" i e)) Q s.
Proof.
  intros Hname Hne Hi He Hinv HQ. unfold whenM. eapply wp_if_is.
  { rewrite (proj1 Hinv name Hne). exact Hname. }
  cbn [str_eq]. destruct (String.eqb kX k); [|apply wp_ret; now apply HQ].
  destruct Hinv as (Hfr & HD). destruct (He s HD) as (f & Hf & Hc).
  eapply (set_row_to_line ny nx "D" _ i i');
    [exact HD | apply full_shaped | lia | exact Hi | exact Hf |].
  apply HQ. split; [now apply frame_with_D|].
  cbn [self with_attr]. unfold insert. cbn. do 2 f_equal.
  apply set_row_uniform; [lia|]. intros r Hr. rewrite nth_line by exact Hr. now apply Hc.
Qed.

End UniformRigidity.

Ltac uniform_index :=
  first [ apply pyidx_0 | apply pyidx_1 | apply pyidx_2
        | apply pyidx_m1 | apply pyidx_m2 | apply pyidx_m3 ]; lia.

Ltac uniform_line HD ny nx :=
  first [ eapply (col_line ny nx) | eapply (row_expr_line ny nx) ];
  lazymatch goal with
  | |- self _ _ = _ => exact HD
  | |- shaped _ _ _ => apply full_shaped
  | |- pyidx _ _ = _ => uniform_index
  | |- (_ < _)%nat => lia
  end.

Ltac uniform_expr ny nx :=
  let s := fresh "s" in
  let HD := fresh "HD" in
  intros s HD; eexists; split;
  [ first [ eapply ev_minus; [eapply ev_scaled; uniform_line HD ny nx | uniform_line HD ny nx]
          | uniform_line HD ny nx ]
  | intros; cbv beta; rewrite ?get_full by lia;
    first [reflexivity | apply curvature_of_equal] ].

Ltac uniform_step ny nx c s1 :=
  lazymatch goal with
  | |- wp (bind _ _) _ _ => apply wp_bind
  | |- _ => idtac
  end;
  first [ eapply (uniform_col_step ny nx c s1) | eapply (uniform_row_step ny nx c s1) ];
  lazymatch goal with
  | |- (_ <= _)%nat => assumption
  | |- self _ _ = _ => reflexivity
  | |- _ <> _ => discriminate
  | |- pyidx _ _ = _ => uniform_index
  | |- uniform_inv _ _ _ _ _ => eassumption
  | |- forall s' : State, uniform_inv _ _ _ _ s' -> _ =>
      let s' := fresh "s'" in
      let Hs' := fresh "Hs'" in
      intros s' Hs'; cbn [cont]
  | |- forall s : State, _ => uniform_expr ny nx
  end.

(** [BC_Rigidity] on a scalar elastic thickness: it runs to completion
    and leaves the uniform rigidity. *)
Lemma BC_Rigidity_scalar ny nx s te c q0 bW bE bN bS kW kE kN kS :
  (3 <= ny)%nat -> (3 <= nx)%nat ->
  self s "Te" = Some (VNum te) ->
  self s "D" = Some (VNum (Fin c)) ->
  self s "q0" = Some (VArr q0) -> shaped ny nx q0 ->
  self s "BC_W" = Some (VStr bW) -> self s "BC_E" = Some (VStr bE) ->
  self s "BC_N" = Some (VStr bN) -> self s "BC_S" = Some (VStr bS) ->
  rigidity_kind bW = Some kW -> rigidity_kind bE = Some kE ->
  rigidity_kind bN = Some kN -> rigidity_kind bS = Some kS ->
  wp BC_Rigidity
     (fun r s' => r = Ok tt /\
        uniform_inv ny nx c (uniform_instance s ny nx c kW kE kN kS) s') s.
Proof.
  intros Hny Hnx HTe HD Hq Hsq HW HE HN HS KW KE KN KS.
  unfold BC_Rigidity.
  apply wp_bind. eapply select_rigidity_BC_ok; [exact HW | exact KW|]. cbn [cont].
  apply wp_bind. eapply select_rigidity_BC_ok; [lookup; reflexivity | exact KE|].
  cbn [cont].
  apply wp_bind. eapply select_rigidity_BC_ok; [lookup; reflexivity | exact KN|].
  cbn [cont].
  apply wp_bind. eapply select_rigidity_BC_ok; [lookup; reflexivity | exact KS|].
  cbn [cont].
  apply wp_bind. eapply wp_eval; [ev|]. cbn [cont np_isscalar].
  apply wp_bind. unfold assign at 1. apply wp_bind.
  eapply wp_eval; [ev|]. cbn [cont shape_of py_arith]. apply wp_setattr. cbn [cont].
  rewrite (shaped_nrows ny nx q0 Hsq), (shaped_ncols ny nx q0 Hsq) by lia.
  rewrite amap_full.
  replace (vmul (Fin c) (num 1)) with (Fin c)
    by (unfold vmul, num; f_equal;
        replace (qz 1) with 1%Qc by (apply Qc_is_canon; reflexivity); ring).
  fold (uniform_instance s ny nx c kW kE kN kS).
  assert (H0 : uniform_inv ny nx c (uniform_instance s ny nx c kW kE kN kS)
                 (uniform_instance s ny nx c kW kE kN kS))
    by (split; reflexivity).
  do 12 (uniform_step ny nx c (uniform_instance s ny nx c kW kE kN kS)).
  split; [reflexivity | assumption].
Qed.

(** With a scalar elastic thickness [BC_Rigidity] pads nothing: on a
    grid of at least three rows and three columns and for four labels it
    knows, it broadcasts the scalar rigidity over the grid of the loads,
    and the boundary statements, which now act on the outermost cells of
    the grid itself, leave that grid uniform.  [Te] stays the scalar; only
    [D] and the four rigidity boundary types are written. *)
Theorem BC_Rigidity_scalar_Te_gives_a_uniform_rigidity
  ny nx s te c q0 bW bE bN bS kW kE kN kS :
  (3 <= ny)%nat -> (3 <= nx)%nat ->
  self s "Te" = Some (VNum te) ->
  self s "D" = Some (VNum (Fin c)) ->
  self s "q0" = Some (VArr q0) -> shaped ny nx q0 ->
  self s "BC_W" = Some (VStr bW) -> self s "BC_E" = Some (VStr bE) ->
  self s "BC_N" = Some (VStr bN) -> self s "BC_S" = Some (VStr bS) ->
  rigidity_kind bW = Some kW -> rigidity_kind bE = Some kE ->
  rigidity_kind bN = Some kN -> rigidity_kind bS = Some kS ->
  exists s',
    BC_Rigidity s = (Ok tt, s') /\
    self s' "D" = Some (VArr (full ny nx (Fin c))) /\
    self s' "BC_Rigidity_W" = Some (VStr kW) /\
    self s' "BC_Rigidity_E" = Some (VStr kE) /\
    self s' "BC_Rigidity_N" = Some (VStr kN) /\
    self s' "BC_Rigidity_S" = Some (VStr kS) /\
    (forall k, ~ In k ["D"; "BC_Rigidity_W"; "BC_Rigidity_E"; "BC_Rigidity_N";
                       "BC_Rigidity_S"] ->
       self s' k = self s k).
Proof.
  intros Hny Hnx HTe HD Hq Hsq HW HE HN HS KW KE KN KS.
  pose proof (BC_Rigidity_scalar ny nx s te c q0 bW bE bN bS kW kE kN kS
                Hny Hnx HTe HD Hq Hsq HW HE HN HS KW KE KN KS) as H.
  apply wp_run in H as (r & s' & Hrun & -> & Hfr & HD').
  exists s'. split; [exact Hrun|]. split; [exact HD'|].
  do 4 (split; [rewrite Hfr by discriminate; reflexivity|]).
  intros k Hk.
  rewrite Hfr by (intros ->; apply Hk; cbn [In]; tauto). unfold uniform_instance.
  rewrite !with_attr_other by (intros ->; apply Hk; cbn [In]; tauto). reflexivity.
Qed.

Lemma BC_Rigidity_scalar_Te_gives_a_uniform_rigidity_witness :
  exists s',
    BC_Rigidity (snd (elasprep (plate (VNum (num 2)) 1 1 "Mirror" "Periodic" "Dirichlet0"
                                  "0Slope0Shear" "vWC1994")))
    = (Ok tt, s') /\
    self s' "D" = Some (VArr (full 3 3 (Fin (qz 8)))) /\
    self s' "BC_Rigidity_W" = Some (VStr "mirror symmetry") /\
    self s' "BC_Rigidity_E" = Some (VStr "periodic") /\
    self s' "BC_Rigidity_N" = Some (VStr "0 curvature") /\
    self s' "BC_Rigidity_S" = Some (VStr "0 curvature") /\
    (forall k, ~ In k ["D"; "BC_Rigidity_W"; "BC_Rigidity_E"; "BC_Rigidity_N";
                       "BC_Rigidity_S"] ->
       self s' k
       = self (snd (elasprep (plate (VNum (num 2)) 1 1 "Mirror" "Periodic" "Dirichlet0"
                                "0Slope0Shear" "vWC1994"))) k).
Proof.
  apply (BC_Rigidity_scalar_Te_gives_a_uniform_rigidity 3 3 _ (num 2) (qz 8)
           (grid [[0; 0; 0]; [0; 1; 0]; [0; 0; 0]])
           "Mirror" "Periodic" "Dirichlet0" "0Slope0Shear").
  - lia.
  - lia.
  - reflexivity.
  - vm_compute. repeat first [apply Qc_is_canon; reflexivity | progress f_equal].
  - reflexivity.
  - split; [reflexivity | repeat constructor].
  - reflexivity.
  - reflexivity.
  - reflexivity.
  - reflexivity.
  - reflexivity.
  - reflexivity.
  - reflexivity.
  - reflexivity.
Defined.

(** ** The coefficient values of an array-valued elastic thickness *)

Lemma shaped_shapedb ny nx a : shaped ny nx a -> shapedb ny nx a = true.
Proof.
  intros [Hl Hr]. unfold shapedb. apply andb_true_iff. split; [now apply Nat.eqb_eq|].
  apply forallb_forall. intros r Hin. apply Nat.eqb_eq.
  now apply (proj1 (Forall_forall _ _) Hr).
Qed.

(** One assignment of an array-valued expression. *)
Ltac assign_arr :=
  lazymatch goal with
  | |- wp (bind _ _) _ _ => apply wp_bind
  | |- _ => idtac
  end;
  unfold assign at 1; apply wp_bind;
  eapply wp_eval_arr;
  [ kind_of
  | let a := fresh "c" in
    let Ha := fresh "Hc" in
    intros a Ha; cbn [cont]; apply wp_setattr; cbn [cont] ].

(** The instance at the end of [get_coeff_values]. *)
Ltac coefficients_done ny nx Hny :=
  repeat match goal with
         | H : shaped ny nx ?a |- context [nrows ?a] =>
             rewrite (shaped_nrows ny nx a H)
         | H : shaped ny nx ?a |- context [ncols ?a] =>
             rewrite (shaped_ncols ny nx a H Hny)
         end;
  split; [reflexivity|];
  split;
  [ unfold coefficients_ready, raw_names, coeff_array_list, coeff_ij;
    cbn [app map append forallb]; lookup;
    rewrite !shaped_shapedb by assumption; reflexivity |];
  split;
  [ let c := fresh "c" in
    let Hin := fresh "Hin" in
    intros c Hin; unfold coeff_array_list in Hin; cbn [In] in Hin;
    repeat (destruct Hin as [<- | Hin]; [reflexivity|]); contradiction |];
  split; [reflexivity|];
  split; [reflexivity|];
  let k := fresh "k" in
  let Hk := fresh "Hk" in
  intros k Hk;
  rewrite !with_attr_other
    by (intros ->; apply Hk;
        unfold raw_names, coeff_array_list, coeff_ij; cbn [app map append In]; tauto);
  reflexivity.

(** [get_coeff_values] on a padded rigidity, with one of the two plate
    solution types that build a stencil. *)
Lemma get_coeff_values_array ny nx s d t p vdrho vdx4 vdy4 vdx2dy2 vnu vg :
  (0 < ny)%nat ->
  self s "D" = Some (VArr d) -> shaped (S (S ny)) (S (S nx)) d ->
  self s "drho" = Some (VNum vdrho) -> self s "dx4" = Some (VNum vdx4) ->
  self s "dy4" = Some (VNum vdy4) -> self s "dx2dy2" = Some (VNum vdx2dy2) ->
  self s "nu" = Some (VNum vnu) -> self s "g" = Some (VNum vg) ->
  self s "Te" = Some (VArr t) ->
  self s "PlateSolutionType" = Some (VStr p) ->
  p = "vWC1994" \/ p = "G2009" ->
  wp get_coeff_values
     (fun r s' =>
        r = Ok tt /\
        coefficients_ready ny nx s' = true /\
        (forall c, In c coeff_array_list -> self s' c = self s' (coeff_ij c)) /\
        self s' "ncolsx" = Some (VInt (Z.of_nat nx)) /\
        self s' "nrowsy" = Some (VInt (Z.of_nat ny)) /\
        (forall k, ~ In k (coeff_array_list ++ raw_names ++ ["ncolsx"; "nrowsy"]) ->
           self s' k = self s k)) s.
Proof.
  intros Hny HD Hd Hdrho Hdx4 Hdy4 Hdx2dy2 Hnu Hg HTe HP Hp.
  unfold get_coeff_values. wp_steps. cbn [np_isscalar is_ndarray].
  unfold variable_stencil.
  do 9 (eval_arr kind_slice).
  do 5 (eval_arr kind_of).
  apply wp_bind. apply wp_bind.
  destruct Hp as [-> | ->].
  - wp_steps. cbn [str_eq String.eqb Ascii.eqb Bool.eqb andb].
    unfold stencil_vWC1994.
    do 13 assign_arr.
    cbn [for_each coeff_ij append]. wp_steps.
    coefficients_done ny nx Hny.
  - wp_steps. cbn [str_eq String.eqb Ascii.eqb Bool.eqb andb]. wp_steps.
    cbn [str_eq String.eqb Ascii.eqb Bool.eqb andb]. wp_steps.
    cbn [str_eq String.eqb Ascii.eqb Bool.eqb andb].
    unfold stencil_G2009.
    do 13 assign_arr.
    cbn [for_each coeff_ij append]. wp_steps.
    coefficients_done ny nx Hny.
Qed.

Lemma kind_np_ones ny nx n k q s :
  self s k = Some (VArr q) -> shaped ny nx q -> (0 < ny)%nat ->
  has_kind ny nx n KArr (np_ones (attr k)) s.
Proof.
  intros Hk Hq Hny. exists (full ny nx (num 1)). split; [|apply full_shaped].
  unfold np_ones, np_full. eapply ev_ebind; [apply attr_ok; exact Hk|].
  cbn [shape_of]. now rewrite (shaped_nrows ny nx q Hq), (shaped_ncols ny nx q Hq Hny).
Qed.

(** One statement [self.c *= np.ones(self.q0.shape)]. *)
Ltac assign_ones Hny :=
  repeat lazymatch goal with
         | |- wp (bind _ _) _ _ => apply wp_bind
         end;
  unfold assign at 1; apply wp_bind;
  eapply wp_eval_arr;
  [ eapply kind_mul;
    [ kind_of
    | eapply kind_np_ones; [lookup; reflexivity | eassumption | exact Hny]
    | reflexivity ]
  | let a := fresh "c" in
    let Ha := fresh "Hc" in
    intros a Ha; cbn [cont]; apply wp_setattr; cbn [cont] ].

(** [get_coeff_values] on the rigidity that [BC_Rigidity] leaves for a
    scalar elastic thickness. *)
Lemma get_coeff_values_scalar ny nx s d te q vdrho vdx4 vdy4 vdx2dy2 vnu vg :
  (0 < ny)%nat ->
  self s "D" = Some (VArr d) -> shaped ny nx d ->
  self s "q0" = Some (VArr q) -> shaped ny nx q ->
  self s "drho" = Some (VNum vdrho) -> self s "dx4" = Some (VNum vdx4) ->
  self s "dy4" = Some (VNum vdy4) -> self s "dx2dy2" = Some (VNum vdx2dy2) ->
  self s "nu" = Some vnu -> self s "g" = Some (VNum vg) ->
  self s "Te" = Some (VNum te) ->
  wp get_coeff_values
     (fun r s' =>
        r = Ok tt /\
        coefficients_ready ny nx s' = true /\
        (forall c, In c coeff_array_list -> self s' c = self s' (coeff_ij c)) /\
        self s' "ncolsx" = Some (VInt (Z.of_nat nx)) /\
        self s' "nrowsy" = Some (VInt (Z.of_nat ny)) /\
        (forall k, ~ In k (coeff_array_list ++ raw_names ++ ["ncolsx"; "nrowsy"]) ->
           self s' k = self s k)) s.
Proof.
  intros Hny HD Hd Hq0 Hq Hdrho Hdx4 Hdy4 Hdx2dy2 Hnu Hg HTe.
  unfold get_coeff_values. wp_steps. cbn [np_isscalar].
  apply wp_bind. unfold uniform_stencil.
  do 13 assign_arr.
  cbn [for_each coeff_ij append].
  do 13 (assign_ones Hny).
  wp_steps.
  coefficients_done ny nx Hny.
Qed.

(** [get_coeff_values] on the padded rigidity of an array-valued elastic
    thickness, with plate solution type vWC1994 or G2009 and float
    parameters: it runs to completion; the thirteen coefficient arrays
    and their thirteen raw copies [cj..._coeff_ij] are arrays of the
    shape of the unpadded grid, each working array equal to its raw copy;
    [ncolsx] and [nrowsy] hold the numbers of columns and rows; nothing
    else is written. *)
Theorem get_coeff_values_builds_the_coefficient_arrays
  ny nx s d t p vdrho vdx4 vdy4 vdx2dy2 vnu vg :
  (0 < ny)%nat ->
  self s "D" = Some (VArr d) -> shaped (S (S ny)) (S (S nx)) d ->
  self s "drho" = Some (VNum vdrho) -> self s "dx4" = Some (VNum vdx4) ->
  self s "dy4" = Some (VNum vdy4) -> self s "dx2dy2" = Some (VNum vdx2dy2) ->
  self s "nu" = Some (VNum vnu) -> self s "g" = Some (VNum vg) ->
  self s "Te" = Some (VArr t) ->
  self s "PlateSolutionType" = Some (VStr p) ->
  p = "vWC1994" \/ p = "G2009" ->
  exists s',
    get_coeff_values s = (Ok tt, s') /\
    (forall c, In c (coeff_array_list ++ raw_names) ->
       exists a, self s' c = Some (VArr a) /\ shaped ny nx a) /\
    (forall c, In c coeff_array_list -> self s' c = self s' (coeff_ij c)) /\
    self s' "ncolsx" = Some (VInt (Z.of_nat nx)) /\
    self s' "nrowsy" = Some (VInt (Z.of_nat ny)) /\
    (forall k, ~ In k (coeff_array_list ++ raw_names ++ ["ncolsx"; "nrowsy"]) ->
       self s' k = self s k).
Proof.
  intros Hny HD Hd Hdrho Hdx4 Hdy4 Hdx2dy2 Hnu Hg HTe HP Hp.
  pose proof (get_coeff_values_array ny nx s d t p vdrho vdx4 vdy4 vdx2dy2 vnu vg
                Hny HD Hd Hdrho Hdx4 Hdy4 Hdx2dy2 Hnu Hg HTe HP Hp) as H.
  apply wp_run in H as (r & s' & Hrun & -> & Hready & Hcopy & Hcols & Hrows & Hfr).
  exists s'. split; [exact Hrun|].
  split; [|now repeat split].
  intros c Hc. now apply (ready_array ny nx s' c Hready).
Qed.

Lemma get_coeff_values_builds_the_coefficient_arrays_witness :
  exists s',
    get_coeff_values
      (after_rigidity (plate Te_ramp 1 2 "Mirror" "Dirichlet0" "0Slope0Shear"
                         "0Moment0Shear" "G2009"))
    = (Ok tt, s') /\
    (forall c, In c (coeff_array_list ++ raw_names) ->
       exists a, self s' c = Some (VArr a) /\ shaped 3 3 a) /\
    (forall c, In c coeff_array_list -> self s' c = self s' (coeff_ij c)) /\
    self s' "ncolsx" = Some (VInt (Z.of_nat 3)) /\
    self s' "nrowsy" = Some (VInt (Z.of_nat 3)) /\
    (forall k, ~ In k (coeff_array_list ++ raw_names ++ ["ncolsx"; "nrowsy"]) ->
       self s' k
       = self (after_rigidity (plate Te_ramp 1 2 "Mirror" "Dirichlet0" "0Slope0Shear"
                                 "0Moment0Shear" "G2009")) k).
Proof.
  eapply (get_coeff_values_builds_the_coefficient_arrays 3 3 _ _ _ "G2009").
  - lia.
  - vm_compute. reflexivity.
  - split; [reflexivity | repeat constructor].
  - vm_compute. reflexivity.
  - vm_compute. reflexivity.
  - vm_compute. reflexivity.
  - vm_compute. reflexivity.
  - vm_compute. reflexivity.
  - vm_compute. reflexivity.
  - vm_compute. reflexivity.
  - vm_compute. reflexivity.
  - right. reflexivity.
Defined.

(** With an array-valued elastic thickness a plate solution type other
    than vWC1994, LinearTeVariationsOnly and G2009 is fatal: once the
    neighbours and derivatives of [D] are computed, [get_coeff_values]
    exits with the list of the acceptable types, and the instance is as
    it was: no coefficient array has been written. *)
Theorem get_coeff_values_rejects_an_unknown_solution_type
  s ny nx d t p vdrho vdx4 vdy4 vdx2dy2 vnu vg :
  self s "D" = Some (VArr d) -> shaped (S (S ny)) (S (S nx)) d ->
  self s "drho" = Some vdrho -> self s "dx4" = Some vdx4 -> self s "dy4" = Some vdy4 ->
  self s "dx2dy2" = Some vdx2dy2 -> self s "nu" = Some vnu -> self s "g" = Some vg ->
  self s "Te" = Some (VArr t) ->
  self s "PlateSolutionType" = Some (VStr p) ->
  p <> "vWC1994" -> p <> "LinearTeVariationsOnly" -> p <> "G2009" ->
  get_coeff_values s
  = (Exit "Not an acceptable plate solution type. Please choose from:
* vWC1994
* LinearTeVariationsOnly
* G2009
", s).
Proof.
  intros HD Hd Hdrho Hdx4 Hdy4 Hdx2dy2 Hnu Hg HTe HP N1 N2 N3.
  assert (H : wp get_coeff_values
                (fun r s' => r = Exit "Not an acceptable plate solution type. Please choose from:
* vWC1994
* LinearTeVariationsOnly
* G2009
" /\ s' = s) s).
  { unfold get_coeff_values. wp_steps. cbn [np_isscalar is_ndarray].
    unfold variable_stencil.
    do 9 (eval_arr kind_slice).
    do 5 (eval_arr kind_of).
    wp_steps. rewrite (str_eq_neq p "vWC1994" N1). wp_steps.
    rewrite (str_eq_neq p "LinearTeVariationsOnly" N2). wp_steps.
    rewrite (str_eq_neq p "G2009" N3). wp_steps. now split. }
  destruct (wp_run _ _ _ H) as (r & s' & Hrun & -> & ->). exact Hrun.
Qed.

Lemma get_coeff_values_rejects_an_unknown_solution_type_witness :
  get_coeff_values
    (after_rigidity (plate Te_ramp 1 1 "Dirichlet0" "Dirichlet0" "Dirichlet0"
                       "Dirichlet0" "vWC94"))
  = (Exit "Not an acceptable plate solution type. Please choose from:
* vWC1994
* LinearTeVariationsOnly
* G2009
",
     after_rigidity (plate Te_ramp 1 1 "Dirichlet0" "Dirichlet0" "Dirichlet0"
                       "Dirichlet0" "vWC94")).
Proof.
  eapply (get_coeff_values_rejects_an_unknown_solution_type _ 3 3 _ _ "vWC94").
  - vm_compute. reflexivity.
  - split; [reflexivity | repeat constructor].
  - vm_compute. reflexivity.
  - vm_compute. reflexivity.
  - vm_compute. reflexivity.
  - vm_compute. reflexivity.
  - vm_compute. reflexivity.
  - vm_compute. reflexivity.
  - vm_compute. reflexivity.
  - vm_compute. reflexivity.
  - discriminate.
  - discriminate.
  - discriminate.
Defined.

(** An elastic thickness that is neither a scalar nor an array (None,
    for one) selects no stencil: [get_coeff_values] has no branch for it
    and goes on to read the shape of [cj0i0]; on an instance without that
    array it ends in an AttributeError, with nothing written. *)
Theorem get_coeff_values_needs_a_scalar_or_an_array
  s te vD vdrho vdx4 vdy4 vdx2dy2 vnu vg :
  self s "D" = Some vD ->
  self s "drho" = Some vdrho -> self s "dx4" = Some vdx4 -> self s "dy4" = Some vdy4 ->
  self s "dx2dy2" = Some vdx2dy2 -> self s "nu" = Some vnu -> self s "g" = Some vg ->
  self s "Te" = Some te ->
  np_isscalar te = false -> is_ndarray te = false ->
  self s "cj0i0" = None ->
  get_coeff_values s = (Raise "AttributeError", s).
Proof.
  intros HD Hdrho Hdx4 Hdy4 Hdx2dy2 Hnu Hg HTe Hsc Harr Hnone.
  assert (H : wp get_coeff_values
                (fun r s' => r = Raise "AttributeError" /\ s' = s) s).
  { unfold get_coeff_values. wp_steps. rewrite Hsc, Harr.
    apply wp_ret. cbn [cont].
    apply wp_bind. eapply wp_eval; [apply attr_missing; exact Hnone|].
    cbn [cont]. now split. }
  destruct (wp_run _ _ _ H) as (r & s' & Hrun & -> & ->). exact Hrun.
Qed.

Lemma get_coeff_values_needs_a_scalar_or_an_array_witness :
  get_coeff_values
    (with_attr "Te" VNone
       (after_rigidity (plate Te_ramp 1 1 "Dirichlet0" "Dirichlet0" "Dirichlet0"
                          "Dirichlet0" "vWC1994")))
  = (Raise "AttributeError",
     with_attr "Te" VNone
       (after_rigidity (plate Te_ramp 1 1 "Dirichlet0" "Dirichlet0" "Dirichlet0"
                          "Dirichlet0" "vWC1994"))).
Proof.
  eapply get_coeff_values_needs_a_scalar_or_an_array.
  - vm_compute. reflexivity.
  - vm_compute. reflexivity.
  - vm_compute. reflexivity.
  - vm_compute. reflexivity.
  - vm_compute. reflexivity.
  - vm_compute. reflexivity.
  - vm_compute. reflexivity.
  - vm_compute. reflexivity.
  - reflexivity.
  - reflexivity.
  - vm_compute. reflexivity.
Defined.

(* ================================================================== *)
(** * The stages of the operator construction, one after the other *)

Lemma padded_instance_other s t d0 kW kE kN kS k :
  ~ In k ["D"; "Te"; "Te_unpadded"; "BC_Rigidity_W"; "BC_Rigidity_E";
          "BC_Rigidity_N"; "BC_Rigidity_S"] ->
  self (padded_instance s t d0 kW kE kN kS) k = self s k.
Proof.
  intros Hk. unfold padded_instance.
  rewrite !with_attr_other by (intros ->; apply Hk; cbn [In]; tauto). reflexivity.
Qed.

Lemma uniform_instance_other s ny nx c kW kE kN kS k :
  ~ In k ["D"; "BC_Rigidity_W"; "BC_Rigidity_E"; "BC_Rigidity_N"; "BC_Rigidity_S"] ->
  self (uniform_instance s ny nx c kW kE kN kS) k = self s k.
Proof.
  intros Hk. unfold uniform_instance.
  rewrite !with_attr_other by (intros ->; apply Hk; cbn [In]; tauto). reflexivity.
Qed.

Lemma local_rigidity_kind b : local_BC b -> exists k, rigidity_kind b = Some k.
Proof. intros [-> | [-> | [-> | ->]]]; eexists; reflexivity. Qed.

(** The announcement of the boundary conditions changes no attribute. *)
Lemma print_BCs_spec s v bW bE bN bS (Q : Res unit -> State -> Prop) :
  self s "Verbose" = Some v ->
  self s "BC_W" = Some bW -> self s "BC_E" = Some bE ->
  self s "BC_N" = Some bN -> self s "BC_S" = Some bS ->
  (forall s', self s' = self s -> Q (Ok tt) s') ->
  wp (whenM (flag "Verbose")
        (print_BC "Boundary condition, West:" "BC_W" ;;
         print_BC "Boundary condition, East:" "BC_E" ;;
         print_BC "Boundary condition, North:" "BC_N" ;;
         print_BC "Boundary condition, South:" "BC_S")) Q s.
Proof.
  intros HV HW HE HN HS HQ. wp_steps.
  destruct (truthy v).
  - unfold print_BC. wp_steps. apply HQ. reflexivity.
  - wp_steps. apply HQ. reflexivity.
Qed.

(** The boundary conditions and the assembly, on coefficient arrays that
    are in place. *)
Lemma assembly_ok ny nx s bW bE bN bS :
  (4 <= nx)%nat -> (2 <= ny)%nat ->
  coefficients_ready ny nx s = true ->
  self s "nrowsy" = Some (VInt (Z.of_nat ny)) ->
  self s "ncolsx" = Some (VInt (Z.of_nat nx)) ->
  self s "BC_W" = Some (VStr bW) -> self s "BC_E" = Some (VStr bE) ->
  self s "BC_N" = Some (VStr bN) -> self s "BC_S" = Some (VStr bS) ->
  local_BC bW -> local_BC bE -> local_BC bN -> local_BC bS ->
  wp (BC_Flexure ;; build_diags)
     (fun r s' =>
        r = Ok tt /\
        exists A, self s' "coeff_matrix" = Some (VMat A) /\
                  dia_m A = (ny * nx)%nat /\ dia_n A = (ny * nx)%nat /\
                  dia_offsets A = offsets13 (Z.of_nat nx)) s.
Proof.
  intros Hnx Hny Hready Hrows Hcols HW HE HN HS LW LE LN LS.
  pose proof (coefficients_ready_ok ny nx s Hready) as Hok.
  assert (Hnx2 : (2 <= nx)%nat) by lia.
  apply wp_bind.
  apply (BC_Flexure_keeps ny nx s bW bE bN bS Hny Hnx2 HW HE HN HS LW LE LN LS s);
    [exact Hok|].
  intros s1 Hok1. cbn [cont].
  pose proof Hok1 as (Hw & _ & Hfr).
  destruct (Hw "cj_2i0" eq_refl) as (a_2 & ? & H_2 & S_2 & _ & _).
  destruct (Hw "cj_1i0" eq_refl) as (a_1 & ? & H_1 & S_1 & _ & _).
  destruct (Hw "cj1i0" eq_refl) as (a1 & ? & H1 & S1 & _ & _).
  destruct (Hw "cj2i0" eq_refl) as (a2 & ? & H2 & S2 & _ & _).
  destruct (Hw "cj0i_2" eq_refl) as (b_2 & ? & G_2 & T_2 & _ & _).
  destruct (Hw "cj0i_1" eq_refl) as (b_1 & ? & G_1 & T_1 & _ & _).
  destruct (Hw "cj0i1" eq_refl) as (b1 & ? & G1 & T1 & _ & _).
  destruct (Hw "cj0i2" eq_refl) as (b2 & ? & G2 & T2 & _ & _).
  destruct (Hw "cj_1i_1" eq_refl) as (c_1_1 & ? & K_1_1 & U_1_1 & _ & _).
  destruct (Hw "cj_1i1" eq_refl) as (c_11 & ? & K_11 & U_11 & _ & _).
  destruct (Hw "cj1i_1" eq_refl) as (c1_1 & ? & K1_1 & U1_1 & _ & _).
  destruct (Hw "cj1i1" eq_refl) as (c11 & ? & K11 & U11 & _ & _).
  destruct (Hw "cj0i0" eq_refl) as (c00 & ? & K00 & U00 & _ & _).
  assert (Hny0 : (0 < ny)%nat) by lia.
  pose proof (Hfr "nrowsy" eq_refl) as Hrows1. rewrite Hrows in Hrows1.
  pose proof (Hfr "ncolsx" eq_refl) as Hcols1. rewrite Hcols in Hcols1.
  pose proof (Hfr "BC_W" eq_refl) as HW1. rewrite HW in HW1.
  pose proof (Hfr "BC_N" eq_refl) as HN1. rewrite HN in HN1.
  apply (build_diags_spec ny nx s1 a_2 a_1 a1 a2 b_2 b_1 b1 b2
           c_1_1 c_11 c1_1 c11 c00 bW bN Hny0 Hnx
           H_2 H_1 H1 H2 G_2 G_1 G1 G2 K_1_1 K_11 K1_1 K11 K00
           S_2 S_1 S1 S2 T_2 T_1 T1 T2 U_1_1 U_11 U1_1 U11 U00
           Hrows1 Hcols1 HW1 HN1
           (local_not_Periodic bW LW) (local_not_Periodic bN LN)).
  intros s2 HA. split; [reflexivity|].
  eexists. split; [exact HA|]. repeat split.
Qed.

Ltac not_written :=
  let H := fresh "H" in
  intros H; cbn [In app map] in H;
  repeat (destruct H as [H | H]; [discriminate H|]); exact H.

(** The four stages on an array-valued elastic thickness. *)
Lemma operator_from_array ny nx s v t d0 p bW bE bN bS vdrho vdx4 vdy4 vdx2dy2 vnu vg :
  (2 <= ny)%nat -> (4 <= nx)%nat ->
  self s "Verbose" = Some v ->
  self s "Te" = Some (VArr t) ->
  self s "D" = Some (VArr d0) -> shaped ny nx d0 ->
  self s "drho" = Some (VNum vdrho) -> self s "dx4" = Some (VNum vdx4) ->
  self s "dy4" = Some (VNum vdy4) -> self s "dx2dy2" = Some (VNum vdx2dy2) ->
  self s "nu" = Some (VNum vnu) -> self s "g" = Some (VNum vg) ->
  self s "PlateSolutionType" = Some (VStr p) -> p = "vWC1994" \/ p = "G2009" ->
  self s "BC_W" = Some (VStr bW) -> self s "BC_E" = Some (VStr bE) ->
  self s "BC_N" = Some (VStr bN) -> self s "BC_S" = Some (VStr bS) ->
  local_BC bW -> local_BC bE -> local_BC bN -> local_BC bS ->
  wp BC_selector_and_coeff_matrix_creator
     (fun r s' =>
        r = Ok tt /\
        exists A, self s' "coeff_matrix" = Some (VMat A) /\
                  dia_m A = (ny * nx)%nat /\ dia_n A = (ny * nx)%nat /\
                  dia_offsets A = offsets13 (Z.of_nat nx)) s.
Proof.
  intros Hny Hnx HV HTe HD Hd0 Hdrho Hdx4 Hdy4 Hdx2dy2 Hnu Hg HP Hp
         HW HE HN HS LW LE LN LS.
  destruct (local_rigidity_kind bW LW) as (kW & KW).
  destruct (local_rigidity_kind bE LE) as (kE & KE).
  destruct (local_rigidity_kind bN LN) as (kN & KN).
  destruct (local_rigidity_kind bS LS) as (kS & KS).
  unfold BC_selector_and_coeff_matrix_creator.
  apply wp_bind.
  eapply print_BCs_spec; [exact HV | exact HW | exact HE | exact HN | exact HS|].
  intros s0 E0. cbn [cont].
  apply wp_bind. eapply wp_conseq.
  { apply (BC_Rigidity_array ny nx s0 t d0 bW bE bN bS kW kE kN kS);
      try rewrite E0; assumption || lia. }
  intros r s1 (-> & Hfr1 & d & HD1 & Hsd & _). cbn [cont].
  assert (F1 : forall k,
             ~ In k ["D"; "Te"; "Te_unpadded"; "BC_Rigidity_W"; "BC_Rigidity_E";
                     "BC_Rigidity_N"; "BC_Rigidity_S"] ->
             self s1 k = self s k).
  { intros k Hk. rewrite Hfr1 by (intros ->; apply Hk; cbn [In]; tauto).
    rewrite padded_instance_other by exact Hk. now rewrite E0. }
  apply wp_bind. eapply wp_conseq.
  { apply (get_coeff_values_array ny nx s1 d (vstack_nan (hstack_nan t)) p
             vdrho vdx4 vdy4 vdx2dy2 vnu vg);
      [ lia | exact HD1 | exact Hsd
      | rewrite F1 by not_written; exact Hdrho
      | rewrite F1 by not_written; exact Hdx4
      | rewrite F1 by not_written; exact Hdy4
      | rewrite F1 by not_written; exact Hdx2dy2
      | rewrite F1 by not_written; exact Hnu
      | rewrite F1 by not_written; exact Hg
      | rewrite Hfr1 by discriminate; reflexivity
      | rewrite F1 by not_written; exact HP
      | exact Hp ]. }
  intros r s2 (-> & Hready & _ & Hcols & Hrows & Hfr2). cbn [cont].
  assert (F2 : forall k,
             ~ In k (coeff_array_list ++ raw_names ++ ["ncolsx"; "nrowsy"]) ->
             ~ In k ["D"; "Te"; "Te_unpadded"; "BC_Rigidity_W"; "BC_Rigidity_E";
                     "BC_Rigidity_N"; "BC_Rigidity_S"] ->
             self s2 k = self s k).
  { intros k H1 H2. rewrite Hfr2 by exact H1. now apply F1. }
  apply (assembly_ok ny nx s2 bW bE bN bS); try assumption;
    rewrite F2 by not_written; assumption.
Qed.

(** The four stages on a scalar elastic thickness. *)
Lemma operator_from_scalar ny nx s v te c q0 bW bE bN bS vdrho vdx4 vdy4 vdx2dy2 vnu vg :
  (3 <= ny)%nat -> (4 <= nx)%nat ->
  self s "Verbose" = Some v ->
  self s "Te" = Some (VNum te) ->
  self s "D" = Some (VNum (Fin c)) ->
  self s "q0" = Some (VArr q0) -> shaped ny nx q0 ->
  self s "drho" = Some (VNum vdrho) -> self s "dx4" = Some (VNum vdx4) ->
  self s "dy4" = Some (VNum vdy4) -> self s "dx2dy2" = Some (VNum vdx2dy2) ->
  self s "nu" = Some vnu -> self s "g" = Some (VNum vg) ->
  self s "BC_W" = Some (VStr bW) -> self s "BC_E" = Some (VStr bE) ->
  self s "BC_N" = Some (VStr bN) -> self s "BC_S" = Some (VStr bS) ->
  local_BC bW -> local_BC bE -> local_BC bN -> local_BC bS ->
  wp BC_selector_and_coeff_matrix_creator
     (fun r s' =>
        r = Ok tt /\
        exists A, self s' "coeff_matrix" = Some (VMat A) /\
                  dia_m A = (ny * nx)%nat /\ dia_n A = (ny * nx)%nat /\
                  dia_offsets A = offsets13 (Z.of_nat nx)) s.
Proof.
  intros Hny Hnx HV HTe HD Hq0 Hq Hdrho Hdx4 Hdy4 Hdx2dy2 Hnu Hg
         HW HE HN HS LW LE LN LS.
  destruct (local_rigidity_kind bW LW) as (kW & KW).
  destruct (local_rigidity_kind bE LE) as (kE & KE).
  destruct (local_rigidity_kind bN LN) as (kN & KN).
  destruct (local_rigidity_kind bS LS) as (kS & KS).
  unfold BC_selector_and_coeff_matrix_creator.
  apply wp_bind.
  eapply print_BCs_spec; [exact HV | exact HW | exact HE | exact HN | exact HS|].
  intros s0 E0. cbn [cont].
  apply wp_bind. eapply wp_conseq.
  { apply (BC_Rigidity_scalar ny nx s0 te c q0 bW bE bN bS kW kE kN kS);
      try rewrite E0; assumption || lia. }
  intros r s1 (-> & Hfr1 & HD1). cbn [cont].
  assert (F1 : forall k,
             ~ In k ["D"; "BC_Rigidity_W"; "BC_Rigidity_E"; "BC_Rigidity_N";
                     "BC_Rigidity_S"] ->
             self s1 k = self s k).
  { intros k Hk. rewrite Hfr1 by (intros ->; apply Hk; cbn [In]; tauto).
    rewrite uniform_instance_other by exact Hk. now rewrite E0. }
  apply wp_bind. eapply wp_conseq.
  { apply (get_coeff_values_scalar ny nx s1 (full ny nx (Fin c)) te q0
             vdrho vdx4 vdy4 vdx2dy2 vnu vg);
      [ lia | exact HD1 | apply full_shaped
      | rewrite F1 by not_written; exact Hq0
      | exact Hq
      | rewrite F1 by not_written; exact Hdrho
      | rewrite F1 by not_written; exact Hdx4
      | rewrite F1 by not_written; exact Hdy4
      | rewrite F1 by not_written; exact Hdx2dy2
      | rewrite F1 by not_written; exact Hnu
      | rewrite F1 by not_written; exact Hg
      | rewrite F1 by not_written; exact HTe ]. }
  intros r s2 (-> & Hready & _ & Hcols & Hrows & Hfr2). cbn [cont].
  assert (F2 : forall k,
             ~ In k (coeff_array_list ++ raw_names ++ ["ncolsx"; "nrowsy"]) ->
             ~ In k ["D"; "BC_Rigidity_W"; "BC_Rigidity_E"; "BC_Rigidity_N";
                     "BC_Rigidity_S"] ->
             self s2 k = self s k).
  { intros k H1 H2. rewrite Hfr2 by exact H1. now apply F1. }
  apply (assembly_ok ny nx s2 bW bE bN bS); try assumption; try lia;
    rewrite F2 by not_written; assumption.
Qed.

(** The operator of a plate with an array-valued elastic thickness.  On
    a grid of at least two rows and four columns, with a rigidity of the
    shape of the grid, float parameters, plate solution type vWC1994 or
    G2009 and four boundary conditions among Dirichlet0, 0Moment0Shear,
    0Slope0Shear and Mirror, the four stages fit together:
    [BC_selector_and_coeff_matrix_creator] runs to completion, with no
    exit and no exception, and leaves in [coeff_matrix] a square sparse
    matrix of order [ny * nx] whose nonzero entries lie on the thirteen
    diagonals of the stencil. *)
Theorem operator_is_built_for_an_array_Te
  ny nx s v t d0 p bW bE bN bS vdrho vdx4 vdy4 vdx2dy2 vnu vg :
  (2 <= ny)%nat -> (4 <= nx)%nat ->
  self s "Verbose" = Some v ->
  self s "Te" = Some (VArr t) ->
  self s "D" = Some (VArr d0) -> shaped ny nx d0 ->
  self s "drho" = Some (VNum vdrho) -> self s "dx4" = Some (VNum vdx4) ->
  self s "dy4" = Some (VNum vdy4) -> self s "dx2dy2" = Some (VNum vdx2dy2) ->
  self s "nu" = Some (VNum vnu) -> self s "g" = Some (VNum vg) ->
  self s "PlateSolutionType" = Some (VStr p) -> p = "vWC1994" \/ p = "G2009" ->
  self s "BC_W" = Some (VStr bW) -> self s "BC_E" = Some (VStr bE) ->
  self s "BC_N" = Some (VStr bN) -> self s "BC_S" = Some (VStr bS) ->
  local_BC bW -> local_BC bE -> local_BC bN -> local_BC bS ->
  exists s' A,
    BC_selector_and_coeff_matrix_creator s = (Ok tt, s') /\
    self s' "coeff_matrix" = Some (VMat A) /\
    dia_m A = (ny * nx)%nat /\ dia_n A = (ny * nx)%nat /\
    (forall r k, entry A r k <> vzero ->
       In (Z.of_nat k - Z.of_nat r) (offsets13 (Z.of_nat nx))).
Proof.
  intros Hny Hnx HV HTe HD Hd0 Hdrho Hdx4 Hdy4 Hdx2dy2 Hnu Hg HP Hp
         HW HE HN HS LW LE LN LS.
  pose proof (operator_from_array ny nx s v t d0 p bW bE bN bS
                vdrho vdx4 vdy4 vdx2dy2 vnu vg
                Hny Hnx HV HTe HD Hd0 Hdrho Hdx4 Hdy4 Hdx2dy2 Hnu Hg HP Hp
                HW HE HN HS LW LE LN LS) as H.
  apply wp_run in H as (r & s' & Hrun & -> & A & HA & Hm & Hn & Hoff).
  exists s', A. split; [exact Hrun|]. split; [exact HA|].
  split; [exact Hm|]. split; [exact Hn|].
  intros r k Hne. rewrite <- Hoff. now apply entry_nonzero_on_diagonal.
Qed.

Lemma operator_is_built_for_an_array_Te_witness :
  exists s' A,
    BC_selector_and_coeff_matrix_creator
      (snd (elasprep (plate5 "Dirichlet0" "0Moment0Shear" "Mirror" "0Slope0Shear")))
    = (Ok tt, s') /\
    self s' "coeff_matrix" = Some (VMat A) /\
    dia_m A = (5 * 5)%nat /\ dia_n A = (5 * 5)%nat /\
    (forall r k, entry A r k <> vzero ->
       In (Z.of_nat k - Z.of_nat r) (offsets13 (Z.of_nat 5))).
Proof.
  eapply (operator_is_built_for_an_array_Te 5 5 _ _ _ _ "vWC1994"
            "Dirichlet0" "0Moment0Shear" "Mirror" "0Slope0Shear").
  - lia.
  - lia.
  - reflexivity.
  - reflexivity.
  - vm_compute. reflexivity.
  - split; [reflexivity | repeat constructor].
  - reflexivity.
  - vm_compute. reflexivity.
  - vm_compute. reflexivity.
  - vm_compute. reflexivity.
  - reflexivity.
  - reflexivity.
  - reflexivity.
  - left. reflexivity.
  - reflexivity.
  - reflexivity.
  - reflexivity.
  - reflexivity.
  - left. reflexivity.
  - right. left. reflexivity.
  - right. right. right. reflexivity.
  - right. right. left. reflexivity.
Defined.

(** The operator of a plate with a scalar elastic thickness.  On a grid
    of at least three rows and four columns, with a finite scalar
    rigidity and four boundary conditions among Dirichlet0,
    0Moment0Shear, 0Slope0Shear and Mirror,
    [BC_selector_and_coeff_matrix_creator] runs to completion and leaves
    a square sparse matrix of order [ny * nx] on the thirteen diagonals;
    the plate solution type is not consulted (it need not even be set),
    and Poisson's ratio may hold any value. *)
Theorem operator_is_built_for_a_scalar_Te
  ny nx s v te c q0 bW bE bN bS vdrho vdx4 vdy4 vdx2dy2 vnu vg :
  (3 <= ny)%nat -> (4 <= nx)%nat ->
  self s "Verbose" = Some v ->
  self s "Te" = Some (VNum te) ->
  self s "D" = Some (VNum (Fin c)) ->
  self s "q0" = Some (VArr q0) -> shaped ny nx q0 ->
  self s "drho" = Some (VNum vdrho) -> self s "dx4" = Some (VNum vdx4) ->
  self s "dy4" = Some (VNum vdy4) -> self s "dx2dy2" = Some (VNum vdx2dy2) ->
  self s "nu" = Some vnu -> self s "g" = Some (VNum vg) ->
  self s "BC_W" = Some (VStr bW) -> self s "BC_E" = Some (VStr bE) ->
  self s "BC_N" = Some (VStr bN) -> self s "BC_S" = Some (VStr bS) ->
  local_BC bW -> local_BC bE -> local_BC bN -> local_BC bS ->
  exists s' A,
    BC_selector_and_coeff_matrix_creator s = (Ok tt, s') /\
    self s' "coeff_matrix" = Some (VMat A) /\
    dia_m A = (ny * nx)%nat /\ dia_n A = (ny * nx)%nat /\
    (forall r k, entry A r k <> vzero ->
       In (Z.of_nat k - Z.of_nat r) (offsets13 (Z.of_nat nx))).
Proof.
  intros Hny Hnx HV HTe HD Hq0 Hq Hdrho Hdx4 Hdy4 Hdx2dy2 Hnu Hg
         HW HE HN HS LW LE LN LS.
  pose proof (operator_from_scalar ny nx s v te c q0 bW bE bN bS
                vdrho vdx4 vdy4 vdx2dy2 vnu vg
                Hny Hnx HV HTe HD Hq0 Hq Hdrho Hdx4 Hdy4 Hdx2dy2 Hnu Hg
                HW HE HN HS LW LE LN LS) as H.
  apply wp_run in H as (r & s' & Hrun & -> & A & HA & Hm & Hn & Hoff).
  exists s', A. split; [exact Hrun|]. split; [exact HA|].
  split; [exact Hm|]. split; [exact Hn|].
  intros r k Hne. rewrite <- Hoff. now apply entry_nonzero_on_diagonal.
Qed.

Lemma operator_is_built_for_a_scalar_Te_witness :
  exists s' A,
    BC_selector_and_coeff_matrix_creator
      (snd (elasprep
              (with_attr "PlateSolutionType" (VStr "unknown")
                 (with_attr "Te" (VNum (num 2))
                    (plate5 "Mirror" "0Slope0Shear" "Dirichlet0" "0Moment0Shear")))))
    = (Ok tt, s') /\
    self s' "coeff_matrix" = Some (VMat A) /\
    dia_m A = (5 * 5)%nat /\ dia_n A = (5 * 5)%nat /\
    (forall r k, entry A r k <> vzero ->
       In (Z.of_nat k - Z.of_nat r) (offsets13 (Z.of_nat 5))).
Proof.
  eapply (operator_is_built_for_a_scalar_Te 5 5 _ _ _ _ _
            "Mirror" "0Slope0Shear" "Dirichlet0" "0Moment0Shear").
  - lia.
  - lia.
  - reflexivity.
  - reflexivity.
  - vm_compute. reflexivity.
  - reflexivity.
  - split; [reflexivity | repeat constructor].
  - reflexivity.
  - vm_compute. reflexivity.
  - vm_compute. reflexivity.
  - vm_compute. reflexivity.
  - reflexivity.
  - reflexivity.
  - reflexivity.
  - reflexivity.
  - reflexivity.
  - reflexivity.
  - right. right. right. reflexivity.
  - right. right. left. reflexivity.
  - left. reflexivity.
  - right. left. reflexivity.
Defined.

(* ================================================================== *)
(** * The finite-difference solve as a whole *)

Lemma BC_Rigidity_preserves_inputs : preserves carried_over BC_Rigidity.
Proof. unfold BC_Rigidity, select_rigidity_BC. pres. Qed.

Lemma get_coeff_values_preserves_inputs : preserves carried_over get_coeff_values.
Proof.
  unfold get_coeff_values, uniform_stencil, variable_stencil, stencil_vWC1994,
    stencil_LinearTeVariationsOnly, stencil_G2009, coeff_ij.
  pres.
Qed.

Lemma BC_Flexure_preserves_inputs : preserves carried_over BC_Flexure.
Proof.
  unfold BC_Flexure.
  apply preserves_bind; [unfold BC_Flexure_W; pres | intros _].
  apply preserves_bind; [unfold BC_Flexure_E; pres | intros _].
  apply preserves_bind; [unfold BC_Flexure_N; pres | intros _].
  apply preserves_bind; [unfold BC_Flexure_S; pres | intros _].
  unfold BC_Flexure_corners. pres.
Qed.

Lemma build_diags_preserves_inputs : preserves carried_over build_diags.
Proof.
  unfold build_diags, periodic_vectors, coeff_array_list. pres.
Qed.

Lemma selector_preserves_inputs :
  preserves carried_over BC_selector_and_coeff_matrix_creator.
Proof.
  unfold BC_selector_and_coeff_matrix_creator.
  apply preserves_bind; [unfold print_BC; pres | intros _].
  apply preserves_bind; [apply BC_Rigidity_preserves_inputs | intros _].
  apply preserves_bind; [apply get_coeff_values_preserves_inputs | intros _].
  apply preserves_bind; [apply BC_Flexure_preserves_inputs | intros _].
  apply build_diags_preserves_inputs.
Qed.

Lemma wp_both {A} (m : M A) (Q1 Q2 : Res A -> State -> Prop) s :
  wp m Q1 s -> wp m Q2 s -> wp m (fun r s' => Q1 r s' /\ Q2 r s') s.
Proof. unfold wp. auto. Qed.

(** [elasprep] on an array-valued elastic thickness. *)
Lemma elasprep_array ny nx s vdx vdy vE vnu t :
  self s "dx" = Some (VNum vdx) -> self s "dy" = Some (VNum vdy) ->
  self s "E" = Some (VNum vE) -> self s "nu" = Some (VNum vnu) ->
  self s "Te" = Some (VArr t) -> shaped ny nx t ->
  wp elasprep
     (fun r s' =>
        r = Ok tt /\
        (exists d x4 y4 x2y2,
           self s' "D" = Some (VArr d) /\ shaped ny nx d /\
           self s' "dx4" = Some (VNum x4) /\ self s' "dy4" = Some (VNum y4) /\
           self s' "dx2dy2" = Some (VNum x2y2)) /\
        (forall k, ~ In k ["dx4"; "dy4"; "dx2dy2"; "D"] -> self s' k = self s k)) s.
Proof.
  intros Hdx Hdy HE Hnu HTe Ht. unfold elasprep. wp_steps.
  split; [reflexivity|]. split.
  - do 4 eexists. split; [reflexivity|].
    split; [repeat apply amap_shaped; exact Ht|].
    repeat split.
  - intros k Hk.
    rewrite !with_attr_other by (intros ->; apply Hk; cbn [In]; tauto). reflexivity.
Qed.

(** [coeff_matrix_creator] on an array-valued elastic thickness. *)
Lemma coeff_matrix_creator_array
  ny nx s v vq t d0 p bW bE bN bS vdrho vdx4 vdy4 vdx2dy2 vnu vg :
  (2 <= ny)%nat -> (4 <= nx)%nat ->
  self s "Verbose" = Some v -> self s "Quiet" = Some vq ->
  self s "Te" = Some (VArr t) ->
  self s "D" = Some (VArr d0) -> shaped ny nx d0 ->
  self s "drho" = Some (VNum vdrho) -> self s "dx4" = Some (VNum vdx4) ->
  self s "dy4" = Some (VNum vdy4) -> self s "dx2dy2" = Some (VNum vdx2dy2) ->
  self s "nu" = Some (VNum vnu) -> self s "g" = Some (VNum vg) ->
  self s "PlateSolutionType" = Some (VStr p) -> p = "vWC1994" \/ p = "G2009" ->
  self s "BC_W" = Some (VStr bW) -> self s "BC_E" = Some (VStr bE) ->
  self s "BC_N" = Some (VStr bN) -> self s "BC_S" = Some (VStr bS) ->
  local_BC bW -> local_BC bE -> local_BC bN -> local_BC bS ->
  wp coeff_matrix_creator
     (fun r s' =>
        r = Ok tt /\
        (exists A, self s' "coeff_matrix" = Some (VMat A) /\
                   dia_m A = (ny * nx)%nat /\ dia_n A = (ny * nx)%nat /\
                   dia_offsets A = offsets13 (Z.of_nat nx)) /\
        (forall k, In k carried_over -> k <> "coeff_start_time" ->
           self s' k = self s k)) s.
Proof.
  intros Hny Hnx HV HQ HTe HD Hd0 Hdrho Hdx4 Hdy4 Hdx2dy2 Hnu Hg HP Hp
         HW HE HN HS LW LE LN LS.
  unfold coeff_matrix_creator. wp_steps.
  match goal with |- wp _ _ ?st => set (s1 := st) end.
  assert (E1 : forall k, k <> "coeff_start_time" -> self s1 k = self s k).
  { intros k Hk. subst s1. now rewrite with_attr_other by exact Hk. }
  eapply wp_conseq.
  { apply wp_both.
    - apply (operator_from_array ny nx s1 v t d0 p bW bE bN bS
               vdrho vdx4 vdy4 vdx2dy2 vnu vg);
        try (rewrite E1 by discriminate); assumption.
    - apply selector_preserves_inputs. }
  intros r s2 ((-> & A & HA & Hm & Hn & Hoff) & Hun). cbn [cont].
  assert (Ht : self s2 "coeff_start_time" = self s1 "coeff_start_time")
    by (apply Hun; unfold carried_over; cbn [In]; tauto).
  assert (Hq2 : self s2 "Quiet" = Some vq).
  { rewrite Hun by (unfold carried_over; cbn [In]; tauto).
    now rewrite E1 by discriminate. }
  subst s1. cbn [self with_attr] in Ht. unfold insert in Ht. cbn in Ht.
  wp_steps.
  destruct (is_False vq); wp_steps.
  - split; [reflexivity|]. split; [exists A; now repeat split|].
    intros k Hk Hne. cbn [self with_line]. rewrite with_attr_other.
    + cbn [self tick]. rewrite Hun by exact Hk. now apply E1.
    + intros ->. unfold carried_over in Hk. cbn [In] in Hk.
      repeat (destruct Hk as [Hk | Hk]; [discriminate Hk|]). exact Hk.
  - split; [reflexivity|]. split; [exists A; now repeat split|].
    intros k Hk Hne. rewrite with_attr_other.
    + cbn [self tick]. rewrite Hun by exact Hk. now apply E1.
    + intros ->. unfold carried_over in Hk. cbn [In] in Hk.
      repeat (destruct Hk as [Hk | Hk]; [discriminate Hk|]). exact Hk.
Qed.

Lemma elasprep_preserves_inputs : preserves carried_over elasprep.
Proof. unfold elasprep. pres. Qed.

Lemma printable_carried s s' :
  (forall k, In k carried_over -> k <> "coeff_start_time" -> self s' k = self s k) ->
  printable s -> printable s'.
Proof.
  intros Hu. unfold printable.
  rewrite !Hu by (unfold carried_over; cbn [In]; tauto || discriminate). auto.
Qed.

Lemma wp_unless_supplied (Q : Res unit -> State -> Prop) s :
  self s "coeff_matrix" = None ->
  wp coeff_matrix_creator Q s ->
  wp (fun s => match self s "coeff_matrix" with
               | Some _ => ret tt s
               | None => coeff_matrix_creator s
               end) Q s.
Proof. unfold wp. now intros ->. Qed.

(** The finite-difference solve of a plate of variable thickness, from
    the inputs to the deflection.  On a grid of at least two rows and
    four columns, with float parameters, an elastic thickness and loads
    of the shape of the grid, plate solution type vWC1994 or G2009, four
    boundary conditions among Dirichlet0, 0Moment0Shear, 0Slope0Shear and
    Mirror, no coefficient matrix supplied, and a library solver that
    returns a vector of [ny * nx] entries for a square system of that
    order, [FD] runs to completion: it builds the operator [A] of order
    [ny * nx], solves [A x = q0] by the solver that the label selects, and
    stores the deflection [w = - x], reshaped to the grid, and its copy
    [w_padded]. *)
Theorem FD_solves_a_plate_of_variable_thickness
  env ny nx s label q t p bW bE bN bS vdx vdy vE vnu vdrho vg :
  (2 <= ny)%nat -> (4 <= nx)%nat ->
  self s "coeff_matrix" = None ->
  self s "dx" = Some (VNum vdx) -> self s "dy" = Some (VNum vdy) ->
  self s "E" = Some (VNum vE) -> self s "nu" = Some (VNum vnu) ->
  self s "drho" = Some (VNum vdrho) -> self s "g" = Some (VNum vg) ->
  self s "Te" = Some (VArr t) -> shaped ny nx t ->
  self s "q0" = Some (VArr q) -> shaped ny nx q ->
  self s "PlateSolutionType" = Some (VStr p) -> p = "vWC1994" \/ p = "G2009" ->
  self s "BC_W" = Some (VStr bW) -> self s "BC_E" = Some (VStr bE) ->
  self s "BC_N" = Some (VStr bN) -> self s "BC_S" = Some (VStr bS) ->
  local_BC bW -> local_BC bE -> local_BC bN -> local_BC bS ->
  printable s ->
  self s "solver" = Some (VStr label) ->
  (forall A, dia_m A = (ny * nx)%nat -> dia_n A = (ny * nx)%nat ->
     exists x, solver_result (scipy env) label A (flatten q) = Ok x /\
               length x = (ny * nx)%nat) ->
  exists s' A x,
    FD env s = (Ok tt, s') /\
    self s' "coeff_matrix" = Some (VMat A) /\
    dia_m A = (ny * nx)%nat /\ dia_n A = (ny * nx)%nat /\
    solver_result (scipy env) label A (flatten q) = Ok x /\
    self s' "w" = Some (VArr (negated x q)) /\
    self s' "w_padded" = Some (VArr (negated x q)).
Proof.
  intros Hny Hnx Hnone Hdx Hdy HE Hnu Hdrho Hg HTe Ht Hq0 Hq HP Hp
         HW HE' HN HS LW LE LN LS Hpr Hlabel Hsolver.
  assert (H : wp (FD env)
                (fun r s' =>
                   r = Ok tt /\
                   exists A x,
                     self s' "coeff_matrix" = Some (VMat A) /\
                     dia_m A = (ny * nx)%nat /\ dia_n A = (ny * nx)%nat /\
                     solver_result (scipy env) label A (flatten q) = Ok x /\
                     self s' "w" = Some (VArr (negated x q)) /\
                     self s' "w_padded" = Some (VArr (negated x q))) s).
  { unfold FD.
    apply wp_bind. eapply wp_conseq.
    { apply wp_both.
      - apply (elasprep_array ny nx s vdx vdy vE vnu t); assumption.
      - apply elasprep_preserves_inputs. }
    intros r s1 ((-> & (d & x4 & y4 & x2y2 & HD1 & Hd & H4x & H4y & H22) & Hfr1) & Hun1).
    cbn [cont].
    pose proof Hpr as [[vd [HDbg _]] [[vv [HV _]] [vq HQ]]].
    apply wp_bind. apply wp_unless_supplied;
      [rewrite Hfr1 by not_written; exact Hnone|].
    eapply wp_conseq.
    { apply (coeff_matrix_creator_array ny nx s1 vv vq t d p bW bE bN bS
               vdrho x4 y4 x2y2 vnu vg);
        try assumption;
        rewrite Hfr1 by not_written; assumption. }
    intros r s2 (-> & (A & HA & Hm & Hn & _) & Hkeep). cbn [cont].
    assert (Hkeep2 : forall k, In k carried_over -> k <> "coeff_start_time" ->
                       self s2 k = self s k).
    { intros k Hk Hne. rewrite Hkeep by assumption. now apply Hun1. }
    destruct (Hsolver A Hm Hn) as (x & Hx & Hl).
    eapply wp_conseq.
    { apply (fd_solve_ok (scipy env) s2 label A q x).
      - now apply (printable_carried s).
      - rewrite Hkeep2 by (unfold carried_over; cbn [In]; tauto || discriminate).
        exact Hlabel.
      - rewrite Hkeep2 by (unfold carried_over; cbn [In]; tauto || discriminate).
        exact Hq0.
      - exact HA.
      - exact Hx.
      - rewrite (shaped_nrows ny nx q Hq), (shaped_ncols ny nx q Hq) by lia.
        exact Hl. }
    intros r s3 (-> & Hw & Hwp & Hfr3). split; [reflexivity|].
    exists A, x. split; [rewrite Hfr3 by discriminate; exact HA|].
    repeat split; assumption. }
  apply wp_run in H as (r & s' & Hrun & -> & A & x & H1 & H2 & H3 & H4 & H5 & H6).
  exists s', A, x. repeat split; assumption.
Qed.

Lemma FD_solves_a_plate_of_variable_thickness_witness :
  exists s' A x,
    FD plain_environment
       (with_attr "solver" (VStr "direct")
          (plate5 "Dirichlet0" "0Moment0Shear" "Mirror" "0Slope0Shear"))
    = (Ok tt, s') /\
    self s' "coeff_matrix" = Some (VMat A) /\
    dia_m A = (5 * 5)%nat /\ dia_n A = (5 * 5)%nat /\
    solver_result (scipy plain_environment) "direct" A
      (flatten (grid [[0; 0; 0; 0; 0]; [0; 0; 0; 0; 0]; [0; 0; 1; 0; 0];
                      [0; 0; 0; 0; 0]; [0; 0; 0; 0; 0]])) = Ok x /\
    self s' "w"
    = Some (VArr (negated x (grid [[0; 0; 0; 0; 0]; [0; 0; 0; 0; 0]; [0; 0; 1; 0; 0];
                                   [0; 0; 0; 0; 0]; [0; 0; 0; 0; 0]]))) /\
    self s' "w_padded"
    = Some (VArr (negated x (grid [[0; 0; 0; 0; 0]; [0; 0; 0; 0; 0]; [0; 0; 1; 0; 0];
                                   [0; 0; 0; 0; 0]; [0; 0; 0; 0; 0]]))).
Proof.
  eapply (FD_solves_a_plate_of_variable_thickness plain_environment 5 5 _ "direct"
            _ _ "vWC1994" "Dirichlet0" "0Moment0Shear" "Mirror" "0Slope0Shear").
  - lia.
  - lia.
  - reflexivity.
  - reflexivity.
  - reflexivity.
  - reflexivity.
  - reflexivity.
  - reflexivity.
  - reflexivity.
  - reflexivity.
  - split; [reflexivity | repeat constructor].
  - reflexivity.
  - split; [reflexivity | repeat constructor].
  - reflexivity.
  - left. reflexivity.
  - reflexivity.
  - reflexivity.
  - reflexivity.
  - reflexivity.
  - left. reflexivity.
  - right. left. reflexivity.
  - right. right. right. reflexivity.
  - right. right. left. reflexivity.
  - split; [exists (VBool false); split; [reflexivity | discriminate]|].
    split; [exists (VBool false); split; [reflexivity | discriminate]|].
    exists (VBool true). reflexivity.
  - reflexivity.
  - intros A _ _. eexists. split; reflexivity.
Defined.

(** A coefficient matrix that is already on the instance is reused:
    [FD] then leaves [coeff_matrix_creator] out altogether and is
    [elasprep] followed by [fd_solve].  Neither the boundary conditions
    nor the plate solution type are looked at, so that labels which would
    stop the construction of the operator do not stop this solve. *)
Theorem FD_reuses_a_supplied_coefficient_matrix env s A :
  self s "coeff_matrix" = Some A ->
  FD env s = (elasprep ;; fd_solve (scipy env)) s.
Proof.
  intros HA. unfold FD.
  pose proof (elasprep_preserves s) as Hp. unfold wp in Hp.
  unfold bind at 1 3. destruct (elasprep s) as [[[]|msg|exc] s1]; try reflexivity.
  cbn [fst snd] in Hp.
  assert (H1 : self s1 "coeff_matrix" = Some A)
    by (rewrite Hp by (unfold guarded; cbn [In]; tauto); exact HA).
  unfold bind. now rewrite H1.
Qed.

Lemma FD_reuses_a_supplied_coefficient_matrix_witness :
  FD plain_environment
     (with_attr "coeff_matrix" (VMat identity4)
        (plate Te_ramp 1 1 "Periodic" "Clamped" "Mirror" "Mirror" "none"))
  = (elasprep ;; fd_solve (scipy plain_environment))
      (with_attr "coeff_matrix" (VMat identity4)
         (plate Te_ramp 1 1 "Periodic" "Clamped" "Mirror" "Mirror" "none")).
Proof.
  apply (FD_reuses_a_supplied_coefficient_matrix plain_environment _ (VMat identity4)).
  reflexivity.
Defined.

(* ================================================================== *)
(** * A Periodic North-South pair *)

Lemma offsets21_distinct ny nx :
  5 <= ny -> 4 <= nx -> distinct (offsets21 ny nx) = true.
Proof.
  intros Hy Hx. unfold offsets21. cbn [distinct existsb].
  repeat match goal with
         | |- context [Z.eqb ?a ?b] =>
             replace (Z.eqb a b) with false by (symmetry; apply Z.eqb_neq; nia)
         end.
  reflexivity.
Qed.

Lemma offsets21_collide ny nx :
  1 <= ny < 5 -> distinct (offsets21 ny nx) = false.
Proof.
  intros H.
  assert (Hc : ny = 1 \/ ny = 2 \/ ny = 3 \/ ny = 4) by lia.
  unfold offsets21. cbn [distinct existsb].
  destruct Hc as [-> | [-> | [-> | ->]]].
  - replace (nx - 1 * nx - 1 =? -1) with true by (symmetry; apply Z.eqb_eq; lia).
    now rewrite ?orb_true_r.
  - replace (nx - 2 * nx =? - nx) with true by (symmetry; apply Z.eqb_eq; lia).
    now rewrite ?orb_true_r, ?andb_false_r.
  - replace (nx - 3 * nx =? -2 * nx) with true by (symmetry; apply Z.eqb_eq; lia).
    now rewrite ?orb_true_r, ?andb_false_r.
  - replace (2 * nx - 4 * nx =? -2 * nx) with true by (symmetry; apply Z.eqb_eq; lia).
    now rewrite ?orb_true_r, ?andb_false_r.
Qed.

(** The boundary conditions with a Periodic North-South pair: the North
    and South sections do nothing. *)
Lemma BC_Flexure_keeps_Periodic_rows ny nx s0 bW bE :
  (2 <= ny)%nat -> (2 <= nx)%nat ->
  self s0 "BC_W" = Some (VStr bW) -> self s0 "BC_E" = Some (VStr bE) ->
  self s0 "BC_N" = Some (VStr "Periodic") -> self s0 "BC_S" = Some (VStr "Periodic") ->
  local_BC bW -> local_BC bE ->
  keeps ny nx s0 BC_Flexure.
Proof.
  intros Hny Hnx HW HE HN HS LW LE. unfold BC_Flexure.
  apply keeps_seq; [now apply (BC_Flexure_W_keeps ny nx s0 bW)|].
  apply keeps_seq; [now apply (BC_Flexure_E_keeps ny nx s0 bE)|].
  apply keeps_seq.
  { intros s Q Hok HQ.
    pose proof (label_kept ny nx s0 _ _ s Hok HN eq_refl) as HsN.
    pose proof (label_kept ny nx s0 _ _ s Hok HS eq_refl) as HsS.
    unfold BC_Flexure_N.
    eapply wp_if_is; [exact HsN|]. cbn [str_eq String.eqb Ascii.eqb Bool.eqb andb].
    eapply wp_if_is; [exact HsS|]. cbn [str_eq String.eqb Ascii.eqb Bool.eqb andb].
    apply wp_ret. now apply HQ. }
  apply keeps_seq.
  { intros s Q Hok HQ.
    pose proof (label_kept ny nx s0 _ _ s Hok HN eq_refl) as HsN.
    pose proof (label_kept ny nx s0 _ _ s Hok HS eq_refl) as HsS.
    unfold BC_Flexure_S.
    eapply wp_if_is; [exact HsS|]. cbn [str_eq String.eqb Ascii.eqb Bool.eqb andb].
    eapply wp_if_is; [exact HsN|]. cbn [str_eq String.eqb Ascii.eqb Bool.eqb andb].
    apply wp_ret. now apply HQ. }
  eapply (BC_Flexure_corners_keeps ny nx s0); eassumption.
Qed.

Lemma wrap_around n i k i' :
  (i < n)%nat -> Z.of_nat i' = (Z.of_nat i + k) mod Z.of_nat n ->
  wrap n (Z.of_nat i' - k) = i.
Proof.
  intros Hi H. unfold wrap. rewrite H.
  rewrite Zminus_mod_idemp_l.
  replace (Z.of_nat i + k - k) with (Z.of_nat i) by lia.
  rewrite Z.mod_small by lia. apply Nat2Z.id.
Qed.

Section WrappedShifts.

Variables ny nx : nat.
Variable a : array.
Variables i j i' j' : nat.
Hypothesis Ha : shaped ny nx a.
Hypothesis Hi : (i < ny)%nat.
Hypothesis Hj : (j < nx)%nat.
Hypothesis Hi' : (i' < ny)%nat.
Hypothesis Hj' : (j' < nx)%nat.

Lemma diagonal_wrapped_rows d dy :
  Z.of_nat i' = (Z.of_nat i + dy) mod Z.of_nat ny -> j' = j ->
  nth (i' * nx + j')%nat (flatten (sweep (roll a dy 0))) d = sweep1 (get a i j).
Proof.
  intros Hdy ->.
  assert (Hs : shaped ny nx (roll a dy 0)) by (apply roll_shaped; [assumption | lia]).
  rewrite (nth_flatten ny nx) by (try apply sweep_shaped; assumption).
  rewrite (get_sweep ny nx), (get_roll_rows ny nx) by assumption.
  now rewrite (wrap_around ny i dy i').
Qed.

Lemma diagonal_wrapped_both d dx dy :
  Z.of_nat i' = (Z.of_nat i + dy) mod Z.of_nat ny -> Z.of_nat j' = Z.of_nat j + dx ->
  nth (i' * nx + j')%nat (flatten (sweep (roll (roll a dx 1) dy 0))) d
  = sweep1 (get a i j).
Proof.
  intros Hdy Hdx.
  assert (Hs : shaped ny nx (roll a dx 1)) by (apply roll_shaped; [assumption | lia]).
  assert (Hs' : shaped ny nx (roll (roll a dx 1) dy 0))
    by (apply roll_shaped; [assumption | lia]).
  rewrite (nth_flatten ny nx) by (try apply sweep_shaped; assumption).
  rewrite (get_sweep ny nx), (get_roll_rows ny nx) by assumption.
  rewrite (wrap_around ny i dy i') by assumption.
  rewrite (get_roll_cols ny nx) by assumption.
  now rewrite (wrap_shift nx j dx j').
Qed.

End WrappedShifts.

(** The row of the neighbour, with wrap-around: as it is, from the
    other end below, or from the other end above. *)
Lemma wrapped_row n i k i' :
  (i < n)%nat -> (i' < n)%nat -> - Z.of_nat n <= k <= Z.of_nat n ->
  Z.of_nat i' = (Z.of_nat i + k) mod Z.of_nat n ->
  Z.of_nat i' = Z.of_nat i + k \/
  Z.of_nat i' = Z.of_nat i + k - Z.of_nat n \/
  Z.of_nat i' = Z.of_nat i + k + Z.of_nat n.
Proof.
  intros Hi Hi' Hk H.
  assert (Hn : 0 < Z.of_nat n) by lia.
  pose proof (Z.div_mod (Z.of_nat i + k) (Z.of_nat n) ltac:(lia)) as Hdm.
  rewrite <- H in Hdm.
  assert (Hq : -1 <= (Z.of_nat i + k) / Z.of_nat n <= 1) by nia.
  assert (Hc : (Z.of_nat i + k) / Z.of_nat n = -1 \/ (Z.of_nat i + k) / Z.of_nat n = 0
               \/ (Z.of_nat i + k) / Z.of_nat n = 1) by lia.
  destruct Hc as [E | [E | E]]; rewrite E in Hdm; lia.
Qed.

(** The entry taken from the [m]-th stacked diagonal, with wrap-around
    along the rows. *)
Ltac wrapped_diagonal m :=
  erewrite (entry_at _ m);
  [ | eassumption | reflexivity | reflexivity | eassumption | eassumption
    | cbn [dia_offsets]; nia ];
  cbn [dia_data nth_error value];
  first [ eapply diagonal_plain | eapply diagonal_rolled_cols
        | eapply diagonal_wrapped_rows | eapply diagonal_wrapped_both ];
  first [ eassumption | lia ].

Section PeriodicRows.

Variables ny nx : nat.
Variable s : State.
Variables a_2 a_1 a1 a2 b_2 b_1 b1 b2 c_1_1 c_11 c1_1 c11 c00 : array.
Variable bW : string.
Hypothesis Hny : (0 < ny)%nat.
Hypothesis H_2 : self s "cj_2i0" = Some (VArr a_2).
Hypothesis H_1 : self s "cj_1i0" = Some (VArr a_1).
Hypothesis H1 : self s "cj1i0" = Some (VArr a1).
Hypothesis H2 : self s "cj2i0" = Some (VArr a2).
Hypothesis G_2 : self s "cj0i_2" = Some (VArr b_2).
Hypothesis G_1 : self s "cj0i_1" = Some (VArr b_1).
Hypothesis G1 : self s "cj0i1" = Some (VArr b1).
Hypothesis G2 : self s "cj0i2" = Some (VArr b2).
Hypothesis K_1_1 : self s "cj_1i_1" = Some (VArr c_1_1).
Hypothesis K_11 : self s "cj_1i1" = Some (VArr c_11).
Hypothesis K1_1 : self s "cj1i_1" = Some (VArr c1_1).
Hypothesis K11 : self s "cj1i1" = Some (VArr c11).
Hypothesis K00 : self s "cj0i0" = Some (VArr c00).
Hypothesis S_2 : shaped ny nx a_2.
Hypothesis S_1 : shaped ny nx a_1.
Hypothesis S1 : shaped ny nx a1.
Hypothesis S2 : shaped ny nx a2.
Hypothesis T_2 : shaped ny nx b_2.
Hypothesis T_1 : shaped ny nx b_1.
Hypothesis T1 : shaped ny nx b1.
Hypothesis T2 : shaped ny nx b2.
Hypothesis U_1_1 : shaped ny nx c_1_1.
Hypothesis U_11 : shaped ny nx c_11.
Hypothesis U1_1 : shaped ny nx c1_1.
Hypothesis U11 : shaped ny nx c11.
Hypothesis U00 : shaped ny nx c00.
Hypothesis Hrows : self s "nrowsy" = Some (VInt (Z.of_nat ny)).
Hypothesis Hcols : self s "ncolsx" = Some (VInt (Z.of_nat nx)).
Hypothesis HW : self s "BC_W" = Some (VStr bW).
Hypothesis HN : self s "BC_N" = Some (VStr "Periodic").
Hypothesis HS : self s "BC_S" = Some (VStr "Periodic").
Hypothesis HWl : String.eqb bW "Periodic" = false.

(** [build_diags] up to the call of [scipy.sparse.spdiags]. *)
Ltac periodic_rows_steps ny nx HWl :=
  unfold build_diags;
  wp_steps;
  cbn [for_each coeff_array_list];
  do 13 (apply wp_bind; eapply sweep_inf_ok; [lookup; reflexivity|]; cbn [cont]);
  wp_steps;
  do 3 (erewrite np_vstack_ok;
    [| reflexivity | discriminate
     | repeat (apply Forall_cons; [apply (flatten_length ny nx); shape_tac|]);
       apply Forall_nil ];
    cbn [app]; wp_steps);
  cbn [str_eq String.eqb Ascii.eqb Bool.eqb andb]; wp_steps;
  cbn [str_eq String.eqb Ascii.eqb Bool.eqb andb]; wp_steps;
  cbn [str_eq]; rewrite HWl; wp_steps;
  cbn [str_eq]; rewrite HWl; wp_steps;
  cbn [str_eq String.eqb Ascii.eqb Bool.eqb andb]; wp_steps;
  cbn [str_eq String.eqb Ascii.eqb Bool.eqb andb]; wp_steps;
  erewrite np_vstack_ok;
    [| reflexivity | discriminate
     | repeat (apply Forall_cons; [apply (flatten_length ny nx); shape_tac|]);
       apply Forall_nil ];
  cbn [app]; wp_steps;
  unfold scipy_sparse_spdiags, spdiags;
  fold (offsets21 (Z.of_nat ny) (Z.of_nat nx)).

Lemma build_diags_Periodic_rows (Q : Res unit -> State -> Prop) :
  (5 <= ny)%nat -> (4 <= nx)%nat ->
  (forall s', self s' "coeff_matrix"
              = Some (VMat (mkDia (ny * nx) (ny * nx)
                              (offsets21 (Z.of_nat ny) (Z.of_nat nx))
     [ flatten (sweep (roll (roll c_11 (-1) 1) 1 0));
       flatten (sweep (roll b1 1 0));
       flatten (sweep (roll (roll c11 1 1) 1 0));
       flatten (sweep (roll b2 2 0));
       flatten (sweep (roll b_2 (-2) 0));
       flatten (sweep (roll (roll c_1_1 (-1) 1) (-1) 0));
       flatten (sweep (roll b_1 (-1) 0));
       flatten (sweep (roll (roll c1_1 1 1) (-1) 0));
       flatten (sweep (roll a_2 (-2) 1));
       flatten (sweep (roll a_1 (-1) 1));
       flatten (sweep c00);
       flatten (sweep (roll a1 1 1));
       flatten (sweep (roll a2 2 1));
       flatten (sweep (roll (roll c_11 (-1) 1) 1 0));
       flatten (sweep (roll b1 1 0));
       flatten (sweep (roll (roll c11 1 1) 1 0));
       flatten (sweep (roll b2 2 0));
       flatten (sweep (roll b_2 (-2) 0));
       flatten (sweep (roll (roll c_1_1 (-1) 1) (-1) 0));
       flatten (sweep (roll b_1 (-1) 0));
       flatten (sweep (roll (roll c1_1 1 1) (-1) 0)) ])) -> Q (Ok tt) s') ->
  wp build_diags Q s.
Proof.
  intros Hy Hx HQ.
  periodic_rows_steps ny nx HWl.
  rewrite offsets21_distinct by lia.
  rewrite <- Nat2Z.inj_mul, Nat2Z.id.
  cbn [length offsets21 Nat.eqb andb cont].
  apply wp_setattr. apply HQ. reflexivity.
Qed.

Lemma build_diags_Periodic_rows_collide (Q : Res unit -> State -> Prop) :
  (ny < 5)%nat ->
  (forall s', self s' "coeff_matrix" = self s "coeff_matrix" ->
              Q (Raise "ValueError") s') ->
  wp build_diags Q s.
Proof.
  intros Hy HQ.
  periodic_rows_steps ny nx HWl.
  rewrite offsets21_collide by lia.
  rewrite andb_false_r. cbn [cont].
  apply HQ. reflexivity.
Qed.

Lemma periodic_rows_entries c dx dy i j i' j' :
  (5 <= ny)%nat -> (4 <= nx)%nat ->
  In (c, (dx, dy)) stencil ->
  (i < ny)%nat -> (j < nx)%nat -> (i' < ny)%nat -> (j' < nx)%nat ->
  Z.of_nat i' = (Z.of_nat i + dy) mod Z.of_nat ny ->
  Z.of_nat j' = Z.of_nat j + dx ->
  entry (mkDia (ny * nx) (ny * nx) (offsets21 (Z.of_nat ny) (Z.of_nat nx))
     [ flatten (sweep (roll (roll c_11 (-1) 1) 1 0));
       flatten (sweep (roll b1 1 0));
       flatten (sweep (roll (roll c11 1 1) 1 0));
       flatten (sweep (roll b2 2 0));
       flatten (sweep (roll b_2 (-2) 0));
       flatten (sweep (roll (roll c_1_1 (-1) 1) (-1) 0));
       flatten (sweep (roll b_1 (-1) 0));
       flatten (sweep (roll (roll c1_1 1 1) (-1) 0));
       flatten (sweep (roll a_2 (-2) 1));
       flatten (sweep (roll a_1 (-1) 1));
       flatten (sweep c00);
       flatten (sweep (roll a1 1 1));
       flatten (sweep (roll a2 2 1));
       flatten (sweep (roll (roll c_11 (-1) 1) 1 0));
       flatten (sweep (roll b1 1 0));
       flatten (sweep (roll (roll c11 1 1) 1 0));
       flatten (sweep (roll b2 2 0));
       flatten (sweep (roll b_2 (-2) 0));
       flatten (sweep (roll (roll c_1_1 (-1) 1) (-1) 0));
       flatten (sweep (roll b_1 (-1) 0));
       flatten (sweep (roll (roll c1_1 1 1) (-1) 0)) ])
    (i * nx + j)%nat (i' * nx + j')%nat
  = sweep1 (get (array_of s c) i j).
Proof.
  intros Hy Hx Hin Hi Hj Hi' Hj' Hdy Hdx.
  assert (Hd : distinct (offsets21 (Z.of_nat ny) (Z.of_nat nx)) = true)
    by (apply offsets21_distinct; lia).
  assert (Hr : (i * nx + j < ny * nx)%nat) by nia.
  assert (Hc : (i' * nx + j' < ny * nx)%nat) by nia.
  assert (Hcases : Z.of_nat i' = Z.of_nat i + dy \/
                   Z.of_nat i' = Z.of_nat i + dy - Z.of_nat ny \/
                   Z.of_nat i' = Z.of_nat i + dy + Z.of_nat ny).
  { apply wrapped_row; try assumption.
    cbn [In stencil] in Hin.
    repeat (destruct Hin as [Hin|Hin]; [injection Hin as <- <- <-; lia|]).
    contradiction. }
  cbn [In stencil] in Hin.
  repeat (destruct Hin as [Hin|Hin];
          [injection Hin as <- <- <-; unfold array_of;
           repeat match goal with
                  | H : self s ?k = _ |- context [self s ?k] => rewrite H
                  end|]); [..|contradiction].
  all: destruct Hcases as [Hp | [Hh | Hl]].
  all: [> (* cj0i_2 *) wrapped_diagonal 4%nat | lia | wrapped_diagonal 17%nat
        | (* cj_1i_1 *) wrapped_diagonal 5%nat | lia | wrapped_diagonal 18%nat
        | (* cj0i_1 *) wrapped_diagonal 6%nat | lia | wrapped_diagonal 19%nat
        | (* cj1i_1 *) wrapped_diagonal 7%nat | lia | wrapped_diagonal 20%nat
        | (* cj_2i0 *) wrapped_diagonal 8%nat | lia | lia
        | (* cj_1i0 *) wrapped_diagonal 9%nat | lia | lia
        | (* cj0i0 *) wrapped_diagonal 10%nat | lia | lia
        | (* cj1i0 *) wrapped_diagonal 11%nat | lia | lia
        | (* cj2i0 *) wrapped_diagonal 12%nat | lia | lia
        | (* cj_1i1 *) wrapped_diagonal 13%nat | wrapped_diagonal 0%nat | lia
        | (* cj0i1 *) wrapped_diagonal 14%nat | wrapped_diagonal 1%nat | lia
        | (* cj1i1 *) wrapped_diagonal 15%nat | wrapped_diagonal 2%nat | lia
        | (* cj0i2 *) wrapped_diagonal 16%nat | wrapped_diagonal 3%nat | lia ].
Qed.

End PeriodicRows.

(** The thirteen working arrays of an instance that satisfies the
    invariant of the boundary conditions. *)
Ltac thirteen_arrays Hw :=
  destruct (Hw "cj_2i0" eq_refl) as (a_2 & ? & H_2 & S_2 & _ & _);
  destruct (Hw "cj_1i0" eq_refl) as (a_1 & ? & H_1 & S_1 & _ & _);
  destruct (Hw "cj1i0" eq_refl) as (a1 & ? & H1 & S1 & _ & _);
  destruct (Hw "cj2i0" eq_refl) as (a2 & ? & H2 & S2 & _ & _);
  destruct (Hw "cj0i_2" eq_refl) as (b_2 & ? & G_2 & T_2 & _ & _);
  destruct (Hw "cj0i_1" eq_refl) as (b_1 & ? & G_1 & T_1 & _ & _);
  destruct (Hw "cj0i1" eq_refl) as (b1 & ? & G1 & T1 & _ & _);
  destruct (Hw "cj0i2" eq_refl) as (b2 & ? & G2 & T2 & _ & _);
  destruct (Hw "cj_1i_1" eq_refl) as (c_1_1 & ? & K_1_1 & U_1_1 & _ & _);
  destruct (Hw "cj_1i1" eq_refl) as (c_11 & ? & K_11 & U_11 & _ & _);
  destruct (Hw "cj1i_1" eq_refl) as (c1_1 & ? & K1_1 & U1_1 & _ & _);
  destruct (Hw "cj1i1" eq_refl) as (c11 & ? & K11 & U11 & _ & _);
  destruct (Hw "cj0i0" eq_refl) as (c00 & ? & K00 & U00 & _ & _).

(** A Periodic North-South pair.  With North and South both Periodic
    and West and East neither Periodic nor invalid, on a grid of at least
    five rows and four columns that holds the coefficient arrays,
    [BC_Flexure] and [build_diags] run to completion and leave a square
    operator [A] of order [ny * nx] with twenty-one diagonals: the
    thirteen of the stencil and eight that wrap around.  For the
    coefficient array of neighbour offset (dx, dy), the entry in the row
    of cell (i, j) and the column of the cell (i + dy modulo ny, j + dx)
    is the coefficient at (i, j) after the boundary conditions (infinity
    read as 0): the rows beyond the last row continue at the first, and
    the other way round. *)
Theorem build_diags_wraps_a_Periodic_North_South_pair ny nx s bW bE :
  (4 <= nx)%nat -> (5 <= ny)%nat ->
  coefficients_ready ny nx s = true ->
  self s "nrowsy" = Some (VInt (Z.of_nat ny)) ->
  self s "ncolsx" = Some (VInt (Z.of_nat nx)) ->
  self s "BC_W" = Some (VStr bW) -> self s "BC_E" = Some (VStr bE) ->
  self s "BC_N" = Some (VStr "Periodic") -> self s "BC_S" = Some (VStr "Periodic") ->
  local_BC bW -> local_BC bE ->
  exists s1 s2 A,
    BC_Flexure s = (Ok tt, s1) /\ build_diags s1 = (Ok tt, s2) /\
    self s2 "coeff_matrix" = Some (VMat A) /\
    dia_m A = (ny * nx)%nat /\ dia_n A = (ny * nx)%nat /\
    (forall r k, entry A r k <> vzero ->
       In (Z.of_nat k - Z.of_nat r) (offsets21 (Z.of_nat ny) (Z.of_nat nx))) /\
    (forall c dx dy i j i' j',
       In (c, (dx, dy)) stencil ->
       (i < ny)%nat -> (j < nx)%nat -> (i' < ny)%nat -> (j' < nx)%nat ->
       Z.of_nat i' = (Z.of_nat i + dy) mod Z.of_nat ny ->
       Z.of_nat j' = Z.of_nat j + dx ->
       entry A (i * nx + j) (i' * nx + j') = sweep1 (get (array_of s1 c) i j)).
Proof.
  intros Hnx Hny Hready Hrows Hcols HW HE HN HS LW LE.
  pose proof (coefficients_ready_ok ny nx s Hready) as Hok.
  assert (Hny2 : (2 <= ny)%nat) by lia.
  assert (Hnx2 : (2 <= nx)%nat) by lia.
  pose proof (BC_Flexure_keeps_Periodic_rows ny nx s bW bE Hny2 Hnx2 HW HE HN HS LW LE
                s (fun r s' => r = Ok tt /\ stencil_ok ny nx s s') Hok
                (fun s' H => conj eq_refl H)) as Hk.
  apply wp_run in Hk as (r & s1 & Hrun & -> & Hok1).
  pose proof Hok1 as (Hw & _ & Hfr).
  thirteen_arrays Hw.
  assert (Hny0 : (0 < ny)%nat) by lia.
  pose proof (Hfr "nrowsy" eq_refl) as Hrows1. rewrite Hrows in Hrows1.
  pose proof (Hfr "ncolsx" eq_refl) as Hcols1. rewrite Hcols in Hcols1.
  pose proof (Hfr "BC_W" eq_refl) as HW1. rewrite HW in HW1.
  pose proof (Hfr "BC_N" eq_refl) as HN1. rewrite HN in HN1.
  pose proof (Hfr "BC_S" eq_refl) as HS1. rewrite HS in HS1.
  pose proof (build_diags_Periodic_rows ny nx s1 a_2 a_1 a1 a2 b_2 b_1 b1 b2
                c_1_1 c_11 c1_1 c11 c00 bW Hny0
                H_2 H_1 H1 H2 G_2 G_1 G1 G2 K_1_1 K_11 K1_1 K11 K00
                S_2 S_1 S1 S2 T_2 T_1 T1 T2 U_1_1 U_11 U1_1 U11 U00
                Hrows1 Hcols1 HW1 HN1 HS1 (local_not_Periodic bW LW)) as Hb.
  match type of Hb with
  | forall Q, _ -> _ -> (forall s', self s' _ = Some (VMat ?M) -> _) -> _ =>
      set (A := M) in *;
      specialize (Hb (fun r s' => r = Ok tt /\ self s' "coeff_matrix" = Some (VMat A))
                     Hny Hnx (fun s' H => conj eq_refl H))
  end.
  apply wp_run in Hb as (r & s2 & Hrun2 & -> & HA).
  exists s1, s2, A.
  split; [exact Hrun|]. split; [exact Hrun2|]. split; [exact HA|].
  split; [reflexivity|]. split; [reflexivity|].
  split.
  - intros r k Hne. exact (entry_nonzero_on_diagonal A r k Hne).
  - intros c dx dy i j i' j' Hin Hi Hj Hi' Hj' Hdy Hdx. subst A.
    apply (periodic_rows_entries ny nx s1 a_2 a_1 a1 a2 b_2 b_1 b1 b2
             c_1_1 c_11 c1_1 c11 c00 Hny0
             H_2 H_1 H1 H2 G_2 G_1 G1 G2 K_1_1 K_11 K1_1 K11 K00
             S_2 S_1 S1 S2 T_2 T_1 T1 T2 U_1_1 U_11 U1_1 U11 U00
             c dx dy); assumption.
Qed.

Lemma build_diags_wraps_a_Periodic_North_South_pair_witness :
  exists s1 s2 A,
    BC_Flexure (coefficients5 "Dirichlet0" "Mirror" "Periodic" "Periodic")
    = (Ok tt, s1) /\
    build_diags s1 = (Ok tt, s2) /\
    self s2 "coeff_matrix" = Some (VMat A) /\
    dia_m A = (5 * 5)%nat /\ dia_n A = (5 * 5)%nat /\
    (forall r k, entry A r k <> vzero ->
       In (Z.of_nat k - Z.of_nat r) (offsets21 (Z.of_nat 5) (Z.of_nat 5))) /\
    (forall c dx dy i j i' j',
       In (c, (dx, dy)) stencil ->
       (i < 5)%nat -> (j < 5)%nat -> (i' < 5)%nat -> (j' < 5)%nat ->
       Z.of_nat i' = (Z.of_nat i + dy) mod Z.of_nat 5 ->
       Z.of_nat j' = Z.of_nat j + dx ->
       entry A (i * 5 + j) (i' * 5 + j') = sweep1 (get (array_of s1 c) i j)).
Proof.
  apply (build_diags_wraps_a_Periodic_North_South_pair 5 5
           (coefficients5 "Dirichlet0" "Mirror" "Periodic" "Periodic")
           "Dirichlet0" "Mirror").
  - lia.
  - lia.
  - vm_compute. reflexivity.
  - vm_compute. reflexivity.
  - vm_compute. reflexivity.
  - vm_compute. reflexivity.
  - vm_compute. reflexivity.
  - vm_compute. reflexivity.
  - vm_compute. reflexivity.
  - left. reflexivity.
  - right. right. right. reflexivity.
Defined.

(** With a Periodic North-South pair a grid of fewer than five rows is
    too short: two of the twenty-one offsets then name the same diagonal
    (with four rows, 2nx - ny nx and -2nx), [scipy.sparse.spdiags]
    refuses them, and [build_diags] ends in that [ValueError] without a
    coefficient matrix. *)
Theorem build_diags_Periodic_rows_need_five_rows ny nx s bW :
  (1 <= ny)%nat -> (ny < 5)%nat ->
  coefficients_ready ny nx s = true ->
  self s "nrowsy" = Some (VInt (Z.of_nat ny)) ->
  self s "ncolsx" = Some (VInt (Z.of_nat nx)) ->
  self s "BC_W" = Some (VStr bW) -> bW <> "Periodic" ->
  self s "BC_N" = Some (VStr "Periodic") -> self s "BC_S" = Some (VStr "Periodic") ->
  exists s',
    build_diags s = (Raise "ValueError", s') /\
    self s' "coeff_matrix" = self s "coeff_matrix".
Proof.
  intros Hny Hny5 Hready Hrows Hcols HW HWl HN HS.
  pose proof (coefficients_ready_ok ny nx s Hready) as (Hw & _ & _).
  thirteen_arrays Hw.
  apply String.eqb_neq in HWl.
  assert (Hny0 : (0 < ny)%nat) by lia.
  pose proof (build_diags_Periodic_rows_collide ny nx s a_2 a_1 a1 a2 b_2 b_1 b1 b2
                c_1_1 c_11 c1_1 c11 c00 bW Hny0
                H_2 H_1 H1 H2 G_2 G_1 G1 G2 K_1_1 K_11 K1_1 K11 K00
                S_2 S_1 S1 S2 T_2 T_1 T1 T2 U_1_1 U_11 U1_1 U11 U00
                Hrows Hcols HW HN HS HWl
                (fun r s' => r = Raise "ValueError" /\
                             self s' "coeff_matrix" = self s "coeff_matrix")
                Hny5 (fun s' H => conj eq_refl H)) as Hb.
  apply wp_run in Hb as (r & s' & Hrun & -> & Hm).
  exists s'. auto.
Qed.

Lemma build_diags_Periodic_rows_need_five_rows_witness :
  exists s',
    build_diags
      (snd (BC_Flexure
              (coefficients_of
                 (plate Te_ramp 1 1 "Dirichlet0" "Mirror" "Periodic" "Periodic"
                    "vWC1994"))))
    = (Raise "ValueError", s') /\
    self s' "coeff_matrix"
    = self (snd (BC_Flexure
                   (coefficients_of
                      (plate Te_ramp 1 1 "Dirichlet0" "Mirror" "Periodic" "Periodic"
                         "vWC1994")))) "coeff_matrix".
Proof.
  apply (build_diags_Periodic_rows_need_five_rows 3 3 _ "Dirichlet0").
  - lia.
  - lia.
  - vm_compute. reflexivity.
  - vm_compute. reflexivity.
  - vm_compute. reflexivity.
  - vm_compute. reflexivity.
  - discriminate.
  - vm_compute. reflexivity.
  - vm_compute. reflexivity.
Defined.

(* ================================================================== *)
(** * Laws of the scattered-point solve *)

Module SASLaws.

Import SAS.
Import SASFacts.
Import SASLoads.
Local Open Scope R_scope.

Lemma sum_over_ext l f h : (forall i, In i l -> f i = h i) -> sum_over l f = sum_over l h.
Proof.
  induction l as [|i l IH]; intros H; cbn [sum_over fold_right]; [reflexivity|].
  fold (sum_over l f). fold (sum_over l h).
  rewrite (H i (or_introl eq_refl)), IH; [reflexivity|].
  intros j Hj. apply H. now right.
Qed.

Lemma sum_over_linear l a b f h :
  sum_over l (fun i => a * f i + b * h i) = a * sum_over l f + b * sum_over l h.
Proof.
  induction l as [|i l IH]; cbn [sum_over fold_right]; [ring|].
  fold (sum_over l (fun i => a * f i + b * h i)).
  fold (sum_over l f). fold (sum_over l h). rewrite IH. ring.
Qed.

Lemma nth_superpose a b q q' i :
  length q = length q' -> (i < length q)%nat ->
  nth i (superpose a b q q') 0 = a * nth i q 0 + b * nth i q' 0.
Proof.
  intros Hl Hi. unfold superpose.
  rewrite (nth_indep _ 0 (a * fst (0, 0) + b * snd (0, 0)))
    by (rewrite length_map, length_combine, <- Hl, Nat.min_id; exact Hi).
  rewrite (map_nth (fun p => a * fst p + b * snd p) (combine q q') (0, 0) i).
  now rewrite combine_nth.
Qed.

Lemma superpose_length a b q q' :
  length q = length q' -> length (superpose a b q q') = length q.
Proof.
  intros H. unfold superpose. rewrite length_map, length_combine, <- H.
  apply Nat.min_id.
Qed.

Lemma deflection_sum kei v x y q0 k :
  length y = length x -> length q0 = length x -> (k < length x)%nat ->
  nth k (spatialDomainNoGrid kei v x y q0) 0
  = sum_over (seq 0 (length x)) (contribution kei v x y q0 k).
Proof.
  intros Hy Hq Hk. unfold spatialDomainNoGrid.
  rewrite (nth_loop kei v x y q0 Hy) by (try rewrite length_map; assumption).
  rewrite nth_zeros. ring.
Qed.

(** Superposition: the deflection under the load [a q + b q'] is [a]
    times the deflection under [q] plus [b] times the deflection under
    [q'], at every point. *)
Theorem spatialDomainNoGrid_is_linear_in_the_loads kei v x y q q' a b k :
  length y = length x -> length q = length x -> length q' = length x ->
  (k < length x)%nat ->
  nth k (spatialDomainNoGrid kei v x y (superpose a b q q')) 0
  = a * nth k (spatialDomainNoGrid kei v x y q) 0
    + b * nth k (spatialDomainNoGrid kei v x y q') 0.
Proof.
  intros Hy Hq Hq' Hk.
  rewrite !deflection_sum
    by (try rewrite superpose_length; congruence || assumption).
  rewrite <- sum_over_linear. apply sum_over_ext. intros i Hi.
  apply in_seq in Hi. unfold contribution.
  rewrite nth_superpose by (congruence || lia). ring.
Qed.

Lemma spatialDomainNoGrid_is_linear_in_the_loads_witness :
  nth 1 (spatialDomainNoGrid cos (spatialDomainVars unit_plate) [0; 3] [0; 4]
           (superpose 2 5 [1; 2] [7; 0])) 0
  = 2 * nth 1 (spatialDomainNoGrid cos (spatialDomainVars unit_plate) [0; 3] [0; 4]
                 [1; 2]) 0
    + 5 * nth 1 (spatialDomainNoGrid cos (spatialDomainVars unit_plate) [0; 3] [0; 4]
                   [7; 0]) 0.
Proof.
  apply (spatialDomainNoGrid_is_linear_in_the_loads cos (spatialDomainVars unit_plate)
           [0; 3] [0; 4] [1; 2] [7; 0] 2 5 1).
  - reflexivity.
  - reflexivity.
  - reflexivity.
  - simpl. lia.
Defined.

Lemma nth_unit_load n i j :
  (j < n)%nat -> nth j (unit_load n i) 0 = if Nat.eqb j i then 1 else 0.
Proof.
  intros Hj. unfold unit_load.
  rewrite (nth_indep _ 0 ((fun j => if Nat.eqb j i then 1 else 0) 0%nat))
    by (now rewrite length_map, length_seq).
  rewrite (map_nth (fun j => if Nat.eqb j i then 1 else 0) (seq 0 n) 0%nat j).
  now rewrite seq_nth.
Qed.

Lemma unit_load_length n i : length (unit_load n i) = n.
Proof. unfold unit_load. now rewrite length_map, length_seq. Qed.

Lemma sum_over_indicator (f : nat -> R) i s m :
  sum_over (seq s m) (fun j => (if Nat.eqb j i then 1 else 0) * f j)
  = if (Nat.leb s i && Nat.ltb i (s + m))%bool then f i else 0.
Proof.
  revert s. induction m as [|m IH]; intros s.
  - cbn [seq sum_over fold_right].
    destruct (Nat.leb_spec s i); cbn [andb]; [|reflexivity].
    destruct (Nat.ltb_spec i (s + 0)); [lia | reflexivity].
  - cbn [seq sum_over fold_right].
    fold (sum_over (seq (S s) m) (fun j => (if Nat.eqb j i then 1 else 0) * f j)).
    rewrite IH.
    destruct (Nat.eqb_spec s i) as [->|Hne].
    + rewrite Nat.leb_refl.
      destruct (Nat.leb_spec (S i) i); [lia|]. cbn [andb].
      destruct (Nat.ltb_spec i (i + S m)); [ring | lia].
    + destruct (Nat.leb_spec (S s) i), (Nat.leb_spec s i); try lia; cbn [andb].
      * destruct (Nat.ltb_spec i (S s + m)), (Nat.ltb_spec i (s + S m)); try lia; ring.
      * ring.
Qed.

(** Reciprocity: a unit load at point [i] deflects point [k] as much as
    a unit load at point [k] deflects point [i]. *)
Theorem spatialDomainNoGrid_is_reciprocal kei v x y i k :
  length y = length x -> (i < length x)%nat -> (k < length x)%nat ->
  nth k (spatialDomainNoGrid kei v x y (unit_load (length x) i)) 0
  = nth i (spatialDomainNoGrid kei v x y (unit_load (length x) k)) 0.
Proof.
  intros Hy Hi Hk.
  rewrite !deflection_sum by (try apply unit_load_length; assumption).
  set (n := length x) in *.
  rewrite (sum_over_ext (seq 0 n) _
             (fun j => (if Nat.eqb j i then 1 else 0)
                       * (coeff v * kei (sqrt ((nth k x 0 - nth j x 0) ^ 2
                                               + (nth k y 0 - nth j y 0) ^ 2) / alpha v)))).
  2:{ intros j Hj. apply in_seq in Hj. unfold contribution.
      rewrite nth_unit_load by lia. ring. }
  rewrite (sum_over_ext (seq 0 n) (contribution kei v x y (unit_load n k) i)
             (fun j => (if Nat.eqb j k then 1 else 0)
                       * (coeff v * kei (sqrt ((nth i x 0 - nth j x 0) ^ 2
                                               + (nth i y 0 - nth j y 0) ^ 2) / alpha v)))).
  2:{ intros j Hj. apply in_seq in Hj. unfold contribution.
      rewrite nth_unit_load by lia. ring. }
  rewrite !sum_over_indicator. cbn [Nat.leb andb Nat.add].
  destruct (Nat.ltb_spec i n), (Nat.ltb_spec k n); try lia.
  f_equal. f_equal. unfold Rdiv. f_equal. f_equal. ring.
Qed.

Lemma spatialDomainNoGrid_is_reciprocal_witness :
  nth 2 (spatialDomainNoGrid cos (spatialDomainVars unit_plate) [0; 3; 1] [0; 4; 1]
           (unit_load (length [0; 3; 1]) 0)) 0
  = nth 0 (spatialDomainNoGrid cos (spatialDomainVars unit_plate) [0; 3; 1] [0; 4; 1]
             (unit_load (length [0; 3; 1]) 2)) 0.
Proof.
  apply (spatialDomainNoGrid_is_reciprocal cos (spatialDomainVars unit_plate)
           [0; 3; 1] [0; 4; 1] 0 2).
  - reflexivity.
  - simpl. lia.
  - simpl. lia.
Defined.

End SASLaws.

(* ================================================================== *)
(** * Superposition of analytical solutions on the grid *)

Module SASGriddedFacts.

Import SAS.
Import SASGridded.
Local Open Scope R_scope.

Lemma gshaped_row ny nx a r :
  gshaped ny nx a -> (r < ny)%nat -> length (nth r a []) = nx.
Proof.
  intros [Hl Hr] Hi. rewrite Forall_forall in Hr. apply Hr. apply nth_In. lia.
Qed.

Lemma In_firstn {A} (n : nat) (l : list A) a : In a (firstn n l) -> In a l.
Proof.
  revert l. induction n as [|n IH]; intros [|b l] H; cbn in *; try contradiction.
  destruct H as [->|H]; [now left | right; now apply IH].
Qed.

Lemma In_skipn {A} (n : nat) (l : list A) a : In a (skipn n l) -> In a l.
Proof.
  revert l. induction n as [|n IH]; intros [|b l] H; cbn in *; try assumption.
  right. now apply IH.
Qed.

Lemma nth_map_rows {A} (f : list A -> list A) (a : list (list A)) r :
  f [] = [] -> nth r (map f a) [] = f (nth r a []).
Proof. intros H. rewrite <- H at 1. apply map_nth. Qed.

Lemma cell_window a r0 r1 c0 c1 r c :
  (r < r1 - r0)%nat -> (c < c1 - c0)%nat ->
  cell (window a r0 r1 c0 c1) r c = cell a (r0 + r) (c0 + c).
Proof.
  intros Hr Hc. unfold cell, window.
  rewrite (nth_map_rows (fun row => firstn (c1 - c0) (skipn c0 row)))
    by (now rewrite skipn_nil, firstn_nil).
  rewrite nth_firstn, nth_skipn.
  destruct (Nat.ltb_spec c (c1 - c0)); [|lia].
  rewrite nth_firstn, nth_skipn.
  destruct (Nat.ltb_spec r (r1 - r0)); [reflexivity | lia].
Qed.

Lemma cell_scale ny nx k a r c :
  gshaped ny nx a -> (r < ny)%nat -> (c < nx)%nat ->
  cell (scale k a) r c = k * cell a r c.
Proof.
  intros Ha Hr Hc. unfold cell, scale.
  rewrite (nth_map_rows (map (fun e => k * e))) by reflexivity.
  rewrite (nth_indep _ 0 (k * 0))
    by (rewrite length_map, (gshaped_row ny nx a r Ha Hr); exact Hc).
  apply (map_nth (fun e => k * e)).
Qed.

Lemma scale_shaped ny nx k a : gshaped ny nx a -> gshaped ny nx (scale k a).
Proof.
  intros [Hl Hr]. unfold scale. split; [now rewrite length_map|].
  apply Forall_map. eapply Forall_impl; [|exact Hr].
  intros row H. now rewrite length_map.
Qed.

Lemma madd_shaped ny nx a b :
  gshaped ny nx a -> gshaped ny nx b -> gshaped ny nx (madd a b).
Proof.
  intros [Hla Hra] [Hlb Hrb]. unfold madd. split.
  - rewrite length_map, length_combine. lia.
  - apply Forall_map. apply Forall_forall. intros [u u'] Hin.
    rewrite Forall_forall in Hra, Hrb. cbn [fst snd].
    rewrite SASFacts.vadd_length.
    + apply Hra. eapply in_combine_l; eassumption.
    + rewrite (Hra u), (Hrb u'); [reflexivity | |].
      * eapply in_combine_r; eassumption.
      * eapply in_combine_l; eassumption.
Qed.

Lemma cell_madd ny nx a b r c :
  gshaped ny nx a -> gshaped ny nx b -> (r < ny)%nat -> (c < nx)%nat ->
  cell (madd a b) r c = cell a r c + cell b r c.
Proof.
  intros Ha Hb Hr Hc. unfold cell, madd.
  destruct Ha as [Hla Hra], Hb as [Hlb Hrb].
  rewrite (nth_indep _ [] (vadd (fst (@nil R, @nil R)) (snd (@nil R, @nil R))))
    by (rewrite length_map, length_combine; lia).
  rewrite (map_nth (fun p => vadd (fst p) (snd p)) (combine a b) (@nil R, @nil R) r).
  rewrite combine_nth by lia. cbn [fst snd].
  assert (Hu : length (nth r a []) = nx) by (apply (gshaped_row ny nx); [now split | lia]).
  assert (Hu' : length (nth r b []) = nx) by (apply (gshaped_row ny nx); [now split | lia]).
  apply SASFacts.nth_vadd; lia.
Qed.

Section Gridded.

Variable kei : R -> R.
Variable v : Vars.
Variables dx dy : R.
Variables ny nx : nat.
Variable q0 : grid.

Lemma biggrid_shaped : gshaped (2 * ny + 1) (2 * nx + 1) (biggrid kei v dx dy ny nx).
Proof.
  unfold biggrid. split; [now rewrite length_map, length_seq|].
  apply Forall_map. apply Forall_forall. intros a _.
  now rewrite length_map, length_seq.
Qed.

Lemma cell_biggrid a b :
  (a < 2 * ny + 1)%nat -> (b < 2 * nx + 1)%nat ->
  cell (biggrid kei v dx dy ny nx) a b
  = coeff v * kei (bigdist dx dy ny nx a b / alpha v).
Proof.
  intros Ha Hb. unfold cell, biggrid.
  rewrite (nth_indep _ []
             ((fun a => map (fun b => coeff v * kei (bigdist dx dy ny nx a b / alpha v))
                            (seq 0 (2 * nx + 1))) 0%nat))
    by (now rewrite length_map, length_seq).
  rewrite (map_nth (fun a => map (fun b => coeff v * kei (bigdist dx dy ny nx a b / alpha v))
                                 (seq 0 (2 * nx + 1))) (seq 0 (2 * ny + 1)) 0%nat a).
  rewrite seq_nth by exact Ha. cbn [Nat.add].
  rewrite (nth_indep _ 0
             ((fun b => coeff v * kei (bigdist dx dy ny nx a b / alpha v)) 0%nat))
    by (now rewrite length_map, length_seq).
  rewrite (map_nth (fun b => coeff v * kei (bigdist dx dy ny nx a b / alpha v))
             (seq 0 (2 * nx + 1)) 0%nat b).
  now rewrite seq_nth by exact Hb.
Qed.

Lemma window_shaped i j :
  (i < nx)%nat -> (j < ny)%nat ->
  gshaped ny nx (window (biggrid kei v dx dy ny nx) (ny - j) (2 * ny - j) (nx - i) (2 * nx - i)).
Proof.
  intros Hi Hj. destruct biggrid_shaped as [Hl Hr]. unfold window. split.
  - rewrite length_map, length_firstn, length_skipn, Hl. lia.
  - apply Forall_map. apply Forall_forall. intros row Hin.
    apply In_firstn, In_skipn in Hin.
    rewrite Forall_forall in Hr.
    rewrite length_firstn, length_skipn, (Hr row Hin). lia.
Qed.

(** The share of the load at [(j, i)] in the deflection at [(r, c)]. *)
Lemma cell_share i j r c :
  (i < nx)%nat -> (j < ny)%nat -> (r < ny)%nat -> (c < nx)%nat ->
  cell (window (biggrid kei v dx dy ny nx) (ny - j) (2 * ny - j) (nx - i) (2 * nx - i)) r c
  = kernel kei v dx dy r c j i.
Proof.
  intros Hi Hj Hr Hc.
  rewrite cell_window by lia. rewrite cell_biggrid by lia.
  unfold kernel, bigdist. do 2 f_equal. unfold Rdiv. f_equal. f_equal.
  rewrite !plus_INR, !minus_INR by lia. ring.
Qed.

Lemma add_load_shaped w i j :
  (i < nx)%nat -> (j < ny)%nat ->
  gshaped ny nx w -> gshaped ny nx (add_load kei v dx dy ny nx q0 w i j).
Proof.
  intros Hi Hj Hw. unfold add_load.
  destruct (Req_dec_T (cell q0 j i) 0); [assumption|].
  apply madd_shaped; [assumption|]. apply scale_shaped. now apply window_shaped.
Qed.

(** One turn of the inner loop; a cell without load adds nothing, like
    the term it stands for. *)
Lemma cell_add_load w i j r c :
  (i < nx)%nat -> (j < ny)%nat -> (r < ny)%nat -> (c < nx)%nat ->
  gshaped ny nx w ->
  cell (add_load kei v dx dy ny nx q0 w i j) r c
  = cell w r c + cell q0 j i * dx * dy * kernel kei v dx dy r c j i.
Proof.
  intros Hi Hj Hr Hc Hw. unfold add_load.
  destruct (Req_dec_T (cell q0 j i) 0) as [Hz|Hnz].
  - rewrite Hz. ring.
  - rewrite (cell_madd ny nx), (cell_scale ny nx), cell_share;
      try assumption; try (now apply window_shaped).
    + reflexivity.
    + apply scale_shaped. now apply window_shaped.
Qed.

Lemma rows_loop l w i r c :
  (i < nx)%nat -> (forall j, In j l -> (j < ny)%nat) ->
  (r < ny)%nat -> (c < nx)%nat -> gshaped ny nx w ->
  gshaped ny nx (fold_left (fun w j => add_load kei v dx dy ny nx q0 w i j) l w) /\
  cell (fold_left (fun w j => add_load kei v dx dy ny nx q0 w i j) l w) r c
  = cell w r c
    + sum_over l (fun j => cell q0 j i * dx * dy * kernel kei v dx dy r c j i).
Proof.
  intros Hi Hl Hr Hc. revert w.
  induction l as [|j l IH]; intros w Hw; cbn [fold_left sum_over fold_right].
  - split; [assumption | ring].
  - assert (Hj : (j < ny)%nat) by (apply Hl; now left).
    destruct (IH (fun k Hk => Hl k (or_intror Hk))
                 (add_load kei v dx dy ny nx q0 w i j)
                 (add_load_shaped w i j Hi Hj Hw)) as [Hs Hcell].
    split; [exact Hs|]. rewrite Hcell, cell_add_load by assumption.
    unfold sum_over. ring.
Qed.

Lemma columns_loop l w r c :
  (forall i, In i l -> (i < nx)%nat) ->
  (r < ny)%nat -> (c < nx)%nat -> gshaped ny nx w ->
  cell (fold_left (fun w i => fold_left (fun w j => add_load kei v dx dy ny nx q0 w i j)
                                        (seq 0 ny) w) l w) r c
  = cell w r c
    + sum_over l (fun i =>
        sum_over (seq 0 ny)
          (fun j => cell q0 j i * dx * dy * kernel kei v dx dy r c j i)).
Proof.
  intros Hl Hr Hc. revert w.
  induction l as [|i l IH]; intros w Hw; cbn [fold_left sum_over fold_right].
  - ring.
  - assert (Hi : (i < nx)%nat) by (apply Hl; now left).
    destruct (rows_loop (seq 0 ny) w i r c Hi
                (fun j Hj => proj2 (proj1 (in_seq _ _ _) Hj)) Hr Hc Hw) as [Hs Hcell].
    rewrite (IH (fun k Hk => Hl k (or_intror Hk)) _ Hs), Hcell.
    unfold sum_over. ring.
Qed.

End Gridded.

Lemma nth_constant_zero {A} (l : list A) k : nth k (map (fun _ => 0) l) 0 = 0.
Proof. revert k. induction l as [|a l IH]; intros [|k]; cbn; auto. Qed.

Lemma cell_zeros ny nx r c :
  cell (map (fun _ => map (fun _ => 0) (seq 0 nx)) (seq 0 ny)) r c = 0.
Proof.
  unfold cell.
  destruct (Nat.lt_ge_cases r ny) as [Hr|Hr].
  - rewrite (nth_indep _ [] ((fun _ : nat => map (fun _ : nat => 0) (seq 0 nx)) 0%nat))
      by (now rewrite length_map, length_seq).
    rewrite (map_nth (fun _ : nat => map (fun _ : nat => 0) (seq 0 nx)) (seq 0 ny) 0%nat r).
    apply nth_constant_zero.
  - rewrite (nth_overflow _ []) by (now rewrite length_map, length_seq).
    now destruct c.
Qed.

Lemma zeros_shaped ny nx :
  gshaped ny nx (map (fun _ => map (fun _ => 0) (seq 0 nx)) (seq 0 ny)).
Proof.
  split; [now rewrite length_map, length_seq|].
  apply Forall_map. apply Forall_forall. intros a _.
  now rewrite length_map, length_seq.
Qed.

(** The gridded solve, for a load of [ny] rows and [nx] columns and a
    nonzero [dx]: it returns; [nx] and [ny] are the shape of the load;
    [self.y] is the same array as [self.x]; and the deflection at every
    cell is the sum over all cells of load times cell area times the
    Kelvin kernel at the distance between the two cells, the cells
    without load included (they are skipped, and they add nothing). *)
Theorem spatialDomainGridded_is_a_convolution kei v dx dy ny nx q0 :
  (0 < ny)%nat -> gshaped ny nx q0 -> dx <> 0 ->
  exists g,
    spatialDomainGridded kei v dx dy q0 = Some g /\
    SASGridded.ny g = ny /\ SASGridded.nx g = nx /\
    y g = x g /\ length (x g) = nx /\
    forall r c, (r < ny)%nat -> (c < nx)%nat ->
      cell (w g) r c = convolution kei v dx dy ny nx q0 r c.
Proof.
  intros Hny [Hl Hrows] Hdx.
  assert (Hnx : length (hd [] q0) = nx).
  { destruct q0 as [|row rest]; [cbn in Hl; lia|]. now inversion Hrows. }
  unfold spatialDomainGridded, arange. rewrite Hnx, Hl.
  destruct (Req_dec_T dx 0) as [E|_]; [contradiction|].
  eexists. split; [reflexivity|]. cbn [SASGridded.ny SASGridded.nx x y w].
  repeat split; [now rewrite length_map, length_seq|].
  intros r c Hr Hc.
  rewrite (columns_loop kei v dx dy ny nx q0 (seq 0 nx));
    [| intros i Hi; apply in_seq in Hi; lia | assumption | assumption
     | apply zeros_shaped].
  rewrite cell_zeros. unfold convolution. ring.
Qed.

Lemma spatialDomainGridded_is_a_convolution_witness :
  exists g,
    spatialDomainGridded cos (spatialDomainVars unit_plate) 1 2 [[0; 1]; [3; 0]]
    = Some g /\
    SASGridded.ny g = 2%nat /\ SASGridded.nx g = 2%nat /\
    y g = x g /\ length (x g) = 2%nat /\
    forall r c, (r < 2)%nat -> (c < 2)%nat ->
      cell (w g) r c
      = convolution cos (spatialDomainVars unit_plate) 1 2 2 2 [[0; 1]; [3; 0]] r c.
Proof.
  apply (spatialDomainGridded_is_a_convolution cos (spatialDomainVars unit_plate)
           1 2 2 2 [[0; 1]; [3; 0]]).
  - lia.
  - split; [reflexivity | repeat constructor].
  - lra.
Defined.

End SASGriddedFacts.

(* ================================================================== *)
(** * The maximum flexural wavelength *)

Module FlexuralWavelengthFacts.

Import FlexuralWavelength.
Local Open Scope R_scope.

Lemma ceil_bounds x : x <= IZR (ceil x) < x + 1.
Proof.
  unfold ceil. rewrite opp_IZR.
  destruct (base_Int_part (- x)) as [H1 H2]. lra.
Qed.

Lemma fold_Rmax_ge t h : h <= fold_left Rmax t h.
Proof.
  revert h. induction t as [|a t IH]; intros h; cbn [fold_left]; [lra|].
  eapply Rle_trans; [apply Rmax_l | apply IH].
Qed.

Lemma fold_Rmax_upper t h e : In e t -> e <= fold_left Rmax t h.
Proof.
  revert h. induction t as [|a t IH]; intros h Hin; [contradiction|].
  cbn [fold_left]. destruct Hin as [->|Hin].
  - eapply Rle_trans; [apply Rmax_r | apply fold_Rmax_ge].
  - now apply IH.
Qed.

Lemma fold_Rmax_In t h : fold_left Rmax t h = h \/ In (fold_left Rmax t h) t.
Proof.
  revert h. induction t as [|a t IH]; intros h; cbn [fold_left]; [now left|].
  destruct (IH (Rmax h a)) as [E|Hin]; [|right; now right].
  rewrite E. unfold Rmax. destruct (Rle_dec h a); [right; now left | now left].
Qed.

(** The maximum of an array is one of its elements and bounds them all. *)
Lemma array_max_spec a m :
  array_max a = Some m ->
  In m (concat a) /\ forall e, In e (concat a) -> e <= m.
Proof.
  unfold array_max. destruct (concat a) as [|h t]; [discriminate|].
  intros H. injection H as <-. split.
  - destruct (fold_Rmax_In t h) as [-> | Hin]; [now left | now right].
  - intros e [<-|Hin]; [apply fold_Rmax_ge | now apply fold_Rmax_upper].
Qed.

(** For a positive rigidity, density contrast times gravity, and grid
    spacings, [calc_max_flexural_wavelength] returns; the wavelength is
    2 pi (4 D / (drho g))^(1/4); and the two counts are the least whole
    numbers of cells that cover it: [n dx >= lambda > (n - 1) dx], and
    the same for [dy]. *)
Theorem calc_max_flexural_wavelength_covers_the_wavelength Dmax drho g dx dy :
  0 < Dmax -> 0 < drho * g -> 0 < dx -> 0 < dy ->
  exists r,
    calc_max_flexural_wavelength (Scalar Dmax) drho g dx dy = Some r /\
    maxFlexuralWavelength r = 2 * PI * Rpower (4 * Dmax / (drho * g)) (1 / 4) /\
    0 < maxFlexuralWavelength r /\
    (IZR (maxFlexuralWavelength_ncells_x r) - 1) * dx < maxFlexuralWavelength r
      <= IZR (maxFlexuralWavelength_ncells_x r) * dx /\
    (IZR (maxFlexuralWavelength_ncells_y r) - 1) * dy < maxFlexuralWavelength r
      <= IZR (maxFlexuralWavelength_ncells_y r) * dy.
Proof.
  intros HD Hrg Hdx Hdy.
  assert (Hbase : 0 < 4 * Dmax / (drho * g)).
  { apply Rdiv_lt_0_compat; lra. }
  unfold calc_max_flexural_wavelength, quarter_power.
  destruct (Req_dec_T (drho * g) 0) as [E|_]; [lra|].
  destruct (Rlt_dec 0 (4 * Dmax / (drho * g))) as [_|N]; [|contradiction].
  destruct (Req_dec_T dx 0) as [E|_]; [lra|].
  destruct (Req_dec_T dy 0) as [E|_]; [lra|].
  eexists. split; [reflexivity|].
  cbn [maxFlexuralWavelength maxFlexuralWavelength_ncells_x
       maxFlexuralWavelength_ncells_y].
  set (lambda := 2 * PI * Rpower (4 * Dmax / (drho * g)) (1 / 4)).
  assert (Hl : 0 < lambda).
  { unfold lambda, Rpower. pose proof PI_RGT_0. pose proof (exp_pos (1 / 4 * ln (4 * Dmax / (drho * g)))).
    apply Rmult_lt_0_compat; [lra | assumption]. }
  split; [reflexivity|]. split; [exact Hl|].
  assert (Hcover : forall d, 0 < d ->
            (IZR (ceil (lambda / d)) - 1) * d < lambda <= IZR (ceil (lambda / d)) * d).
  { intros d Hd. destruct (ceil_bounds (lambda / d)) as [H1 H2].
    assert (E : lambda = lambda / d * d) by (field; lra).
    split.
    - rewrite E at 2. apply Rmult_lt_compat_r; lra.
    - rewrite E at 1. apply Rmult_le_compat_r; lra. }
  split; [now apply Hcover | now apply Hcover].
Qed.

Lemma calc_max_flexural_wavelength_covers_the_wavelength_witness :
  exists r,
    calc_max_flexural_wavelength (Scalar 1) 2 2 1 3 = Some r /\
    maxFlexuralWavelength r = 2 * PI * Rpower (4 * 1 / (2 * 2)) (1 / 4) /\
    0 < maxFlexuralWavelength r /\
    (IZR (maxFlexuralWavelength_ncells_x r) - 1) * 1 < maxFlexuralWavelength r
      <= IZR (maxFlexuralWavelength_ncells_x r) * 1 /\
    (IZR (maxFlexuralWavelength_ncells_y r) - 1) * 3 < maxFlexuralWavelength r
      <= IZR (maxFlexuralWavelength_ncells_y r) * 3.
Proof.
  apply (calc_max_flexural_wavelength_covers_the_wavelength 1 2 2 1 3); lra.
Defined.

(** With an array of rigidities that has an element, the wavelength is
    that of its largest element: the result is the result for that
    scalar, and no element of the array exceeds it. *)
Theorem calc_max_flexural_wavelength_uses_the_largest_rigidity a drho g dx dy :
  concat a <> [] ->
  exists m,
    In m (concat a) /\ (forall e, In e (concat a) -> e <= m) /\
    calc_max_flexural_wavelength (Grid a) drho g dx dy
    = calc_max_flexural_wavelength (Scalar m) drho g dx dy.
Proof.
  intros H. destruct (array_max a) as [m|] eqn:Hm.
  - destruct (array_max_spec a m Hm) as [Hin Hub].
    exists m. split; [assumption|]. split; [assumption|].
    unfold calc_max_flexural_wavelength. now rewrite Hm.
  - unfold array_max in Hm. destruct (concat a); [congruence | discriminate].
Qed.

Lemma calc_max_flexural_wavelength_uses_the_largest_rigidity_witness :
  exists m,
    In m (concat [[1; 3]; [2; 0]]) /\
    (forall e, In e (concat [[1; 3]; [2; 0]]) -> e <= m) /\
    calc_max_flexural_wavelength (Grid [[1; 3]; [2; 0]]) 1 1 1 1
    = calc_max_flexural_wavelength (Scalar m) 1 1 1 1.
Proof.
  apply (calc_max_flexural_wavelength_uses_the_largest_rigidity
           [[1; 3]; [2; 0]] 1 1 1 1).
  simpl. discriminate.
Defined.

End FlexuralWavelengthFacts.
